(* ===== verification/_CoqProject ===== *)
-Q . S2P
Prelude.v
Monad.v
CxxMap.v
Stream.v
PersistNode.v
PersistReplay.v
PersistType.v
PersistLog.v
PersistLookup.v
ChannelProps.v
Corba.v
ModelOrb.v
Filter.v
EventQueue.v
QueueRefine.v
Servant.v
Orb.v
OrbLock.v
Proxy.v
ProxyPullConsumer.v
ProxyPushSupplier.v
PushThread.v
ProxyPullSupplier.v
ProxyPushConsumer.v
ClientRecords.v
ManagerRestore.v
SupplierAdmin.v
ConsumerAdmin.v
EventChannel.v
EventChannelFactory.v
ChannelRecord.v
ServerRestart.v
Disk.v
OmniEventsLog.v
Getopt.v
Startup.v
Naming.v
IteratorSupport.v
GCThread.v
Iterator.v
Daemon.v
Service.v
Main.v
Shutdown.v
ChannelSample.v
ObjectFailure.v
Tools.v
EventsTool.v
Samples.v
SampleThreads.v
