(* ===== verification/Prelude.v ===== *)
(** * omniEvents: a verification development

    omniEvents is a CORBA event service.  A server process holds event channels; suppliers give
    events to a channel, by being pulled or by pushing, and the channel hands them to consumers,
    by pushing or by being pulled.  Connections survive a restart of the server, because every
    change of them is appended to a log file from which the next process starts.

    ** The parts of the program, and the files that model them

    An event goes through these objects, all under src/src:

<<
    supplier --> ProxyPullConsumer_i  (is pulled)  \                        (SupplierAdmin.h, .cc)
    supplier --> ProxyPushConsumer_i  (pushes)     -> SupplierAdmin_i::_queue
                 EventChannel_i::mainLoop, each cycle:  collect() --> send(events)
                 ConsumerAdmin_i::_queue, an EventQueue with a Filter       (ConsumerAdmin.h, .cc)
    consumer <-- ProxyPushSupplier_i  (is pushed)  <-  EventQueue::Reader
    consumer <-- ProxyPullSupplier_i  (pulls)      /
>>

    - [Prelude], [Monad], [CxxMap], [Stream]: the language.  C++ control flow is a monad with the
      outcomes [Ret], [Throw], [Exited] (for [::exit]) and [Aborted] (for a failed [assert] or an
      invalid pointer); the state at a throw is kept.  [std::map] is an ordered association list,
      [std::istream] a state machine with its end-of-file and failure bits.  [u32], [i32], [u64]
      wrap integers to their width.
    - [Corba], [ModelOrb]: what is not in the repository.  The ORB, its references, POAs, type
      codes and [Any] are the classes [AnyOps] and [OrbOps] with the laws [OrbLaws]; [ModelOrb]
      is an instance at which the laws hold, and on which the witnesses run.  [world] is the state
      that servants share: the log stream, the requests nobody waits for, the reference counts of
      callbacks, the active objects, the clock, and the requests sent.
    - [PersistNode] (PersistNode.h, .cc), [PersistReplay], [PersistType], [PersistLog],
      [PersistLookup]: the database, a tree of nodes with attributes, its text, and what reading a
      text computes.
    - [Filter] (Filter.h, .cc), [EventQueue] (EventQueue.h, .cc), [QueueRefine]: the circular
      buffer of a channel and its refinement of a list of events.
    - [Servant] (Servant.h, .cc), [Orb] (Orb.h, .cc, Callback.h), [ObjectFailure]
      (reportObjectFailure of Orb.cc): object ids, activation, deferred requests, error reports.
      [OrbLock]: the lock of the deferred requests, and the callback objects behind the counts.
    - [Proxy] (ProxyManager.h, .cc, WriteLock of omniEventsLog.h): what the proxies have in
      common.  A kind of proxy is an instance of the class [ProxyClass]; the managers are written
      and proved against that class.
    - [ProxyPullConsumer], [ProxyPushSupplier], [ProxyPullSupplier], [ProxyPushConsumer]: the four
      kinds, each with its manager, its log record, and its reincarnation from one.
      [PushThread]: the thread of ProxyPushSupplierManager among the threads that wake it.
    - [ClientRecords], [ManagerRestore]: the record of a client, the interface [ProxyLaws] of a kind
      of proxy, and the restoration of a manager from what it wrote, proved against it.
    - [ChannelProps] (EventChannel.h, defaults.h), [SupplierAdmin], [ConsumerAdmin],
      [EventChannel] (EventChannel.h, .cc, Mapper.h), [EventChannelFactory]: the channel, its two
      sides and its thread, and the factory that creates, finds, lists and restores channels.
    - [ChannelRecord], [ServerRestart]: what a channel and the factory write and how that reads
      back, and the restoration of the whole server from it, composed of the laws of the proxies.
    - [Disk], [OmniEventsLog] (omniEventsLog.h, .cc): a directory with links where every call may
      fail and the process may die after any, and on it cold start, warm start and checkpoint.
    - [Getopt] (getopt.cc), [Startup] (main.cc), [Daemon] (daemon_unix.cc), [Service]
      (daemon_windows.cc): the command line, what the server starts from, the life of the process,
      and what takes the place of the latter on Windows.
    - [Main] (main.cc, the worker of omniEventsLog.cc): [main], over the states of all components,
      and the signals.  [Shutdown]: the loop in which it serves, without an end of its own, the
      signals that end it, and what follows.
    - [Naming] (naming.cc), [IteratorSupport], [GCThread] (IteratorSupport.cc), [Iterator]
      (Iterator.h): registration in the naming service, servants that are collected when nobody uses
      them, the thread that collects them, and lists fetched in parts.
    - [EventsTool] (src/tools/events.cc): recording and replaying events.  [Tools]: the other
      clients of src/tools, over a class of what they call ([ClientOps]).  [Samples]
      (src/examples): the four sample clients, over what they call besides ([SampleOps]).
      [SampleThreads]: [main] and the servants' threads in those that the channel calls.
      [ChannelSample] (src/examples/channel.cc): a channel in a program of its own.

    Operations keep their names; where two classes have an operation of the same name, that of
    the later file has a prefix ([pps_] for ProxyPushSupplier_i, [pls_] for ProxyPullSupplier_i,
    [pc_] for ProxyPushConsumer_i, [sa_], [ca_], [ec_], [f_] for the factory, [store_] for
    EventChannelStore).  A record of members has the members' names.

    ** What is proved

    - Delivery.  [EventChannel.channel_delivers]: over any number of cycles the events pushed, and
      the answers to the outstanding pulls, reach the queue of the consumers, all, once and in the
      order of the specification [EventChannel.delivered].  [QueueRefine]: under any interleaving a
      reader of the circular buffer sees what it would see in the list of the events that passed
      the filter; what it gets is a function of the commands ([QueueRefine.queue_delivery]): a
      reader that falls a whole lap behind loses exactly whole laps, and one that does not loses
      nothing.  [SupplierAdmin.supplier_collect], [ConsumerAdmin.consumer_send] are the two halves.
      [EventsTool.recording_replayed]: a recording is replayed with its order and its intervals.
    - Protocols.  [ProxyPullConsumer.pull_protocol] and [ProxyPushSupplier.push_protocol] refine
      the proxies to small state machines, whatever the client answers; the [_lifecycle] theorems
      give every branch of connecting and disconnecting, with exceptions and log records.
    - Persistence.  [PersistReplay.parse_total]: reading terminates on every text.
      [PersistLog.parse_output_log]: a snapshot followed by records reads back as the tree with
      the records applied.  [ProxyPushConsumer.push_consumer_recovered],
      [ManagerRestore.manager_restored], [ServerRestart.server_restarted]: what objects write
      restores them, up to the factory with all its channels and their clients.
      [OmniEventsLog.checkpoint_crash_safe], [OmniEventsLog.checkpoint_restart]: no crash
      during a checkpoint loses the database, and a restart after one gives back the channels and
      clients with the records written since.
    - The process and its clients.  [Main.server_starts]: from the options and a database
      to a server with the factory and clients of the database, registered, and the parent told;
      [Main.program_told]: the parent is told once, however [main] ends.  [Shutdown.server_stops]:
      it serves until SIGINT or SIGTERM comes, and then ends with everything released and closed,
      unless a client never answers an outstanding request or the deletion of a callback object
      waits for the lock that its own thread holds: then, and only then, it hangs.
      [Startup.load_state_spec], [Getopt.getopt_reference], [Naming.bind_registers];
      [Service.options_kept] and [Service.status_reported] for Windows.  [Samples.pushsupp_sends]:
      a sample keeps to the protocol of a proxy whatever calls fail, over a server that behaves as
      ProxyPushConsumer.cc, and [SampleThreads.samples_reconnect] counts how often the samples
      that are called disconnect.  [Tools.eventc_channel] goes from the command line
      of a client through the server's [parseCriteria] to the properties of the channel, and
      [Tools.eventl_lists] from the server's list to the output of a client.
    - Memory.  [Orb.run_releases] and [IteratorSupport.references_counted] count references:
      nothing is used after it is deleted.  [QueueRefine.queue_memory] bounds a queue.
      [OrbLock.only_cleanup_blocks]: where the deletion of a callback object waits for a lock that
      its own thread has.
    - Errors.  [EventChannelFactory.criteria_refused]: which criteria are refused, with which
      exception, and that all others are accepted.  [EventChannelFactory.create_channel_name_taken],
      and theorems that state what goes wrong where the code does not handle a case ([EventChannel.store_empty_destroys], [EventChannel.destroy_interrupted],
      [ProxyPushConsumer.connection_resurrected], [ProxyPushSupplier.push_failure_after_disconnect],
      [OmniEventsLog.interrupted_commit_loses], [Startup.cold_start_crash] among others).

    ** Fuel and bounds

    Recursion that is not structural carries fuel, and a theorem says that the fuel given is
    enough: [PersistNode.addnode], [PersistNode.delnode] have the length of the name
    ([PersistReplay.addnode_spec], [PersistReplay.delnode_spec]); the reader has three more than the length of the
    text ([PersistReplay.parse_total]); [SupplierAdmin.advance_loop] has a round per period passed
    ([SupplierAdmin.pull_schedule]); [Getopt.getopt_loop] has the length of the command line
    ([Getopt.getopt_reference]); [Naming.str2name_loop] has the length of the text
    ([Naming.str2name_total]); [EventsTool.supply_block] has the length of the buffer and
    [EventsTool.supply_reads] more than the number of reads ([EventsTool.recording_replayed]);
    [Samples.retry] has more than the number of calls that fail ([Samples.pushsupp_sends]).
    The loops that run until the program is stopped are given the list of what happens in their
    turns, or a number of turns; [Shutdown.run_turns] has more turns than come before the signal,
    and answers [None] while there was none ([Shutdown.server_stops]).

    ** Concurrency

    Threads meet at locks, and the model has one step for what happens under a lock: a channel's
    thread holds calls back during a transfer and serves them after it, so calls are a list
    between transfers; the log is written by one record at a time; a checkpoint holds the log's
    lock.  Where steps of several threads interleave there is a relation: [PushThread.step] for the
    thread that pushes and those that pause and wake it ([PushThread.idle_means_done]: while it
    waits, the servants that were there in its last iteration have sent everything; one that was
    connected since waits with it, [PushThread.late_consumer_waits]),
    [IteratorSupport.step] for requests and the collector, [GCThread.gc_step] for the collector and the threads that construct and delete locators ([GCThread.collector_safe]),
    [Service.step] for [main] and the thread of the Windows service manager, and
    [SampleThreads.pc_step] and [SampleThreads.pp_step] for a condition variable and a semaphore.
    [OrbLock] has the one lock a thread can ask for twice.

    ** Not modelled

    Calls whose only effect is on another program or on the text of messages: the trace messages,
    [usage], [version].  The calls of the Windows API themselves, and what files other than
    [daemon_windows.cc] and [gethostname.h] do for Windows, omniORB 3 but for its command line
    ([Startup.orb3_args]), and compilers without a standard library.  The platform's threads,
    mutexes and condition variables (see above), memory exhaustion, the references that a POA keeps
    to its active servants, and the rethrow of omniORB's [fatalException] in [bindName2Object].  [CorbaIterator.h] is not included by any file, and
    includes files that are not in the repository.  The clients and tests in Python and Java. *)

From stdpp Require Export base tactics option list strings numbers gmap.
From Stdlib Require Export ZArith NArith Lia ZifyBool.


Declare Scope omni_scope.
Delimit Scope omni_scope with omni.

(** ** Automation

    [destr] splits the innermost discriminee of a [match] or [if] in the goal or in a
    hypothesis; [cxx] is the closing tactic of the routine cases. *)

Create HintDb omni.

Ltac destr_in_goal :=
  match goal with
  | |- context [match ?e with _ => _ end] =>
      lazymatch e with
      | context [match _ with _ => _ end] => fail
      | _ => destruct e eqn:?
      end
  end.

Ltac destr_in_hyp H :=
  match type of H with
  | context [match ?e with _ => _ end] =>
      lazymatch e with
      | context [match _ with _ => _ end] => fail
      | _ => destruct e eqn:?
      end
  end.

Ltac destr := repeat (destr_in_goal; simplify_eq/=; try done).
Ltac destr_hyp H := repeat (destr_in_hyp H; simplify_eq/=; try done).

Ltac boolify :=
  repeat match goal with
  | H : (_ && _)%bool = true |- _ => apply andb_true_iff in H as [? ?]
  | H : (_ || _)%bool = false |- _ => apply orb_false_iff in H as [? ?]
  | H : negb _ = true |- _ => apply negb_true_iff in H
  | H : negb _ = false |- _ => apply negb_false_iff in H
  | H : (_ =? _)%Z = true |- _ => apply Z.eqb_eq in H
  | H : (_ =? _)%Z = false |- _ => apply Z.eqb_neq in H
  | H : (_ <? _)%Z = true |- _ => apply Z.ltb_lt in H
  | H : (_ <? _)%Z = false |- _ => apply Z.ltb_ge in H
  | H : (_ <=? _)%Z = true |- _ => apply Z.leb_le in H
  | H : (_ <=? _)%Z = false |- _ => apply Z.leb_gt in H
  | H : (_ =? _)%N = true |- _ => apply N.eqb_eq in H
  | H : (_ =? _)%N = false |- _ => apply N.eqb_neq in H
  | H : (_ <=? _)%N = true |- _ => apply N.leb_le in H
  | H : (_ <=? _)%N = false |- _ => apply N.leb_gt in H
  | H : (_ <? _)%N = true |- _ => apply N.ltb_lt in H
  | H : (_ <? _)%N = false |- _ => apply N.ltb_ge in H
  end.

Ltac cxx := intros; simplify_eq/=; boolify; try done; try lia; try congruence; eauto with omni.

(** ** Machine integers

    The build modelled is LP64: [int], [CORBA::ULong] and [CORBA::Long] have 32 bits,
    [long], [unsigned long] and [size_t] 64. *)

Definition wrapU (w z : Z) : Z := z `mod` 2 ^ w.
Definition wrapS (w z : Z) : Z := (z + 2 ^ (w - 1)) `mod` 2 ^ w - 2 ^ (w - 1).

Definition u32 : Z → Z := wrapU 32.
Definition i32 : Z → Z := wrapS 32.
Definition u64 : Z → Z := wrapU 64.
Definition i64 : Z → Z := wrapS 64.

Definition INT_MAX : Z := 2147483647.
Definition LONG_MAX : Z := 9223372036854775807.
Definition LONG_MIN : Z := -9223372036854775808.

Lemma wrapU_range w z : (0 ≤ w)%Z → (0 ≤ wrapU w z < 2 ^ w)%Z.
Proof. intros. apply Z.mod_pos_bound. lia. Qed.

Lemma wrapU_id w z : (0 ≤ z < 2 ^ w)%Z → wrapU w z = z.
Proof. apply Z.mod_small. Qed.

Lemma wrapS_range w z : (1 ≤ w)%Z → (- 2 ^ (w - 1) ≤ wrapS w z < 2 ^ (w - 1))%Z.
Proof.
  intros Hw. unfold wrapS.
  pose proof (Z.mod_pos_bound (z + 2 ^ (w - 1)) (2 ^ w) ltac:(lia)).
  replace (2 ^ w)%Z with (2 * 2 ^ (w - 1))%Z in *; [lia|].
  rewrite <- Z.pow_succ_r; [f_equal; lia | lia].
Qed.

Lemma wrapS_id w z : (1 ≤ w)%Z → (- 2 ^ (w - 1) ≤ z < 2 ^ (w - 1))%Z → wrapS w z = z.
Proof.
  intros Hw Hz. unfold wrapS.
  assert (2 ^ w = 2 * 2 ^ (w - 1))%Z as E.
  { rewrite <- Z.pow_succ_r; [f_equal; lia | lia]. }
  rewrite Z.mod_small; lia.
Qed.

(** Casting to signed and back to unsigned of the same width loses nothing. *)
Lemma wrapU_wrapS w z : (1 ≤ w)%Z → wrapU w (wrapS w z) = wrapU w z.
Proof.
  intros Hw. unfold wrapU, wrapS.
  rewrite Zminus_mod_idemp_l. f_equal. lia.
Qed.

Lemma u32_i32 z : u32 (i32 z) = u32 z.
Proof. by apply wrapU_wrapS. Qed.
Lemma u32_range z : (0 ≤ u32 z < 4294967296)%Z.
Proof. by apply (wrapU_range 32). Qed.
Lemma i32_range z : (-2147483648 ≤ i32 z < 2147483648)%Z.
Proof. by apply (wrapS_range 32). Qed.
Lemma u32_id z : (0 ≤ z < 4294967296)%Z → u32 z = z.
Proof. apply (wrapU_id 32). Qed.
Lemma i32_id z : (-2147483648 ≤ z < 2147483648)%Z → i32 z = z.
Proof. by apply (wrapS_id 32). Qed.
Lemma u64_id z : (0 ≤ z < 18446744073709551616)%Z → u64 z = z.
Proof. apply (wrapU_id 64). Qed.
Lemma u64_range z : (0 ≤ u64 z < 18446744073709551616)%Z.
Proof. by apply (wrapU_range 64). Qed.
Lemma i64_id z : (-9223372036854775808 ≤ z < 9223372036854775808)%Z → i64 z = z.
Proof. by apply (wrapS_id 64). Qed.

#[global] Create Rewrite HintDb omni_rw.
#[export] Hint Rewrite u32_i32 : omni_rw.
#[export] Hint Resolve u32_range i32_range u64_range : omni.

(** ** Lists *)

Lemma NoDup_map_inj {A B} (f : A → B) l x y : NoDup (map f l) → x ∈ l → y ∈ l → f x = f y → x = y.
Proof.
  intros Hn [i Hi]%list_elem_of_lookup [j Hj]%list_elem_of_lookup E.
  assert (Hf : ∀ k z, l !! k = Some z → map f l !! k = Some (f z)).
  { intros k z Hk. rewrite list_lookup_fmap. by rewrite Hk. }
  assert (i = j) as -> by (eapply NoDup_lookup; [exact Hn|by apply Hf|rewrite E; by apply Hf]).
  congruence.
Qed.

Lemma Forall_exists_Forall2 {A B} (R : A → B → Prop) l :
  Forall (λ x, ∃ y, R x y) l → ∃ l', Forall2 R l l'.
Proof. induction 1 as [|x l [y Hy] _ [l' IH]]; [by exists []|]. exists (y :: l'). by constructor. Qed.
