(* ===== verification/Monad.v ===== *)
(** * Monad: C++ control flow

    A C++ member function is a computation over the state of the objects it can reach.  It
    returns, throws, calls [::exit], or fails an [assert].  Throwing does not roll back the
    state: the state of the moment of the throw is part of the outcome. *)

From S2P Require Import Prelude.

Inductive outcome (E S A : Type) : Type :=
| Ret (a : A) (s : S)
| Throw (e : E) (s : S)
| Exited (code : Z) (s : S)
| Aborted (s : S).
Arguments Ret {E S A} a s.
Arguments Throw {E S A} e s.
Arguments Exited {E S A} code s.
Arguments Aborted {E S A} s.

Definition M (E S A : Type) : Type := S → outcome E S A.

#[export] Instance M_ret E S : MRet (M E S) := λ A a s, Ret a s.

#[export] Instance M_bind E S : MBind (M E S) := λ A B f m s,
  match m s with
  | Ret a s' => f a s'
  | Throw e s' => Throw e s'
  | Exited c s' => Exited c s'
  | Aborted s' => Aborted s'
  end.

Section combinators.
Context {E S : Type}.

Definition get : M E S S := λ s, Ret s s.
Definition put (s : S) : M E S unit := λ _, Ret tt s.
Definition modify (f : S → S) : M E S unit := λ s, Ret tt (f s).
Definition gets {A} (f : S → A) : M E S A := λ s, Ret (f s) s.
Definition throw {A} (e : E) : M E S A := λ s, Throw e s.
Definition exit {A} (code : Z) : M E S A := λ s, Exited code s.
Definition abort {A} : M E S A := λ s, Aborted s.
Definition assert (b : bool) : M E S unit := λ s, if b then Ret tt s else Aborted s.
Definition when (b : bool) (m : M E S unit) : M E S unit := if b then m else mret tt.

(** [try { m } catch(...) { h }]: the handler runs in the state of the throw; it returns
    [None] for an exception no [catch] clause matches, which propagates. *)
Definition try_catch {A} (m : M E S A) (h : E → option (M E S A)) : M E S A := λ s,
  match m s with
  | Throw e s' => match h e with Some k => k s' | None => Throw e s' end
  | o => o
  end.

(** A [for] loop over a snapshot of a container's elements. *)
Fixpoint for_each {A} (l : list A) (body : A → M E S unit) : M E S unit :=
  match l with
  | [] => mret tt
  | x :: l' => _ ← body x; for_each l' body
  end.

(** Run a method of a member object: the member's state is focused. *)
Definition zoom {T A} (prj : T → S) (upd : S → T → T) (m : M E S A) : M E T A := λ t,
  match m (prj t) with
  | Ret a s => Ret a (upd s t)
  | Throw e s => Throw e (upd s t)
  | Exited c s => Exited c (upd s t)
  | Aborted s => Aborted (upd s t)
  end.

Definition final {A} (o : outcome E S A) : S :=
  match o with Ret _ s | Throw _ s | Exited _ s | Aborted s => s end.

Definition returned {A} (o : outcome E S A) : option A :=
  match o with Ret a _ => Some a | _ => None end.

Lemma bind_ret {A B} (a : A) (f : A → M E S B) s : (x ← mret a; f x) s = f a s.
Proof. done. Qed.

Lemma bind_assoc {A B C} (m : M E S A) (f : A → M E S B) (g : B → M E S C) s :
  (y ← (x ← m; f x); g y) s = (x ← m; y ← f x; g y) s.
Proof. unfold mbind, M_bind. by destruct (m s). Qed.

(** An invariant that every iteration keeps, the iteration that throws included, holds in
    the final state of the loop. *)
Lemma for_each_inv {A} (P : S → Prop) (l : list A) (body : A → M E S unit) s :
  (∀ x s, x ∈ l → P s → P (final (body x s))) →
  P s → P (final (for_each l body s)).
Proof.
  revert s. induction l as [|x l IH]; intros s Hb HP; [done|]. simpl.
  unfold mbind, M_bind.
  assert (Hx : P (final (body x s))) by (apply Hb; [left|done]).
  destruct (body x s) as [[] s'|e s'|c s'|s'] eqn:Eb; simpl in *; try done.
  apply IH; [|done]. intros y s2 Hy. apply Hb. by right.
Qed.

Lemma for_each_app {A} (l1 l2 : list A) (body : A → M E S unit) s :
  for_each (l1 ++ l2) body s = (_ ← for_each l1 body; for_each l2 body) s.
Proof.
  revert s. induction l1 as [|x l1 IH]; intros s; [done|]. simpl.
  unfold mbind, M_bind. destruct (body x s) as [[] s'|?|?|?]; (done || apply IH).
Qed.
End combinators.

(** A computation whose first part is known. *)
Lemma bind_Ret {E S A B} (m : M E S A) (f : A → M E S B) s a s' :
  m s = Ret a s' → mbind f m s = f a s'.
Proof. unfold mbind, M_bind. by intros ->. Qed.
Lemma bind_cases {E S A B} (m : M E S A) (f : A → M E S B) s :
  mbind f m s = match m s with
                | Ret a s' => f a s' | Throw e s' => Throw e s'
                | Exited c s' => Exited c s' | Aborted s' => Aborted s'
                end.
Proof. done. Qed.
Lemma bind_inv {E S A B} (m : M E S A) (f : A → M E S B) s b s' :
  mbind f m s = Ret b s' → ∃ a s1, m s = Ret a s1 ∧ f a s1 = Ret b s'.
Proof. unfold mbind, M_bind. destruct (m s) as [a s1| | |]; [|done..]. by exists a, s1. Qed.
Lemma bind_Throw {E S A B} (m : M E S A) (f : A → M E S B) s e s' :
  m s = Throw e s' → mbind f m s = Throw e s'.
Proof. unfold mbind, M_bind. by intros ->. Qed.
Lemma try_catch_Ret {E S A} (m : M E S A) h s a s' : m s = Ret a s' → try_catch m h s = Ret a s'.
Proof. unfold try_catch. by intros ->. Qed.

(** ** Postconditions

    A computation returns, and its result and its final state satisfy [Q]. *)

Section yields.
Context {E S : Type}.

Definition yields {A} (m : M E S A) (s : S) (Q : A → S → Prop) : Prop :=
  match m s with Ret a s' => Q a s' | _ => False end.

Lemma yields_ret {A} (a : A) s (Q : A → S → Prop) : Q a s → yields (mret a) s Q.
Proof. done. Qed.

Lemma yields_bind {A B} (m : M E S A) (f : A → M E S B) s Q :
  yields m s (λ a s', yields (f a) s' Q) → yields (mbind f m) s Q.
Proof. unfold yields, mbind, M_bind. by destruct (m s). Qed.

Lemma yields_mono {A} (m : M E S A) s (Q Q' : A → S → Prop) :
  yields m s Q → (∀ a s', Q a s' → Q' a s') → yields m s Q'.
Proof. unfold yields. destruct (m s); auto. Qed.

Lemma yields_Ret {A} (m : M E S A) s (Q : A → S → Prop) :
  yields m s Q ↔ ∃ a s', m s = Ret a s' ∧ Q a s'.
Proof.
  unfold yields. split; [|by intros (a & s' & -> & ?)]. destruct (m s) as [a s'| | |]; [|done..].
  intros HQ. by exists a, s'.
Qed.

(** A method of a member object. *)
Lemma yields_zoom {T A} (prj : T → S) (upd : S → T → T) (m : M E S A) t (Q : A → T → Prop) :
  yields m (prj t) (λ a s, Q a (upd s t)) →
  match zoom prj upd m t with Ret a t' => Q a t' | _ => False end.
Proof. unfold yields, zoom. by destruct (m (prj t)). Qed.
End yields.
