(* ===== verification/CxxMap.v ===== *)
(** * CxxMap: [std::map] and [std::set]

    A [std::map<K,V>] iterates in the order of its comparator, and the program's output
    depends on that order, so a map is the list of its bindings, kept sorted by a comparator
    that is a parameter of the container ([KeyOrd]), as in C++.  Two keys are the same key when
    neither is less than the other.  [std::set<T*>] is the same container keyed by address,
    binding each address to the object it points to. *)

From S2P Require Import Prelude.

Class KeyOrd (K : Type) := key_ltb : K → K → bool.

(** What the containers require of a comparator: a strict total order. *)
Class KeyOrdLaws (K : Type) `{KeyOrd K} : Prop := {
  key_ltb_irrefl k : key_ltb k k = false;
  key_ltb_trans k1 k2 k3 : key_ltb k1 k2 = true → key_ltb k2 k3 = true → key_ltb k1 k3 = true;
  key_ltb_total k1 k2 : key_ltb k1 k2 = false → key_ltb k2 k1 = false → k1 = k2 }.

(** [std::less<std::string>] compares bytes as unsigned characters. *)
#[export] Instance string_key_ord : KeyOrd string := λ a b,
  match String.compare a b with Lt => true | _ => false end.

(** [std::less<T*>] compares addresses. *)
#[export] Instance Z_key_ord : KeyOrd Z := Z.ltb.

#[export] Instance Z_key_ord_laws : KeyOrdLaws Z.
Proof. split; unfold key_ltb, Z_key_ord; intros; lia. Qed.

Lemma ascii_compare_eq a b : Ascii.compare a b = Eq ↔ a = b.
Proof.
  split; [apply Ascii.compare_eq_iff|]. intros ->. apply N.compare_refl.
Qed.

Lemma string_compare_refl s : String.compare s s = Eq.
Proof.
  induction s as [|a s IH]; simpl; [done|].
  by rewrite (proj2 (ascii_compare_eq a a) eq_refl).
Qed.

Lemma string_compare_lt_trans s1 s2 s3 :
  String.compare s1 s2 = Lt → String.compare s2 s3 = Lt → String.compare s1 s3 = Lt.
Proof.
  revert s2 s3. induction s1 as [|a s1 IH]; intros [|b s2] [|c s3]; simpl; try done.
  unfold Ascii.compare.
  destruct (N.compare_spec (Ascii.N_of_ascii a) (Ascii.N_of_ascii b)) as [Hab|Hab|Hab]; try done;
    destruct (N.compare_spec (Ascii.N_of_ascii b) (Ascii.N_of_ascii c)) as [Hbc|Hbc|Hbc]; try done;
    destruct (N.compare_spec (Ascii.N_of_ascii a) (Ascii.N_of_ascii c)); try lia; try done.
  apply IH.
Qed.

#[export] Instance string_key_ord_laws : KeyOrdLaws string.
Proof.
  split; unfold key_ltb, string_key_ord.
  - intros k. by rewrite string_compare_refl.
  - intros k1 k2 k3 H1 H2.
    destruct (String.compare k1 k2) eqn:E1; try done.
    destruct (String.compare k2 k3) eqn:E2; try done.
    by rewrite (string_compare_lt_trans _ _ _ E1 E2).
  - intros k1 k2 H1 H2. rewrite String.compare_antisym in H2.
    destruct (String.compare k1 k2) eqn:E; try done.
    by apply String.compare_eq_iff.
Qed.

Section map.
Context {K V : Type} `{KO : KeyOrd K}.
Implicit Types (k : K) (v : V) (m : list (K * V)).

Definition key_eqb k1 k2 : bool := negb (key_ltb k1 k2) && negb (key_ltb k2 k1).

(** [m.find(k)] *)
Fixpoint map_find k m : option V :=
  match m with
  | [] => None
  | (k', v') :: m' => if key_eqb k k' then Some v' else map_find k m'
  end.

(** [m[k]=v] *)
Fixpoint map_put k v m : list (K * V) :=
  match m with
  | [] => [(k, v)]
  | (k', v') :: m' =>
      if key_ltb k k' then (k, v) :: m
      else if key_ltb k' k then (k', v') :: map_put k v m'
      else (k', v) :: m'
  end.

(** [m.erase(k)] *)
Fixpoint map_erase k m : list (K * V) :=
  match m with
  | [] => []
  | (k', v') :: m' => if key_eqb k k' then m' else (k', v') :: map_erase k m'
  end.

(** [m.insert(value_type(k,v))]: an existing binding is kept; [second] of the result says
    whether the insertion took place. *)
Definition map_insert k v m : list (K * V) * bool :=
  match map_find k m with Some _ => (m, false) | None => (map_put k v m, true) end.

Fixpoint keys_above k m : bool :=
  match m with [] => true | (k', _) :: m' => key_ltb k k' && keys_above k m' end.

(** The representation invariant of the container. *)
Fixpoint map_sorted m : bool :=
  match m with [] => true | (k, _) :: m' => keys_above k m' && map_sorted m' end.
End map.

Section map_lemmas.
Context {K : Type} `{KL : KeyOrdLaws K}.

Lemma key_ltb_asym (k1 k2 : K) : key_ltb k1 k2 = true → key_ltb k2 k1 = false.
Proof.
  intros H1. destruct (key_ltb k2 k1) eqn:H2; [|done].
  pose proof (key_ltb_trans _ _ _ H1 H2). by rewrite key_ltb_irrefl in *.
Qed.

Lemma key_eqb_eq (k1 k2 : K) : key_eqb k1 k2 = true ↔ k1 = k2.
Proof.
  unfold key_eqb. split.
  - intros; boolify. by apply key_ltb_total.
  - intros ->. by rewrite key_ltb_irrefl.
Qed.

Lemma key_eqb_refl (k : K) : key_eqb k k = true.
Proof. by apply key_eqb_eq. Qed.

Lemma key_eqb_ne (k1 k2 : K) : key_eqb k1 k2 = false ↔ k1 ≠ k2.
Proof. rewrite <- (key_eqb_eq k1 k2). by destruct (key_eqb k1 k2). Qed.

Lemma key_ltb_ne (k1 k2 : K) : key_ltb k1 k2 = true → k1 ≠ k2.
Proof. intros H1 ->. by rewrite key_ltb_irrefl in H1. Qed.

#[export] Instance key_eq_dec : EqDecision K.
Proof.
  intros k1 k2. destruct (key_eqb k1 k2) eqn:E.
  - left. by apply key_eqb_eq.
  - right. by apply key_eqb_ne.
Defined.

Context {V : Type}.
Implicit Types (k : K) (v : V) (m : list (K * V)).

Lemma keys_above_forall k m : keys_above k m = true ↔ Forall (λ p, key_ltb k p.1 = true) m.
Proof.
  induction m as [|[k' v'] m IH]; simpl.
  - by split.
  - rewrite andb_true_iff, IH, Forall_cons. done.
Qed.

Lemma keys_above_trans k k' m :
  key_ltb k k' = true → keys_above k' m = true → keys_above k m = true.
Proof.
  rewrite !keys_above_forall. intros Hk Hf.
  eapply Forall_impl; [exact Hf|]. intros p. by apply key_ltb_trans.
Qed.

Lemma keys_above_find k m : keys_above k m = true → map_find k m = None.
Proof.
  induction m as [|[k' v'] m IH]; simpl; [done|]. intros; boolify.
  rewrite (proj2 (key_eqb_ne k k')); [auto|by apply key_ltb_ne].
Qed.

Lemma map_find_put_eq k v m : map_find k (map_put k v m) = Some v.
Proof.
  induction m as [|[k' v'] m IH]; simpl; [by rewrite key_eqb_refl|].
  destruct (key_ltb k k') eqn:E1; simpl; [by rewrite key_eqb_refl|].
  destruct (key_ltb k' k) eqn:E2; simpl.
  - unfold key_eqb. by rewrite E1, E2.
  - unfold key_eqb. by rewrite E1, E2.
Qed.

Lemma map_find_put_ne k k' v m : k' ≠ k → map_find k' (map_put k v m) = map_find k' m.
Proof.
  intros Hne. apply key_eqb_ne in Hne.
  induction m as [|[k2 v2] m IH]; simpl; [by rewrite Hne|].
  destruct (key_ltb k k2) eqn:E1; simpl; [by rewrite Hne|].
  destruct (key_ltb k2 k) eqn:E2; simpl; [by rewrite IH|].
  rewrite (key_ltb_total _ _ E1 E2) in Hne. by rewrite Hne.
Qed.

Lemma keys_above_put k k' v m :
  key_ltb k k' = true → keys_above k m = true → keys_above k (map_put k' v m) = true.
Proof.
  intros Hk. induction m as [|[k2 v2] m IH]; simpl; [by rewrite Hk|].
  intros; boolify. repeat case_match; simpl; repeat (apply andb_true_iff; split); auto.
Qed.

Lemma map_sorted_put k v m : map_sorted m = true → map_sorted (map_put k v m) = true.
Proof.
  induction m as [|[k' v'] m IH]; simpl; [done|]. intros; boolify.
  destruct (key_ltb k k') eqn:E1; simpl.
  - repeat (apply andb_true_iff; split); eauto using keys_above_trans.
  - destruct (key_ltb k' k) eqn:E2; simpl; apply andb_true_iff; auto using keys_above_put.
Qed.

Lemma keys_above_erase k k' m : keys_above k m = true → keys_above k (map_erase k' m) = true.
Proof.
  induction m as [|[k2 v2] m IH]; simpl; [done|]. intros; boolify.
  case_match; simpl; [done|]. apply andb_true_iff; auto.
Qed.

Lemma map_sorted_erase k m : map_sorted m = true → map_sorted (map_erase k m) = true.
Proof.
  induction m as [|[k' v'] m IH]; simpl; [done|]. intros; boolify.
  case_match; simpl; [done|]. apply andb_true_iff; auto using keys_above_erase.
Qed.

Lemma map_find_erase_eq k m : map_sorted m = true → map_find k (map_erase k m) = None.
Proof.
  induction m as [|[k' v'] m IH]; simpl; [done|]. intros; boolify.
  destruct (key_eqb k k') eqn:E; simpl.
  - apply key_eqb_eq in E as ->. by apply keys_above_find.
  - rewrite E. auto.
Qed.

Lemma map_find_erase_ne k k' m : k' ≠ k → map_find k' (map_erase k m) = map_find k' m.
Proof.
  intros Hne. induction m as [|[k2 v2] m IH]; simpl; [done|].
  destruct (key_eqb k k2) eqn:E; simpl.
  - apply key_eqb_eq in E as ->. by rewrite (proj2 (key_eqb_ne k' k2)).
  - by rewrite IH.
Qed.

Lemma map_find_cons_above k k' v m :
  keys_above k' m = true → map_find k ((k', v) :: m) = None → map_find k m = None.
Proof. simpl. by case_match. Qed.

(** Sorted maps are canonical: equal lookups make equal lists. *)
Lemma map_sorted_ext m1 m2 :
  map_sorted m1 = true → map_sorted m2 = true →
  (∀ k, map_find k m1 = map_find k m2) → m1 = m2.
Proof.
  revert m2. induction m1 as [|[k1 v1] m1 IH]; intros [|[k2 v2] m2]; simpl; intros S1 S2 Hf.
  - done.
  - specialize (Hf k2). by rewrite key_eqb_refl in Hf.
  - specialize (Hf k1). by rewrite key_eqb_refl in Hf.
  - boolify.
    assert (k1 = k2) as ->.
    { destruct (key_ltb k1 k2) eqn:E1.
      { pose proof (Hf k1) as Hk. rewrite key_eqb_refl in Hk.
        rewrite (proj2 (key_eqb_ne _ _)) in Hk by eauto using key_ltb_ne.
        rewrite keys_above_find in Hk by eauto using keys_above_trans. done. }
      destruct (key_ltb k2 k1) eqn:E2.
      { pose proof (Hf k2) as Hk. rewrite key_eqb_refl in Hk.
        rewrite (proj2 (key_eqb_ne _ _)) in Hk by eauto using key_ltb_ne.
        rewrite keys_above_find in Hk by eauto using keys_above_trans. done. }
      by apply key_ltb_total. }
    assert (v1 = v2) as ->.
    { specialize (Hf k2). rewrite !key_eqb_refl in Hf. congruence. }
    f_equal. apply IH; [done..|]. intros k.
    destruct (decide (k = k2)) as [->|Hne].
    + by rewrite !keys_above_find.
    + specialize (Hf k). by rewrite !(proj2 (key_eqb_ne k k2)) in Hf.
Qed.

Lemma map_put_put k v v' m : map_put k v (map_put k v' m) = map_put k v m.
Proof.
  induction m as [|[k' w] m IH]; simpl; [by rewrite key_ltb_irrefl|].
  destruct (key_ltb k k') eqn:E1; simpl; [by rewrite key_ltb_irrefl|].
  destruct (key_ltb k' k) eqn:E2; simpl; rewrite E1, E2; [by rewrite IH|done].
Qed.

Lemma map_erase_id k m : map_find k m = None → map_erase k m = m.
Proof.
  induction m as [|[k' w] m IH]; simpl; [done|]. case_match; [done|].
  intros. by rewrite IH.
Qed.

Lemma map_erase_put k v m : map_find k m = None → map_erase k (map_put k v m) = m.
Proof.
  induction m as [|[k' w] m IH]; simpl; [by rewrite key_eqb_refl|].
  destruct (key_eqb k k') eqn:E; [done|]. intros Hf.
  destruct (key_ltb k k') eqn:E1; simpl; [by rewrite key_eqb_refl|].
  destruct (key_ltb k' k) eqn:E2; simpl; [by rewrite E, IH|].
  unfold key_eqb in E. by rewrite E1, E2 in E.
Qed.

(** Inserting bindings in increasing order appends them. *)
Lemma map_put_last k v m :
  Forall (λ p, key_ltb p.1 k = true) m → map_put k v m = m ++ [(k, v)].
Proof.
  induction 1 as [|[k' w] m Hk _ IH]; simpl in *; [done|].
  rewrite (key_ltb_asym _ _ Hk), Hk. by rewrite IH.
Qed.

Lemma map_sorted_before l1 k v l2 :
  map_sorted (l1 ++ (k, v) :: l2) = true → Forall (λ p, key_ltb p.1 k = true) l1.
Proof.
  induction l1 as [|[k' v'] l1 IH]; simpl; [done|]. intros; boolify.
  match goal with H : keys_above _ _ = true |- _ => apply keys_above_forall in H; rename H into Ha end.
  constructor; [|auto]. apply Forall_app in Ha as [_ Ha]. by inversion Ha.
Qed.

(** Reading a container's bindings back in order rebuilds it. *)
Lemma map_put_all l1 l2 :
  map_sorted (l1 ++ l2) = true → foldl (λ m p, map_put p.1 p.2 m) l1 l2 = l1 ++ l2.
Proof.
  revert l1. induction l2 as [|[k v] l2 IH]; intros l1 Hs; simpl; [by rewrite app_nil_r|].
  rewrite map_put_last by (by eapply map_sorted_before).
  rewrite IH; by rewrite <- app_assoc.
Qed.

Lemma map_find_app_r k m1 m2 :
  Forall (λ p, key_ltb p.1 k = true) m1 → map_find k (m1 ++ m2) = map_find k m2.
Proof.
  induction 1 as [|[k' w] m Hk _ IH]; simpl in *; [done|].
  rewrite (proj2 (key_eqb_ne k k')); [done|]. intros ->. by rewrite key_ltb_irrefl in Hk.
Qed.

Lemma map_find_elem k v m : map_find k m = Some v → (k, v) ∈ m.
Proof.
  induction m as [|[k' w] m IH]; simpl; [done|].
  destruct (key_eqb k k') eqn:E; intros H1.
  - apply key_eqb_eq in E as ->. simplify_eq. left.
  - right. auto.
Qed.

Lemma map_elem_find k v m : map_sorted m = true → (k, v) ∈ m → map_find k m = Some v.
Proof.
  induction m as [|[k' w] m IH]; simpl; [by rewrite elem_of_nil|].
  intros Hs [[= -> ->]|Hin]%elem_of_cons; boolify; [by rewrite key_eqb_refl|].
  rewrite (proj2 (key_eqb_ne k k')); [auto|]. intros ->.
  match goal with Ha : keys_above _ _ = true |- _ =>
    apply keys_above_forall in Ha; rewrite Forall_forall in Ha; apply Ha in Hin end.
  by rewrite key_ltb_irrefl in Hin.
Qed.

Lemma map_sorted_nodup m : map_sorted m = true → NoDup m.*1.
Proof.
  induction m as [|[k v] m IH]; cbn [map_sorted fmap list_fmap fst]; [constructor|]. intros; boolify.
  constructor; [|by apply IH]. intros ([k' v'] & -> & Hin)%list_elem_of_fmap.
  match goal with Ha : keys_above _ _ = true |- _ => apply keys_above_forall in Ha;
    pose proof (proj1 (Forall_forall _ _) Ha _ Hin) as Hlt end.
  by apply key_ltb_ne in Hlt.
Qed.

(** A map whose entries are those of a list of things with different names, in some order. *)
Lemma map_permutation {B} (name : B → K) (R : V → B → Prop) m (l : list B) :
  map_sorted m = true → NoDup (map name l) →
  (∀ k v, map_find k m = Some v → ∃ b, b ∈ l ∧ name b = k ∧ R v b) →
  (∀ b, b ∈ l → is_Some (map_find (name b) m)) →
  ∃ srt, srt ≡ₚ l ∧ Forall2 (λ e b, e.1 = name b ∧ R e.2 b) m srt.
Proof.
  intros Hs Hn Hto Hfrom.
  assert (Hsrt : ∃ srt, Forall2 (λ e b, b ∈ l ∧ e.1 = name b ∧ R e.2 b) m srt).
  { apply Forall_exists_Forall2. apply Forall_forall. intros [k v] Hin. apply map_elem_find in Hin; [|done].
    destruct (Hto k v Hin) as (b & ? & <- & ?). by exists b. }
  destruct Hsrt as (srt & Hsrt). exists srt. split; [|by eapply Forall2_impl; [exact Hsrt|]; intros e b (_ & Heb)].
  assert (Hnames : map name srt = m.*1).
  { clear -Hsrt. induction Hsrt as [|e b m srt (_ & E & _) _ IH]; [done|]. cbn. by rewrite E, IH. }
  apply NoDup_Permutation.
  - apply (NoDup_fmap_1 name). change (NoDup (map name srt)). rewrite Hnames. by apply map_sorted_nodup.
  - by apply (NoDup_fmap_1 name).
  - intros b. split.
    + intros [i Hi]%list_elem_of_lookup. by destruct (Forall2_lookup_r _ _ _ _ _ Hsrt Hi) as (? & _ & ? & _).
    + intros Hb. destruct (Hfrom b Hb) as (v & [i Hi]%map_find_elem%list_elem_of_lookup).
      destruct (Forall2_lookup_l _ _ _ _ _ Hsrt Hi) as (b' & Hi' & Hb' & Hnm & _).
      rewrite (NoDup_map_inj name l b b' Hn Hb Hb' Hnm). by eapply list_elem_of_lookup_2.
Qed.

Lemma map_put_length k v m : map_find k m = None → length (map_put k v m) = S (length m).
Proof.
  induction m as [|[k' v'] m IH]; cbn [map_put map_find]; [done|].
  destruct (key_eqb k k') eqn:E; [done|]. intros Hf. unfold key_eqb in E.
  destruct (key_ltb k k'); [done|]. destruct (key_ltb k' k); [|done]. cbn [length]. by rewrite IH.
Qed.

Lemma map_put_elem_inv k v k' v' m :
  (k', v') ∈ map_put k v m → (k', v') = (k, v) ∨ (k', v') ∈ m.
Proof.
  induction m as [|[k2 v2] m IH]; simpl.
  - rewrite list_elem_of_singleton. auto.
  - destruct (key_ltb k k2) eqn:E1; [rewrite elem_of_cons; tauto|].
    destruct (key_ltb k2 k) eqn:E2; rewrite !elem_of_cons.
    + tauto.
    + rewrite (key_ltb_total _ _ E1 E2). tauto.
Qed.

Lemma map_erase_elem_inv k p m : p ∈ map_erase k m → p ∈ m.
Proof.
  induction m as [|[k2 v2] m IH]; simpl; [done|]. case_match; rewrite ?elem_of_cons; tauto.
Qed.
End map_lemmas.

(** Splits a conjunction of boolean facts and keeps the containers sorted. *)
Ltac map_tac :=
  repeat (apply andb_true_iff; split);
  first [done | by apply map_sorted_put | by apply map_sorted_erase | idtac].

(** Applying a function to the values of a container. *)
Section map_vals.
Context {K V W : Type} `{KL : KeyOrdLaws K}.
Implicit Types (k : K) (v : V) (m : list (K * V)).

Definition map_vals (g : V → W) (m : list (K * V)) : list (K * W) := map (λ i, (i.1, g i.2)) m.

Lemma map_vals_find g k m : map_find k (map_vals g m) = g <$> map_find k m.
Proof. induction m as [|[k' v'] m IH]; simpl; [done|]. by destruct (key_eqb k k'). Qed.

Lemma map_vals_put g k v m : map_vals g (map_put k v m) = map_put k (g v) (map_vals g m).
Proof.
  induction m as [|[k' v'] m IH]; simpl; [done|].
  destruct (key_ltb k k'); [done|]. destruct (key_ltb k' k); [|done]. simpl. by rewrite IH.
Qed.

Lemma map_vals_erase g k m : map_vals g (map_erase k m) = map_erase k (map_vals g m).
Proof.
  induction m as [|[k' v'] m IH]; simpl; [done|]. destruct (key_eqb k k'); [done|]. simpl. by rewrite IH.
Qed.

Lemma keys_above_vals g k m : keys_above k (map_vals g m) = keys_above k m.
Proof. induction m as [|[k' v'] m IH]; simpl; [done|]. by rewrite IH. Qed.

Lemma map_vals_sorted g m : map_sorted (map_vals g m) = map_sorted m.
Proof. induction m as [|[k' v'] m IH]; simpl; [done|]. by rewrite keys_above_vals, IH. Qed.

Lemma map_vals_ext g g' m :
  (∀ k v, (k, v) ∈ m → g v = g' v) → map_vals g m = map_vals g' m.
Proof.
  induction m as [|[k v] m IH]; intros Hg; simpl; [done|].
  rewrite (Hg k v) by (by left). f_equal. apply IH. intros k' v' Hin. apply (Hg k'). by right.
Qed.

Lemma map_vals_fst g m : (map_vals g m).*1 = m.*1.
Proof. induction m as [|[k v] m IH]; simpl; [done|]. by f_equal. Qed.
End map_vals.
