(* ===== verification/Stream.v ===== *)
(** * Stream: characters, number formatting and [std::istream]

    The parts of the C and C++ standard library the persistency code relies on: [isspace],
    [sprintf("%i")], [sprintf("%lx")], [atol], and formatted extraction from an input stream
    with its [eofbit] and [failbit]. *)

From S2P Require Import Prelude.
From Stdlib Require Export Ascii.

Local Open Scope string_scope.
Local Open Scope nat_scope.

Abbreviation char := Ascii.ascii.

Definition char_code (c : char) : N := Ascii.N_of_ascii c.

Definition ceqb (a b : char) : bool := Ascii.eqb a b.

Lemma ceqb_eq a b : ceqb a b = true ↔ a = b.
Proof. apply Ascii.eqb_eq. Qed.
Lemma ceqb_refl a : ceqb a a = true.
Proof. apply Ascii.eqb_refl. Qed.

(** [isspace] of the classic locale: tab, newline, vertical tab, form feed, return, space. *)
Definition is_space (c : char) : bool :=
  let n := char_code c in ((9 <=? n) && (n <=? 13) || (n =? 32))%N.

Definition NL : char := "010"%char.
Definition nl : string := String NL "".

(** ** Strings *)

Fixpoint str_forall (p : char → bool) (s : string) : bool :=
  match s with "" => true | String c s' => p c && str_forall p s' end.

(** [s.find(c)] followed by [substr(0,pos)] and [substr(pos+1)]: the part before the first
    [c], and the part after it when there is one ([None] for [npos]). *)
Fixpoint split_at (c : char) (s : string) : string * option string :=
  match s with
  | "" => ("", None)
  | String d s' =>
      if ceqb d c then ("", Some s')
      else let (h, t) := split_at c s' in (String d h, t)
  end.

Definition head_is (c : char) (s : string) : bool :=
  match s with String d _ => ceqb d c | "" => false end.

Definition str_empty (s : string) : bool := match s with "" => true | _ => false end.

Definition not_char (c : char) (d : char) : bool := negb (ceqb d c).

Lemma str_app_cons c (s t : string) : String c s +:+ t = String c (s +:+ t).
Proof. done. Qed.

Lemma str_app_nil_l (s : string) : "" +:+ s = s.
Proof. done. Qed.

#[global] Create Rewrite HintDb str_rw.
#[export] Hint Rewrite str_app_nil_l str_app_cons : str_rw.

Ltac str_simp := repeat (simpl; autorewrite with str_rw).

Lemma str_forall_app p s t : str_forall p (s +:+ t) = str_forall p s && str_forall p t.
Proof. induction s as [|c s IH]; str_simp; [done|]. by rewrite IH, andb_assoc. Qed.

Lemma str_app_nil_r (s : string) : s +:+ "" = s.
Proof. induction s as [|c s IH]; str_simp; [done|]. by rewrite IH. Qed.

Lemma str_app_assoc (s t u : string) : (s +:+ t) +:+ u = s +:+ (t +:+ u).
Proof. induction s as [|c s IH]; str_simp; [done|]. by rewrite IH. Qed.

Lemma str_length_app (s t : string) :
  String.length (s +:+ t) = String.length s + String.length t.
Proof. induction s as [|c s IH]; str_simp; [done|]. by rewrite IH. Qed.

#[export] Hint Rewrite str_app_nil_r str_app_assoc str_forall_app : str_rw.

Lemma split_at_none c s : str_forall (not_char c) s = true → split_at c s = (s, None).
Proof.
  induction s as [|d s IH]; simpl; [done|]. unfold not_char. intros; boolify.
  match goal with H : ceqb _ _ = false |- _ => rewrite H end. by rewrite IH.
Qed.

Lemma split_at_app c s t :
  str_forall (not_char c) s = true → split_at c (s +:+ String c t) = (s, Some t).
Proof.
  induction s as [|d s IH]; simpl; [by rewrite ceqb_refl|]. unfold not_char. intros; boolify.
  match goal with H : ceqb _ _ = false |- _ => rewrite H end. by rewrite IH.
Qed.

Lemma split_at_length c s h t :
  split_at c s = (h, Some t) → S (String.length h + String.length t) = String.length s.
Proof.
  revert h t. induction s as [|d s IH]; simpl; intros h t; [done|].
  case_match; [by intros [= <- <-]|].
  destruct (split_at c s) as [h' t'] eqn:E. intros [= <- ->].
  simpl. by rewrite <- (IH h' t).
Qed.

Lemma split_at_head_free c s h t :
  split_at c s = (h, t) → str_forall (not_char c) h = true.
Proof.
  revert h t. induction s as [|d s IH]; simpl; intros h t; [by intros [= <- <-]|].
  case_match eqn:E1; [by intros [= <- <-]|].
  destruct (split_at c s) as [h' t'] eqn:E. intros [= <- ->].
  simpl. unfold not_char at 1. rewrite E1. simpl. eauto.
Qed.

(** ** Number formatting *)

Definition digit_char (d : N) : char :=
  if (d <? 10)%N then Ascii.ascii_of_N (48 + d) else Ascii.ascii_of_N (87 + d).

Definition char_digit (c : char) : option N :=
  let n := char_code c in
  if ((48 <=? n) && (n <=? 57))%N then Some (n - 48)%N
  else if ((97 <=? n) && (n <=? 102))%N then Some (n - 87)%N
  else None.

(** Digits of [n] in base [b], most significant first, before [acc]. *)
Fixpoint to_digits (fuel : nat) (b n : N) (acc : string) : string :=
  let acc' := String (digit_char (n mod b)) acc in
  if (n <? b)%N then acc'
  else match fuel with O => acc' | S f => to_digits f b (n / b) acc' end.

Definition show_N (b n : N) : string := to_digits (N.size_nat n) b n "".

(** [sprintf("%i",v)] on an [int] argument; [os<<v] prints the same. *)
Definition show_Z (z : Z) : string :=
  match z with
  | Zneg p => String "-" (show_N 10 (Npos p))
  | _ => show_N 10 (Z.to_N z)
  end.

(** [sprintf("%lx",v)] of an unsigned value. *)
Definition show_hex (z : Z) : string := show_N 16 (Z.to_N z).

(** Read digits of base [b] up to the first character that is not one. *)
Fixpoint read_digits (b acc : N) (s : string) : N :=
  match s with
  | "" => acc
  | String c s' =>
      match char_digit c with
      | Some d => if (d <? b)%N then read_digits b (b * acc + d) s' else acc
      | None => acc
      end
  end.

Fixpoint skip_ws (s : string) : string :=
  match s with "" => "" | String c s' => if is_space c then skip_ws s' else s end.

Definition clamp_long (z : Z) : Z := Z.max LONG_MIN (Z.min LONG_MAX z).

(** [atol], that is [strtol(s,NULL,10)]: leading white space, an optional sign, digits; the
    result is clamped to the range of [long]. *)
Definition atol (s : string) : Z :=
  match skip_ws s with
  | String "-" s' => clamp_long (- Z.of_N (read_digits 10 0 s'))
  | String "+" s' => clamp_long (Z.of_N (read_digits 10 0 s'))
  | s' => clamp_long (Z.of_N (read_digits 10 0 s'))
  end.

Lemma char_digit_digit_char d : (d < 16)%N → char_digit (digit_char d) = Some d.
Proof.
  intros Hd. unfold char_digit, digit_char, char_code.
  destruct (N.ltb_spec d 10); rewrite Ascii.N_ascii_embedding by lia.
  - rewrite (proj2 (N.leb_le _ _)), (proj2 (N.leb_le _ _)) by lia. simpl. f_equal. lia.
  - rewrite (proj2 (N.leb_gt (87 + d) 57)) by lia. rewrite andb_false_r.
    rewrite (proj2 (N.leb_le _ _)), (proj2 (N.leb_le _ _)) by lia. simpl. f_equal. lia.
Qed.

Lemma size_nat_div b n : (2 <= b)%N → (b <= n)%N → N.size_nat (n / b) < N.size_nat n.
Proof.
  intros Hb Hn.
  assert (Hdiv : (n / b <= n / 2)%N) by (apply N.div_le_compat_l; lia).
  assert (Hmono : ∀ a c : N, (a <= c)%N → N.size_nat a ≤ N.size_nat c).
  { intros [|pa] [|pc] Hac; simpl; try lia.
    revert pc Hac. induction pa as [pa IH|pa IH|]; intros [pc|pc|] Hac; simpl; try lia.
    all: specialize (IH pc ltac:(lia)); lia. }
  specialize (Hmono _ _ Hdiv).
  enough (N.size_nat (n / 2) < N.size_nat n) by lia.
  rewrite <- N.div2_div. destruct n as [|[p|p|]]; simpl; lia.
Qed.

Definition is_digit_of (b : N) (c : char) : bool :=
  match char_digit c with Some d => (d <? b)%N | None => false end.

Definition stops_digits (b : N) (s : string) : bool :=
  match s with "" => true | String c _ => negb (is_digit_of b c) end.

Lemma read_digits_app b acc s t :
  str_forall (is_digit_of b) s = true →
  read_digits b acc (s +:+ t) = read_digits b (read_digits b acc s) t.
Proof.
  revert acc. induction s as [|c s IH]; intros acc; simpl; [done|]. intros; boolify.
  match goal with H : is_digit_of _ _ = true |- _ => unfold is_digit_of in H end.
  destruct (char_digit c) as [d|]; [|done]. case_match; [by apply IH|done].
Qed.

Lemma read_digits_stops b a t : stops_digits b t = true → read_digits b a t = a.
Proof.
  destruct t as [|c t]; simpl; [done|]. unfold is_digit_of.
  destruct (char_digit c); [|done]. by case_match.
Qed.

Ltac read_digit :=
  str_simp; rewrite char_digit_digit_char by lia; rewrite (proj2 (N.ltb_lt _ _)) by lia.

Lemma is_digit_digit_char b d : (d < b <= 16)%N → is_digit_of b (digit_char d) = true.
Proof. intros Hd. unfold is_digit_of. by read_digit. Qed.

Lemma to_digits_spec fuel b n acc :
  (2 <= b <= 16)%N → N.size_nat n ≤ fuel →
  ∃ ds, to_digits fuel b n acc = ds +:+ acc ∧ str_forall (is_digit_of b) ds = true ∧
        ds ≠ "" ∧ (∀ t, stops_digits b t = true → read_digits b 0 (ds +:+ t) = n).
Proof.
  intros Hb. revert n acc.
  assert (Hsmall : ∀ f n acc, (n < b)%N → ∃ ds, to_digits f b n acc = ds +:+ acc ∧
    str_forall (is_digit_of b) ds = true ∧ ds ≠ "" ∧
    (∀ t, stops_digits b t = true → read_digits b 0 (ds +:+ t) = n)).
  { intros f n acc Hn. exists (String (digit_char n) "").
    destruct f; simpl; rewrite (proj2 (N.ltb_lt n b)), N.mod_small by lia.
    all: rewrite (is_digit_digit_char b n) by lia.
    all: split_and!; try done; intros t Ht; read_digit; rewrite read_digits_stops by done; lia. }
  induction fuel as [|f IH]; intros n acc Hf.
  - apply Hsmall. destruct n as [|[]]; simpl in *; lia.
  - destruct (N.ltb_spec n b) as [Hlt|Hge]; [by apply Hsmall|].
    assert (Hm : (n mod b < b)%N) by (apply N.mod_lt; lia).
    simpl. rewrite (proj2 (N.ltb_ge n b)) by lia.
    destruct (IH (n / b)%N (String (digit_char (n mod b)) acc)) as (ds & E & Hds & Hne & Hr).
    { pose proof (size_nat_div b n ltac:(lia) Hge). lia. }
    exists (ds +:+ String (digit_char (n mod b)) ""). split_and!.
    + rewrite E. by str_simp.
    + str_simp. rewrite Hds. by rewrite is_digit_digit_char by lia.
    + by destruct ds.
    + intros t Ht. rewrite str_app_assoc, read_digits_app by done.
      read_digit. rewrite read_digits_stops by done.
      specialize (Hr "" eq_refl). rewrite str_app_nil_r in Hr. rewrite Hr.
      symmetry. apply N.div_mod'.
Qed.

(** What printing guarantees: nonempty digits that read back. *)
Lemma show_N_spec b n :
  (2 <= b <= 16)%N →
  str_forall (is_digit_of b) (show_N b n) = true ∧ show_N b n ≠ "" ∧
  (∀ t, stops_digits b t = true → read_digits b 0 (show_N b n +:+ t) = n).
Proof.
  intros Hb. destruct (to_digits_spec (N.size_nat n) b n "" Hb ltac:(done)) as (ds & E & H1 & H2 & H3).
  unfold show_N. rewrite E, str_app_nil_r. done.
Qed.

Lemma show_N_inj b n m : (2 <= b <= 16)%N → show_N b n = show_N b m → n = m.
Proof.
  intros Hb E. destruct (show_N_spec b n Hb) as (_ & _ & Hn), (show_N_spec b m Hb) as (_ & _ & Hm).
  specialize (Hn "" eq_refl). specialize (Hm "" eq_refl). congruence.
Qed.

Lemma is_digit_code b c :
  (b <= 16)%N → is_digit_of b c = true →
  (48 <= char_code c <= 57 ∨ 97 <= char_code c <= 102)%N.
Proof.
  unfold is_digit_of, char_digit. intros Hb.
  destruct ((48 <=? char_code c) && (char_code c <=? 57))%N eqn:E1; [intros; lia|].
  destruct ((97 <=? char_code c) && (char_code c <=? 102))%N eqn:E2; [intros; lia|done].
Qed.

Lemma is_digit_not_space b c : (b <= 16)%N → is_digit_of b c = true → is_space c = false.
Proof. intros Hb Hd. apply is_digit_code in Hd; [|done]. unfold is_space. lia. Qed.

Lemma is_digit_not_char b c d :
  (b <= 16)%N → is_digit_of b c = true →
  (char_code d < 48 ∨ 57 < char_code d < 97)%N → ceqb c d = false.
Proof.
  intros Hb Hc Hd. apply is_digit_code in Hc; [|done].
  destruct (ceqb c d) eqn:E; [|done]. apply ceqb_eq in E as ->. lia.
Qed.

Lemma str_forall_impl (p q : char → bool) s :
  (∀ c, p c = true → q c = true) → str_forall p s = true → str_forall q s = true.
Proof.
  intros Hpq. induction s as [|c s IH]; simpl; [done|]. intros; boolify.
  rewrite Hpq by done. auto.
Qed.

Definition no_space (s : string) : bool := str_forall (λ c, negb (is_space c)) s.

Lemma show_N_no_space b n : (2 <= b <= 16)%N → no_space (show_N b n) = true.
Proof.
  intros Hb. eapply str_forall_impl, show_N_spec; [|done]. intros c Hc.
  by rewrite (is_digit_not_space b c) by (done || lia).
Qed.

Lemma show_Z_no_space z : no_space (show_Z z) = true.
Proof. destruct z; [done| |unfold no_space; simpl]; by apply show_N_no_space. Qed.

(** Reading back what was printed gives the number, within the range of [long]. *)
Lemma atol_show_Z z : (LONG_MIN ≤ z ≤ LONG_MAX)%Z → atol (show_Z z) = z.
Proof.
  intros Hz.
  assert (Hpos : ∀ n, (Z.of_N n ≤ LONG_MAX)%Z → atol (show_N 10 n) = Z.of_N n).
  { intros n Hn. destruct (show_N_spec 10 n ltac:(done)) as (Hd & Hne & Hr).
    specialize (Hr "" eq_refl). rewrite str_app_nil_r in Hr.
    unfold atol. destruct (show_N 10 n) as [|c s]; [done|]. simpl skip_ws. simpl in Hd.
    apply andb_true_iff in Hd as [Hc _].
    rewrite (is_digit_not_space 10 c) by done.
    assert (clamp_long (Z.of_N n) = Z.of_N n) as Hcl by (unfold clamp_long; unfold LONG_MIN, LONG_MAX in *; lia).
    apply is_digit_code in Hc; [|done].
    assert (c ≠ "-"%char ∧ c ≠ "+"%char) as [H1 H2].
    { assert (char_code "-" = 45%N ∧ char_code "+" = 43%N) as [] by done.
      split; intros ->; lia. }
    destruct c as [[] [] [] [] [] [] [] []]; try congruence; by rewrite Hr. }
  destruct z as [|p|p]; simpl.
  - done.
  - apply (Hpos (Npos p)). simpl. lia.
  - unfold atol. simpl.
    destruct (show_N_spec 10 (Npos p) ltac:(done)) as (_ & _ & Hr).
    specialize (Hr "" eq_refl). rewrite str_app_nil_r in Hr. rewrite Hr.
    unfold clamp_long, LONG_MIN, LONG_MAX in *. lia.
Qed.

(** ** [std::istream]

    The unread characters and the two state bits.  [badbit] cannot arise from a file that
    opened. *)

Record istream := mkIstream { buf : string; eofbit : bool; failbit : bool }.

Definition open_istream (s : string) : istream := mkIstream s false false.

(** [operator bool], [!fail()]. *)
Definition is_ok (ist : istream) : bool := negb (failbit ist).
Definition good (ist : istream) : bool := negb (eofbit ist) && negb (failbit ist).

(** The sentry of a formatted input function: skips white space; at end of file it sets
    [eofbit] and [failbit] and the extraction does not take place. *)
Definition sentry (ist : istream) : bool * istream :=
  if good ist then
    match skip_ws (buf ist) with
    | "" => (false, mkIstream "" true true)
    | s => (true, mkIstream s false false)
    end
  else (false, mkIstream (buf ist) (eofbit ist) true).

Fixpoint take_word (s : string) : string * string :=
  match s with
  | "" => ("", "")
  | String c s' => if is_space c then ("", s) else let (w, r) := take_word s' in (String c w, r)
  end.

(** [is>>tok]: [tok] is erased only once the sentry has succeeded, so a failed extraction
    leaves the previous token in place. *)
Definition extract_string (ist : istream) (tok : string) : istream * string :=
  let (ok, is1) := sentry ist in
  if ok then
    let (w, r) := take_word (buf is1) in
    (mkIstream r (str_empty r) false, w)
  else (is1, tok).

(** [is.ignore(n,delim)] *)
Fixpoint ignore_buf (n : Z) (delim : char) (s : string) : string * bool :=
  if (n <=? 0)%Z then (s, false)
  else match s with
       | "" => ("", true)
       | String c s' => if ceqb c delim then (s', false) else ignore_buf (n - 1) delim s'
       end.

Definition ignore (ist : istream) (n : Z) (delim : char) : istream :=
  if good ist then
    let (s, e) := ignore_buf n delim (buf ist) in mkIstream s e false
  else mkIstream (buf ist) (eofbit ist) true.

Lemma take_word_length s w r :
  take_word s = (w, r) → String.length w + String.length r = String.length s.
Proof.
  revert w r. induction s as [|c s IH]; simpl; intros w r; [by intros [= <- <-]|].
  case_match; [by intros [= <- <-]|].
  destruct (take_word s) as [w' r'] eqn:E. intros [= <- <-]. simpl. by rewrite (IH _ _ eq_refl).
Qed.

Lemma skip_ws_length s : String.length (skip_ws s) ≤ String.length s.
Proof. induction s as [|c s IH]; simpl; [done|]. case_match; simpl; lia. Qed.

Lemma skip_ws_idem s : skip_ws (skip_ws s) = skip_ws s.
Proof. induction s as [|c s IH]; simpl; [done|]. case_match eqn:E; simpl; by rewrite ?E. Qed.

Lemma ignore_buf_length n d s : String.length (ignore_buf n d s).1 ≤ String.length s.
Proof.
  revert n. induction s as [|c s IH]; intros n; simpl; repeat case_match; simpl; try lia.
  specialize (IH (n - 1)%Z). lia.
Qed.

Lemma no_space_take_word w s :
  no_space w = true → (s = "" ∨ ∃ c s', s = String c s' ∧ is_space c = true) →
  take_word (w +:+ s) = (w, s).
Proof.
  intros Hw Hs. induction w as [|c w IH]; str_simp.
  - destruct Hs as [->|(c & s' & -> & Hc)]; [done|]. simpl. by rewrite Hc.
  - unfold no_space in Hw. simpl in Hw. apply andb_true_iff in Hw as [Hc Hw].
    apply negb_true_iff in Hc. rewrite Hc, IH by done. done.
Qed.
