(* ===== verification/PersistNode.v ===== *)
(** * PersistNode: the persistency database (src/PersistNode.h, src/PersistNode.cc)

    A [PersistNode] is a tree of attributes, read from and written to the log file.  The file is
    a sequence of items: [path k=v ... ;;] adds (or overwrites) the node at [path]; [-path]
    erases it.  So a state change is one appended line, and the tree is the replay of the file.

    The C++ tree is mutable and [readnode] keeps a pointer to the node it is filling; here the
    tree is a value and that pointer is the path of the node. *)

From S2P Require Import Prelude CxxMap Stream.

Local Open Scope string_scope.
Local Open Scope nat_scope.

(** [map<string,PersistNode*> _child; map<string,string> _attr;] *)
#[warnings="-register-all"]
Inductive PersistNode := mkNode {
  _child : list (string * PersistNode);
  _attr : list (string * string) }.

(** [PersistNode(){}] *)
Definition empty_node : PersistNode := mkNode [] [].

(** ** Construction *)

(** [addnode(name)]: the node at [name], emptied if it existed; missing branches are added.
    The second component is the path of the returned node.  [fuel] bounds the number of path
    separators. *)
Fixpoint addnode_fuel (fuel : nat) (name : string) (n : PersistNode)
    : PersistNode * list string :=
  let (h, rest) := split_at "/" name in
  match rest with
  | None => (mkNode (map_put h empty_node (_child n)) (_attr n), [h])
  | Some name' =>
      match fuel with
      | O => (n, [])
      | S f =>
          let newchild := match map_find h (_child n) with Some c => c | None => empty_node end in
          let (c', p) := addnode_fuel f name' newchild in
          (mkNode (map_put h c' (_child n)) (_attr n), h :: p)
      end
  end.

Definition addnode (name : string) (n : PersistNode) : PersistNode * list string :=
  addnode_fuel (String.length name) name n.

(** [delnode(name)] *)
Fixpoint delnode_fuel (fuel : nat) (name : string) (n : PersistNode) : PersistNode :=
  let (h, rest) := split_at "/" name in
  match map_find h (_child n) with
  | None => n
  | Some c =>
      match rest with
      | None => mkNode (map_erase h (_child n)) (_attr n)
      | Some name' =>
          match fuel with
          | O => n
          | S f => mkNode (map_put h (delnode_fuel f name' c) (_child n)) (_attr n)
          end
      end
  end.

Definition delnode (name : string) (n : PersistNode) : PersistNode :=
  delnode_fuel (String.length name) name n.

(** [addattr(keyvalue)] *)
Definition addattr (keyvalue : string) (n : PersistNode) : PersistNode :=
  let (k, v) := split_at "=" keyvalue in
  mkNode (_child n) (map_put k (match v with None => "" | Some v' => v' end) (_attr n)).

(** [addattr(key,long value)]: the value goes through [sprintf("%i")], which reads an [int]. *)
Definition addattr_long (key : string) (value : Z) (n : PersistNode) : PersistNode :=
  mkNode (_child n) (map_put key (show_Z (i32 value)) (_attr n)).

(** ** Accessors *)

Definition hasAttr (key : string) (n : PersistNode) : bool :=
  match map_find key (_attr n) with Some _ => true | None => false end.

Definition attrString (key fallback : string) (n : PersistNode) : string :=
  match map_find key (_attr n) with None => fallback | Some v => v end.

Definition attrLong (key : string) (fallback : Z) (n : PersistNode) : Z :=
  match map_find key (_attr n) with None => fallback | Some v => atol v end.

Definition child (key : string) (n : PersistNode) : option PersistNode :=
  map_find key (_child n).

(** ** Output *)

Definition output_attrs (l : list (string * string)) : string :=
  foldr (λ p acc, " " +:+ p.1 +:+ "=" +:+ p.2 +:+ nl +:+ acc) "" l.

Fixpoint output (name : string) (n : PersistNode) : string :=
  let self := if str_empty name then ""
              else name +:+ nl +:+ output_attrs (_attr n) +:+ " ;;" +:+ nl in
  let name' := if str_empty name then name else name +:+ "/" in
  self +:+
  (fix go (l : list (string * PersistNode)) : string :=
     match l with
     | [] => ""
     | (k, c) :: l' => output (name' +:+ k) c +:+ go l'
     end) (_child n).

(** ** Input *)

(** Update the node that the pointer with path [p] designates. *)
Fixpoint update_at (p : list string) (f : PersistNode → PersistNode) (n : PersistNode)
    : PersistNode :=
  match p with
  | [] => f n
  | h :: p' =>
      match map_find h (_child n) with
      | None => n
      | Some c => mkNode (map_put h (update_at p' f c) (_child n)) (_attr n)
      end
  end.

(** [readtoken(is,tok)]: the next token that is not part of a comment.  [None] when [fuel] is
    exhausted. *)
Fixpoint readtoken (fuel : nat) (ist : istream) (tok : string)
    : option (bool * istream * string) :=
  match fuel with
  | O => None
  | S f =>
      if is_ok ist then
        let (is1, tok1) := extract_string ist tok in
        if str_empty tok1 then Some (false, is1, tok1)
        else if negb (head_is "#" tok1) then Some (true, is1, tok1)
        else readtoken f (ignore is1 INT_MAX NL) tok1
      else Some (false, ist, tok)
  end.

Definition token_fuel (ist : istream) : nat := S (S (S (String.length (buf ist)))).

(** [readnode(is)]: [node] is the path of the node being filled, [None] for [NULL]. *)
Fixpoint readnode_loop (fuel : nat) (ist : istream) (tok : string)
    (node : option (list string)) (root : PersistNode)
    : option (bool * istream * PersistNode) :=
  match fuel with
  | O => None
  | S f =>
      match readtoken (token_fuel ist) ist tok with
      | None => None
      | Some (ok, is1, tok1) =>
          if negb ok || String.eqb tok1 ";;" then Some (bool_decide (is_Some node), is1, root)
          else
            match node with
            | Some p => readnode_loop f is1 tok1 node (update_at p (addattr tok1) root)
            | None =>
                match tok1 with
                | String "-" name => readnode_loop f is1 tok1 None (delnode name root)
                | _ => let (root', p) := addnode tok1 root in
                       readnode_loop f is1 tok1 (Some p) root'
                end
            end
      end
  end.

Definition readnode (ist : istream) (root : PersistNode)
    : option (bool * istream * PersistNode) :=
  readnode_loop (token_fuel ist) ist "" None root.

(** [PersistNode(istream& is)]: [while( readnode(is) ){}] *)
Fixpoint read_all (fuel : nat) (ist : istream) (root : PersistNode) : option PersistNode :=
  match fuel with
  | O => None
  | S f =>
      match readnode ist root with
      | None => None
      | Some (true, is1, root1) => read_all f is1 root1
      | Some (false, _, root1) => Some root1
      end
  end.

Definition parse_stream (ist : istream) : option PersistNode :=
  read_all (token_fuel ist) ist empty_node.

Definition parse (s : string) : option PersistNode := parse_stream (open_istream s).

Example parse_ex :
  output "" <$> parse ("ecf port=11169 ;;" +:+ nl +:+ "ecf/b x=1 ;; # gone" +:+ nl +:+
    "ecf/b/c ;; ecf/a k ;; -ecf/b/c" +:+ nl) =
  Some ("ecf" +:+ nl +:+ " port=11169" +:+ nl +:+ " ;;" +:+ nl +:+
        "ecf/a" +:+ nl +:+ " k=" +:+ nl +:+ " ;;" +:+ nl +:+
        "ecf/b" +:+ nl +:+ " x=1" +:+ nl +:+ " ;;" +:+ nl).
Proof. vm_compute. reflexivity. Qed.

Lemma atol_show_i32 v : atol (show_Z (i32 v)) = i32 v.
Proof. apply atol_show_Z. pose proof (i32_range v). unfold LONG_MIN, LONG_MAX. lia. Qed.

(** A numeric attribute goes through [sprintf("%i")] and [atol]: what is read back is the
    value wrapped to 32 bits (the value itself for an [int]), and no other attribute changes. *)
Theorem attrLong_addattr_long k v d n :
  attrLong k d (addattr_long k v n) = i32 v ∧
  ∀ k' d', k' ≠ k → attrLong k' d' (addattr_long k v n) = attrLong k' d' n.
Proof.
  unfold attrLong, addattr_long. cbn [_attr]. split.
  - rewrite map_find_put_eq. apply atol_show_i32.
  - intros k' d' Hk. by rewrite map_find_put_ne.
Qed.
