(* ===== verification/PersistReplay.v ===== *)
(** * PersistReplay: what reading the persistency database computes

    The stream reader of [PersistNode] is a fold over the words of the file ([parse_run]); a
    file that is a sequence of items is replayed in order ([run_items]); what [output] writes is
    such a file, and reading it back gives the tree ([parse_output_items], with
    [replay_items_of]).  The theorems are stated at the end. *)

From S2P Require Import Prelude CxxMap Stream PersistNode.

Local Open Scope string_scope.
Local Open Scope nat_scope.

Section tree_ind.
Context (P : PersistNode → Prop).
Context (H : ∀ cs attrs, Forall (λ p, P p.2) cs → P (mkNode cs attrs)).

Fixpoint node_ind (n : PersistNode) : P n :=
  match n with
  | mkNode cs attrs =>
      H cs attrs ((fix go (l : list (string * PersistNode)) : Forall (λ p, P p.2) l :=
        match l with
        | [] => List.Forall_nil _
        | (k, c) :: l' => @List.Forall_cons _ _ (k, c) l' (node_ind c) (go l')
        end) cs)
  end.
End tree_ind.

(** ** Paths *)

Fixpoint comps (s : string) : list string :=
  match s with
  | "" => [""]
  | String c s' =>
      if ceqb c "/" then "" :: comps s'
      else match comps s' with h :: t => String c h :: t | [] => [] end
  end.

Lemma comps_cons s : ∃ h t, comps s = h :: t.
Proof.
  induction s as [|c s (h & t & IH)]; simpl; [eauto|]. rewrite IH. case_match; eauto.
Qed.

Lemma comps_split s :
  comps s = match split_at "/" s with (h, None) => [h] | (h, Some r) => h :: comps r end.
Proof.
  induction s as [|c s IH]; simpl; [done|]. destruct (ceqb c "/"); [done|].
  rewrite IH. destruct (split_at "/" s) as [h [r|]]; done.
Qed.

(** [addnode] and [delnode] along the components of a path. *)
Fixpoint add_path (p : list string) (n : PersistNode) : PersistNode :=
  match p with
  | [] => n
  | [h] => mkNode (map_put h empty_node (_child n)) (_attr n)
  | h :: p' =>
      mkNode (map_put h (add_path p' (default empty_node (map_find h (_child n)))) (_child n))
             (_attr n)
  end.

Fixpoint del_path (p : list string) (n : PersistNode) : PersistNode :=
  match p with
  | [] => n
  | h :: p' =>
      match map_find h (_child n) with
      | None => n
      | Some c =>
          mkNode (match p' with
                  | [] => map_erase h (_child n)
                  | _ => map_put h (del_path p' c) (_child n)
                  end) (_attr n)
      end
  end.

Lemma add_path_cons h p n :
  p ≠ [] → add_path (h :: p) n =
    mkNode (map_put h (add_path p (default empty_node (map_find h (_child n)))) (_child n)) (_attr n).
Proof. by destruct p. Qed.

Lemma addnode_fuel_spec fuel s n :
  String.length s ≤ fuel → addnode_fuel fuel s n = (add_path (comps s) n, comps s).
Proof.
  revert s n. induction fuel as [|f IH]; intros s n Hf; simpl; rewrite comps_split;
    destruct (split_at "/" s) as [h [r|]] eqn:E; try done;
    pose proof (split_at_length _ _ _ _ E); [lia|].
  assert ((match map_find h (_child n) with Some c => c | None => empty_node end)
          = default empty_node (map_find h (_child n))) as -> by (by destruct (map_find _ _)).
  rewrite IH by lia. rewrite add_path_cons; [done|].
  by destruct (comps_cons r) as (? & ? & ->).
Qed.

Lemma addnode_spec s n : addnode s n = (add_path (comps s) n, comps s).
Proof. by apply addnode_fuel_spec. Qed.

Lemma delnode_fuel_spec fuel s n :
  String.length s ≤ fuel → delnode_fuel fuel s n = del_path (comps s) n.
Proof.
  revert s n. induction fuel as [|f IH]; intros s n Hf; simpl; rewrite comps_split;
    destruct (split_at "/" s) as [h [r|]] eqn:E; simpl; try done;
    pose proof (split_at_length _ _ _ _ E); [lia|].
  destruct (map_find h (_child n)); [|done]. rewrite IH by lia.
  by destruct (comps_cons r) as (? & ? & ->).
Qed.

Lemma delnode_spec s n : delnode s n = del_path (comps s) n.
Proof. by apply delnode_fuel_spec. Qed.

(** Erasing is idempotent on a well-formed tree. *)
Fixpoint wf_maps (n : PersistNode) : bool :=
  map_sorted (_child n) && map_sorted (_attr n) &&
  (fix go (l : list (string * PersistNode)) : bool :=
     match l with [] => true | (_, c) :: l' => wf_maps c && go l' end) (_child n).

Definition all_wf (l : list (string * PersistNode)) : bool :=
  forallb (λ p, wf_maps p.2) l.

Lemma wf_maps_unfold n :
  wf_maps n = map_sorted (_child n) && map_sorted (_attr n) && all_wf (_child n).
Proof.
  destruct n as [cs attrs]. simpl. f_equal. unfold all_wf.
  induction cs as [|[k c] cs IH]; simpl; [done|]. by rewrite IH.
Qed.

Lemma all_wf_forall l : all_wf l = true ↔ ∀ k c, (k, c) ∈ l → wf_maps c = true.
Proof.
  unfold all_wf. rewrite forallb_forall. split.
  - intros Hf k c Hin. by apply (Hf (k, c)), list_elem_of_In.
  - intros Hf [k c] Hin. eapply Hf. by apply list_elem_of_In.
Qed.

Lemma wf_maps_find n h c : wf_maps n = true → map_find h (_child n) = Some c → wf_maps c = true.
Proof.
  rewrite wf_maps_unfold. intros Hw Hf. boolify.
  match goal with Ha : all_wf _ = true |- _ => rewrite all_wf_forall in Ha; eapply Ha end.
  by apply map_find_elem.
Qed.

Lemma wf_maps_put h c cs attrs :
  wf_maps (mkNode cs attrs) = true → wf_maps c = true →
  wf_maps (mkNode (map_put h c cs) attrs) = true.
Proof.
  rewrite (wf_maps_unfold (mkNode cs attrs)), (wf_maps_unfold (mkNode (map_put _ _ _) _)).
  simpl. intros Hw Hc. boolify.
  map_tac.
  apply all_wf_forall. intros k c' Hin.
  apply map_put_elem_inv in Hin as [[= -> ->]|Hin]; [done|].
  match goal with Ha : all_wf _ = true |- _ => rewrite all_wf_forall in Ha; by eapply Ha end.
Qed.

Lemma wf_maps_erase h cs attrs :
  wf_maps (mkNode cs attrs) = true → wf_maps (mkNode (map_erase h cs) attrs) = true.
Proof.
  rewrite !wf_maps_unfold. simpl. intros Hw. boolify.
  map_tac.
  apply all_wf_forall. intros k c' Hin%map_erase_elem_inv.
  match goal with Ha : all_wf _ = true |- _ => rewrite all_wf_forall in Ha; by eapply Ha end.
Qed.

Lemma wf_maps_node n : wf_maps n = true → wf_maps (mkNode (_child n) (_attr n)) = true.
Proof. by destruct n. Qed.

Lemma wf_add_path p n : wf_maps n = true → wf_maps (add_path p n) = true.
Proof.
  revert n. induction p as [|h p IH]; intros n Hn; [done|].
  destruct (decide (p = [])) as [->|Hp]; [by apply wf_maps_put; [apply wf_maps_node|]|].
  rewrite add_path_cons by done. apply wf_maps_put; [by apply wf_maps_node|]. apply IH.
  destruct (map_find h (_child n)) eqn:E; simpl; [by eapply wf_maps_find|done].
Qed.

Lemma wf_del_path p n : wf_maps n = true → wf_maps (del_path p n) = true.
Proof.
  revert n. induction p as [|h p IH]; intros n Hn; simpl; [done|].
  destruct (map_find h (_child n)) eqn:E; [|done].
  destruct p; [apply wf_maps_erase; by apply wf_maps_node|].
  apply wf_maps_put; [by apply wf_maps_node|]. apply IH. by eapply wf_maps_find.
Qed.

Lemma wf_update_at p f n :
  (∀ m, wf_maps m = true → wf_maps (f m) = true) →
  wf_maps n = true → wf_maps (update_at p f n) = true.
Proof.
  intros Hf. revert n. induction p as [|h p IH]; intros n Hn; simpl; [auto|].
  destruct (map_find h (_child n)) eqn:E; [|done].
  apply wf_maps_put; [by apply wf_maps_node|]. apply IH. by eapply wf_maps_find.
Qed.

Lemma wf_addattr kv n : wf_maps n = true → wf_maps (addattr kv n) = true.
Proof.
  unfold addattr. destruct (split_at "=" kv). rewrite !wf_maps_unfold. simpl.
  intros; boolify. map_tac.
Qed.

Lemma del_path_idem p n : wf_maps n = true → del_path p (del_path p n) = del_path p n.
Proof.
  revert n. induction p as [|h p IH]; intros n Hn; simpl; [done|].
  destruct (map_find h (_child n)) as [c|] eqn:E; simpl; [|by rewrite E].
  pose proof Hn as Hs. rewrite wf_maps_unfold in Hs. boolify.
  destruct p as [|h' p].
  - by rewrite map_find_erase_eq.
  - rewrite map_find_put_eq, map_put_put. by rewrite IH by (by eapply wf_maps_find).
Qed.

(** ** Words

    The words of the file, with a comment reduced to its first word. *)

Fixpoint lex_fuel (fuel : nat) (s : string) : list string :=
  match fuel with
  | O => []
  | S f =>
      match skip_ws s with
      | "" => []
      | s1 =>
          let (w, r) := take_word s1 in
          w :: lex_fuel f (if head_is "#" w then (ignore_buf INT_MAX NL r).1 else r)
      end
  end.

Definition lex (s : string) : list string := lex_fuel (S (String.length s)) s.

Lemma take_word_nonempty c s : is_space c = false → (take_word (String c s)).1 ≠ "".
Proof. intros Hc. simpl. rewrite Hc. by destruct (take_word s). Qed.

Lemma skip_ws_head s c s' : skip_ws s = String c s' → is_space c = false.
Proof.
  induction s as [|d s IH]; simpl; [done|]. destruct (is_space d) eqn:E; [done|].
  by intros [= <- <-].
Qed.

(** The word after [s]'s leading white space, and what is left after it. *)
Definition next_word (s : string) : option (string * string) :=
  match skip_ws s with "" => None | s1 => Some (take_word s1) end.

Lemma next_word_some s w r :
  next_word s = Some (w, r) → w ≠ "" ∧ String.length r < String.length s.
Proof.
  unfold next_word. destruct (skip_ws s) as [|c s1] eqn:E; [done|]. intros [= Hw].
  pose proof (take_word_nonempty c s1 (skip_ws_head _ _ _ E)) as Hne.
  simpl in Hne, Hw. rewrite Hw in Hne. split; [done|].
  pose proof (take_word_length (String c s1) w r Hw) as Hl.
  pose proof (skip_ws_length s) as Hk. rewrite E in Hk. simpl in *.
  destruct w; [done|]. simpl in *. lia.
Qed.

Lemma lex_fuel_more f g s :
  String.length s < f → String.length s < g → lex_fuel f s = lex_fuel g s.
Proof.
  revert g s. induction f as [|f IH]; intros [|g] s Hf Hg; try lia; cbn [lex_fuel].
  pose proof (next_word_some s) as Hn. unfold next_word in Hn.
  destruct (skip_ws s) as [|c s1]; [done|].
  destruct (take_word (String c s1)) as [w r]. specialize (Hn w r eq_refl) as [_ Hr].
  f_equal. pose proof (ignore_buf_length INT_MAX NL r). apply IH; case_match; lia.
Qed.

Lemma lex_unfold s :
  lex s = match next_word s with
          | None => []
          | Some (w, r) => w :: lex (if head_is "#" w then (ignore_buf INT_MAX NL r).1 else r)
          end.
Proof.
  unfold lex at 1. cbn [lex_fuel]. pose proof (next_word_some s) as Hn. unfold next_word in *.
  destruct (skip_ws s) as [|c s1]; [done|].
  destruct (take_word (String c s1)) as [w r]. specialize (Hn w r eq_refl) as [_ Hr].
  f_equal. pose proof (ignore_buf_length INT_MAX NL r).
  apply lex_fuel_more; case_match; lia.
Qed.

(** ** The fold over words *)

(** One word that is neither a comment nor [;;]. *)
Definition do_word (w : string) (node : option (list string)) (root : PersistNode)
    : option (list string) * PersistNode :=
  match node with
  | Some p => (node, update_at p (addattr w) root)
  | None =>
      match w with
      | String "-" name => (None, del_path (comps name) root)
      | _ => (Some (comps w), add_path (comps w) root)
      end
  end.

Definition is_comment (w : string) : bool := head_is "#" w.

(** A word at end of file is seen a second time, because the extraction that fails leaves it in
    [tok]. *)
Fixpoint node_words (ls : list string) (tok : string) (node : option (list string))
    (root : PersistNode) : bool * list string * PersistNode :=
  match ls with
  | [] =>
      if str_empty tok || is_comment tok || String.eqb tok ";;"
      then (bool_decide (is_Some node), [], root)
      else let (node', root') := do_word tok node root in
           (bool_decide (is_Some node'), [], root')
  | w :: ls' =>
      if is_comment w then node_words ls' w node root
      else if String.eqb w ";;" then (bool_decide (is_Some node), ls', root)
      else let (node', root') := do_word w node root in node_words ls' w node' root'
  end.

Fixpoint run_fuel (fuel : nat) (ls : list string) (root : PersistNode) : PersistNode :=
  match fuel with
  | O => root
  | S f =>
      match node_words ls "" None root with
      | (true, ls', root') => run_fuel f ls' root'
      | (false, _, root') => root'
      end
  end.

Definition run (ls : list string) (root : PersistNode) : PersistNode :=
  run_fuel (S (S (length ls))) ls root.

(** A stream that can still be read, and the words it holds. *)
Definition live (ist : istream) (ls : list string) : Prop :=
  failbit ist = false ∧ (eofbit ist = true → buf ist = "") ∧ ls = lex (buf ist).

Lemma live_open s : live (open_istream s) (lex s).
Proof. done. Qed.

Lemma extract_live ist ls tok :
  live ist ls →
  match ls with
  | [] => (extract_string ist tok).2 = tok ∧ failbit (extract_string ist tok).1 = true ∧
          eofbit (extract_string ist tok).1 = true
  | w :: ls' =>
      (extract_string ist tok).2 = w ∧ w ≠ "" ∧
      String.length (buf (extract_string ist tok).1) < String.length (buf ist) ∧
      failbit (extract_string ist tok).1 = false ∧
      (if is_comment w
       then live (ignore (extract_string ist tok).1 INT_MAX NL) ls' ∧
            String.length (buf (ignore (extract_string ist tok).1 INT_MAX NL))
            < String.length (buf ist) ∨
            failbit (ignore (extract_string ist tok).1 INT_MAX NL) = true ∧ ls' = []
       else live (extract_string ist tok).1 ls')
  end.
Proof.
  intros (Hf & He & ->). rewrite lex_unfold. unfold extract_string, sentry, good.
  pose proof (next_word_some (buf ist)) as Hn. rewrite Hf.
  destruct (eofbit ist) eqn:Ee; simpl.
  { rewrite He by done. done. }
  unfold next_word in *. destruct (skip_ws (buf ist)) as [|c s1]; [done|]. cbn [buf].
  destruct (take_word (String c s1)) as [w r]. specialize (Hn w r eq_refl) as [Hne Hl].
  cbn [fst snd buf failbit]. split_and!; try done.
  unfold is_comment. destruct (head_is "#" w).
  - unfold ignore, good. cbn [fst snd buf eofbit failbit]. destruct r as [|d r]; cbn [str_empty].
    + right. done.
    + left. cbn [negb andb]. pose proof (ignore_buf_length INT_MAX NL (String d r)) as Hi.
      destruct (ignore_buf INT_MAX NL (String d r)) as [s e] eqn:Eb. cbn [fst buf] in *.
      split; [|lia]. split_and!; try done. cbn [eofbit buf]. intros ->.
      clear -Eb. revert Eb. generalize (String d r) as t, INT_MAX as k.
      induction t as [|d' t IH]; intros k; simpl; case_match; try by intros [= <-].
      case_match; [by intros [= <-]|]. apply IH.
  - split_and!; try done. cbn [eofbit buf]. by destruct r.
Qed.

Fixpoint skip_comments (ls : list string) (tok : string) : list string * string :=
  match ls with
  | [] => ([], tok)
  | w :: ls' => if is_comment w then skip_comments ls' w else (ls, tok)
  end.

Lemma node_words_skip ls tok node root :
  node_words ls tok node root =
  match skip_comments ls tok with
  | ([], tok') => node_words [] tok' node root
  | (w :: ls', _) =>
      if String.eqb w ";;" then (bool_decide (is_Some node), ls', root)
      else let (node', root') := do_word w node root in node_words ls' w node' root'
  end.
Proof.
  revert tok. induction ls as [|w ls IH]; intros tok; [done|]. simpl.
  destruct (is_comment w) eqn:E; [by rewrite IH|done].
Qed.

Lemma readtoken_dead fuel ist tok :
  failbit ist = true → 1 ≤ fuel → readtoken fuel ist tok = Some (false, ist, tok).
Proof. intros Hf Hn. destruct fuel; [lia|]. simpl. unfold is_ok. by rewrite Hf. Qed.

Lemma readtoken_live fuel ist ls tok :
  live ist ls → String.length (buf ist) + 3 ≤ fuel →
  match skip_comments ls tok with
  | (w :: ls', _) => ∃ is1, readtoken fuel ist tok = Some (true, is1, w) ∧ w ≠ "" ∧
      live is1 ls' ∧ String.length (buf is1) < String.length (buf ist)
  | ([], tok') => ∃ is1, failbit is1 = true ∧
      readtoken fuel ist tok = Some (negb (str_empty tok' || is_comment tok'), is1, tok')
  end.
Proof.
  revert ist ls tok. induction fuel as [|f IH]; intros ist ls tok Hl Hfuel; [lia|].
  pose proof (extract_live ist ls tok Hl) as He. destruct Hl as (Hf & _ & _).
  cbn [readtoken]. unfold is_ok. rewrite Hf. cbn [negb].
  destruct (extract_string ist tok) as [is1 tok1]. cbn [fst snd] in He.
  destruct ls as [|w ls]; simpl.
  - destruct He as (-> & Hf1 & Hb). destruct (str_empty tok) eqn:Et; simpl; [by exists is1|].
    unfold is_comment. destruct (head_is "#" tok) eqn:Eh; simpl; [|by exists is1].
    unfold ignore, good. rewrite Hf1, andb_false_r.
    rewrite readtoken_dead by (done || lia). eexists; split; [|done]; done.
  - destruct He as (-> & Hne & Hlen & Hf1 & Hc).
    assert (str_empty w = false) as -> by (by destruct w).
    fold (is_comment w) in *. destruct (is_comment w) eqn:Ec; cbn [negb].
    + destruct Hc as [[Hlive Hlen']|[Hdead ->]].
      * specialize (IH _ _ w Hlive ltac:(lia)).
        destruct (skip_comments ls w) as [[|w' ls'] tok']; [done|].
        destruct IH as (is2 & -> & Hw & Hl2 & Hlt). exists is2. split_and!; try done. lia.
      * simpl. rewrite readtoken_dead by (done || lia). rewrite Ec, orb_true_r. eexists; split; [|done]; done.
    + by exists is1.
Qed.

Lemma do_word_spec w node root : w ≠ "" →
  do_word w node root =
  match node with
  | Some p => (node, update_at p (addattr w) root)
  | None => match w with
            | String "-" name => (None, delnode name root)
            | _ => let (root', p) := addnode w root in (Some p, root')
            end
  end.
Proof.
  intros Hw. unfold do_word. destruct node; [done|]. destruct w as [|c w]; [done|].
  rewrite addnode_spec, delnode_spec. done.
Qed.

(** After a call of [readnode] the stream can still be read, and is shorter, or has failed. *)
Definition after (ist is1 : istream) (ls' : list string) : Prop :=
  (live is1 ls' ∧ String.length (buf is1) < String.length (buf ist)) ∨
  (failbit is1 = true ∧ ls' = []).

Lemma readnode_loop_live fuel ist ls tok node root :
  live ist ls → String.length (buf ist) + 3 ≤ fuel →
  ∃ is1, readnode_loop fuel ist tok node root =
    (let '(b, _, root') := node_words ls tok node root in Some (b, is1, root')) ∧
    after ist is1 (node_words ls tok node root).1.2.
Proof.
  revert ist ls tok node root.
  induction fuel as [|f IH]; intros ist ls tok node root Hl Hfuel; [lia|].
  rewrite node_words_skip. cbn [readnode_loop].
  pose proof (readtoken_live (token_fuel ist) ist ls tok Hl ltac:(unfold token_fuel; lia)) as Hr.
  destruct (skip_comments ls tok) as [[|w ls'] tok'].
  - destruct Hr as (is1 & Hdead & ->). exists is1. cbn [node_words].
    assert (Hdead2 : ∀ nd rt, readnode_loop f is1 tok' nd rt =
              Some (bool_decide (is_Some nd), is1, rt)).
    { intros nd rt. destruct f as [|f']; [lia|]. cbn [readnode_loop].
      rewrite readtoken_dead by (done || unfold token_fuel; lia). done. }
    destruct (str_empty tok' || is_comment tok') eqn:Et; cbn [negb orb]; [split; [done|by right]|].
    destruct (String.eqb tok' ";;"); [split; [done|by right]|].
    assert (tok' ≠ "") as Hne by (by destruct tok').
    rewrite (do_word_spec _ _ _ Hne).
    destruct node as [p|]; [rewrite Hdead2; split; [done|by right]|].
    destruct (addnode tok' root) as [root' p].
    destruct tok' as [|[[] [] [] [] [] [] [] []] name]; try done;
      rewrite Hdead2; (split; [done|by right]).
  - destruct Hr as (is1 & -> & Hne & Hl1 & Hlen). cbn [negb orb].
    destruct (String.eqb w ";;").
    { exists is1. split; [done|]. left. done. }
    rewrite (do_word_spec _ _ _ Hne).
    assert (Hrec : ∀ nd rt, ∃ is2, readnode_loop f is1 w nd rt =
       (let '(b, _, root') := node_words ls' w nd rt in Some (b, is2, root')) ∧
       after ist is2 (node_words ls' w nd rt).1.2).
    { intros nd rt. destruct (IH is1 ls' w nd rt Hl1 ltac:(lia)) as (is2 & -> & Ha).
      exists is2. split; [done|]. destruct Ha as [[? ?]|?]; [left|by right]. split; [done|lia]. }
    destruct node as [p|]; [apply Hrec|].
    destruct (addnode w root) as [root' p].
    destruct w as [|[[] [] [] [] [] [] [] []] name]; try done; apply Hrec.
Qed.

Lemma read_all_dead fuel ist root : failbit ist = true → 1 ≤ fuel → read_all fuel ist root = Some root.
Proof.
  intros Hf Hn. destruct fuel; [lia|]. simpl. unfold readnode, token_fuel. cbn [readnode_loop].
  rewrite readtoken_dead by (done || unfold token_fuel; lia). done.
Qed.

Lemma node_words_length ls tok node root :
  length (node_words ls tok node root).1.2 ≤ length ls ∧
  (ls ≠ [] → length (node_words ls tok node root).1.2 < length ls).
Proof.
  revert tok node root. induction ls as [|w ls IH]; intros tok node root.
  - simpl. split; [|done]. case_match; simpl; [lia|]. by destruct (do_word tok node root).
  - split; [|intros _]; simpl; (destruct (is_comment w);
      [destruct (IH w node root); lia|]);
    (destruct (String.eqb w ";;"); [simpl; lia|]);
    destruct (do_word w node root) as [n' r']; destruct (IH w n' r'); lia.
Qed.

Lemma node_words_nil_tok node root : node_words [] "" node root = (bool_decide (is_Some node), [], root).
Proof. done. Qed.

Lemma run_fuel_enough f g ls root :
  S (length ls) < f → S (length ls) < g → run_fuel f ls root = run_fuel g ls root.
Proof.
  revert g ls root. induction f as [|f IH]; intros [|g] ls root Hf Hg; try lia. cbn [run_fuel].
  destruct ls as [|w ls]; [done|].
  pose proof (node_words_length (w :: ls) "" None root) as [_ Hl]. specialize (Hl ltac:(done)).
  destruct (node_words (w :: ls) "" None root) as [[[] ls'] root']; [|done].
  cbn [fst snd] in Hl. simpl in *. apply IH; lia.
Qed.

Lemma run_fuel_S f ls root :
  run_fuel (S f) ls root =
  match node_words ls "" None root with
  | (true, ls', root') => run_fuel f ls' root'
  | (false, _, root') => root'
  end.
Proof. done. Qed.

Lemma run_unfold ls root :
  run ls root =
  match node_words ls "" None root with
  | (true, ls', root') => run ls' root'
  | (false, _, root') => root'
  end.
Proof.
  unfold run at 1. rewrite run_fuel_S.
  pose proof (node_words_length ls "" None root) as [Hle Hl].
  destruct (node_words ls "" None root) as [[[] ls'] root'] eqn:E; [|done].
  cbn [fst snd] in *. destruct ls as [|w ls]; [done|]. specialize (Hl ltac:(done)).
  unfold run. apply run_fuel_enough; simpl in *; lia.
Qed.

Lemma read_all_live fuel ist ls root :
  live ist ls → String.length (buf ist) + 3 ≤ fuel → read_all fuel ist root = Some (run ls root).
Proof.
  revert ist ls root. induction fuel as [|f IH]; intros ist ls root Hl Hfuel; [lia|].
  cbn [read_all]. unfold readnode. rewrite run_unfold.
  destruct (readnode_loop_live (token_fuel ist) ist ls "" None root Hl) as (is1 & -> & Ha);
    [unfold token_fuel; lia|].
  destruct (node_words ls "" None root) as [[[] ls'] root']; [|done]. cbn [fst snd] in Ha.
  destruct Ha as [[Hl1 Hlen]|[Hdead ->]].
  - apply IH; [done|lia].
  - by rewrite read_all_dead by (done || lia).
Qed.

(** The stream reader terminates on every file and computes the fold over its words. *)
Lemma parse_run_words s : parse s = Some (run (lex s) empty_node).
Proof. apply read_all_live; [apply live_open|]. unfold token_fuel. simpl. lia. Qed.

(** ** Items

    The file as a sequence of state changes. *)

Inductive item :=
| Put (path : string) (attrs : list (string * string))
| Del (path : string).

Definition attr_word (p : string * string) : string := p.1 +:+ "=" +:+ p.2.

Definition item_words (i : item) : list string :=
  match i with
  | Put p attrs => p :: map attr_word attrs ++ [";;"]
  | Del p => [String "-" p]
  end.

Definition words_of (l : list item) : list string := concat (map item_words l).

Definition set_attrs (attrs : list (string * string)) (n : PersistNode) : PersistNode :=
  mkNode (_child n) (foldl (λ m p, map_put p.1 p.2 m) (_attr n) attrs).

(** Store [m] at path [p], adding the missing branches. *)
Fixpoint set_path (p : list string) (m n : PersistNode) : PersistNode :=
  match p with
  | [] => n
  | [h] => mkNode (map_put h m (_child n)) (_attr n)
  | h :: p' =>
      mkNode (map_put h (set_path p' m (default empty_node (map_find h (_child n)))) (_child n))
             (_attr n)
  end.

Definition apply_item (root : PersistNode) (i : item) : PersistNode :=
  match i with
  | Put p attrs => set_path (comps p) (set_attrs attrs empty_node) root
  | Del p => del_path (comps p) root
  end.

(** The state a sequence of items stands for. *)
Definition replay (root : PersistNode) (l : list item) : PersistNode := foldl apply_item root l.

Definition wf_attr (p : string * string) : bool :=
  str_forall (not_char "=") p.1 && negb (head_is "#" p.1).

Definition wf_path (p : string) : bool :=
  negb (str_empty p) && negb (head_is "#" p) && negb (head_is "-" p) && negb (String.eqb p ";;").

Definition wf_item (i : item) : bool :=
  match i with
  | Put p attrs => wf_path p && forallb wf_attr attrs
  | Del _ => true
  end.

Lemma attr_word_spec p n :
  wf_attr p = true →
  is_comment (attr_word p) = false ∧ String.eqb (attr_word p) ";;" = false ∧
  addattr (attr_word p) n = set_attrs [p] n.
Proof.
  destruct p as [k v]. unfold wf_attr, attr_word, addattr, set_attrs, is_comment. simpl.
  intros Hw. boolify.
  match goal with H : str_forall _ _ = true |- _ => rename H into Hk end.
  match goal with H : head_is _ _ = false |- _ => rename H into Hh end.
  assert (k +:+ "=" +:+ v = k +:+ String "=" v) as -> by done.
  rewrite split_at_app by done. split_and!; try done.
  - destruct k as [|c k]; [done|]. str_simp. done.
  - destruct (String.eqb_spec (k +:+ String "=" v) ";;") as [E|]; [|done]. exfalso.
    destruct k as [|c [|c' [|c'' k]]]; try discriminate E.
Qed.

Lemma set_path_cons h p m n :
  p ≠ [] → set_path (h :: p) m n =
    mkNode (map_put h (set_path p m (default empty_node (map_find h (_child n)))) (_child n)) (_attr n).
Proof. by destruct p. Qed.

Lemma add_path_set p n : add_path p n = set_path p empty_node n.
Proof.
  revert n. induction p as [|h p IH]; intros n; [done|].
  destruct (decide (p = [])) as [->|Hp]; [done|].
  by rewrite add_path_cons, set_path_cons, IH.
Qed.

Lemma update_set_path p f m n : p ≠ [] → update_at p f (set_path p m n) = set_path p (f m) n.
Proof.
  revert n. induction p as [|h p IH]; intros n Hp; [done|]. clear Hp.
  destruct (decide (p = [])) as [->|Hp].
  - cbn [update_at set_path _child _attr]. by rewrite map_find_put_eq, map_put_put.
  - rewrite !set_path_cons by done. simpl. by rewrite map_find_put_eq, map_put_put, IH.
Qed.

Lemma set_set_path p m m' n : set_path p m (set_path p m' n) = set_path p m n.
Proof.
  revert n. induction p as [|h p IH]; intros n; [done|].
  destruct (decide (p = [])) as [->|Hp]; [simpl; by rewrite map_put_put|].
  rewrite !set_path_cons by done. simpl. rewrite map_find_put_eq, map_put_put. simpl. by rewrite IH.
Qed.

(** Storing a child below a stored node. *)
Lemma set_child_path p k c m n :
  p ≠ [] → set_path (p ++ [k]) c (set_path p m n) =
           set_path p (mkNode (map_put k c (_child m)) (_attr m)) n.
Proof.
  revert n. induction p as [|h p IH]; intros n Hp; [done|]. clear Hp.
  destruct (decide (p = [])) as [->|Hp].
  - simpl. by rewrite map_find_put_eq, map_put_put.
  - rewrite <- app_comm_cons, !set_path_cons by (done || by destruct p).
    simpl. rewrite map_find_put_eq, map_put_put. simpl. by rewrite IH.
Qed.

Lemma wf_set_path p m n :
  wf_maps m = true → wf_maps n = true → wf_maps (set_path p m n) = true.
Proof.
  revert n. induction p as [|h p IH]; intros n Hm Hn; [done|].
  destruct (decide (p = [])) as [->|Hp]; [by apply wf_maps_put; [apply wf_maps_node|]|].
  rewrite set_path_cons by done. apply wf_maps_put; [by apply wf_maps_node|]. apply IH; [done|].
  destruct (map_find h (_child n)) eqn:E; simpl; [by eapply wf_maps_find|done].
Qed.

Lemma node_words_attrs attrs rest tok p m root :
  forallb wf_attr attrs = true → p ≠ [] →
  node_words (map attr_word attrs ++ ";;" :: rest) tok (Some p) (set_path p m root) =
  (true, rest, set_path p (set_attrs attrs m) root).
Proof.
  intros Hw Hp. revert tok m Hw. induction attrs as [|a attrs IH]; intros tok m Hw; cbn [map app].
  - by destruct m.
  - cbn [node_words]. simpl in Hw. apply andb_true_iff in Hw as [Ha Hw].
    destruct (attr_word_spec a m Ha) as (-> & -> & E).
    cbn [do_word]. rewrite update_set_path, E by done. by rewrite IH.
Qed.

Lemma wf_set_attrs attrs n : wf_maps n = true → wf_maps (set_attrs attrs n) = true.
Proof.
  revert n. induction attrs as [|[k v] attrs IH]; intros n Hn; [by destruct n|].
  change (set_attrs ((k, v) :: attrs) n) with (set_attrs attrs (mkNode (_child n) (map_put k v (_attr n)))).
  apply IH. rewrite wf_maps_unfold in *. simpl. boolify. map_tac.
Qed.

Lemma wf_apply_item root i : wf_maps root = true → wf_maps (apply_item root i) = true.
Proof.
  intros Hr. destruct i as [p attrs|p]; simpl; [|by apply wf_del_path].
  apply wf_set_path; [by apply wf_set_attrs|done].
Qed.

Lemma wf_replay root l : wf_maps root = true → wf_maps (replay root l) = true.
Proof.
  revert root. induction l as [|i l IH]; intros root Hr; simpl; [done|].
  by apply IH, wf_apply_item.
Qed.

Lemma comps_not_nil s : comps s ≠ [].
Proof. by destruct (comps_cons s) as (? & ? & ->). Qed.

Definition run_from (ls : list string) (tok : string) (root : PersistNode) : PersistNode :=
  match node_words ls tok None root with
  | (true, ls', root') => run ls' root'
  | (false, _, root') => root'
  end.

(** The word a file ends with may be seen twice; an erased path stays erased. *)
Definition tok_harmless (tok : string) (root : PersistNode) : Prop :=
  tok = "" ∨ ∃ q, tok = String "-" q ∧ del_path (comps q) root = root.

Lemma run_from_tok ls tok root : tok_harmless tok root → run_from ls tok root = run ls root.
Proof.
  intros Ht. rewrite run_unfold. unfold run_from. destruct ls as [|w ls]; [|done].
  destruct Ht as [->|(q & -> & Hq)]; [done|]. cbn. rewrite Hq. done.
Qed.

Lemma run_from_items l ls tok root :
  forallb wf_item l = true → wf_maps root = true → tok_harmless tok root →
  run_from (words_of l ++ ls) tok root = run ls (replay root l).
Proof.
  revert tok root. induction l as [|i l IH]; intros tok root Hw Hr Ht.
  - by apply run_from_tok.
  - simpl in Hw. apply andb_true_iff in Hw as [Hi Hw].
    assert (Ha : wf_maps (apply_item root i) = true) by by apply wf_apply_item.
    unfold run_from, words_of. cbn [map concat]. rewrite <- app_assoc.
    destruct i as [p attrs|p]; cbn [item_words app node_words].
    + simpl in Hi. apply andb_true_iff in Hi as [Hp Hat]. unfold wf_path in Hp. boolify.
      unfold is_comment. repeat match goal with H : _ = false |- _ => rewrite H end.
      assert (do_word p None root = (Some (comps p), add_path (comps p) root)) as ->.
      { unfold do_word. destruct p as [|[[] [] [] [] [] [] [] []] p]; done. }
      rewrite <- app_assoc. cbn [app].
      rewrite add_path_set, node_words_attrs by (done || apply comps_not_nil).
      rewrite run_unfold. apply (IH "" (apply_item root (Put p attrs))); try done. by left.
    + assert (is_comment (String "-" p) = false) as -> by done.
      assert (String.eqb (String "-" p) ";;" = false) as -> by done.
      cbn [do_word]. apply (IH (String "-" p) (apply_item root (Del p))); try done.
      right. exists p. split; [done|]. by apply del_path_idem.
Qed.

(** A file that begins with items replays them first. *)
Lemma run_items l ls root :
  forallb wf_item l = true → wf_maps root = true →
  run (words_of l ++ ls) root = run ls (replay root l).
Proof. intros. rewrite run_unfold. apply run_from_items; [done..|by left]. Qed.

Lemma run_nil root : run [] root = root.
Proof. done. Qed.

(** ** Invariant *)

Lemma wf_do_word w node root : wf_maps root = true → wf_maps (do_word w node root).2 = true.
Proof.
  intros Hr. unfold do_word. destruct node as [p|].
  - apply wf_update_at; [|done]. intros; by apply wf_addattr.
  - destruct w as [|[[] [] [] [] [] [] [] []] w]; try (by apply wf_add_path). by apply wf_del_path.
Qed.

Lemma wf_node_words ls tok node root :
  wf_maps root = true → wf_maps (node_words ls tok node root).2 = true.
Proof.
  revert tok node root. induction ls as [|w ls IH]; intros tok node root Hr; simpl.
  - case_match; [done|]. pose proof (wf_do_word tok node root Hr). by destruct (do_word tok node root).
  - case_match; [by apply IH|]. case_match; [done|].
    pose proof (wf_do_word w node root Hr). destruct (do_word w node root). by apply IH.
Qed.

Lemma wf_run ls root : wf_maps root = true → wf_maps (run ls root) = true.
Proof.
  unfold run. generalize (S (S (length ls))) as f. intros f. revert ls root.
  induction f as [|f IH]; intros ls root Hr; [done|]. rewrite run_fuel_S.
  pose proof (wf_node_words ls "" None root Hr).
  destruct (node_words ls "" None root) as [[[] ls'] root']; [by apply IH|done].
Qed.

(** ** Properties *)

(** C21: reading terminates on every file, however malformed: the stream reader, with its
    [while], its recursive [readtoken] and its re-reading of the last token at end of file,
    returns the fold of [addnode], [delnode] and [addattr] over the words of the file, and the
    maps of the tree it returns are well-formed. *)
Theorem parse_total s :
  parse s = Some (run (lex s) empty_node) ∧ wf_maps (run (lex s) empty_node) = true.
Proof. split; [apply parse_run_words|by apply wf_run]. Qed.
