(* ===== verification/PersistType.v ===== *)
(** * PersistType: the type of the database (src/PersistNode.cc)

    [std::map] keeps its keys ordered; [addnode] cuts a name at [/] and [addattr] cuts a word at
    [=].  So a name of a node has no [/] and a name of an attribute no [=], at every depth of
    every tree the program can build: [typed_node] is that type, which every operation keeps. *)

From S2P Require Import Prelude CxxMap Stream PersistNode PersistReplay.

Local Open Scope string_scope.

Definition free_of (c : char) (s : string) : Prop := str_forall (not_char c) s = true.

Inductive typed_node : PersistNode → Prop :=
| Typed cs attrs :
    map_sorted cs = true → map_sorted attrs = true →
    (∀ k c, map_find k cs = Some c → free_of "/" k) →
    (∀ k c, map_find k cs = Some c → typed_node c) →
    (∀ k v, map_find k attrs = Some v → free_of "=" k) →
    typed_node (mkNode cs attrs).

Lemma typed_empty : typed_node empty_node.
Proof. by constructor. Qed.

Lemma typed_child n h c : typed_node n → child h n = Some c → free_of "/" h ∧ typed_node c.
Proof. intros [cs attrs _ _ Hk Hc _] E. split; [by eapply Hk|by eapply Hc]. Qed.

Lemma typed_put h c n :
  free_of "/" h → typed_node c → typed_node n → typed_node (mkNode (map_put h c (_child n)) (_attr n)).
Proof.
  intros Hh Hc [cs attrs Hs Ha Hk Hcs Hat]. constructor; cbn [_child _attr]; [by apply map_sorted_put|done| | |done];
    intros k x; (destruct (decide (k = h)) as [->|Hne]; [rewrite map_find_put_eq|rewrite map_find_put_ne by done]).
  - done.
  - apply Hk.
  - by intros [= ->].
  - apply Hcs.
Qed.

Lemma typed_erase h n : typed_node n → typed_node (mkNode (map_erase h (_child n)) (_attr n)).
Proof.
  intros [cs attrs Hs Ha Hk Hcs Hat]. constructor; cbn [_child _attr]; [by apply map_sorted_erase|done| | |done];
    intros k x; (destruct (decide (k = h)) as [->|Hne]; [by rewrite map_find_erase_eq|rewrite map_find_erase_ne by done]).
  - apply Hk.
  - apply Hcs.
Qed.

Lemma typed_put_attr k v n :
  free_of "=" k → typed_node n → typed_node (mkNode (_child n) (map_put k v (_attr n))).
Proof.
  intros Hk [cs attrs Hs Ha Hks Hcs Hat]. constructor; cbn [_child _attr]; [done|by apply map_sorted_put|done|done|].
  intros k' x. destruct (decide (k' = k)) as [->|Hne]; [done|].
  rewrite map_find_put_ne by done. apply Hat.
Qed.

(** The components of a name. *)
Lemma comps_free s : Forall (free_of "/") (comps s).
Proof.
  induction s as [|c s IH]; simpl; [by repeat constructor|].
  destruct (ceqb c "/") eqn:E; [by constructor|].
  destruct (comps s) as [|h t]; [constructor|]. inversion IH; subst. constructor; [|done].
  unfold free_of in *. cbn [str_forall]. unfold not_char at 1. by rewrite E.
Qed.

Lemma typed_add_path p : ∀ n, Forall (free_of "/") p → typed_node n → typed_node (add_path p n).
Proof.
  induction p as [|h p IH]; intros n Hp Hn; [done|]. inversion Hp; subst.
  destruct (decide (p = [])) as [->|Hne]; [by apply typed_put; [|apply typed_empty|]|].
  rewrite add_path_cons by done. apply typed_put; [done| |done]. apply IH; [done|].
  destruct (map_find h (_child n)) as [c|] eqn:E; [|by apply typed_empty]. by eapply typed_child.
Qed.

Lemma typed_del_path p : ∀ n, typed_node n → typed_node (del_path p n).
Proof.
  induction p as [|h p IH]; intros n Hn; [done|]. simpl.
  destruct (map_find h (_child n)) as [c|] eqn:E; [|done]. destruct (typed_child n h c Hn E).
  destruct p as [|h' p]; [by apply typed_erase|]. apply typed_put; auto.
Qed.

Lemma typed_addattr kv n : typed_node n → typed_node (addattr kv n).
Proof.
  intros Hn. unfold addattr. destruct (split_at "=" kv) as [k v] eqn:E.
  apply typed_put_attr; [by eapply split_at_head_free|done].
Qed.

Lemma typed_update_at p f : ∀ n,
  (∀ m, typed_node m → typed_node (f m)) → typed_node n → typed_node (update_at p f n).
Proof.
  induction p as [|h p IH]; intros n Hf Hn; simpl; [by apply Hf|].
  destruct (map_find h (_child n)) as [c|] eqn:E; [|done]. destruct (typed_child n h c Hn E).
  apply typed_put; auto.
Qed.

Lemma typed_do_word w node root : typed_node root → typed_node (do_word w node root).2.
Proof.
  intros Hr. destruct node as [p|]; [by apply typed_update_at; [apply typed_addattr|]|].
  assert (Hadd : typed_node (add_path (comps w) root)) by (by apply typed_add_path; [apply comps_free|]).
  destruct w as [|[[] [] [] [] [] [] [] []] w]; try exact Hadd. by apply typed_del_path.
Qed.

Lemma typed_node_words ls : ∀ tok node root,
  typed_node root → typed_node (node_words ls tok node root).2.
Proof.
  induction ls as [|w ls IH]; intros tok node root Hr; simpl.
  - case_match; [done|]. pose proof (typed_do_word tok node root Hr). by destruct (do_word tok node root).
  - case_match; [by apply IH|]. case_match; [done|].
    pose proof (typed_do_word w node root Hr). destruct (do_word w node root). by apply IH.
Qed.

Lemma typed_run ls root : typed_node root → typed_node (run ls root).
Proof.
  unfold run. generalize (S (S (length ls))) as f. intros f. revert ls root.
  induction f as [|f IH]; intros ls root Hr; [done|]. rewrite run_fuel_S.
  pose proof (typed_node_words ls "" None root Hr).
  destruct (node_words ls "" None root) as [[[] ls'] root']; [by apply IH|done].
Qed.

(** C22: the type of the database.  In the tree that is read from any file, and after any
    [addnode], [delnode] and [addattr], the maps of every node are ordered with one entry for a
    key, no name of a node has a [/], and no name of an attribute an [=] (for
    [addattr(key,value)] provided the key has none). *)
Theorem database_typed s t n name kv key value :
  parse s = Some t → typed_node n →
  typed_node t ∧ typed_node (addnode name n).1 ∧ typed_node (delnode name n) ∧
  typed_node (addattr kv n) ∧ (free_of "=" key → typed_node (addattr_long key value n)).
Proof.
  intros Hs Hn. rewrite parse_run_words in Hs. injection Hs as <-.
  rewrite addnode_spec, delnode_spec. split_and!.
  - by apply typed_run, typed_empty.
  - by apply typed_add_path; [apply comps_free|].
  - by apply typed_del_path.
  - by apply typed_addattr.
  - intros Hk. by apply typed_put_attr.
Qed.

Lemma database_typed_witness :
  parse ("-ecf" +:+ nl +:+ "ecf/a port=1 x=y=z") =
    Some (mkNode [("ecf", mkNode [("a", mkNode [] [("port", "1"); ("x", "y=z")])] [])] []) ∧
  typed_node (mkNode [("ecf", mkNode [("a", mkNode [] [("port", "1"); ("x", "y=z")])] [])] []).
Proof.
  assert (H : parse ("-ecf" +:+ nl +:+ "ecf/a port=1 x=y=z") =
    Some (mkNode [("ecf", mkNode [("a", mkNode [] [("port", "1"); ("x", "y=z")])] [])] [])) by (vm_compute; reflexivity).
  split; [exact H|]. exact (proj1 (database_typed _ _ empty_node "a/b" "c=d" "e" 1%Z H typed_empty)).
Defined.
