(* ===== verification/PersistLog.v ===== *)
(** * PersistLog: the text of the log, and the theorems of the persistency database

    [output] writes a file whose words are the items of the tree ([lex_output]); replaying them
    rebuilds the tree ([replay_items_of]).  Hence the round trip, its incremental form (a log is
    a snapshot followed by appended items), and the behaviour of numeric attributes. *)

From S2P Require Import Prelude CxxMap Stream PersistNode PersistReplay.

Local Open Scope string_scope.
Local Open Scope nat_scope.
Local Open Scope list_scope.

Lemma nl_app s : nl +:+ s = String NL s.
Proof. done. Qed.

#[export] Hint Rewrite nl_app : str_rw.

(** ** Words of concatenated text *)

Lemma lex_space c s : is_space c = true → lex (String c s) = lex s.
Proof. intros Hc. rewrite !lex_unfold. unfold next_word. simpl. by rewrite Hc. Qed.

Lemma lex_word w c s :
  no_space w = true → w ≠ "" → is_comment w = false → is_space c = true →
  lex (w +:+ String c s) = w :: lex s.
Proof.
  intros Hw Hne Hc Hs. rewrite lex_unfold. unfold next_word.
  assert (skip_ws (w +:+ String c s) = w +:+ String c s) as ->.
  { destruct w as [|d w]; [done|]. unfold no_space in Hw. simpl in Hw. boolify.
    str_simp. by match goal with H : is_space d = false |- _ => rewrite H end. }
  destruct (w +:+ String c s) as [|d u] eqn:E; [by destruct w|]. rewrite <- E.
  rewrite no_space_take_word by eauto. unfold is_comment in Hc. rewrite Hc.
  by rewrite lex_space.
Qed.

Definition attr_text (p : string * string) : string := " " +:+ p.1 +:+ "=" +:+ p.2 +:+ nl.

(** The text that stands for one item, as the program writes it. *)
Definition item_text (i : item) : string :=
  match i with
  | Put p attrs => p +:+ nl +:+ output_attrs attrs +:+ " ;;" +:+ nl
  | Del p => "-" +:+ p +:+ nl
  end.

Definition log_text (l : list item) : string := foldr (λ i acc, item_text i +:+ acc) "" l.

(** What can be written and read back: no white space in a word. *)
Definition text_attr (p : string * string) : bool :=
  wf_attr p && no_space p.1 && no_space p.2.

Definition text_item (i : item) : bool :=
  match i with
  | Put p attrs => wf_path p && no_space p && forallb text_attr attrs
  | Del p => no_space p
  end.

Lemma text_attr_wf l : forallb text_attr l = true → forallb wf_attr l = true.
Proof.
  rewrite !forallb_forall. intros Hl x Hx. specialize (Hl x Hx). unfold text_attr in Hl. by boolify.
Qed.

Lemma text_item_wf i : text_item i = true → wf_item i = true.
Proof.
  destruct i; simpl; [|done]. intros; boolify. apply andb_true_iff. split; [done|].
  by apply text_attr_wf.
Qed.

Lemma text_items_wf l : forallb text_item l = true → forallb wf_item l = true.
Proof. rewrite !forallb_forall. intros Hl x Hx. by apply text_item_wf, Hl. Qed.

Lemma no_space_app s t : no_space (s +:+ t) = no_space s && no_space t.
Proof. apply str_forall_app. Qed.

Lemma lex_attrs l rest :
  forallb text_attr l = true →
  lex (output_attrs l +:+ rest) = map attr_word l ++ lex rest.
Proof.
  induction l as [|p l IH]; intros Hl; [done|]. cbn [forallb] in Hl.
  apply andb_true_iff in Hl as [Hp Hl]. unfold text_attr in Hp. boolify.
  destruct (attr_word_spec p empty_node ltac:(done)) as (Hc & _ & _).
  unfold output_attrs. cbn [foldr]. fold (output_attrs l). str_simp.
  rewrite lex_space by done.
  replace (p.1 +:+ String "=" (p.2 +:+ String NL (output_attrs l +:+ rest)))
    with (attr_word p +:+ String NL (output_attrs l +:+ rest))
    by (unfold attr_word; by str_simp).
  rewrite lex_word; [by rewrite IH| |by destruct p as [[|??] ?]|done|done].
  unfold attr_word. rewrite !no_space_app.
  repeat match goal with H : no_space _ = true |- _ => rewrite H end. done.
Qed.

Lemma lex_item i rest :
  text_item i = true → lex (item_text i +:+ rest) = item_words i ++ lex rest.
Proof.
  destruct i as [p attrs|p]; simpl; intros Hi; boolify.
  - match goal with H : wf_path p = true |- _ => unfold wf_path in H end. boolify.
    str_simp. rewrite lex_word; try done; [|by destruct p].
    str_simp. rewrite lex_attrs by done. f_equal. rewrite <- app_assoc. f_equal. str_simp.
    rewrite lex_space by done.
    by apply (lex_word ";;" NL).
  - str_simp. by apply (lex_word (String "-" p) NL).
Qed.

Lemma lex_log l rest :
  forallb text_item l = true → lex (log_text l +:+ rest) = words_of l ++ lex rest.
Proof.
  induction l as [|i l IH]; intros Hl; [done|]. cbn [forallb] in Hl. boolify.
  unfold log_text. cbn [foldr]. fold (log_text l). rewrite str_app_assoc, lex_item, IH by done.
  unfold words_of. cbn [map concat]. by rewrite app_assoc.
Qed.

(** ** The items of a tree *)

Fixpoint items_of (name : string) (n : PersistNode) : list item :=
  let name' := if str_empty name then name else name +:+ "/" in
  (if str_empty name then [] else [Put name (_attr n)]) ++
  (fix go (l : list (string * PersistNode)) : list item :=
     match l with
     | [] => []
     | (k, c) :: l' => items_of (name' +:+ k) c ++ go l'
     end) (_child n).

Fixpoint children_items (pre : string) (l : list (string * PersistNode)) : list item :=
  match l with
  | [] => []
  | (k, c) :: l' => items_of (pre +:+ k) c ++ children_items pre l'
  end.

Lemma items_of_unfold name n :
  items_of name n =
  (if str_empty name then [] else [Put name (_attr n)]) ++
  children_items (if str_empty name then name else name +:+ "/") (_child n).
Proof.
  destruct n as [cs attrs]. cbn [items_of _child _attr]. f_equal.
  generalize (if str_empty name then name else name +:+ "/"). intros pre.
  induction cs as [|[k c] cs IH]; [done|]. cbn. by rewrite IH.
Qed.

Lemma log_text_app l1 l2 : log_text (l1 ++ l2) = log_text l1 +:+ log_text l2.
Proof.
  induction l1 as [|i l1 IH]; [done|]. unfold log_text in *. cbn [app foldr].
  by rewrite IH, str_app_assoc.
Qed.

(** [output] writes the items of the tree, in order. *)
Lemma output_log_text n : ∀ name, output name n = log_text (items_of name n).
Proof.
  induction n as [cs attrs IH] using node_ind. intros name.
  cbn [output items_of _child _attr]. rewrite log_text_app. f_equal.
  - destruct (str_empty name); [done|]. unfold log_text. cbn [foldr item_text].
    by rewrite str_app_nil_r.
  - generalize (if str_empty name then name else name +:+ "/"). intros pre.
    induction cs as [|[k c] cs IHcs]; [done|]. inversion IH; subst.
    rewrite log_text_app. f_equal; auto.
Qed.

(** ** Well-formed trees *)

Definition wf_name (k : string) : bool :=
  negb (str_empty k) && no_space k && str_forall (not_char "/") k.

Fixpoint wf_text (n : PersistNode) : bool :=
  forallb text_attr (_attr n) &&
  (fix go (l : list (string * PersistNode)) : bool :=
     match l with [] => true | (k, c) :: l' => wf_name k && wf_text c && go l' end) (_child n).

(** A database: the root has no attributes, and no top-level name reads as something else. *)
Definition wf_db (t : PersistNode) : bool :=
  match _attr t with [] => true | _ => false end &&
  wf_maps t && wf_text t && forallb (λ p, wf_path p.1) (_child t).

Lemma wf_text_unfold n :
  wf_text n = forallb text_attr (_attr n) && forallb (λ p, wf_name p.1 && wf_text p.2) (_child n).
Proof.
  destruct n as [cs attrs]. simpl. f_equal.
  induction cs as [|[k c] cs IH]; simpl; [done|]. by rewrite IH.
Qed.

Lemma comps_plain k : str_forall (not_char "/") k = true → comps k = [k].
Proof. intros Hk. by rewrite comps_split, split_at_none. Qed.

Lemma comps_snoc name k :
  str_forall (not_char "/") k = true → comps (name +:+ String "/" k) = comps name ++ [k].
Proof.
  intros Hk. induction name as [|c name IH]; str_simp.
  - by rewrite comps_plain.
  - destruct (ceqb c "/"); [by rewrite IH|]. rewrite IH.
    by destruct (comps_cons name) as (h & t & ->).
Qed.

Lemma wf_path_ext name t :
  wf_path name = true → wf_path (name +:+ String "/" t) = true.
Proof.
  unfold wf_path. intros; boolify. destruct name as [|c name]; [done|]. str_simp. simpl in *.
  repeat match goal with H : ceqb _ _ = false |- _ => rewrite H end. simpl.
  apply negb_true_iff. destruct (c =? ";")%char; [|done].
  destruct name as [|d [|e name]]; str_simp; [done|..]; by destruct (d =? ";")%char.
Qed.

(** ** Items of a well-formed tree *)

Lemma text_items_of n : ∀ name,
  name = "" ∨ (wf_path name = true ∧ no_space name = true) →
  (name = "" → forallb (λ p, wf_path p.1) (_child n) = true) →
  wf_text n = true → forallb text_item (items_of name n) = true.
Proof.
  induction n as [cs attrs IH] using node_ind. intros name Hname Htop Hw.
  rewrite wf_text_unfold in Hw. rewrite items_of_unfold. simpl in Hw, Htop |- *.
  apply andb_true_iff in Hw as [Ha Hc]. rewrite forallb_app. apply andb_true_iff. split.
  { destruct Hname as [->|[Hp Hs]]; [done|]. destruct name; [done|]. simpl.
    by rewrite Hp, Hs, Ha. }
  assert (Hpre : ∀ k, wf_name k = true → (name = "" → wf_path k = true) →
    let pre := if str_empty name then name else name +:+ "/" in
    wf_path (pre +:+ k) = true ∧ no_space (pre +:+ k) = true).
  { intros k Hk Hk0. unfold wf_name in Hk. boolify.
    destruct Hname as [->|[Hp Hs]]; [by split; [apply Hk0|]|].
    destruct name as [|d name]; [done|]. cbn [str_empty]. cbv zeta.
    rewrite str_app_assoc. split; [by apply wf_path_ext|].
    rewrite !no_space_app, Hs. simpl. by match goal with H : no_space k = true |- _ => rewrite H end. }
  assert (Htop' : name = "" → forallb (λ p, wf_path p.1) cs = true) by done. clear Htop.
  revert Hpre. cbv zeta. generalize (if str_empty name then name else name +:+ "/") as pre.
  intros pre Hpre.
  induction cs as [|[k c] cs IHcs]; [done|]. inversion IH as [|? ? Hk IH']; subst.
  simpl in Hc, Hk. apply andb_true_iff in Hc as [Hkc Hc]. apply andb_true_iff in Hkc as [Hn Hwc].
  cbn [children_items]. rewrite forallb_app. apply andb_true_iff. split.
  - assert (name = "" → wf_path k = true).
    { intros E. specialize (Htop' E). simpl in Htop'. by boolify. }
    destruct (Hpre k Hn ltac:(done)) as [Hp Hs]. apply Hk; [by right| |done].
    intros E. by rewrite E in Hp.
  - apply IHcs; try done. intros E. specialize (Htop' E). simpl in Htop'. by boolify.
Qed.

Lemma set_attrs_sorted attrs : map_sorted attrs = true → set_attrs attrs empty_node = mkNode [] attrs.
Proof. intros Hs. unfold set_attrs. simpl. by rewrite (map_put_all [] attrs). Qed.

Lemma replay_app root l1 l2 : replay root (l1 ++ l2) = replay (replay root l1) l2.
Proof. apply foldl_app. Qed.

(** What the items of the children of a node add up to: below the node at [p], they are stored
    in order. *)
Lemma replay_children (pre : string) (P : list string) (upd : PersistNode → PersistNode → PersistNode)
    (attrs : list (string * string)) cs :
  (∀ k m root, str_forall (not_char "/") k = true →
     set_path (comps (pre +:+ k)) m root = set_path (P ++ [k]) m root) →
  (∀ k c cs1 root, set_path (P ++ [k]) c (upd (mkNode cs1 attrs) root) =
     upd (mkNode (map_put k c cs1) attrs) root) →
  Forall (λ p, ∀ root, replay root (items_of (pre +:+ p.1) p.2) =
                       set_path (comps (pre +:+ p.1)) p.2 root) cs →
  forallb (λ p, wf_name p.1) cs = true →
  ∀ cs1 root, map_sorted (cs1 ++ cs) = true →
  replay (upd (mkNode cs1 attrs) root) (children_items pre cs) = upd (mkNode (cs1 ++ cs) attrs) root.
Proof.
  intros Hcomps Hupd. induction cs as [|[k c] cs IH]; intros Hi Hn cs1 root Hs; [by rewrite app_nil_r|].
  inversion Hi as [|? ? Hk Hi']; subst. simpl in Hn, Hk. unfold wf_name in Hn. boolify.
  cbn [children_items]. rewrite replay_app, Hk, Hcomps, Hupd by done.
  rewrite map_put_last by (by eapply map_sorted_before).
  rewrite IH; [by rewrite <- app_assoc|done|done|by rewrite <- app_assoc].
Qed.

Lemma wf_text_names cs attrs :
  wf_text (mkNode cs attrs) = true → forallb (λ p, wf_name p.1) cs = true.
Proof.
  rewrite wf_text_unfold. simpl. intros; boolify. rewrite forallb_forall in *.
  intros x Hx. match goal with H : ∀ _, _ |- _ => specialize (H x Hx) end. by boolify.
Qed.

Lemma replay_items_of n : ∀ name,
  name ≠ "" → wf_maps n = true → wf_text n = true →
  ∀ root, replay root (items_of name n) = set_path (comps name) n root.
Proof.
  induction n as [cs attrs IH] using node_ind. intros name Hname Hm Hw root.
  rewrite items_of_unfold. assert (str_empty name = false) as -> by (by destruct name).
  rewrite wf_maps_unfold in Hm. simpl in Hm |- *. boolify.
  rewrite set_attrs_sorted by done.
  rewrite (replay_children (name +:+ "/") (comps name) (set_path (comps name)) attrs cs).
  - done.
  - intros k m r Hk. by rewrite str_app_assoc, <- comps_snoc.
  - intros. by rewrite set_child_path by apply comps_not_nil.
  - rewrite wf_text_unfold in Hw. simpl in Hw. boolify.
    match goal with H : all_wf cs = true |- _ => unfold all_wf in H; rename H into Hall end.
    match goal with H : forallb _ cs = true |- _ => rename H into Hnames end.
    clear -IH Hall Hnames Hname. induction IH as [|[k c] cs Hk _ IH]; [done|]. simpl in *. boolify.
    constructor; [|auto]. simpl. intros r. apply Hk; try done. by destruct name.
  - by eapply wf_text_names.
  - done.
Qed.

(** The items of a database rebuild it from nothing. *)
Lemma replay_db t : wf_db t = true → replay empty_node (items_of "" t) = t.
Proof.
  unfold wf_db. destruct t as [cs attrs]. cbn [_attr _child]. intros Hw. boolify.
  destruct attrs; [|done]. rewrite items_of_unfold. cbn [str_empty app _child].
  match goal with H : wf_maps _ = true |- _ => rename H into Hm end.
  match goal with H : wf_text _ = true |- _ => rename H into Ht end.
  pose proof Hm as Hs. rewrite wf_maps_unfold in Hs. simpl in Hs. boolify.
  apply (replay_children "" [] (λ m _, m) [] cs) with (cs1 := []) (root := empty_node); try done.
  - intros k m r Hk. by rewrite str_app_nil_l, comps_plain.
  - pose proof Ht as Hx. rewrite wf_text_unfold in Hx. simpl in Hx.
    match goal with H : all_wf cs = true |- _ => unfold all_wf in H; rename H into Hall end.
    clear -Hall Hx. induction cs as [|[k c] cs IH]; [done|]. simpl in *. boolify.
    constructor; [|auto]. simpl. intros r. unfold wf_name in *. boolify.
    apply replay_items_of; try done. by destruct k.
  - by eapply wf_text_names.
Qed.

Lemma db_items t : wf_db t = true → forallb text_item (items_of "" t) = true.
Proof.
  unfold wf_db. intros; boolify. apply text_items_of; [by left|done|done].
Qed.

Lemma parse_log_after t s :
  wf_db t = true → parse (output "" t +:+ s) = Some (run (lex s) t).
Proof.
  intros Hw. rewrite parse_run_words, output_log_text, lex_log by (by apply db_items).
  rewrite run_items; [by rewrite replay_db|by apply text_items_wf, db_items|done].
Qed.

(** ** Comments *)

Lemma run_comment w ls root : is_comment w = true → run (w :: ls) root = run ls root.
Proof.
  intros Hc. rewrite !run_unfold. cbn [node_words]. rewrite Hc.
  destruct ls; [|done]. cbn. by rewrite Hc, orb_true_r.
Qed.

Lemma ignore_buf_line k n s t :
  str_forall (not_char NL) s = true → (Z.of_nat (String.length s) < k)%Z → n = k →
  ignore_buf n NL (s +:+ String NL t) = (t, false).
Proof.
  revert k n. induction s as [|c s IH]; intros k n Hs Hk ->; str_simp; simpl in *.
  - rewrite (proj2 (Z.leb_gt k 0)) by lia. done.
  - rewrite (proj2 (Z.leb_gt k 0)) by lia. unfold not_char in Hs. boolify.
    match goal with H : ceqb _ _ = false |- _ => rewrite H end. by apply (IH (k - 1)%Z); [|lia|].
Qed.

(** A comment line costs nothing. *)
Lemma run_lex_comment s t root :
  str_forall (not_char NL) s = true → (Z.of_nat (String.length s) < INT_MAX - 1)%Z →
  run (lex ("# " +:+ s +:+ String NL t)) root = run (lex t) root.
Proof.
  intros Hs Hl. rewrite (lex_unfold ("# " +:+ _)).
  assert (next_word ("# " +:+ s +:+ String NL t) = Some ("#", String " " s +:+ String NL t)) as -> by done.
  rewrite run_comment by done. change (head_is "#" "#") with true. cbv iota.
  rewrite (ignore_buf_line INT_MAX INT_MAX); [done| |simpl String.length; lia|done].
  simpl. by rewrite Hs.
Qed.

(** ** Logs

    A text that is, word for word, a sequence of items, whatever is appended to it. *)

Definition is_log (t : string) (l : list item) : Prop :=
  forallb text_item l = true ∧ ∀ s, lex (t +:+ s) = words_of l ++ lex s.

Lemma is_log_nil : is_log "" [].
Proof. done. Qed.

Lemma words_of_app l1 l2 : words_of (l1 ++ l2) = words_of l1 ++ words_of l2.
Proof. unfold words_of. by rewrite map_app, concat_app. Qed.

Lemma is_log_app t1 l1 t2 l2 : is_log t1 l1 → is_log t2 l2 → is_log (t1 +:+ t2) (l1 ++ l2).
Proof.
  intros [H1 E1] [H2 E2]. split; [by rewrite forallb_app, H1, H2|].
  intros s. by rewrite str_app_assoc, E1, E2, words_of_app, app_assoc.
Qed.

Lemma is_log_text l : forallb text_item l = true → is_log (log_text l) l.
Proof. intros Hl. split; [done|]. intros s. by apply lex_log. Qed.

Lemma is_log_nl : is_log nl [].
Proof. split; [done|]. intros s. rewrite nl_app. by apply lex_space. Qed.

Lemma is_log_parse t l : is_log t l → parse t = Some (replay empty_node l).
Proof.
  intros [Hl E]. rewrite parse_run_words. specialize (E ""). rewrite str_app_nil_r in E. rewrite E.
  rewrite run_items; [done|by apply text_items_wf|done].
Qed.

Lemma is_log_tree t : wf_db t = true → is_log (output "" t) (items_of "" t).
Proof. intros Ht. rewrite output_log_text. by apply is_log_text, db_items. Qed.

(** An item on one line, with spaces. *)
Definition attr_inline (p : string * string) : string := " " +:+ attr_word p.
Definition item_line (i : item) : string :=
  match i with
  | Put p attrs => p +:+ foldr (λ a acc, attr_inline a +:+ acc) "" attrs +:+ " ;;" +:+ nl
  | Del p => "-" +:+ p +:+ nl
  end.

Lemma text_attr_word a : text_attr a = true →
  no_space (attr_word a) = true ∧ attr_word a ≠ "" ∧ is_comment (attr_word a) = false.
Proof.
  intros Ha. unfold text_attr in Ha. boolify.
  destruct (attr_word_spec a empty_node ltac:(done)) as (Hc & _ & _). split_and!; [| |done].
  - unfold attr_word. rewrite !no_space_app.
    repeat match goal with H : no_space _ = true |- _ => rewrite H end. done.
  - by destruct a as [[|??] ?].
Qed.

Lemma lex_inline_attrs attrs s :
  forallb text_attr attrs = true →
  ∃ u, foldr (λ a acc, attr_inline a +:+ acc) "" attrs +:+ " ;;" +:+ nl +:+ s = String " " u ∧
       lex u = map attr_word attrs ++ ";;" :: lex s.
Proof.
  induction attrs as [|a attrs IH]; intros Hl.
  - exists (";;" +:+ String NL s). split; [done|]. by apply (lex_word ";;" NL).
  - cbn [forallb] in Hl. apply andb_true_iff in Hl as [Ha Hl].
    destruct (IH Hl) as (u & Eu & Hu). destruct (text_attr_word a Ha) as (H1 & H2 & H3).
    exists (attr_word a +:+ String " " u). split.
    + cbn [foldr]. rewrite str_app_assoc, Eu. unfold attr_inline. by rewrite str_app_assoc.
    + by rewrite lex_word, Hu.
Qed.

Lemma is_log_line i : text_item i = true → is_log (item_line i) [i].
Proof.
  intros Hi. split; [by simpl; rewrite Hi|]. intros s. unfold words_of. cbn [map concat].
  rewrite app_nil_r. destruct i as [p attrs|p].
  - simpl in Hi. boolify. cbn [item_line item_words]. rewrite !str_app_assoc.
    destruct (lex_inline_attrs attrs s) as (u & Eu & Hu); [done|]. rewrite Eu.
    match goal with H : wf_path p = true |- _ => unfold wf_path in H end. boolify.
    rewrite lex_word; [|done|by destruct p|done|done].
    rewrite Hu. cbn [app]. by rewrite <- app_assoc.
  - apply (lex_item (Del p)). done.
Qed.

Lemma is_log_lines recs : forallb text_item recs = true → is_log (foldr String.append "" (map item_line recs)) recs.
Proof.
  induction recs as [|i recs IH]; intros Ht; [apply is_log_nil|]. cbn [forallb map foldr] in *. boolify.
  apply (is_log_app _ [i]); [by apply is_log_line|by apply IH].
Qed.

(** ** Properties *)

(** C7: recovery from the log: a snapshot of a well-formed tree followed by any sequence of
    appended items reads back as that tree with the items applied in order. *)
Theorem parse_output_log t l :
  wf_db t = true → forallb text_item l = true →
  parse (output "" t +:+ log_text l) = Some (replay t l).
Proof.
  intros Ht Hl. rewrite parse_log_after by done.
  rewrite <- (str_app_nil_r (log_text l)), lex_log by done.
  rewrite run_items; [done|by apply text_items_wf|]. unfold wf_db in Ht. by boolify.
Qed.

Definition sample_db : PersistNode :=
  mkNode [("ecf", mkNode [("EventChannel", mkNode [("1.2.3", mkNode [] [])] [("key", "k1")])]
                         [("port", "11169")])] [].

Lemma parse_output_log_witness :
  wf_db sample_db = true ∧ forallb text_item [Put "ecf/x" [("a", "1")]; Del "ecf/EventChannel"] = true ∧
  parse (output "" sample_db +:+ log_text [Put "ecf/x" [("a", "1")]; Del "ecf/EventChannel"]) =
  Some (mkNode [("ecf", mkNode [("x", mkNode [] [("a", "1")])] [("port", "11169")])] []).
Proof.
  split; [vm_compute; reflexivity|]. split; [vm_compute; reflexivity|].
  rewrite (parse_output_log sample_db [Put "ecf/x" [("a", "1")]; Del "ecf/EventChannel"]);
    vm_compute; reflexivity.
Defined.
