(* ===== verification/PersistLookup.v ===== *)
(** * PersistLookup: the nodes of the database by path

    What adding and erasing a record changes below a node, and that it changes nothing
    elsewhere. *)

From S2P Require Import Prelude CxxMap Stream PersistNode PersistReplay PersistLog.

Local Open Scope string_scope.
Local Open Scope list_scope.

(** The node at a path. *)
Fixpoint node_at (p : list string) (n : PersistNode) : option PersistNode :=
  match p with
  | [] => Some n
  | h :: p' => match map_find h (_child n) with Some c => node_at p' c | None => None end
  end.

(** The children of the node at a path: none if it does not exist. *)
Definition children_at (p : list string) (n : PersistNode) : list (string * PersistNode) :=
  match node_at p n with Some c => _child c | None => [] end.

Definition attrs_at (p : list string) (n : PersistNode) : list (string * string) :=
  match node_at p n with Some c => _attr c | None => [] end.

Lemma node_at_cons h p n :
  node_at (h :: p) n = match map_find h (_child n) with Some c => node_at p c | None => None end.
Proof. done. Qed.

Lemma node_at_empty p : p ≠ [] → node_at p empty_node = None.
Proof. by destruct p. Qed.

Lemma children_at_empty p : children_at p empty_node = [].
Proof. unfold children_at. by destruct p. Qed.

Lemma node_at_set p m n : p ≠ [] → node_at p (set_path p m n) = Some m.
Proof.
  revert n. induction p as [|h p IH]; intros n Hp; [done|]. clear Hp.
  destruct (decide (p = [])) as [->|Hp].
  - simpl. by rewrite map_find_put_eq.
  - rewrite set_path_cons by done. simpl. rewrite map_find_put_eq. by apply IH.
Qed.

(** Below the parent, a record is a binding of the map of children. *)
Lemma children_set p k m n :
  children_at p (set_path (p ++ [k]) m n) = map_put k m (children_at p n).
Proof.
  revert n. induction p as [|h p IH]; intros n; [done|].
  rewrite <- app_comm_cons, set_path_cons by (by destruct p). unfold children_at in *. simpl.
  rewrite map_find_put_eq. destruct (map_find h (_child n)) as [c|]; simpl; [apply IH|].
  rewrite IH. by destruct p.
Qed.

Lemma del_path_cons h p n :
  p ≠ [] →
  del_path (h :: p) n =
    match map_find h (_child n) with
    | None => n
    | Some c => mkNode (map_put h (del_path p c) (_child n)) (_attr n)
    end.
Proof. by destruct p. Qed.

Lemma children_del p k n :
  children_at p (del_path (p ++ [k]) n) = map_erase k (children_at p n).
Proof.
  revert n. induction p as [|h p IH]; intros n.
  - simpl. unfold children_at. simpl. destruct (map_find k (_child n)) eqn:E; simpl; [done|].
    by rewrite map_erase_id.
  - rewrite <- app_comm_cons, del_path_cons by (by destruct p). unfold children_at in *. simpl.
    destruct (map_find h (_child n)) as [c|] eqn:E; simpl; [|by rewrite E].
    rewrite map_find_put_eq. apply IH.
Qed.

(** The attributes of the nodes above stay. *)
Lemma attrs_below p q m n : q ≠ [] → attrs_at p (set_path (p ++ q) m n) = attrs_at p n.
Proof.
  intros Hq. revert n. induction p as [|h p IH]; intros n.
  { destruct q as [|h q]; [done|]. destruct (decide (q = [])) as [->|Hne]; [done|].
    cbn [app]. by rewrite set_path_cons. }
  assert (p ++ q ≠ []) by (by intros [_ ?]%app_nil).
  rewrite <- app_comm_cons, set_path_cons by done. unfold attrs_at in *. simpl.
  rewrite map_find_put_eq. destruct (map_find h (_child n)) as [c|]; simpl; [apply IH|].
  rewrite IH. by destruct p.
Qed.

Lemma attr_kept p q m n a :
  q ≠ [] → _attr <$> node_at p n = Some a → _attr <$> node_at p (set_path (p ++ q) m n) = Some a.
Proof.
  intros Hq. revert n. induction p as [|h p IH]; intros n.
  { destruct q as [|h q]; [done|]. destruct (decide (q = [])) as [->|Hne]; [done|].
    cbn [app]. by rewrite set_path_cons. }
  assert (p ++ q ≠ []) by (by intros [_ ?]%app_nil).
  rewrite <- app_comm_cons, set_path_cons by done. cbn [node_at _child]. rewrite map_find_put_eq.
  destruct (map_find h (_child n)) as [c|]; [apply IH|done].
Qed.

Lemma attrs_set p k m n : attrs_at p (set_path (p ++ [k]) m n) = attrs_at p n.
Proof. by apply attrs_below. Qed.

Lemma attrs_at_set p m n : p ≠ [] → attrs_at p (set_path p m n) = _attr m.
Proof. intros Hp. unfold attrs_at. by rewrite node_at_set. Qed.

Lemma node_at_app p q n : node_at (p ++ q) n = node_at p n ≫= node_at q.
Proof. revert n. induction p as [|h p IH]; intros n; [done|]. simpl. by destruct (map_find h (_child n)). Qed.

(** A record makes the nodes on its path, and no others. *)
Lemma children_keys p k q m n j :
  is_Some (map_find j (children_at p (set_path (p ++ k :: q) m n))) ↔
  j = k ∨ is_Some (map_find j (children_at p n)).
Proof.
  revert n. induction p as [|h p IH]; intros n.
  - unfold children_at. cbn [node_at app]. assert (∃ c, _child (set_path (k :: q) m n) = map_put k c (_child n)) as [c ->].
    { destruct (decide (q = [])) as [->|Hne]; [by eexists|]. rewrite set_path_cons by done. by eexists. }
    destruct (decide (j = k)) as [->|Hne]; [rewrite map_find_put_eq; split; [by left|by eexists]|].
    rewrite map_find_put_ne by done. split; [by right|by intros [?|?]].
  - rewrite <- app_comm_cons, set_path_cons by (by destruct p). unfold children_at in *. simpl.
    rewrite map_find_put_eq. destruct (map_find h (_child n)) as [c|]; simpl; [apply IH|].
    rewrite IH. by destruct p.
Qed.

(** Paths that go different ways. *)
Fixpoint diverge (p q : list string) : bool :=
  match p, q with
  | h :: p', h' :: q' => if decide (h = h') then diverge p' q' else true
  | _, _ => false
  end.

Lemma node_at_set_other p q m n : diverge p q = true → node_at p (set_path q m n) = node_at p n.
Proof.
  revert q n. induction p as [|h p IH]; intros [|h' q] n; simpl; try done. case_decide as Hh.
  - subst h'. intros Hd. destruct q as [|h2 q2]; [by destruct p|]. simpl. rewrite map_find_put_eq.
    etrans; [apply (IH (h2 :: q2)); done|].
    destruct (map_find h (_child n)); simpl; [done|]. by destruct p.
  - intros _. destruct q; simpl; by rewrite map_find_put_ne.
Qed.

Lemma node_at_del_other p q n :
  wf_maps n = true → diverge p q = true → node_at p (del_path q n) = node_at p n.
Proof.
  revert q n. induction p as [|h p IH]; intros [|h' q] n Hw; simpl; try done.
  pose proof Hw as Hs. rewrite wf_maps_unfold in Hs. boolify.
  destruct (map_find h' (_child n)) as [c|] eqn:E; [|done]. case_decide as Hh.
  - subst h'. intros Hd. destruct q as [|h2 q2]; [by destruct p|]. simpl. rewrite map_find_put_eq, E.
    apply (IH (h2 :: q2)); [by eapply wf_maps_find|done].
  - intros _. destruct q; simpl; [by rewrite map_find_erase_ne|by rewrite map_find_put_ne].
Qed.

(** Applying the record of a proxy, or erasing it. *)
Definition item_path (i : item) : list string :=
  match i with Put p _ => comps p | Del p => comps p end.

Lemma node_at_item_other p i n :
  wf_maps n = true → diverge p (item_path i) = true → node_at p (apply_item n i) = node_at p n.
Proof. destruct i; simpl; [intros _; apply node_at_set_other|apply node_at_del_other]. Qed.

Lemma replay_snoc root l i : replay root (l ++ [i]) = apply_item (replay root l) i.
Proof. unfold replay. by rewrite foldl_app. Qed.

Lemma node_at_replay_other p l n :
  wf_maps n = true → Forall (λ i, diverge p (item_path i) = true) l → node_at p (replay n l) = node_at p n.
Proof.
  intros Hw Hd. revert n Hw. induction Hd as [|i l Hi _ IH]; intros n Hw; [done|].
  change (replay n (i :: l)) with (replay (apply_item n i) l).
  rewrite IH by (by apply wf_apply_item). by apply node_at_item_other.
Qed.

Lemma wf_replay_empty l : wf_maps (replay empty_node l) = true.
Proof. by apply wf_replay. Qed.
