(* ===== verification/ChannelProps.v ===== *)
(** * ChannelProps: the values stored in the properties of a channel
      (src/EventChannel.h, src/defaults.h)

    A channel keeps its quality of service as the attributes of a [PersistNode]; the accessors
    read them with a default, and convert the [long] to the type they return. *)

From S2P Require Import Prelude CxxMap Stream PersistNode.

Local Open Scope string_scope.
Local Open Scope Z_scope.

Definition PULL_RETRY_PERIOD_MS : Z := 1000.
Definition MAX_QUEUE_LENGTH : Z := 1023.
Definition MAX_NUM_PROXIES : Z := 1024.
Definition CYCLE_PERIOD_NS : Z := 100000000.

Definition MILLION : Z := 1000000.
Definition BILLION : Z := 1000000000.

(** [CORBA::ULong] accessors. *)
Definition pullRetryPeriod_ms (_properties : PersistNode) : Z :=
  u32 (attrLong "PullRetryPeriod_ms" PULL_RETRY_PERIOD_MS _properties).
Definition maxQueueLength (_properties : PersistNode) : Z :=
  u32 (attrLong "MaxQueueLength" MAX_QUEUE_LENGTH _properties).
Definition maxNumProxies (_properties : PersistNode) : Z :=
  u32 (attrLong "MaxNumProxies" MAX_NUM_PROXIES _properties).

(** An [unsigned long]. *)
Definition cyclePeriod_ns (_properties : PersistNode) : Z :=
  u64 (attrLong "CyclePeriod_ns" CYCLE_PERIOD_NS _properties).

(** A channel created with quality-of-service values keeps them.  Attributes written as
    numbers that fit an [int] are what the accessors return, whatever the order they were given
    in; a channel without attributes uses the defaults. *)
Theorem accessors_keep r q m c n :
  0 ≤ r ≤ INT_MAX → 0 ≤ q ≤ INT_MAX → 0 ≤ m ≤ INT_MAX → 0 ≤ c ≤ INT_MAX →
  let p := addattr_long "PullRetryPeriod_ms" r (addattr_long "MaxQueueLength" q
             (addattr_long "MaxNumProxies" m (addattr_long "CyclePeriod_ns" c n))) in
  (pullRetryPeriod_ms p, maxQueueLength p, maxNumProxies p, cyclePeriod_ns p) = (r, q, m, c) ∧
  (pullRetryPeriod_ms empty_node, maxQueueLength empty_node, maxNumProxies empty_node,
   cyclePeriod_ns empty_node) = (1000, 1023, 1024, 100000000).
Proof.
  intros Hr Hq Hm Hc p. unfold INT_MAX in *. split; [|done]. subst p.
  unfold pullRetryPeriod_ms, maxQueueLength, maxNumProxies, cyclePeriod_ns, attrLong, addattr_long.
  cbn [_attr].
  repeat (rewrite map_find_put_eq || rewrite map_find_put_ne by done).
  rewrite !atol_show_i32, !i32_id, !u32_id, u64_id by lia. done.
Qed.

Lemma accessors_keep_witness :
  let p := addattr_long "PullRetryPeriod_ms" 500 (addattr_long "MaxQueueLength" 10
             (addattr_long "MaxNumProxies" 3 (addattr_long "CyclePeriod_ns" 7000 empty_node))) in
  (pullRetryPeriod_ms p, maxQueueLength p, maxNumProxies p, cyclePeriod_ns p) = (500, 10, 3, 7000).
Proof. apply (accessors_keep 500 10 3 7000 empty_node); unfold INT_MAX; lia. Defined.
