(* ===== verification/Corba.v ===== *)
(** * Corba: what the program uses of CORBA

    The ORB, the POAs and the [Any] type are not part of the repository: they are parameters
    ([AnyOps], [OrbOps]), with the documented behaviour the program relies on as laws
    ([OrbLaws]).  The last section gives a concrete instance, at which the laws hold.

    [world] is what the servants share: the log stream, the deferred requests of the [Orb]
    singleton, the reference counts of callback objects, the active object maps, the clock. *)

From S2P Require Import Prelude Monad CxxMap Stream.

Local Open Scope string_scope.
Local Open Scope list_scope.

(** [CORBA::TCKind], in the order of its codes. *)
Inductive TCKind :=
| tk_null | tk_void | tk_short | tk_long | tk_ushort | tk_ulong | tk_float | tk_double
| tk_boolean | tk_char | tk_octet | tk_any | tk_TypeCode | tk_Principal | tk_objref
| tk_struct | tk_union | tk_enum | tk_string | tk_sequence | tk_array | tk_alias | tk_except
| tk_longlong | tk_ulonglong | tk_longdouble | tk_wchar | tk_wstring | tk_fixed | tk_value
| tk_value_box | tk_native | tk_abstract_interface | tk_local_interface | np_tk_indirect.

Definition kind_code (k : TCKind) : Z :=
  match k with
  | tk_null => 0 | tk_void => 1 | tk_short => 2 | tk_long => 3 | tk_ushort => 4 | tk_ulong => 5
  | tk_float => 6 | tk_double => 7 | tk_boolean => 8 | tk_char => 9 | tk_octet => 10
  | tk_any => 11 | tk_TypeCode => 12 | tk_Principal => 13 | tk_objref => 14 | tk_struct => 15
  | tk_union => 16 | tk_enum => 17 | tk_string => 18 | tk_sequence => 19 | tk_array => 20
  | tk_alias => 21 | tk_except => 22 | tk_longlong => 23 | tk_ulonglong => 24
  | tk_longdouble => 25 | tk_wchar => 26 | tk_wstring => 27 | tk_fixed => 28 | tk_value => 29
  | tk_value_box => 30 | tk_native => 31 | tk_abstract_interface => 32
  | tk_local_interface => 33 | np_tk_indirect => 4294967295
  end%Z.

(** [CORBA::Any]: its type, and the extraction operators the program applies to one. *)
Class AnyOps := {
  Any : Type;
  any_kind : Any → TCKind;          (* any.type()->kind() *)
  any_id : Any → string;            (* any.type()->id() *)
  any_ulong : Any → option Z;       (* any >>= CORBA::ULong& *)
  any_string : Any → option string; (* any >>= const char*& *)
  any_boolean : Any → option bool;  (* any >>= CORBA::Any::to_boolean(b) *)
  any_of_string : string → Any;     (* any <<= const char* *)
  any_empty : Any }.

(** [CosLifeCycle::Criteria]: a sequence of named values. *)
Definition Criteria `{AnyOps} : Type := list (string * Any).

(** [CosLifeCycle::Key]: a sequence of (id,kind). *)
Definition Key : Type := list (string * string).

(** The exceptions the program throws or catches by name, and the others by their name. *)
Inductive exn `{AnyOps} :=
| BAD_PARAM | OBJECT_NOT_EXIST | TRANSIENT | COMM_FAILURE | TIMEOUT | UNKNOWN
| SystemException (name : string)
| AlreadyConnected | TypeError | Disconnected
| ServantNotActive | ServantAlreadyActive | ObjectAlreadyActive | ObjectNotActive
| WrongPolicy | AdapterAlreadyExists | InvalidPolicy
| NoFactory (k : Key) | InvalidCriteria (c : Criteria) | CannotMeetCriteria (c : Criteria)
| NameAlreadyUsed | EventChannelNotFound
| UserException (name : string).

Definition is_user_exception `{AnyOps} (e : exn) : bool :=
  match e with
  | BAD_PARAM | OBJECT_NOT_EXIST | TRANSIENT | COMM_FAILURE | TIMEOUT | UNKNOWN
  | SystemException _ => false
  | _ => true
  end.

(** The ORB and its POAs.  A POA is designated by its name; [poa_state] holds every POA with its
    active object map.  A servant is designated by its address. *)
Class OrbOps `{AnyOps} := {
  Object : Type;
  object_to_string : Object → string;
  string_to_object : string → exn + option Object;   (* [inr None] is a nil reference *)
  strMatch : string → string → bool;
  poa_state : Type;
  create_POA : string → poa_state → exn + poa_state;
  destroy_POA : string → poa_state → poa_state;
  activate_object_with_id : string → string → Z → poa_state → exn + poa_state;
  servant_to_id : string → Z → poa_state → exn + string;
  deactivate_object : string → string → poa_state → exn + poa_state;
  id_to_reference : string → string → poa_state → exn + Object;
  create_reference_with_id : string → string → string → Object }.

(** What the program relies on.  Stringified references contain no white space and parse back;
    the empty string is not one.
    A servant that was activated is found under its id until it is deactivated; the POA
    operations say which exceptions they raise; other servants are not affected.  Creating a POA
    deactivates nothing, and a servant has one id in a POA. *)
Class OrbLaws `{OO : OrbOps} : Prop := {
  string_to_object_to_string o : string_to_object (object_to_string o) = inr (Some o);
  string_to_object_empty : string_to_object "" = inl BAD_PARAM;
  object_to_string_text o : no_space (object_to_string o) = true;
  strMatch_spec a b : strMatch a b = true ↔ a = b;
  activate_servant_to_id p i s st st' :
    activate_object_with_id p i s st = inr st' → servant_to_id p s st' = inr i;
  activate_other p i s st st' p' s' :
    activate_object_with_id p i s st = inr st' → (p', s') ≠ (p, s) →
    servant_to_id p' s' st' = servant_to_id p' s' st;
  activate_raises p i s st e :
    activate_object_with_id p i s st = inl e →
    e = BAD_PARAM ∨ e = ServantAlreadyActive ∨ e = ObjectAlreadyActive ∨ e = WrongPolicy;
  servant_to_id_raises p s st e :
    servant_to_id p s st = inl e → e = ServantNotActive ∨ e = WrongPolicy;
  deactivate_active p i s st :
    servant_to_id p s st = inr i →
    ∃ st', deactivate_object p i st = inr st' ∧ servant_to_id p s st' = inl ServantNotActive ∧
    ∀ p' s', (p' ≠ p ∨ servant_to_id p' s' st ≠ inr i) →
      servant_to_id p' s' st' = servant_to_id p' s' st;
  create_keeps n st st' p s i :
    create_POA n st = inr st' → servant_to_id p s st = inr i → servant_to_id p s st' = inr i;
  activate_unique p i s st st' j :
    activate_object_with_id p i s st = inr st' → servant_to_id p s st ≠ inr j }.

Section world.
Context `{OO : OrbOps}.

(** A deferred request: the target, the operation, the argument if there is one. *)
Record request := mkRequest { req_target : Object; req_op : string; req_arg : option Any }.

(** What has arrived for a request: a result, or an exception.  [out_has_event] is the
    [has_event] argument of [try_pull]. *)
Inductive reply :=
| Returned (return_value : Any) (out_has_event : option Any)
| Raised (e : exn).

Record world := mkWorld {
  logstream : option string;          (* [omniEventsLog::theLog->_logstream]; None: no log *)
  checkpointNeeded : bool;            (* [omniEventsLog::_checkpointNeeded] *)
  sent : list request;                (* requests sent, latest last *)
  deferredRequests : list (request * option Z);   (* [Orb::_deferredRequests] *)
  orbShutdownRequested : bool;        (* [Orb::_shutdownRequested] *)
  refs : list (Z * Z);                (* reference counts by address *)
  poas : poa_state;
  clock : Z * Z;                      (* [omni_thread::get_time] *)
  uid_count : Z }.                    (* [newUniqueId]'s static counter *)

Definition set_logstream (t : option string) (w : world) : world :=
  mkWorld t (checkpointNeeded w) (sent w) (deferredRequests w) (orbShutdownRequested w)
    (refs w) (poas w) (clock w) (uid_count w).
Definition set_checkpointNeeded (b : bool) (w : world) : world :=
  mkWorld (logstream w) b (sent w) (deferredRequests w) (orbShutdownRequested w)
    (refs w) (poas w) (clock w) (uid_count w).
Definition set_sent (l : list request) (w : world) : world :=
  mkWorld (logstream w) (checkpointNeeded w) l (deferredRequests w) (orbShutdownRequested w)
    (refs w) (poas w) (clock w) (uid_count w).
Definition set_deferredRequests (l : list (request * option Z)) (w : world) : world :=
  mkWorld (logstream w) (checkpointNeeded w) (sent w) l (orbShutdownRequested w)
    (refs w) (poas w) (clock w) (uid_count w).
Definition set_refs (l : list (Z * Z)) (w : world) : world :=
  mkWorld (logstream w) (checkpointNeeded w) (sent w) (deferredRequests w)
    (orbShutdownRequested w) l (poas w) (clock w) (uid_count w).
Definition set_poas (p : poa_state) (w : world) : world :=
  mkWorld (logstream w) (checkpointNeeded w) (sent w) (deferredRequests w)
    (orbShutdownRequested w) (refs w) p (clock w) (uid_count w).
Definition set_uid_count (c : Z) (w : world) : world :=
  mkWorld (logstream w) (checkpointNeeded w) (sent w) (deferredRequests w)
    (orbShutdownRequested w) (refs w) (poas w) (clock w) c.

(** [req->send_deferred()] *)
Definition send_deferred (r : request) : M exn world unit :=
  modify (λ w, set_sent (sent w ++ [r]) w).

(** Apply a POA operation that may throw. *)
Definition poa_op (f : poa_state → exn + poa_state) : M exn world unit := λ w,
  match f (poas w) with inl e => Throw e w | inr p => Ret tt (set_poas p w) end.

(** [RefCountServantBase::_add_ref] and [_remove_ref]. *)
Definition ref_count (a : Z) (w : world) : Z := default 0%Z (map_find a (refs w)).
Definition add_ref (a : Z) : M exn world unit :=
  modify (λ w, set_refs (map_put a (ref_count a w + 1)%Z (refs w)) w).
Definition remove_ref (a : Z) : M exn world unit :=
  modify (λ w, set_refs (map_put a (ref_count a w - 1)%Z (refs w)) w).

(** Output to a stream: the stream's text is the state, the world is only read. *)
Definition ostream_op : Type := world → M exn string unit.
Definition emit (s : string) : M exn string unit := modify (λ t, t +:+ s).
End world.

(** ** Lifting to the state of a servant *)

Section lift.
Context `{OO : OrbOps} {T : Type}.

(** A method of a servant: its members, and the world. *)
Definition Meth (A : Type) : Type := M exn (T * world) A.

Definition onW {A} (m : M exn world A) : Meth A := zoom snd (λ w s, (s.1, w)) m.
Definition self : Meth T := gets fst.
Definition upd (f : T → T) : Meth unit := modify (λ s, (f s.1, s.2)).
Definition theW : Meth world := gets snd.
End lift.
Arguments Meth {_ _} T A.

(** Evaluation of a method on a concrete state. *)
#[global] Create Rewrite HintDb meth.
