(* ===== verification/ModelOrb.v ===== *)
(** * ModelOrb: a concrete ORB

    An instance of the parameters of Corba.v at which their laws hold: references are numbered
    and print as [IOR:<hex>], a POA's active object map is an association list.  The witnesses
    of the library run on it. *)

From S2P Require Import Prelude Monad CxxMap Stream Corba.

Local Open Scope string_scope.
Local Open Scope list_scope.

Inductive model_any :=
| ANull | AULong (z : Z) | AString (s : string) | ABool (b : bool) | AStruct (id : string).

#[export] Instance model_AnyOps : AnyOps := {
  Any := model_any;
  any_kind a := match a with
    | ANull => tk_null | AULong _ => tk_ulong | AString _ => tk_string | ABool _ => tk_boolean
    | AStruct _ => tk_struct end;
  any_id a := match a with AStruct i => i | _ => "" end;
  any_ulong a := match a with AULong z => Some z | _ => None end;
  any_string a := match a with AString s => Some s | _ => None end;
  any_boolean a := match a with ABool b => Some b | _ => None end;
  any_of_string := AString;
  any_empty := ANull }.

Record model_poas := mkModelPoas {
  mp_names : list string;
  mp_active : list (string * Z * string) }.   (* POA, servant, object id *)

Definition mp_servant (p : string) (s : Z) (e : string * Z * string) : bool :=
  String.eqb e.1.1 p && (e.1.2 =? s)%Z.
Definition mp_oid (p i : string) (e : string * Z * string) : bool :=
  String.eqb e.1.1 p && String.eqb e.2 i.

Definition mp_find (p : string) (s : Z) (l : list (string * Z * string)) : option string :=
  snd <$> find (mp_servant p s) l.

(** The entries of the servants of POA [p] that are active under [i]. *)
Definition mp_holds (p i : string) (l : list (string * Z * string)) (e : string * Z * string) : bool :=
  String.eqb e.1.1 p &&
  match mp_find p e.1.2 l with Some j => String.eqb j i | None => false end.

Definition mp_iorstr (o : N) : string := "IOR:" +:+ show_N 16 o.

Definition mp_parse (s : string) : exn + option N :=
  match s with
  | String "I" (String "O" (String "R" (String ":" t))) =>
      let o := read_digits 16 0 t in
      if String.eqb (show_N 16 o) t then inr (Some o) else inl BAD_PARAM
  | "nil" => inr None
  | _ => inl BAD_PARAM
  end.

#[export] Instance model_OrbOps : OrbOps := {
  Object := N;
  object_to_string := mp_iorstr;
  string_to_object := mp_parse;
  strMatch := String.eqb;
  poa_state := model_poas;
  create_POA n st :=
    if existsb (String.eqb n) (mp_names st) then inl AdapterAlreadyExists
    else inr (mkModelPoas (n :: mp_names st) (mp_active st));
  destroy_POA n st :=
    mkModelPoas (filter (λ m, m ≠ n) (mp_names st)) (mp_active st);
  activate_object_with_id p i s st :=
    if existsb (mp_oid p i) (mp_active st) then inl ObjectAlreadyActive
    else if existsb (mp_servant p s) (mp_active st) then inl ServantAlreadyActive
    else inr (mkModelPoas (mp_names st) ((p, s, i) :: mp_active st));
  servant_to_id p s st :=
    match mp_find p s (mp_active st) with Some i => inr i | None => inl ServantNotActive end;
  deactivate_object p i st :=
    if existsb (mp_holds p i (mp_active st)) (mp_active st)
    then inr (mkModelPoas (mp_names st)
                (List.filter (λ e, negb (mp_holds p i (mp_active st) e)) (mp_active st)))
    else inl ObjectNotActive;
  id_to_reference p i st :=
    match find (mp_oid p i) (mp_active st) with
    | Some e => inr (Z.to_N e.1.2) | None => inl ObjectNotActive end;
  create_reference_with_id p i r := N.of_nat (String.length (p +:+ i)) }.

Lemma mp_servant_spec p s e : mp_servant p s e = true ↔ e.1 = (p, s).
Proof.
  destruct e as [[q t] i]. unfold mp_servant. simpl. rewrite andb_true_iff, String.eqb_eq, Z.eqb_eq.
  split; [by intros [-> ->]|by intros [= -> ->]].
Qed.

Lemma mp_find_filter f p s l :
  (∀ i, f (p, s, i) = true) → mp_find p s (List.filter f l) = mp_find p s l.
Proof.
  intros Hf. induction l as [|[[q t] j] l IH]; [done|]. unfold mp_find in *. simpl.
  destruct (mp_servant p s (q, t, j)) eqn:E; simpl.
  - pose proof E as E'. apply mp_servant_spec in E'. simpl in E'. simplify_eq.
    rewrite Hf. simpl. by rewrite E.
  - destruct (f (q, t, j)); simpl; [|done]. by rewrite E.
Qed.

Lemma mp_find_filter_none f p s l :
  (∀ i, f (p, s, i) = false) → mp_find p s (List.filter f l) = None.
Proof.
  intros Hf. induction l as [|[[q t] j] l IH]; [done|]. unfold mp_find in *. simpl.
  destruct (f (q, t, j)) eqn:Ef; [|done]. simpl.
  destruct (mp_servant p s (q, t, j)) eqn:E; [|done].
  apply mp_servant_spec in E. simpl in E. simplify_eq. by rewrite Hf in Ef.
Qed.

Lemma mp_find_holds p s i l :
  mp_find p s l = Some i → existsb (mp_holds p i l) l = true.
Proof.
  intros Hf. apply existsb_exists. pose proof Hf as Hf'. unfold mp_find in Hf.
  destruct (find (mp_servant p s) l) as [e|] eqn:E; [|done].
  apply find_some in E as [Hin He]. exists e. split; [done|]. unfold mp_holds.
  apply mp_servant_spec in He. rewrite He. simpl. rewrite Hf'. simpl. by rewrite !String.eqb_refl.
Qed.

Lemma mp_parse_iorstr o : mp_parse (mp_iorstr o) = inr (Some o).
Proof.
  unfold mp_parse, mp_iorstr. str_simp.
  destruct (show_N_spec 16 o ltac:(done)) as (_ & _ & Hr). specialize (Hr "" eq_refl).
  rewrite str_app_nil_r in Hr. by rewrite Hr, String.eqb_refl.
Qed.

#[export] Instance model_OrbLaws : OrbLaws.
Proof.
  split; simpl.
  - apply mp_parse_iorstr.
  - done.
  - intros o. unfold mp_iorstr, no_space. rewrite str_forall_app.
    apply andb_true_iff; split; [done|]. by apply show_N_no_space.
  - apply String.eqb_eq.
  - intros p i s st st'. do 2 (case_match; [done|]). intros [= <-]. unfold mp_find. simpl.
    by rewrite (proj2 (mp_servant_spec p s (p, s, i)) eq_refl).
  - intros p i s st st' p' s'. do 2 (case_match; [done|]). intros [= <-] Hne. simpl.
    unfold mp_find. simpl. destruct (mp_servant p' s' (p, s, i)) eqn:E; [|done].
    apply mp_servant_spec in E. simpl in E. congruence.
  - intros p i s st e. repeat case_match; intros; simplify_eq; auto.
  - intros p s st e. case_match; intros; simplify_eq; auto.
  - intros p i s st. case_match eqn:E; [|done]. intros [= ->].
    rewrite (mp_find_holds _ _ _ _ E). eexists. split; [done|]. simpl. split.
    + rewrite mp_find_filter_none; [done|]. intros j. unfold mp_holds. simpl.
      by rewrite E, !String.eqb_refl.
    + intros p' s' Hne. rewrite mp_find_filter; [done|]. intros j. unfold mp_holds. simpl.
      destruct (String.eqb_spec p' p) as [->|]; [|done]. destruct Hne as [|Hne]; [done|]. simpl.
      destruct (mp_find p s' (mp_active st)) as [k|]; [|done].
      destruct (String.eqb_spec k i) as [->|]; [|done]. by destruct Hne.
  - intros n st st' p s i. case_match; [done|]. by intros [= <-].
  - intros p i s st st' j. case_match; [done|]. case_match eqn:E; [done|]. intros _.
    destruct (mp_find p s (mp_active st)) as [k|] eqn:Ef; [|done]. exfalso. unfold mp_find in Ef.
    destruct (find (mp_servant p s) (mp_active st)) as [x|] eqn:Ex; [|done].
    apply find_some in Ex as [Hin Hx]. apply not_true_iff_false in E. apply E, existsb_exists. by exists x.
Qed.

(** An initial world with an empty log. *)
Definition model_world : world :=
  mkWorld (Some "") false [] [] false [] (mkModelPoas [] []) (1000%Z, 0%Z) 0.

(** Events and references of the model. *)
Definition ev (a : model_any) : Any := a.
Definition obj (o : N) : Object := o.
