(* ===== verification/Filter.v ===== *)
(** * Filter: event filters (src/Filter.h, src/Filter.cc)

    A filter decides whether an event enters the queue of a channel. *)

From S2P Require Import Prelude Monad CxxMap Stream Corba ModelOrb.

Local Open Scope string_scope.

Section filter.
Context `{OO : OrbOps}.

(** The two implementations of the abstract class [Filter].  The kind is the value of a cast
    of a [long], so it need not be the code of a [TCKind]. *)
Inductive Filter := FilterByTCKind (_kind : Z) | FilterByRepositoryId (_rid : string).

(** [keep(event)]; [None] is a failed [assert]. *)
Definition keep (f : Filter) (event : Any) : option bool :=
  match f with
  | FilterByTCKind kind => Some (kind_code (any_kind event) =? kind)%Z
  | FilterByRepositoryId rid =>
      match any_kind event with
      | np_tk_indirect => None
      | tk_objref | tk_struct | tk_union | tk_enum | tk_alias | tk_except =>
          Some (strMatch rid (any_id event))
      | tk_sequence | tk_array
      | tk_null | tk_void | tk_short | tk_long | tk_ushort | tk_ulong | tk_float | tk_double
      | tk_boolean | tk_char | tk_octet | tk_any | tk_TypeCode | tk_Principal | tk_string
      | tk_longlong | tk_ulonglong | tk_longdouble | tk_wchar | tk_wstring | tk_fixed
      | tk_value | tk_value_box | tk_native | tk_abstract_interface | tk_local_interface =>
          Some false
      end
  end.

Definition output_filter (f : Filter) : string :=
  match f with
  | FilterByTCKind kind => nl +:+ " FilterKind=" +:+ show_Z kind
  | FilterByRepositoryId rid => nl +:+ " FilterId=" +:+ rid
  end.

(** Kinds whose type codes have a repository id. *)
Definition has_repository_id (k : TCKind) : bool :=
  match k with
  | tk_objref | tk_struct | tk_union | tk_enum | tk_alias | tk_except => true
  | _ => false
  end.

(** The events a queue with this filter lets in. *)
Definition keeps (f : option Filter) (event : Any) : bool :=
  match f with
  | None => true
  | Some f => match keep f event with Some b => b | None => false end
  end.

(** Events an ORB delivers: the indirect type code is internal to omniORB. *)
Definition well_typed (event : Any) : bool :=
  match any_kind event with np_tk_indirect => false | _ => true end.

Lemma kind_code_inj k1 k2 : kind_code k1 = kind_code k2 → k1 = k2.
Proof. destruct k1, k2; simpl; intros E; first [done|discriminate E]. Qed.

Lemma keep_well_typed f event : well_typed event = true → keep f event = Some (keeps (Some f) event).
Proof. unfold well_typed, keeps. destruct f; simpl; [done|]. by destruct (any_kind event). Qed.

(** What the filters let in.  By kind: exactly the events of that kind.  By repository id:
    exactly the events whose type has a repository id, equal to the filter's; every other
    event is discarded. *)
Theorem filter_keeps `{!OrbLaws} event :
  well_typed event = true →
  (∀ k, keep (FilterByTCKind (kind_code k)) event = Some true ↔ any_kind event = k) ∧
  (∀ rid, keep (FilterByRepositoryId rid) event = Some true ↔
          has_repository_id (any_kind event) = true ∧ any_id event = rid) ∧
  (∀ f, is_Some (keep f event)).
Proof.
  intros Hw. split_and!.
  - intros k. simpl. split.
    + intros [= E]. apply Z.eqb_eq in E. by apply kind_code_inj.
    + intros ->. by rewrite Z.eqb_refl.
  - intros rid. unfold well_typed in Hw. simpl.
    destruct (any_kind event); simpl; try done;
      (split; [intros [= E]; by apply strMatch_spec in E|]);
      intros [? <-]; first [done | by rewrite (proj2 (strMatch_spec _ _) eq_refl)].
  - intros f. rewrite keep_well_typed by done. by eexists.
Qed.
End filter.

Lemma filter_keeps_witness :
  well_typed (ev (AStruct "IDL:a:1.0")) = true ∧
  keep (FilterByRepositoryId "IDL:a:1.0") (ev (AStruct "IDL:a:1.0")) = Some true.
Proof.
  split; [reflexivity|].
  apply (filter_keeps (ev (AStruct "IDL:a:1.0")) eq_refl). split; reflexivity.
Defined.
