(* ===== verification/EventQueue.v ===== *)
(** * EventQueue: the circular buffer of a channel (src/EventQueue.h, src/EventQueue.cc)

    The buffer holds pointers to events on the heap; writing over a slot frees the event it
    pointed to.  The abstract queue is the list of every event that passed the filter, and a
    reader is a position in it. *)

From S2P Require Import Prelude Monad CxxMap Stream Corba Filter.

Local Open Scope Z_scope.

(** Events on the heap, by address. *)
Abbreviation heap := (gmap N Any).

Section queue.
Context `{OO : OrbOps}.

(** ** The code *)

Record EventQueue := mkEventQueue {
  _next : Z;                    (* the next slot to be written *)
  _size : Z;
  _queue : list (option N);     (* CORBA::Any**; None is NULL *)
  _filter : option Filter }.

(** [EventQueue(long size)]; [None]: [assert(_size>1)] fails. *)
Definition new_EventQueue (size : Z) : option EventQueue :=
  let s := size + 1 in
  if 1 <? s then Some (mkEventQueue 0 s (replicate (Z.to_nat s) None) None) else None.

Definition setFilter (f : Filter) (q : EventQueue) : EventQueue :=
  mkEventQueue (_next q) (_size q) (_queue q) (Some f).

(** [delete p] of a pointer that may be NULL. *)
Definition delete_ptr (p : option N) (h : heap) : heap :=
  match p with Some a => delete a h | None => h end.

(** [append(event)]; [None]: a dangling pointer is read, or an [assert] fails. *)
Definition append (event : N) (q : EventQueue) (h : heap) : option (EventQueue * heap) :=
  kept ← match _filter q with
         | None => Some true
         | Some f => a ← h !! event; keep f a
         end;
  if (kept : bool) then
    old ← _queue q !! Z.to_nat (_next q);
    Some (mkEventQueue (Z.rem (_next q + 1) (_size q)) (_size q)
            (<[Z.to_nat (_next q) := Some event]> (_queue q)) (_filter q),
          delete_ptr old h)
  else Some (q, h).

(** [~EventQueue()] *)
Definition destroy_EventQueue (q : EventQueue) (h : heap) : heap :=
  foldl (λ h p, delete_ptr p h) h (_queue q).

Record Reader := mkReader { r_next : Z }.

(** The index of a reader is an [int]. *)
Definition new_Reader (q : EventQueue) : Reader := mkReader (i32 (_next q)).

Definition moreEvents (q : EventQueue) (r : Reader) : bool := negb (r_next r =? _next q).

Definition nextEvent (q : EventQueue) (r : Reader) : option N * Reader :=
  (default None (_queue q !! Z.to_nat (r_next r)),
   mkReader (i32 (Z.rem (i32 (r_next r + 1)) (_size q)))).

(** ** The abstract queue *)

Definition slot (q : EventQueue) (i : nat) : nat := (i mod Z.to_nat (_size q))%nat.

(** [log]: the events that passed the filter, oldest first.  [rej]: how many did not. *)
Record Rep (q : EventQueue) (h : heap) (log : list Any) (rej : nat) : Prop := {
  rep_size : 2 ≤ _size q;
  rep_int : _size q ≤ INT_MAX;
  rep_slots : Z.of_nat (length (_queue q)) = _size q;
  rep_next : _next q = Z.of_nat (length log) `mod` _size q;
  rep_log : ∀ i a, log !! i = Some a → Z.of_nat (length log) - _size q ≤ Z.of_nat i →
    ∃ p, _queue q !! slot q i = Some (Some p) ∧ h !! p = Some a;
  rep_empty : ∀ j, (length log ≤ j)%nat → Z.of_nat j < _size q → _queue q !! j = Some None;
  rep_nodup : ∀ i j p, _queue q !! i = Some (Some p) → _queue q !! j = Some (Some p) → i = j;
  rep_heap : size h = (length log `min` Z.to_nat (_size q) + rej)%nat }.

(** A reader at position [p] of the log.  It is never [_size] or more behind. *)
Record reader_at (q : EventQueue) (log : list Any) (r : Reader) (p : nat) : Prop := {
  at_le : (p ≤ length log)%nat;
  at_lag : Z.of_nat (length log) - Z.of_nat p < _size q;
  at_next : r_next r = Z.of_nat p `mod` _size q }.

Lemma next_mod n s : 0 < s → Z.rem (Z.of_nat n `mod` s + 1) s = Z.of_nat (S n) `mod` s.
Proof.
  intros Hs. pose proof (Z.mod_pos_bound (Z.of_nat n) s Hs).
  rewrite Z.rem_mod_nonneg by lia. rewrite Zplus_mod_idemp_l. f_equal. lia.
Qed.

Lemma slot_Z q i : 0 < _size q → Z.of_nat (slot q i) = Z.of_nat i `mod` _size q.
Proof.
  intros Hs. unfold slot. rewrite Nat2Z.inj_mod, Z2Nat.id by lia. done.
Qed.

Lemma slot_eq q i j :
  0 < _size q → slot q i = slot q j → Z.abs (Z.of_nat i - Z.of_nat j) < _size q → i = j.
Proof.
  intros Hs E Hd. assert (Z.of_nat (slot q i) = Z.of_nat (slot q j)) as E' by lia.
  rewrite !slot_Z in E' by done.
  pose proof (Z.div_mod (Z.of_nat i) (_size q) ltac:(lia)).
  pose proof (Z.div_mod (Z.of_nat j) (_size q) ltac:(lia)).
  assert (Z.of_nat i / _size q = Z.of_nat j / _size q) by nia. nia.
Qed.

Lemma rep_new size q :
  new_EventQueue size = Some q → size < INT_MAX → Rep q ∅ [] 0.
Proof.
  unfold new_EventQueue. case_match; [|done]. intros [= <-] Hi. boolify.
  split; simpl; try lia; try done.
  - rewrite length_replicate. lia.
  - intros j _ Hj. apply lookup_replicate_2. lia.
  - intros i j p Hl. apply lookup_replicate in Hl as [? ?]. done.
Qed.

Lemma rep_setFilter f q h log rej : Rep q h log rej → Rep (setFilter f q) h log rej.
Proof. intros []. by split. Qed.

(** ** Each operation implements its abstract counterpart *)

Lemma slot_lt q i : 0 < _size q → (slot q i < Z.to_nat (_size q))%nat.
Proof. intros Hs. apply Nat.mod_upper_bound. lia. Qed.

Lemma rep_next_slot q h log rej :
  Rep q h log rej → Z.to_nat (_next q) = slot q (length log).
Proof.
  intros R. rewrite (rep_next _ _ _ _ R).
  pose proof (slot_Z q (length log) ltac:(pose proof (rep_size _ _ _ _ R); lia)). lia.
Qed.

(** What the slot about to be overwritten holds. *)
Lemma rep_old q h log rej :
  Rep q h log rej →
  if decide (Z.of_nat (length log) < _size q)
  then _queue q !! Z.to_nat (_next q) = Some None
  else ∃ p a, _queue q !! Z.to_nat (_next q) = Some (Some p) ∧ h !! p = Some a.
Proof.
  intros R. pose proof R as [Hs Hi Hsl Hn Hl He Hd Hh]. rewrite (rep_next_slot _ _ _ _ R).
  case_decide as Hlen.
  - apply He; [|].
    + unfold slot. rewrite Nat.mod_small by lia. done.
    + unfold slot. rewrite Nat.mod_small by lia. done.
  - destruct (lookup_lt_is_Some_2 log (length log - Z.to_nat (_size q))%nat) as [a Ha]; [lia|].
    destruct (Hl _ _ Ha ltac:(lia)) as (p & Hp & Hpa). exists p, a. split; [|done].
    rewrite <- Hp. f_equal. unfold slot.
    assert (length log = (length log - Z.to_nat (_size q)) + 1 * Z.to_nat (_size q))%nat as E by lia.
    rewrite E at 1. by rewrite Nat.Div0.mod_add.
Qed.

Definition fresh_in (e : N) (q : EventQueue) : Prop := ∀ i, _queue q !! i ≠ Some (Some e).

(** The event is on the heap, but not in the queue. *)
Definition offered (q : EventQueue) (h : heap) (log : list Any) (rej : nat) (e : N) (a : Any) : Prop :=
  ∃ h0, Rep q h0 log rej ∧ h0 !! e = None ∧ fresh_in e q ∧ h = <[e := a]> h0.

(** The slots of the events that stay, and of the one that comes. *)
Lemma append_slots q h0 log rej e a old :
  Rep q h0 log rej → h0 !! e = None → fresh_in e q → _queue q !! Z.to_nat (_next q) = Some old →
  ∀ i b, (log ++ [a]) !! i = Some b → (length log + 1 ≤ i + Z.to_nat (_size q))%nat →
  ∃ p, <[Z.to_nat (_next q) := Some e]> (_queue q) !! slot q i = Some (Some p) ∧
       delete_ptr old (<[e := a]> h0) !! p = Some b.
Proof.
  intros R Hfresh Hq Eo i b Hb Hge. pose proof R as [Hs Hi Hsl Hn Hl He Hd Hh].
  pose proof (rep_next_slot _ _ _ _ R) as Hslot. rewrite Hslot in *.
  destruct (decide (i = length log)) as [->|Hne].
  - rewrite list_lookup_middle in Hb by done. injection Hb as <-. exists e. split.
    + apply list_lookup_insert_eq. by eapply lookup_lt_Some.
    + destruct old as [o|]; simpl; [|by rewrite lookup_insert_eq].
      rewrite lookup_delete_ne, lookup_insert_eq; [done|]. intros ->. by apply (Hq _ Eo).
  - assert (i < length log)%nat as Hi'.
    { apply lookup_lt_Some in Hb. rewrite length_app in Hb. simpl in Hb. lia. }
    rewrite lookup_app_l in Hb by done. destruct (Hl i b Hb ltac:(lia)) as (p & Hp & Hpb). exists p. split.
    + rewrite list_lookup_insert_ne; [done|]. intros E. apply slot_eq in E; lia.
    + assert (p ≠ e) as Hpe by (intros ->; congruence).
      destruct old as [o|]; simpl; [|by rewrite lookup_insert_ne].
      rewrite lookup_delete_ne, lookup_insert_ne; [done|done|]. intros ->.
      pose proof (Hd _ _ _ Eo Hp) as E. apply slot_eq in E; lia.
Qed.

Lemma append_kept q h log rej e a :
  offered q h log rej e a →
  match _filter q with None => True | Some f => keep f a = Some true end →
  ∃ q' h', append e q h = Some (q', h') ∧ Rep q' h' (log ++ [a]) rej ∧
           _size q' = _size q ∧ _filter q' = _filter q.
Proof.
  intros (h0 & R & Hfresh & Hq & ->) Hk.
  pose proof (rep_old _ _ _ _ R) as Hold. pose proof R as [Hs Hi Hsl Hn Hl He Hd Hh].
  unfold append.
  assert (match _filter q with
          | None => Some true
          | Some f => a0 ← <[e:=a]> h0 !! e; keep f a0 end = Some true) as ->.
  { destruct (_filter q); [|done]. rewrite lookup_insert_eq. done. }
  simpl.
  assert (Hlt : (Z.to_nat (_next q) < length (_queue q))%nat).
  { rewrite Hn. pose proof (Z.mod_pos_bound (Z.of_nat (length log)) (_size q)). lia. }
  destruct (lookup_lt_is_Some_2 _ _ Hlt) as [old Eo]. rewrite Eo. simpl.
  eexists _, _. split; [done|]. split; [|done].
  pose proof (rep_next_slot _ _ _ _ R) as Hslot.
  assert (Hsame : ∀ i, slot (mkEventQueue (Z.rem (_next q + 1) (_size q)) (_size q)
            (<[Z.to_nat (_next q):=Some e]> (_queue q)) (_filter q)) i = slot q i) by done.
  split; simpl; rewrite ?length_insert, ?length_app; try done.
  - rewrite Hn, next_mod by lia. simpl. do 2 f_equal. lia.
  - intros i b Hb Hge. rewrite Hsame. simpl in Hge. apply (append_slots q h0 log rej e a old R Hfresh Hq Eo); [done|lia].
  - intros j Hj Hjs. simpl in Hj. rewrite list_lookup_insert_ne; [apply He; lia|].
    rewrite ?Hslot. unfold slot. rewrite Nat.mod_small by lia. lia.
  - intros i j p Hip Hjp.
    rewrite list_lookup_insert_Some in Hip, Hjp.
    destruct Hip as [(Ei & [= Ep] & _)|[_ Hip]], Hjp as [(Ej & [= Ep'] & _)|[_ Hjp]].
    + congruence.
    + subst p. by destruct (Hq j).
    + subst p. by destruct (Hq i).
    + by apply (Hd _ _ p).
  - case_decide as Hlen.
    + rewrite Hold in Eo. injection Eo as <-. simpl.
      rewrite map_size_insert_None by done. rewrite Hh. lia.
    + destruct Hold as (p & b & Hp & Hpb). rewrite Hp in Eo. injection Eo as <-. simpl.
      rewrite map_size_delete_Some, map_size_insert_None, Hh; [lia|done|].
      rewrite lookup_insert_ne; [by eexists|]. intros ->. congruence.
Qed.

(** A rejected event is neither stored nor freed. *)
Lemma append_rejected q h log rej e a f :
  offered q h log rej e a → _filter q = Some f → keep f a = Some false →
  append e q h = Some (q, h) ∧ Rep q h log (S rej).
Proof.
  intros (h0 & R & Hfresh & Hq & ->) Hf Hk. unfold append. rewrite Hf, lookup_insert_eq. simpl.
  rewrite Hk. split; [done|]. pose proof R as [Hs Hi Hsl Hn Hl He Hd Hh]. split; try done.
  - intros i b Hb Hge. destruct (Hl i b Hb Hge) as (p & Hp & Hpb). exists p. split; [done|].
    rewrite lookup_insert_ne; [done|]. intros ->. congruence.
  - rewrite map_size_insert_None by done. lia.
Qed.

(** Readers. *)
Lemma new_reader_at q h log rej : Rep q h log rej → reader_at q log (new_Reader q) (length log).
Proof.
  intros R. pose proof R as [Hs Hi Hsl Hn Hl He Hd Hh]. split; simpl; [lia..|].
  rewrite Hn. pose proof (Z.mod_pos_bound (Z.of_nat (length log)) (_size q)).
  rewrite i32_id; unfold INT_MAX in *; lia.
Qed.

Lemma moreEvents_spec q h log rej r p :
  Rep q h log rej → reader_at q log r p → moreEvents q r = bool_decide (p < length log)%nat.
Proof.
  intros R [Hle Hlag Hr]. pose proof (rep_size _ _ _ _ R). unfold moreEvents.
  rewrite Hr, (rep_next _ _ _ _ R). apply eq_bool_prop_intro.
  rewrite bool_decide_spec, negb_True, Is_true_true, Z.eqb_eq. split.
  - intros Hne. destruct (decide (p = length log)) as [->|]; [done|lia].
  - intros Hlt E. rewrite <- !slot_Z in E by lia. apply Nat2Z.inj, slot_eq in E; lia.
Qed.

Lemma nextEvent_spec q h log rej r p :
  Rep q h log rej → reader_at q log r p → (p < length log)%nat →
  ∃ e a, nextEvent q r = (Some e, (nextEvent q r).2) ∧ h !! e = Some a ∧ log !! p = Some a ∧
         reader_at q log (nextEvent q r).2 (S p).
Proof.
  intros R [Hle Hlag Hr] Hp. pose proof R as [Hs Hi Hsl Hn Hl He Hd Hh].
  destruct (lookup_lt_is_Some_2 _ _ Hp) as [a Ha].
  destruct (Hl _ _ Ha ltac:(lia)) as (e & Hq & Hea). exists e, a.
  assert (Hrs : Z.to_nat (r_next r) = slot q p).
  { rewrite Hr. pose proof (slot_Z q p ltac:(lia)). lia. }
  unfold nextEvent. rewrite Hrs, Hq. simpl. split_and!; try done.
  pose proof (Z.mod_pos_bound (Z.of_nat p) (_size q) ltac:(lia)).
  pose proof (Z.mod_pos_bound (Z.of_nat (S p)) (_size q) ltac:(lia)).
  split; [lia|lia|]. cbn [snd r_next]. rewrite Hr, (i32_id (_ + 1)) by (unfold INT_MAX in *; lia).
  rewrite next_mod by lia. apply i32_id. unfold INT_MAX in *; lia.
Qed.

(** Appending: a reader that falls [_size] behind is lapped, and skips to the end. *)
Definition lap (size : Z) (len p : nat) : nat :=
  if decide (Z.of_nat (S len) - Z.of_nat p < size) then p else S len.

Lemma append_reader q q' log a r p :
  0 < _size q → _size q' = _size q →
  reader_at q log r p → reader_at q' (log ++ [a]) r (lap (_size q) (length log) p).
Proof.
  intros Hs Hq [Hle Hlag Hr]. unfold lap. case_decide as Hd.
  - split; rewrite ?length_app; simpl; rewrite ?Hq; lia.
  - split; rewrite ?length_app; simpl; rewrite ?Hq; try lia.
    rewrite Hr. replace (Z.of_nat (S (length log))) with (Z.of_nat p + 1 * _size q) by lia.
    rewrite Z.mod_add by lia. done.
Qed.

(** The destructor. *)
Lemma delete_all_slots qs h :
  (∀ i j p, qs !! i = Some (Some p) → qs !! j = Some (Some p) → i = j) →
  (∀ i p, qs !! i = Some (Some p) → is_Some (h !! p)) →
  size (foldl (λ h p, delete_ptr p h) h qs) = (size h - length (omap id qs))%nat.
Proof.
  revert h. induction qs as [|o qs IH]; intros h Hd Hp; simpl; [lia|].
  destruct o as [p|]; simpl; rewrite IH; clear IH.
  - rewrite map_size_delete_Some by (by apply (Hp 0%nat)). change (list_omap (option N) N id qs) with (omap id qs). lia.
  - intros i j p' H1 H2. by apply Nat.succ_inj, (Hd (S i) (S j) p').
  - intros i p' H1. rewrite lookup_delete_ne; [by apply (Hp (S i))|]. intros ->.
    by specialize (Hd 0%nat (S i) p' eq_refl H1).
  - done.
  - intros i j p' H1 H2. by apply Nat.succ_inj, (Hd (S i) (S j) p').
  - intros i p' H1. by apply (Hp (S i)).
Qed.

(** Every slot that was written holds a pointer to the heap. *)
Lemma rep_slot q h log rej i :
  Rep q h log rej → (i < length log)%nat → (Z.of_nat i < _size q)%Z →
  ∃ p b, _queue q !! i = Some (Some p) ∧ h !! p = Some b.
Proof.
  intros R Hlt Hi. pose proof R as [Hs Hint Hsl Hn Hl He Hd Hh].
  set (n := Z.to_nat (_size q)).
  set (k := ((length log - 1 - i) / n)%nat). set (j := (i + k * n)%nat).
  assert (Hk : (k * n ≤ length log - 1 - i)%nat).
  { unfold k. rewrite Nat.mul_comm. apply Nat.Div0.mul_div_le. }
  assert (Hk2 : (length log - 1 - i < (k + 1) * n)%nat).
  { unfold k. pose proof (Nat.mul_succ_div_gt (length log - 1 - i) n ltac:(lia)). lia. }
  assert (Hj : slot q j = i).
  { unfold slot, j. fold n. rewrite Nat.Div0.mod_add, Nat.mod_small; lia. }
  destruct (lookup_lt_is_Some_2 log j) as [b Hb]; [unfold j; lia|].
  destruct (Hl _ _ Hb) as (p & Hp & Hpb); [unfold j, n in *; lia|].
  rewrite Hj in Hp. eauto.
Qed.

Lemma offered_fresh q h log rej a :
  Rep q h log rej → offered q (<[fresh (dom h) := a]> h) log rej (fresh (dom h)) a.
Proof.
  intros R. exists h. pose proof (is_fresh (dom h)) as Hf. apply not_elem_of_dom in Hf.
  split_and!; try done. intros i Hi. pose proof R as [Hs Hint Hsl Hn Hl He Hd Hh].
  assert (Hlt : (i < length (_queue q))%nat) by (by eapply lookup_lt_Some).
  destruct (decide (length log ≤ i)%nat) as [Hle|Hnle].
  { rewrite He in Hi by lia. done. }
  destruct (rep_slot _ _ _ _ i R) as (p & b & Hp & Hpb); [lia..|]. congruence.
Qed.
End queue.
