(* ===== verification/QueueRefine.v ===== *)
(** * QueueRefine: the event queue refines the list of events

    Any interleaving of appends, new readers and reads of the circular buffer behaves as the
    same commands on the list of the events that passed the filter ([run_refines]); from which
    delivery in order, the loss of exactly [_size] events per lap, and the memory bound. *)

From Stdlib Require Import Sorted.
From S2P Require Import Prelude Monad CxxMap Stream Corba ModelOrb Filter EventQueue.

Section system.
Context `{OO : OrbOps}.

(** A copy of an event is appended; a reader is created at the end of the queue; reader [i]
    takes a copy of the next event, if there are more. *)
Inductive qcmd := Send (event : Any) | NewReader | Poll (i : nat).

Record qstate := mkQstate { s_queue : EventQueue; s_heap : heap; s_readers : list Reader }.

Definition qstep (c : qcmd) (s : qstate) : option (qstate * option (nat * Any)) :=
  match c with
  | Send a =>
      let e := fresh (dom (s_heap s)) in
      qh ← append e (s_queue s) (<[e := a]> (s_heap s));
      Some (mkQstate qh.1 qh.2 (s_readers s), None)
  | NewReader =>
      Some (mkQstate (s_queue s) (s_heap s) (s_readers s ++ [new_Reader (s_queue s)]), None)
  | Poll i =>
      r ← s_readers s !! i;
      if moreEvents (s_queue s) r then
        let (e, r') := nextEvent (s_queue s) r in
        p ← e; a ← s_heap s !! p;
        Some (mkQstate (s_queue s) (s_heap s) (<[i := r']> (s_readers s)), Some (i, a))
      else Some (s, None)
  end.

Fixpoint qrun (l : list qcmd) (s : qstate) : option (qstate * list (nat * Any)) :=
  match l with
  | [] => Some (s, [])
  | c :: l' =>
      so ← qstep c s;
      sr ← qrun l' so.1;
      Some (sr.1, option_list so.2 ++ sr.2)
  end.

Definition init_queue (size : Z) (f : option Filter) : option qstate :=
  q ← new_EventQueue size;
  Some (mkQstate (match f with None => q | Some f => setFilter f q end) ∅ []).

(** ** The specification *)

(** A reader: where it started, what it got, and how many times it was lapped. *)
Record areader := mkAreader { ar_start : nat; ar_got : list Any; ar_laps : nat }.

Definition ar_pos (size : Z) (r : areader) : nat :=
  (ar_start r + length (ar_got r) + ar_laps r * Z.to_nat size)%nat.

Record astate := mkAstate { a_log : list Any; a_readers : list areader }.

Definition alap (size : Z) (len : nat) (r : areader) : areader :=
  if decide (Z.of_nat (S len) - Z.of_nat (ar_pos size r) < size)%Z then r
  else mkAreader (ar_start r) (ar_got r) (S (ar_laps r)).

Definition astep (size : Z) (f : option Filter) (c : qcmd) (s : astate)
    : option (astate * option (nat * Any)) :=
  match c with
  | Send a =>
      if keeps f a
      then Some (mkAstate (a_log s ++ [a]) (alap size (length (a_log s)) <$> a_readers s), None)
      else Some (s, None)
  | NewReader =>
      Some (mkAstate (a_log s) (a_readers s ++ [mkAreader (length (a_log s)) [] 0]), None)
  | Poll i =>
      r ← a_readers s !! i;
      Some (match a_log s !! ar_pos size r with
            | Some a =>
                (mkAstate (a_log s)
                   (<[i := mkAreader (ar_start r) (ar_got r ++ [a]) (ar_laps r)]> (a_readers s)),
                 Some (i, a))
            | None => (s, None)
            end)
  end.

Fixpoint arun (size : Z) (f : option Filter) (l : list qcmd) (s : astate)
    : option (astate * list (nat * Any)) :=
  match l with
  | [] => Some (s, [])
  | c :: l' =>
      so ← astep size f c s;
      sr ← arun size f l' so.1;
      Some (sr.1, option_list so.2 ++ sr.2)
  end.

Definition kept_events (f : option Filter) (l : list qcmd) : list Any :=
  omap (λ c, match c with Send a => if keeps f a then Some a else None | _ => None end) l.

Definition rejected_events (f : option Filter) (l : list qcmd) : nat :=
  length (omap (λ c, match c with Send a => if keeps f a then None else Some a | _ => None end) l).

(** ** Simulation *)

Definition good_cmd (c : qcmd) : bool :=
  match c with Send a => well_typed a | _ => true end.

Record Sim (size : Z) (f : option Filter) (rej : nat) (s : qstate) (a : astate) : Prop := {
  sim_size : _size (s_queue s) = size;
  sim_filter : _filter (s_queue s) = f;
  sim_rep : Rep (s_queue s) (s_heap s) (a_log a) rej;
  sim_readers : Forall2 (λ r ar, reader_at (s_queue s) (a_log a) r (ar_pos size ar))
                  (s_readers s) (a_readers a) }.

Definition sim_out (size : Z) (f : option Filter) (rej : nat)
    (x : option (qstate * option (nat * Any))) (y : option (astate * option (nat * Any))) : Prop :=
  match x, y with
  | Some (s, o), Some (a, o') => o = o' ∧ Sim size f rej s a
  | None, None => True
  | _, _ => False
  end.

Lemma pointers_length (qs : list (option N)) k :
  (∀ i, (i < k)%nat → ∃ p, qs !! i = Some (Some p)) →
  (∀ i, (k ≤ i)%nat → qs !! i = Some None ∨ qs !! i = None) →
  length (omap id qs) = k.
Proof.
  revert k. induction qs as [|o qs IH]; intros k H1 H2.
  - destruct k; [done|]. by destruct (H1 0%nat ltac:(lia)).
  - change (omap id (o :: qs)) with (match o with Some p => p :: omap id qs | None => omap id qs end).
    destruct k as [|k].
    + destruct (H2 0%nat ltac:(lia)) as [[= ->]|?]; [|done].
      apply IH; intros i Hi; [lia|]. by apply (H2 (S i)); lia.
    + destruct (H1 0%nat ltac:(lia)) as [p [= ->]]. simpl. f_equal.
      apply IH; intros i Hi; [apply (H1 (S i)); lia|apply (H2 (S i)); lia].
Qed.

Lemma rep_pointers q h log rej :
  Rep q h log rej → length (omap id (_queue q)) = (length log `min` Z.to_nat (_size q))%nat.
Proof.
  intros R. pose proof R as [Hs Hint Hsl Hn Hl He Hd Hh]. apply pointers_length.
  - intros i Hi. destruct (rep_slot _ _ _ _ i R) as (p & b & Hp & Hpb); [lia..|]. eauto.
  - intros i Hi. destruct (decide ((Z.of_nat i < _size q)%Z)).
    + left. apply He; lia.
    + right. apply lookup_ge_None. lia.
Qed.

(** Destroying the queue frees every event it holds, once, and no other. *)
Lemma destroy_rep q h log rej : Rep q h log rej → size (destroy_EventQueue q h) = rej.
Proof.
  intros R. pose proof R as [Hs Hint Hsl Hn Hl He Hd Hh]. unfold destroy_EventQueue.
  rewrite delete_all_slots, (rep_pointers _ _ _ _ R), Hh; [lia|exact Hd|].
  intros i p Hi. destruct (decide (length log ≤ i)%nat) as [Hle|Hnle].
  - apply lookup_lt_Some in Hi as Hlt. rewrite He in Hi by lia. done.
  - apply lookup_lt_Some in Hi as Hlt.
    destruct (rep_slot _ _ _ _ i R) as (p' & b & Hp & Hpb); [lia..|].
    rewrite Hi in Hp. injection Hp as <-. by eexists.
Qed.

Lemma alap_pos size len r :
  (0 < size)%Z → (ar_pos size r ≤ len)%nat → (Z.of_nat len - Z.of_nat (ar_pos size r) < size)%Z →
  ar_pos size (alap size len r) = lap size len (ar_pos size r).
Proof.
  intros Hs Hle Hlag. unfold alap, lap. case_decide; [done|]. unfold ar_pos in *. simpl. lia.
Qed.

Lemma step_sim size f rej c s a :
  good_cmd c = true → Sim size f rej s a →
  ∃ rej', sim_out size f rej' (qstep c s) (astep size f c a) ∧
          rej' = (rej + rejected_events f [c])%nat.
Proof.
  intros Hg [Hsz Hf R Hrs]. pose proof (rep_size _ _ _ _ R) as Hs2.
  destruct c as [ev| |i]; cbn [good_cmd] in Hg.
  - (* Send *)
    pose proof (offered_fresh _ _ _ _ ev R) as Ho. set (e := fresh (dom (s_heap s))) in *.
    assert (Hkeep : match f with None => True | Some f' => keep f' ev = Some (keeps f ev) end).
    { destruct f; [by apply keep_well_typed|done]. }
    unfold rejected_events. simpl.
    destruct (keeps f ev) eqn:Hk; simpl.
    + destruct (append_kept _ _ _ _ _ _ Ho) as (q' & h' & Ha & R' & Hsz' & Hf').
      { rewrite Hf. by destruct f. }
      unfold qstep. fold e. rewrite Ha. simpl. exists rej. split; [|lia]. split; [done|].
      split; simpl; try congruence. apply Forall2_fmap_r.
      eapply Forall2_impl; [exact Hrs|]. intros r ar Hr. unfold compose.
      pose proof Hr as [Hle Hlag _].
      rewrite alap_pos by lia. rewrite <- Hsz. apply append_reader; try done; [lia|].
      by rewrite Hsz.
    + destruct f as [f'|]; [|done].
      destruct (append_rejected _ _ _ _ _ _ _ Ho Hf Hkeep) as [Ha R'].
      unfold qstep. fold e. rewrite Ha. simpl. exists (S rej). split; [|lia]. split; [done|].
      by split.
  - (* NewReader *)
    exists rej. split; [|unfold rejected_events; simpl; lia]. simpl. split; [done|].
    split; simpl; try done. apply Forall2_app; [done|]. constructor; [|done].
    unfold ar_pos. simpl. rewrite Nat.add_0_r, Nat.add_0_r. by eapply new_reader_at.
  - (* Poll *)
    exists rej. split; [|unfold rejected_events; simpl; lia]. cbn [qstep astep].
    destruct (s_readers s !! i) as [r|] eqn:Er; unfold mbind, option_bind.
    + destruct (Forall2_lookup_l _ _ _ _ _ Hrs Er) as (ar & Ear & Hat). rewrite Ear.
      rewrite (moreEvents_spec _ _ _ _ _ _ R Hat). case_bool_decide as Hlt.
      * destruct (nextEvent_spec _ _ _ _ _ _ R Hat Hlt) as (e & b & Hn & He & Hb & Hat').
        destruct (nextEvent (s_queue s) r) as [e' r']. cbn [fst snd] in Hn, Hat'. injection Hn as ->.
        unfold mbind, option_bind. rewrite He, Hb. cbn [sim_out]. split; [done|]. split; simpl; try done.
        apply Forall2_insert; [done|]. unfold ar_pos in *. simpl. rewrite length_app. simpl.
        replace (ar_start ar + (length (ar_got ar) + 1) + ar_laps ar * Z.to_nat size)%nat
          with (S (ar_start ar + length (ar_got ar) + ar_laps ar * Z.to_nat size)) by lia. done.
      * rewrite lookup_ge_None_2 by lia. done.
    + apply lookup_ge_None in Er.
      assert (a_readers a !! i = None) as ->; [|done].
      apply lookup_ge_None. by rewrite <- (Forall2_length _ _ _ Hrs).
Qed.

Lemma rejected_cons f c l :
  rejected_events f (c :: l) = (rejected_events f [c] + rejected_events f l)%nat.
Proof.
  unfold rejected_events. simpl. destruct c; simpl; [|done..]. by destruct (keeps f event).
Qed.

Lemma run_sim size f rej l s a :
  forallb good_cmd l = true → Sim size f rej s a →
  match qrun l s, arun size f l a with
  | Some (s', o), Some (a', o') => o = o' ∧ Sim size f (rej + rejected_events f l) s' a'
  | None, None => True
  | _, _ => False
  end.
Proof.
  revert rej s a. induction l as [|c l IH]; intros rej s a Hg HS.
  { simpl. split; [done|]. unfold rejected_events. simpl. by rewrite Nat.add_0_r. }
  simpl in Hg. apply andb_true_iff in Hg as [Hc Hg].
  destruct (step_sim size f rej c s a Hc HS) as (rej' & Ho & ->). simpl.
  destruct (qstep c s) as [[s1 o1]|], (astep size f c a) as [[a1 o2]|]; simpl in *; try done.
  destruct Ho as [-> HS1]. specialize (IH _ s1 a1 Hg HS1).
  destruct (qrun l s1) as [[s2 o3]|], (arun size f l a1) as [[a2 o4]|]; simpl; try done.
  destruct IH as [-> HS2]. split; [done|].
  by rewrite rejected_cons, Nat.add_assoc.
Qed.

Definition init_astate : astate := mkAstate [] [].

Lemma init_sim size f s :
  init_queue size f = Some s → (size < INT_MAX)%Z → Sim (size + 1) f 0 s init_astate.
Proof.
  unfold init_queue. intros Hi Hlt. destruct (new_EventQueue size) as [q|] eqn:E; [|done].
  simpl in Hi. injection Hi as <-. pose proof (rep_new _ _ E Hlt) as R.
  unfold new_EventQueue in E. case_match; [|done]. injection E as <-.
  destruct f; split; simpl; try done. by apply rep_setFilter.
Qed.

(** ** Invariants of the specification *)

Definition outs_of (i : nat) (o : list (nat * Any)) : list Any :=
  omap (λ p, if decide (p.1 = i) then Some p.2 else None) o.

Lemma outs_of_app i o1 o2 : outs_of i (o1 ++ o2) = outs_of i o1 ++ outs_of i o2.
Proof. apply omap_app. Qed.

(** A reader is not beyond the end, and less than [size] behind it. *)
Record ar_ok (size : Z) (log : list Any) (r : areader) : Prop := {
  ok_le : (ar_pos size r ≤ length log)%nat;
  ok_lag : (Z.of_nat (length log) - Z.of_nat (ar_pos size r) < size)%Z }.

Definition a_ok (size : Z) (a : astate) : Prop := Forall (ar_ok size (a_log a)) (a_readers a).

Lemma ar_ok_send size log r x :
  (0 < size)%Z → ar_ok size log r → ar_ok size (log ++ [x]) (alap size (length log) r).
Proof.
  intros Hs [Hle Hlag]. pose proof (alap_pos size (length log) r Hs Hle Hlag) as Hp.
  unfold lap in Hp. split; rewrite Hp, length_app; case_decide; simpl; lia.
Qed.

Lemma ar_ok_poll size log r x :
  log !! ar_pos size r = Some x → ar_ok size log r →
  ar_ok size log (mkAreader (ar_start r) (ar_got r ++ [x]) (ar_laps r)).
Proof.
  intros Hx [Hle Hlag]. pose proof (lookup_lt_Some _ _ _ Hx).
  unfold ar_pos in *. split; unfold ar_pos; simpl; rewrite length_app; simpl; lia.
Qed.

Lemma ar_ok_new size log : (0 < size)%Z → ar_ok size log (mkAreader (length log) [] 0).
Proof. intros Hs. split; unfold ar_pos; simpl; lia. Qed.

Lemma astep_ok size f c a a' o :
  (0 < size)%Z → astep size f c a = Some (a', o) → a_ok size a →
  a_ok size a' ∧ a_log a' = a_log a ++ kept_events f [c] ∧
  ∀ i ar', a_readers a' !! i = Some ar' →
    ar_got ar' = default [] (ar_got <$> a_readers a !! i) ++ outs_of i (option_list o).
Proof.
  intros Hs E Ha. unfold a_ok in *. destruct c as [x| |i]; simpl in E.
  - unfold kept_events. simpl. destruct (keeps f x); simplify_eq/=.
    + split_and!; [|done|].
      * apply Forall_fmap. eapply Forall_impl; [exact Ha|]. intros r Hr. by apply ar_ok_send.
      * intros i ar'. rewrite list_lookup_fmap. destruct (a_readers a !! i) as [r|]; simpl; [|done].
        intros [= <-]. rewrite app_nil_r. unfold alap. by case_decide.
    + split_and!; [done|by rewrite app_nil_r|]. intros i ar' ->. simpl. by rewrite app_nil_r.
  - simplify_eq/=. split_and!; [|by rewrite app_nil_r|].
    + apply Forall_app. split; [done|]. constructor; [by apply ar_ok_new|done].
    + intros i ar' Hi. rewrite app_nil_r. apply lookup_app_Some in Hi as [Hi|[Hle Hi]].
      * by rewrite Hi.
      * rewrite lookup_ge_None_2 by done. simpl.
        apply list_lookup_singleton_Some in Hi as [_ <-]. done.
  - destruct (a_readers a !! i) as [r|] eqn:Er; simpl in E; [|done].
    assert (Hr : ar_ok size (a_log a) r) by (eapply Forall_lookup_1; eauto).
    destruct (a_log a !! ar_pos size r) as [x|] eqn:Ex; simplify_eq/=.
    + split_and!; [|by rewrite app_nil_r|].
      * apply Forall_insert; [done|]. by apply ar_ok_poll.
      * intros j ar' Hj. apply list_lookup_insert_Some in Hj as [(<- & <- & _)|[Hne Hj]].
        -- rewrite Er. unfold outs_of. simpl. by rewrite decide_True.
        -- rewrite Hj. unfold outs_of. simpl. rewrite decide_False by done. by rewrite app_nil_r.
    + split_and!; [done|by rewrite app_nil_r|]. intros j ar' ->. simpl. by rewrite app_nil_r.
Qed.

Lemma kept_cons f c l : kept_events f (c :: l) = kept_events f [c] ++ kept_events f l.
Proof.
  unfold kept_events. simpl. destruct c; simpl; [|done..]. by destruct (keeps f event).
Qed.

Lemma arun_ok size f l a a' o :
  (0 < size)%Z → arun size f l a = Some (a', o) → a_ok size a →
  a_ok size a' ∧ a_log a' = a_log a ++ kept_events f l ∧
  ∀ i ar', a_readers a' !! i = Some ar' →
    ar_got ar' = default [] (ar_got <$> a_readers a !! i) ++ outs_of i o.
Proof.
  intros Hs. revert a o. induction l as [|c l IH]; intros a o E Ha.
  - simpl in E. simplify_eq. split_and!; [done|by rewrite app_nil_r|].
    intros i ar' ->. simpl. by rewrite app_nil_r.
  - simpl in E. destruct (astep size f c a) as [[a1 o1]|] eqn:E1; simpl in E; [|done].
    destruct (arun size f l a1) as [[a2 o2]|] eqn:E2; simpl in E; [|done]. simplify_eq.
    destruct (astep_ok _ _ _ _ _ _ Hs E1 Ha) as (Ha1 & Hl1 & Hg1).
    destruct (IH _ _ E2 Ha1) as (Ha2 & Hl2 & Hg2). split_and!; [done| |].
    + by rewrite kept_cons, Hl2, Hl1, app_assoc.
    + intros i ar' Hi. rewrite (Hg2 i ar' Hi), outs_of_app, app_assoc. f_equal.
      destruct (a_readers a1 !! i) as [r1|] eqn:Er1; [by apply Hg1|].
      simpl. assert (Hnone : a_readers a !! i = None ∧ outs_of i (option_list o1) = []).
      { clear -E1 Er1. destruct c as [x| |j]; simpl in E1.
        - destruct (keeps f x); simplify_eq/=; [|done]. rewrite list_lookup_fmap in Er1.
          by destruct (a_readers a !! i).
        - simplify_eq/=. apply lookup_ge_None in Er1. rewrite length_app in Er1.
          split; [|done]. apply lookup_ge_None. lia.
        - destruct (a_readers a !! j) as [r|] eqn:Er; simpl in E1; [|done].
          destruct (a_log a !! ar_pos size r); simplify_eq/=; [|done].
          destruct (decide (j = i)) as [->|Hne].
          + rewrite list_lookup_insert_eq in Er1; [done|]. by eapply lookup_lt_Some.
          + rewrite list_lookup_insert_ne in Er1 by done. unfold outs_of. simpl.
            done. }
      destruct Hnone as [-> ->]. done.
Qed.

Lemma init_ok size : a_ok size init_astate.
Proof. constructor. Qed.

(** ** One reader

    What one reader does, by positions in the list of the events that passed the filter: where it
    started, where it is, and which positions it has read. *)
Record qview := mkView { v_start : nat; v_pos : nat; v_read : list nat }.

(** [n] events have passed the filter, [k] readers were created. *)
Definition vstep (size : Z) (f : option Filter) (i : nat) (s : nat * nat * option qview) (c : qcmd)
    : nat * nat * option qview :=
  let '(n, k, v) := s in
  match c with
  | Send a =>
      if keeps f a
      then (S n, k, (λ v, mkView (v_start v) (lap size n (v_pos v)) (v_read v)) <$> v)
      else s
  | NewReader => (n, S k, if decide (k = i) then Some (mkView n n []) else v)
  | Poll j =>
      (n, k, if decide (j = i)
             then (λ v, if decide (v_pos v < n)%nat
                        then mkView (v_start v) (S (v_pos v)) (v_read v ++ [v_pos v]) else v) <$> v
             else v)
  end.
Definition reader_view (size : Z) (f : option Filter) (i : nat) (l : list qcmd) : option qview :=
  (foldl (vstep size f i) (0%nat, 0%nat, None) l).2.

(** The positions increase, a step more than the reading itself only by whole laps; all are read if
    there was no lap; and the reader is less than [size] behind. *)
Record view_ok (size : Z) (n : nat) (v : qview) : Prop := {
  vo_le : (v_pos v ≤ n)%nat;
  vo_lag : (Z.of_nat n - Z.of_nat (v_pos v) < size)%Z;
  vo_sorted : StronglySorted lt (v_read v);
  vo_read p : p ∈ v_read v → (v_start v ≤ p < v_pos v)%nat;
  vo_laps : ∃ laps, v_pos v = (v_start v + length (v_read v) + laps * Z.to_nat size)%nat ∧
    (laps = 0%nat → v_read v = seq (v_start v) (length (v_read v))) ∧
    ∀ j p, v_read v !! j = Some p → ∃ k, p = (v_start v + j + k * Z.to_nat size)%nat }.

Lemma sorted_snoc l n : StronglySorted lt l → (∀ p, p ∈ l → (p < n)%nat) → StronglySorted lt (l ++ [n]).
Proof.
  intros Hs Hl. induction Hs as [|p l Hs IH Hp]; [by repeat constructor|]. cbn [app]. constructor.
  - apply IH. intros q Hq. apply Hl. by right.
  - apply Forall_app. split; [done|]. constructor; [apply Hl; by left|done].
Qed.

Lemma view_ok_new size n : (0 < size)%Z → view_ok size n (mkView n n []).
Proof.
  intros Hs. split; cbn; [lia|lia|constructor|by intros p ?%elem_of_nil|].
  exists 0%nat. split_and!; [lia|done|done].
Qed.

Lemma view_ok_send size n v :
  (0 < size)%Z → view_ok size n v → view_ok size (S n) (mkView (v_start v) (lap size n (v_pos v)) (v_read v)).
Proof.
  intros Hs [H1 H2 H3 H4 (laps & H5 & H6 & H7)]. unfold lap.
  case_decide as Hd; (split; cbn [v_start v_pos v_read]; [lia|lia|done| |]).
  - done.
  - by exists laps.
  - intros p Hp%H4. lia.
  - exists (S laps). split_and!; [lia|done|done].
Qed.

Lemma view_ok_poll size n v :
  (v_pos v < n)%nat → view_ok size n v → view_ok size n (mkView (v_start v) (S (v_pos v)) (v_read v ++ [v_pos v])).
Proof.
  intros Hn [H1 H2 H3 H4 (laps & H5 & H6 & H7)]. split; cbn [v_start v_pos v_read]; [lia|lia| | |].
  - apply sorted_snoc; [done|]. intros p Hp%H4. lia.
  - intros p [Hp%H4|Hp%list_elem_of_singleton]%elem_of_app; lia.
  - exists laps. rewrite length_app. cbn [length]. split_and!; [lia| |].
    + intros ->. rewrite seq_app, <- H6 by done. cbn [seq]. do 2 f_equal. lia.
    + intros j p [Hj|[Hj Hp]]%lookup_app_Some; [by apply H7|].
      apply list_lookup_singleton_Some in Hp as [Hj0 <-]. exists laps. lia.
Qed.

(** The view is that of the specification's reader. *)
Record seen (size : Z) (i : nat) (a : astate) (s : nat * nat * option qview) : Prop := {
  sn_log : s.1.1 = length (a_log a);
  sn_count : s.1.2 = length (a_readers a);
  sn_view : option_Forall2 (λ ar v, view_ok size (length (a_log a)) v ∧ v_start v = ar_start ar ∧
      v_pos v = ar_pos size ar ∧ Forall2 (λ p x, a_log a !! p = Some x) (v_read v) (ar_got ar))
    (a_readers a !! i) s.2 }.

Lemma read_grows (log : list Any) ps xs l :
  Forall2 (λ p x, log !! p = Some x) ps xs → Forall2 (λ p x, (log ++ l) !! p = Some x) ps xs.
Proof. intros H1. eapply Forall2_impl; [exact H1|]. intros p x. apply lookup_app_l_Some. Qed.

Lemma seen_step size f i c a a' o s :
  (0 < size)%Z → astep size f c a = Some (a', o) → seen size i a s → seen size i a' (vstep size f i s c).
Proof.
  intros Hs E [H1 H2 H3]. destruct s as [[n k] v]. cbn [fst snd] in *. subst n k.
  destruct c as [x| |j]; cbn [astep vstep] in *.
  - destruct (keeps f x); [|injection E as <- <-; by split]. injection E as <- <-.
    split; cbn [fst snd a_log a_readers]; [rewrite length_app; cbn; lia|by rewrite length_fmap|].
    rewrite list_lookup_fmap. destruct H3 as [ar v (Ho & Hst & Hp & Hg)|]; constructor. rewrite length_app, Nat.add_1_r.
    split_and!; [by apply view_ok_send|..]; cbn [v_start v_pos v_read].
    + unfold alap. by case_decide.
    + rewrite Hp. symmetry. apply alap_pos; [done|rewrite <- Hp; apply Ho..].
    + unfold alap. case_decide; by apply read_grows.
  - injection E as <- <-. split; cbn [fst snd a_log a_readers]; [done|rewrite length_app; cbn; lia|].
    case_decide as Hi.
    + subst i. rewrite lookup_app_r, Nat.sub_diag by done. constructor. split_and!; try done.
      * by apply view_ok_new.
      * unfold ar_pos. cbn. lia.
    + destruct (a_readers a !! i) as [ar|] eqn:Er; [by rewrite (lookup_app_l_Some _ _ _ _ Er)|].
      rewrite lookup_app_r by (by apply lookup_ge_None). apply lookup_ge_None in Er.
      rewrite (lookup_ge_None_2 [_]); [done|]. cbn. lia.
  - destruct (a_readers a !! j) as [r|] eqn:Er; cbn in E; [|done].
    case_decide as Hj.
    + subst j. rewrite Er in H3. inversion H3 as [ar v' (Ho & Hst & Hp & Hg) E1 E2|]. subst v. cbn [fmap option_fmap option_map].
      destruct (a_log a !! ar_pos size r) as [x|] eqn:Ex; injection E as <- <-.
      * split; cbn [fst snd a_log a_readers]; [done|by rewrite length_insert|].
        rewrite list_lookup_insert_eq by (by eapply lookup_lt_Some). constructor.
        pose proof (lookup_lt_Some _ _ _ Ex) as Hlt. rewrite <- Hp in Hlt. rewrite decide_True by done.
        split_and!; [by apply view_ok_poll|done| |]; cbn [v_start v_pos v_read].
        -- rewrite Hp. unfold ar_pos. cbn. rewrite length_app. cbn. lia.
        -- apply Forall2_app; [done|]. constructor; [by rewrite Hp|constructor].
      * split; cbn [fst snd]; [done|done|]. rewrite Er. constructor.
        apply lookup_ge_None in Ex. rewrite decide_False by lia. done.
    + destruct (a_log a !! ar_pos size r) as [x|] eqn:Ex; injection E as <- <-.
      * split; cbn [fst snd a_log a_readers]; [done|by rewrite length_insert|].
        by rewrite list_lookup_insert_ne.
      * by split.
Qed.

Lemma seen_run size f i l : ∀ a a' o s,
  (0 < size)%Z → arun size f l a = Some (a', o) → seen size i a s → seen size i a' (foldl (vstep size f i) s l).
Proof.
  induction l as [|c l IH]; intros a a' o s Hs E Hseen; cbn [arun foldl] in *; [by injection E as <- <-|].
  destruct (astep size f c a) as [[a1 o1]|] eqn:E1; cbn in E; [|done].
  destruct (arun size f l a1) as [[a2 o2]|] eqn:E2; cbn in E; [|done]. injection E as <- <-.
  eapply IH; [done..|]. by eapply seen_step.
Qed.
End system.

(** ** Properties *)

Section properties.
Context `{OO : OrbOps}.

(** C6: refinement.  For every interleaving of appended events, new readers and reads, the
    circular buffer of pointers with its wrapped [int] indices gives each reader exactly what
    the list specification gives it. *)
Theorem run_refines size f l s :
  init_queue size f = Some s → (size < INT_MAX)%Z → forallb good_cmd l = true →
  snd <$> qrun l s = snd <$> arun (size + 1) f l init_astate.
Proof.
  intros Hi Hlt Hg. pose proof (run_sim _ _ _ l _ _ Hg (init_sim _ _ _ Hi Hlt)) as Hrun.
  destruct (qrun l s) as [[s' o]|], (arun (size + 1) f l init_astate) as [[a' o']|]; try done.
  by destruct Hrun as [-> _].
Qed.

(** C11: delivery.  Which events a reader gets is determined by the commands alone ([reader_view]):
    it starts behind the events there were when it was created; a poll reads the event at its
    position, if there is one, and goes on by one; an event that passes the filter and finds the
    reader a whole queue behind takes it to the end.  So it gets events in the order they were
    appended, none twice; those it misses were lost in whole laps of [_size] events; if it was never
    lapped it got every event since it was created up to its position; it is less than [_size]
    behind, and has more events exactly if it is behind. *)
Theorem queue_delivery size f l s s' o i r :
  init_queue size f = Some s → (size < INT_MAX)%Z → forallb good_cmd l = true →
  qrun l s = Some (s', o) → s_readers s' !! i = Some r →
  ∃ v, reader_view (size + 1) f i l = Some v ∧
    Forall2 (λ p a, kept_events f l !! p = Some a) (v_read v) (outs_of i o) ∧
    view_ok (size + 1) (length (kept_events f l)) v ∧
    moreEvents (s_queue s') r = bool_decide (v_pos v < length (kept_events f l))%nat.
Proof.
  intros Hi Hlt Hg Hr Hri. pose proof (init_sim _ _ _ Hi Hlt) as HS.
  pose proof (rep_size _ _ _ _ (sim_rep _ _ _ _ _ HS)) as Hs.
  rewrite (sim_size _ _ _ _ _ HS) in Hs.
  pose proof (run_sim _ _ _ l _ _ Hg HS) as Hrun. rewrite Hr in Hrun.
  destruct (arun (size + 1) f l init_astate) as [[a' o']|] eqn:Ea; [|done].
  destruct Hrun as [<- HS'].
  destruct (arun_ok (size + 1) _ _ _ _ _ ltac:(lia) Ea (init_ok _)) as (_ & Hlog & Hgot).
  simpl in Hlog.
  destruct (Forall2_lookup_l _ _ _ _ _ (sim_readers _ _ _ _ _ HS') Hri) as (ar & Har & Hat).
  specialize (Hgot i ar Har). simpl in Hgot.
  destruct (seen_run (size + 1) f i l _ _ _ (0%nat, 0%nat, None) ltac:(lia) Ea) as [_ _ Hv].
  { by split; cbn; [..|constructor]. }
  fold (reader_view (size + 1) f i l) in Hv. rewrite Har, Hlog in Hv.
  inversion Hv as [ar0 v (Ho & _ & Hp & Hf) E1 E2|]. exists v.
  rewrite <- Hgot. split_and!; [done..|].
  rewrite (moreEvents_spec _ _ _ _ _ _ (sim_rep _ _ _ _ _ HS') Hat). by rewrite Hp, Hlog.
Qed.

(** C34: memory.  After any run the heap holds the last [_size] events that passed the filter
    (all of them, if fewer), and nothing else except the rejected ones, which are never freed:
    with a filter memory grows with the rejected events, and destroying the queue leaves them. *)
Theorem queue_memory size f l s s' o :
  init_queue size f = Some s → (size < INT_MAX)%Z → forallb good_cmd l = true →
  qrun l s = Some (s', o) →
  base.size (s_heap s') =
    (length (kept_events f l) `min` Z.to_nat (size + 1) + rejected_events f l)%nat ∧
  base.size (destroy_EventQueue (s_queue s') (s_heap s')) = rejected_events f l.
Proof.
  intros Hi Hlt Hg Hr. pose proof (init_sim _ _ _ Hi Hlt) as HS.
  pose proof (rep_size _ _ _ _ (sim_rep _ _ _ _ _ HS)) as Hs.
  rewrite (sim_size _ _ _ _ _ HS) in Hs.
  pose proof (run_sim _ _ _ l _ _ Hg HS) as Hrun. rewrite Hr in Hrun.
  destruct (arun (size + 1) f l init_astate) as [[a' o']|] eqn:Ea; [|done].
  destruct Hrun as [<- HS'].
  destruct (arun_ok (size + 1) _ _ _ _ _ ltac:(lia) Ea (init_ok _)) as (_ & Hlog & _).
  simpl in Hlog. pose proof (sim_rep _ _ _ _ _ HS') as R.
  pose proof (rep_heap _ _ _ _ R) as Hh. rewrite (sim_size _ _ _ _ _ HS'), Hlog in Hh.
  split; [done|]. by apply (destroy_rep _ _ _ _ R).
Qed.
End properties.

(** ** Witnesses

    A queue of length 2 (three slots).  The reader takes the first event, is then lapped by three
    events, and goes on with the next one. *)

Definition sample_queue : qstate :=
  mkQstate (mkEventQueue 0 3 [None; None; None] (Some (FilterByTCKind 5))) ∅ [].

Definition sample_cmds : list qcmd :=
  [NewReader; Send (AULong 1); Poll 0; Send (AULong 2); Send (AString "no"); Send (AULong 3);
   Send (AULong 4); Poll 0; Send (AULong 5); Poll 0].

Lemma run_refines_witness :
  init_queue 2 (Some (FilterByTCKind 5)) = Some sample_queue ∧ (2 < INT_MAX)%Z ∧
  forallb good_cmd sample_cmds = true ∧
  snd <$> qrun sample_cmds sample_queue = Some [(0%nat, AULong 1); (0%nat, AULong 5)].
Proof.
  split; [reflexivity|]. split; [reflexivity|]. split; [reflexivity|].
  rewrite (run_refines 2 (Some (FilterByTCKind 5)) sample_cmds sample_queue);
    vm_compute; reflexivity.
Defined.

Lemma queue_memory_witness :
  ∃ s o, qrun sample_cmds sample_queue = Some (s, o) ∧
  base.size (s_heap s) = 4%nat ∧ base.size (destroy_EventQueue (s_queue s) (s_heap s)) = 1%nat.
Proof.
  destruct (qrun sample_cmds sample_queue) as [[s o]|] eqn:E; [|vm_compute in E; discriminate E].
  exists s, o. split; [reflexivity|].
  destruct (queue_memory 2 (Some (FilterByTCKind 5)) sample_cmds sample_queue s o) as [H1 H2];
    [reflexivity|reflexivity|reflexivity|exact E|].
  rewrite H1, H2. split; reflexivity.
Defined.

Lemma queue_delivery_witness :
  ∃ s o r, qrun sample_cmds sample_queue = Some (s, o) ∧ s_readers s !! 0%nat = Some r ∧
  outs_of 0 o = [AULong 1; AULong 5] ∧
  reader_view 3 (Some (FilterByTCKind 5)) 0 sample_cmds = Some (mkView 0 5 [0; 4]%nat) ∧
  moreEvents (s_queue s) r = false.
Proof.
  destruct (qrun sample_cmds sample_queue) as [[s o]|] eqn:E; [|vm_compute in E; discriminate E].
  destruct (s_readers s !! 0%nat) as [r|] eqn:Er.
  - exists s, o, r. split; [reflexivity|]. split; [exact Er|].
    destruct (queue_delivery 2 (Some (FilterByTCKind 5)) sample_cmds sample_queue s o 0 r)
      as (v & Hv & Hf & _ & Hm); [reflexivity|reflexivity|reflexivity|exact E|exact Er|].
    assert (reader_view (2 + 1) (Some (FilterByTCKind 5)) 0 sample_cmds = Some (mkView 0 5 [0; 4]%nat)) as Ev
      by (vm_compute; reflexivity).
    rewrite Ev in Hv. injection Hv as <-. split; [|split; [exact Ev|exact Hm]].
    inversion_clear Hf as [|? x ? xs H1 Hf1]. inversion_clear Hf1 as [|? y ? ys H2 Hf2]. inversion_clear Hf2.
    vm_compute in H1, H2. injection H1 as <-. injection H2 as <-. reflexivity.
  - exfalso.
    assert ((λ so, bool_decide (s_readers so.1 !! 0%nat = None)) <$> qrun sample_cmds sample_queue
            = Some true) as Es.
    { rewrite E. simpl. by rewrite bool_decide_true. }
    vm_compute in Es. discriminate Es.
Defined.
