(* ===== verification/Servant.v ===== *)
(** * Servant: object ids and activation (src/Servant.h, src/Servant.cc)

    [newUniqueId] makes the object ids of proxies and channels; [Servant] activates and
    deactivates an object in its POA, turning the errors that are programming errors into
    [exit(1)]. *)

From S2P Require Import Prelude Monad CxxMap Stream Corba ModelOrb.

Local Open Scope string_scope.

Section servant.
Context `{OO : OrbOps}.

(** ["%lx.%d.%lx"] *)
Definition format_id (count mypid sec : Z) : string :=
  show_hex (u64 count) +:+ "." +:+ show_Z (i32 mypid) +:+ "." +:+ show_hex (u64 sec).

(** [newUniqueId()]; [mypid] is [getpid()]. *)
Definition newUniqueId (mypid : Z) : M exn world string :=
  sec ← gets (λ w, (clock w).1);
  _ ← modify (λ w, set_uid_count (i64 (uid_count w + 1)) w);
  count ← gets uid_count;
  mret (format_id count mypid sec).

(** [createReference(poa,repositoryId)] *)
Definition createReference (mypid : Z) (poa repositoryId : string) : M exn world Object :=
  oidStr ← newUniqueId mypid;
  mret (create_reference_with_id poa oidStr repositoryId).

(** [Servant::activateObjectWithId]: [this] is the servant, [poa] its [_poa].  The reference that
    an active object map keeps to a servant is the POA's, and is not among the counts here. *)
Definition activateObjectWithId (poa : string) (this : Z) (oidStr : string) : M exn world unit :=
  try_catch (poa_op (activate_object_with_id poa oidStr this))
    (λ e, match e with
          | BAD_PARAM | ServantAlreadyActive | ObjectAlreadyActive => Some (throw e)
          | WrongPolicy => Some (exit 1)
          | _ => None
          end).

(** [Servant::deactivateObject] *)
Definition deactivateObject (poa : string) (this : Z) : M exn world unit := λ w,
  match servant_to_id poa this (poas w) with
  | inl ServantNotActive => Ret tt w
  | inl WrongPolicy => Exited 1 w
  | inl e => Throw e w
  | inr oid =>
      match deactivate_object poa oid (poas w) with
      | inr p => Ret tt (set_poas p w)
      | inl ObjectNotActive => Ret tt w
      | inl WrongPolicy => Exited 1 w
      | inl e => Throw e w
      end
  end.

Definition is_active (poa : string) (this : Z) (w : world) : bool :=
  match servant_to_id poa this (poas w) with inr _ => true | inl _ => false end.

(** ** Lemmas *)

Lemma activate_ret `{!OrbLaws} poa this oid w w' :
  activateObjectWithId poa this oid w = Ret tt w' →
  servant_to_id poa this (poas w') = inr oid ∧ w' = set_poas (poas w') w.
Proof.
  unfold activateObjectWithId, try_catch, poa_op.
  destruct (activate_object_with_id poa oid this (poas w)) as [e|p] eqn:E.
  - by destruct e.
  - intros [= <-]. simpl. split; [|done]. by eapply activate_servant_to_id.
Qed.

Lemma activate_cases `{!OrbLaws} poa this oid w :
  match activate_object_with_id poa oid this (poas w) with
  | inr p => activateObjectWithId poa this oid w = Ret tt (set_poas p w)
  | inl WrongPolicy => activateObjectWithId poa this oid w = Exited 1 w
  | inl e => activateObjectWithId poa this oid w = Throw e w
  end.
Proof.
  unfold activateObjectWithId, try_catch, poa_op.
  destruct (activate_object_with_id poa oid this (poas w)) as [e|p]; [by destruct e|done].
Qed.

(** On an active servant, deactivation succeeds and only changes the active object map. *)
Lemma deactivate_active_ret `{!OrbLaws} poa this w :
  is_active poa this w = true →
  ∃ p, deactivateObject poa this w = Ret tt (set_poas p w) ∧
       servant_to_id poa this p = inl ServantNotActive.
Proof.
  unfold is_active, deactivateObject. destruct (servant_to_id poa this (poas w)) as [e|oid] eqn:E; [done|].
  intros _. destruct (deactivate_active poa oid this (poas w) E) as (p & Hp & Hn & _).
  rewrite Hp. eauto.
Qed.

Lemma deactivate_inactive poa this w :
  servant_to_id poa this (poas w) = inl ServantNotActive → deactivateObject poa this w = Ret tt w.
Proof. unfold deactivateObject. by intros ->. Qed.

(** Ids are made of three numbers that can be read back. *)
Lemma hex_no_dot z : str_forall (not_char ".") (show_hex z) = true.
Proof.
  unfold show_hex. eapply str_forall_impl, (show_N_spec 16); [|done]. intros c Hc.
  unfold not_char. rewrite (is_digit_not_char 16 c); [done|done|done|].
  vm_compute. by left.
Qed.

Lemma show_hex_inj a b : (0 ≤ a)%Z → (0 ≤ b)%Z → show_hex a = show_hex b → a = b.
Proof.
  unfold show_hex. intros Ha Hb E. apply show_N_inj in E; [|done]. lia.
Qed.

Lemma format_id_inj c p s c' p' s' :
  format_id c p s = format_id c' p' s' → u64 c = u64 c' ∧
  show_Z (i32 p) +:+ "." +:+ show_hex (u64 s) = show_Z (i32 p') +:+ "." +:+ show_hex (u64 s').
Proof.
  unfold format_id. intros E.
  assert (Hs : ∀ c t, split_at "." (show_hex (u64 c) +:+ String "." t) = (show_hex (u64 c), Some t))
    by (intros; apply split_at_app, hex_no_dot).
  pose proof (Hs c (show_Z (i32 p) +:+ "." +:+ show_hex (u64 s))) as H1.
  pose proof (Hs c' (show_Z (i32 p') +:+ "." +:+ show_hex (u64 s'))) as H2.
  change (show_hex (u64 c) +:+ String "." (show_Z (i32 p) +:+ "." +:+ show_hex (u64 s)))
    with (show_hex (u64 c) +:+ "." +:+ show_Z (i32 p) +:+ "." +:+ show_hex (u64 s)) in H1.
  rewrite E in H1.
  change (show_hex (u64 c') +:+ "." +:+ show_Z (i32 p') +:+ "." +:+ show_hex (u64 s'))
    with (show_hex (u64 c') +:+ String "." (show_Z (i32 p') +:+ "." +:+ show_hex (u64 s'))) in H1.
  rewrite H2 in H1. injection H1 as Hc Hr. split; [|done].
  pose proof (u64_range c). pose proof (u64_range c'). symmetry. apply show_hex_inj; [lia..|done].
Qed.

(** [n] successive ids, as the program makes them: anything may happen in between that keeps
    the static counter. *)
Fixpoint make_ids (calls : list (Z * (world → world))) (w : world) : list string :=
  match calls with
  | [] => []
  | (mypid, env) :: calls' =>
      match newUniqueId mypid (env w) with
      | Ret s w' => s :: make_ids calls' w'
      | _ => []
      end
  end.

Lemma make_ids_counts calls w s :
  Forall (λ c, ∀ w, uid_count (c.2 w) = uid_count w) calls →
  (0 ≤ uid_count w)%Z → (uid_count w + Z.of_nat (length calls) < 2 ^ 63)%Z →
  s ∈ make_ids calls w →
  ∃ k p t, s = format_id (uid_count w + k) p t ∧ (1 ≤ k ≤ Z.of_nat (length calls))%Z.
Proof.
  revert w. induction calls as [|[mypid env] calls IH]; intros w Hf H0 Hlen Hin.
  - by apply elem_of_nil in Hin.
  - inversion Hf as [|? ? Henv Hf']; subst. simpl in Henv.
    unfold make_ids in Hin; fold make_ids in Hin.
    unfold newUniqueId, gets, modify, mbind, M_bind, mret, M_ret in Hin. simpl in Hin.
    rewrite Henv, i64_id in Hin by (simpl length in *; lia).
    apply elem_of_cons in Hin as [->|Hin].
    + eexists 1%Z, _, _. split; [done|]. simpl length. lia.
    + apply IH in Hin as (k & p & t & -> & Hk); simpl in *; [|done|lia|lia].
      exists (1 + k)%Z, p, t. rewrite Z.add_assoc. split; [done|lia].
Qed.

(** Object ids are unique.  The ids a process makes are pairwise different, whatever
    happens between the calls (time may even go backwards), as long as its counter has not
    wrapped. *)
Theorem newUniqueId_unique calls w :
  Forall (λ c, ∀ w, uid_count (c.2 w) = uid_count w) calls →
  (0 ≤ uid_count w)%Z → (uid_count w + Z.of_nat (length calls) < 2 ^ 63)%Z →
  NoDup (make_ids calls w) ∧ length (make_ids calls w) = length calls.
Proof.
  revert w. induction calls as [|[mypid env] calls IH]; intros w Hf H0 Hlen; [by split; [constructor|]|].
  inversion Hf as [|? ? Henv Hf']; subst. simpl in Henv.
  cbn [make_ids]. unfold newUniqueId, gets, modify, mbind, M_bind, mret, M_ret. simpl.
  rewrite Henv, i64_id by (simpl length in *; lia).
  match goal with |- context [make_ids calls ?x] => set (w1 := x) end.
  assert (uid_count w1 = uid_count w + 1)%Z as Hc by done. simpl length in Hlen.
  destruct (IH w1) as [Hnd Hl]; [done|lia|lia|]. split; [|by f_equal].
  constructor; [|done]. intros Hin.
  apply make_ids_counts in Hin as (k & p & t & E & Hk); [|done|lia|lia].
  apply format_id_inj in E as [E _]. rewrite !u64_id in E by lia. lia.
Qed.
End servant.

Lemma newUniqueId_unique_witness :
  (Forall (λ c : Z * (world → world), ∀ w, uid_count (c.2 w) = uid_count w)
     [(77%Z, id); (77%Z, set_sent [])] ∧
  make_ids [(77%Z, id); (77%Z, set_sent [])] model_world = ["1.77.3e8"; "2.77.3e8"]) ∧
  NoDup (make_ids [(77%Z, id); (77%Z, set_sent [])] model_world).
Proof.
  split; [split; [repeat constructor|vm_compute; reflexivity]|].
  apply (newUniqueId_unique [(77%Z, id); (77%Z, set_sent [])] model_world);
    [repeat constructor|vm_compute; discriminate|reflexivity].
Defined.
