(* ===== verification/Orb.v ===== *)
(** * Orb: deferred requests (src/Orb.h, src/Orb.cc)

    The [Orb] singleton owns the requests nobody waits for, and picks up their responses; a
    request may have a callback object, on which it holds a reference. *)

From S2P Require Import Prelude Monad CxxMap Stream Corba ModelOrb.

Local Open Scope Z_scope.
Local Open Scope list_scope.

Section orb.
Context `{OO : OrbOps}.

(** [string_to_<T>(oidStr)]: a nil reference is [BAD_PARAM] too. *)
Definition string_to_ (oidStr : string) : exn + Object :=
  match string_to_object oidStr with
  | inl e => inl e
  | inr None => inl BAD_PARAM
  | inr (Some o) => inr o
  end.

Definition string_to_M {S} (oidStr : string) : M exn S Object := λ s,
  match string_to_ oidStr with inl e => Throw e s | inr o => Ret o s end.

(** [resolveInitialReferences()]: [resolve] is [resolve_initial_references] with the narrowing
    ([inr None] is a nil result).  Everything but the naming service is required. *)
Record initial_refs := mkInitialRefs {
  _RootPOA : Object; _omniINSPOA : Object; _NameService : option Object; _POACurrent : Object }.

Definition resolve_required {S} (resolve : string → exn + option Object) (name : string)
    : M exn S Object := λ s,
  match resolve name with
  | inr (Some o) => Ret o s
  | _ => Exited 1 s
  end.

Definition resolveInitialReferences {S} (resolve : string → exn + option Object)
    : M exn S initial_refs :=
  root ← resolve_required resolve "RootPOA";
  ins ← resolve_required resolve "omniINSPOA";
  let ns := match resolve "NameService" with inr o => o | inl _ => None end in
  cur ← resolve_required resolve "POACurrent";
  mret (mkInitialRefs root ins ns cur).

(** [deferredRequest(req,callback)] *)
Definition deferredRequest (req : request) (callback : option Z) : M exn world unit :=
  w ← get;
  let callback := if orbShutdownRequested w then None else callback in
  _ ← match callback with Some c => add_ref c | None => mret tt end;
  modify (λ w, set_deferredRequests (deferredRequests w ++ [(req, callback)]) w).

(** [shutdown(int)] *)
Definition shutdown : M exn world unit := modify (λ w,
  mkWorld (logstream w) (checkpointNeeded w) (sent w) (deferredRequests w) true
    (refs w) (poas w) (clock w) (uid_count w)).

(** What a pass of [run] does besides changing the world: the requests released, the callbacks
    to be dropped, and the callbacks invoked. *)
Record pass := mkPass {
  remaining : list (request * option Z);
  released : list request;
  usedCallbacks : list Z;
  invoked : list (Z * request) }.

(** One round over [_deferredRequests]: [poll] is [poll_response] with the response;
    [callback] is the method of the callback objects.  An exception of the response is logged;
    an exception of the callback is swallowed. *)
Fixpoint poll_requests (poll : request → option reply) (callback : Z → request → reply → M exn world unit)
    (l : list (request * option Z)) : M exn world pass :=
  match l with
  | [] => mret (mkPass [] [] [] [])
  | (req, cb) :: l' =>
      match poll req with
      | None =>
          p ← poll_requests poll callback l';
          mret (mkPass ((req, cb) :: remaining p) (released p) (usedCallbacks p) (invoked p))
      | Some rep =>
          inv ← match rep, cb with
                | Returned _ _, Some c =>
                    _ ← try_catch (callback c req rep) (λ _, Some (mret tt)); mret [(c, req)]
                | _, _ => mret []
                end;
          p ← poll_requests poll callback l';
          mret (mkPass (remaining p) (req :: released p) (option_list cb ++ usedCallbacks p)
                  (inv ++ invoked p))
      end
  end.

(** The body of [while(!_shutdownRequested)]. *)
Definition run_pass (poll : request → option reply) (callback : Z → request → reply → M exn world unit)
    : M exn world pass :=
  l ← gets deferredRequests;
  p ← poll_requests poll callback l;
  _ ← modify (set_deferredRequests (remaining p));
  _ ← for_each (usedCallbacks p) remove_ref;
  mret p.

(** What follows the loop, if every response comes: [get_response] waits for each outstanding
    request.  When this wait ends, and when the deletion of a callback does not return, is
    [OrbLock.lk_drain] and [Shutdown.run_turns]. *)
Definition run_cleanup : M exn world (list request) :=
  l ← gets deferredRequests;
  _ ← for_each (omap snd l) remove_ref;
  _ ← modify (set_deferredRequests []);
  mret (l.*1).

(** [run()]: in each round other threads defer requests while this one sleeps, then the
    responses that have arrived are handled; after the rounds shutdown has been requested. *)
Fixpoint run (rounds : list (list (request * option Z) * (request → option reply)))
    (callback : Z → request → reply → M exn world unit) : M exn world (list request * list (Z * request)) :=
  w ← get;
  match rounds with
  | (requests, poll) :: rounds' =>
      if orbShutdownRequested w then
        rel ← run_cleanup; mret (rel, [])
      else
        _ ← for_each requests (λ p, deferredRequest p.1 p.2);
        p ← run_pass poll callback;
        r ← run rounds' callback;
        mret (released p ++ r.1, invoked p ++ r.2)
  | [] => rel ← run_cleanup; mret (rel, [])
  end.

(** [~Orb()] *)
Definition destroy_Orb : M exn world (list request) :=
  l ← gets deferredRequests;
  _ ← modify (set_deferredRequests []);
  mret (l.*1).

(** ** Reference counts *)

(** How many entries hold a reference to [a]. *)
Definition holds (a : Z) (l : list (request * option Z)) : Z :=
  Z.of_nat (length (filter (λ p, p.2 = Some a) l)).

Definition count_Z (a : Z) (l : list Z) : Z := Z.of_nat (length (filter (λ b, b = a) l)).

(** References not held by the deferred requests. *)
Definition foreign_refs (a : Z) (w : world) : Z := ref_count a w - holds a (deferredRequests w).

Lemma holds_app a l1 l2 : holds a (l1 ++ l2) = holds a l1 + holds a l2.
Proof. unfold holds. rewrite filter_app, length_app. lia. Qed.

Lemma holds_cons a r cb l :
  holds a ((r, cb) :: l) = (if decide (cb = Some a) then 1 else 0) + holds a l.
Proof.
  unfold holds. rewrite filter_cons. simpl. case_decide; simpl; lia.
Qed.

Lemma count_cons a b l : count_Z a (b :: l) = (if decide (b = a) then 1 else 0) + count_Z a l.
Proof. unfold count_Z. rewrite filter_cons. case_decide; simpl length; lia. Qed.

Lemma ref_count_put a b v w :
  ref_count a (set_refs (map_put b v (refs w)) w) = if decide (b = a) then v else ref_count a w.
Proof.
  unfold ref_count. simpl. case_decide as E; [subst; by rewrite map_find_put_eq|].
  by rewrite map_find_put_ne by done.
Qed.

Lemma remove_refs l w :
  ∃ w', for_each l remove_ref w = Ret tt w' ∧ deferredRequests w' = deferredRequests w ∧
        sent w' = sent w ∧ logstream w' = logstream w ∧
        orbShutdownRequested w' = orbShutdownRequested w ∧
        ∀ a, ref_count a w' = ref_count a w - count_Z a l.
Proof.
  revert w. induction l as [|b l IH]; intros w.
  - exists w. split_and!; try done. intros a. unfold count_Z. simpl. lia.
  - simpl. unfold remove_ref, modify, mbind, M_bind.
    destruct (IH (set_refs (map_put b (ref_count b w - 1) (refs w)) w)) as (w' & E & Hd & Hs & Hl & Ho & Hr).
    exists w'. split_and!; try done. intros a. rewrite Hr, ref_count_put, count_cons.
    case_decide; subst; lia.
Qed.

(** What a callback may do: write to the log, but not touch the requests or the counts. *)
Definition quiet (callback : Z → request → reply → M exn world unit) : Prop :=
  ∀ c r p w, ∃ o, callback c r p w = o ∧ (∀ z w', o ≠ Exited z w') ∧ (∀ w', o ≠ Aborted w') ∧
    refs (final o) = refs w ∧ deferredRequests (final o) = deferredRequests w ∧
    orbShutdownRequested (final o) = orbShutdownRequested w.

(** What one round returns, as a function of the responses. *)
Definition pass_spec (poll : request → option reply) (l : list (request * option Z)) : pass :=
  mkPass (filter (λ p, poll p.1 = None) l)
    (omap (λ p, match poll p.1 with Some _ => Some p.1 | None => None end) l)
    (omap (λ p, match poll p.1 with Some _ => p.2 | None => None end) l)
    (omap (λ p, match poll p.1, p.2 with Some (Returned _ _), Some c => Some (c, p.1) | _, _ => None end) l).

Lemma poll_requests_spec poll callback l w :
  quiet callback →
  ∃ w', poll_requests poll callback l w = Ret (pass_spec poll l) w' ∧ refs w' = refs w ∧
    deferredRequests w' = deferredRequests w ∧ orbShutdownRequested w' = orbShutdownRequested w.
Proof.
  intros Hq. revert w. induction l as [|[req cb] l IH]; intros w; [by exists w|].
  cbn [poll_requests]. unfold pass_spec. rewrite filter_cons. cbn [omap list_omap fst snd].
  destruct (poll req) as [rep|] eqn:Ep; simpl.
  - assert (∃ w1, (match rep, cb with
      | Returned _ _, Some c =>
          _ ← try_catch (callback c req rep) (λ _, Some (mret tt)); mret [(c, req)]
      | _, _ => mret []
      end) w = Ret (match rep, cb with Returned _ _, Some c => [(c, req)] | _, _ => [] end) w1 ∧
      refs w1 = refs w ∧ deferredRequests w1 = deferredRequests w ∧
      orbShutdownRequested w1 = orbShutdownRequested w) as (w1 & E1 & Hr1 & Hd1 & Hs1).
    { destruct rep, cb as [c|]; try (by exists w).
      destruct (Hq c req (Returned return_value out_has_event) w) as (o & Eo & He & Ha & Hr & Hd & Hs).
      unfold mbind, M_bind, try_catch. rewrite Eo.
      destruct o; simpl in *; try (by eexists); [by destruct (He code s)|by destruct (Ha s)]. }
    rewrite (bind_Ret _ _ _ _ _ E1).
    destruct (IH w1) as (w' & E & Hr & Hd & Hs). rewrite (bind_Ret _ _ _ _ _ E).
    exists w'. split_and!; try congruence. simpl. unfold mret, M_ret.
    destruct rep, cb; done.
  - destruct (IH w) as (w' & E & Hr & Hd & Hs). rewrite (bind_Ret _ _ _ _ _ E).
    exists w'. split_and!; done.
Qed.

Lemma run_pass_spec poll callback w :
  quiet callback →
  ∃ w', run_pass poll callback w = Ret (pass_spec poll (deferredRequests w)) w' ∧
    deferredRequests w' = remaining (pass_spec poll (deferredRequests w)) ∧
    orbShutdownRequested w' = orbShutdownRequested w ∧
    ∀ a, ref_count a w' = ref_count a w - count_Z a (usedCallbacks (pass_spec poll (deferredRequests w))).
Proof.
  intros Hq. unfold run_pass, gets, modify.
  destruct (poll_requests_spec poll callback (deferredRequests w) w Hq) as (w1 & E1 & Hr1 & Hd1 & Hs1).
  unfold mbind at 1, M_bind at 1. rewrite (bind_Ret _ _ _ _ _ E1).
  set (p := pass_spec poll (deferredRequests w)) in *. unfold mbind, M_bind.
  destruct (remove_refs (usedCallbacks p) (set_deferredRequests (remaining p) w1))
    as (w2 & E2 & Hd2 & _ & _ & Ho2 & Hr2).
  rewrite E2. exists w2. split_and!; try done; [by rewrite Ho2|].
  intros a. rewrite Hr2. unfold ref_count. simpl. by rewrite Hr1.
Qed.

(** Answered and unanswered requests: every entry is one or the other. *)
Lemma pass_partition poll l :
  l.*1 ≡ₚ released (pass_spec poll l) ++ (remaining (pass_spec poll l)).*1 ∧
  (∀ a, holds a l = count_Z a (usedCallbacks (pass_spec poll l)) + holds a (remaining (pass_spec poll l))) ∧
  invoked (pass_spec poll l) ++ omap (λ p, (λ c, (c, p.1)) <$> p.2) (remaining (pass_spec poll l))
    ⊆+ omap (λ p, (λ c, (c, p.1)) <$> p.2) l.
Proof.
  unfold pass_spec. simpl. induction l as [|[req cb] l (IH1 & IH2 & IH3)]; [done|].
  rewrite filter_cons. cbn [omap list_omap fst snd fmap list_fmap].
  destruct (poll req) as [rep|] eqn:Ep; simpl.
  - split_and!.
    + by constructor.
    + intros a. rewrite holds_cons, (IH2 a).
      destruct cb as [c|]; [rewrite count_cons|]; repeat case_decide; simplify_eq; try lia; done.
    + destruct rep, cb as [c|]; simpl; try done; [by apply submseteq_skip|by apply submseteq_cons].
  - split_and!.
    + simpl. etrans; [by apply perm_skip, IH1|]. apply Permutation_middle.
    + intros a. rewrite !holds_cons, (IH2 a). lia.
    + destruct cb as [c|]; simpl; [|done].
      etrans; [|by apply submseteq_skip, IH3].
      rewrite <- Permutation_middle. done.
Qed.

Lemma deferredRequest_ret req cb w :
  orbShutdownRequested w = false →
  ∃ w', deferredRequest req cb w = Ret tt w' ∧
    deferredRequests w' = deferredRequests w ++ [(req, cb)] ∧ orbShutdownRequested w' = false ∧
    sent w' = sent w ∧ logstream w' = logstream w ∧ poas w' = poas w ∧
    ∀ a, foreign_refs a w' = foreign_refs a w.
Proof.
  intros Hs. unfold deferredRequest, get, modify, mbind, M_bind. rewrite Hs.
  destruct cb as [c|]; simpl.
  - eexists. split; [done|]. split_and!; try done. intros a. unfold foreign_refs. simpl.
    rewrite holds_app, holds_cons.
    change (holds a []) with 0.
    assert (∀ l, ref_count a (set_deferredRequests l (set_refs (map_put c (ref_count c w + 1) (refs w)) w))
      = ref_count a (set_refs (map_put c (ref_count c w + 1) (refs w)) w)) as -> by done.
    rewrite ref_count_put. repeat case_decide; simplify_eq; lia.
  - eexists. split; [done|]. split_and!; try done. intros a. unfold foreign_refs. simpl.
    rewrite holds_app, holds_cons. rewrite decide_False by done. change (holds a []) with 0.
    unfold ref_count. simpl. lia.
Qed.

Definition add_requests (l : list (request * option Z)) : M exn world unit :=
  for_each l (λ p, deferredRequest p.1 p.2).

Lemma add_requests_ret l w :
  orbShutdownRequested w = false →
  ∃ w', add_requests l w = Ret tt w' ∧ deferredRequests w' = deferredRequests w ++ l ∧
    orbShutdownRequested w' = false ∧ ∀ a, foreign_refs a w' = foreign_refs a w.
Proof.
  revert w. induction l as [|[r cb] l IH]; intros w Hs; unfold add_requests in *; simpl.
  - exists w. by rewrite app_nil_r.
  - destruct (deferredRequest_ret r cb w Hs) as (w1 & E1 & Hd1 & Hs1 & _ & _ & _ & Hf1).
    rewrite (bind_Ret _ _ _ _ _ E1). destruct (IH w1 Hs1) as (w' & E & Hd & Hs' & Hf).
    exists w'. split_and!; try done.
    + rewrite Hd, Hd1, <- app_assoc. done.
    + intros a. by rewrite Hf, Hf1.
Qed.

(** The callbacks registered by a list of entries. *)
Definition registered (l : list (request * option Z)) : list (Z * request) :=
  omap (λ p, (λ c, (c, p.1)) <$> p.2) l.

Lemma omap_snd_count a l : count_Z a (omap snd l) = holds a l.
Proof.
  induction l as [|[r cb] l IH]; [done|]. rewrite holds_cons, <- IH.
  cbn [omap list_omap snd]. destruct cb as [c|].
  - rewrite count_cons. repeat case_decide; simplify_eq; done.
  - by rewrite decide_False.
Qed.

Lemma run_cleanup_ret w :
  ∃ w', run_cleanup w = Ret ((deferredRequests w).*1) w' ∧ deferredRequests w' = [] ∧
    orbShutdownRequested w' = orbShutdownRequested w ∧ ∀ a, ref_count a w' = foreign_refs a w.
Proof.
  unfold run_cleanup, gets. unfold mbind at 1, M_bind at 1.
  destruct (remove_refs (omap snd (deferredRequests w)) w) as (w1 & E1 & Hd1 & _ & _ & Ho1 & Hr1).
  rewrite (bind_Ret _ _ _ _ _ E1). unfold modify, mbind, M_bind.
  eexists. split; [done|]. split_and!; [done|done|].
  intros a. unfold ref_count, foreign_refs in *. simpl. rewrite Hr1. by rewrite omap_snd_count.
Qed.

(** C12: every deferred request is released exactly once, whether its response arrived during
    [run] or is waited for at shutdown; a callback object is invoked at most once for each
    registration; and when [run] returns it holds no reference to a callback object any more:
    the references added by [deferredRequest] have all been removed. *)
Theorem run_releases rounds callback w :
  orbShutdownRequested w = false → quiet callback →
  ∃ rel inv w', run rounds callback w = Ret (rel, inv) w' ∧ deferredRequests w' = [] ∧
    rel ≡ₚ (deferredRequests w ++ concat rounds.*1).*1 ∧
    inv ⊆+ registered (deferredRequests w ++ concat rounds.*1) ∧
    ∀ a, ref_count a w' = foreign_refs a w.
Proof.
  intros Hs Hq. revert w Hs. induction rounds as [|[l poll] rounds IH]; intros w Hs; cbn [run];
    unfold get; unfold mbind at 1, M_bind at 1.
  - destruct (run_cleanup_ret w) as (w' & E & Hd & _ & Hr). rewrite (bind_Ret _ _ _ _ _ E).
    eexists _, _, w'. split; [done|]. rewrite app_nil_r. split_and!; try done.
    apply submseteq_nil_l.
  - rewrite Hs. destruct (add_requests_ret l w Hs) as (w1 & E1 & Hd1 & Hs1 & Hf1).
    unfold add_requests in E1. rewrite (bind_Ret _ _ _ _ _ E1).
    destruct (run_pass_spec poll callback w1 Hq) as (w2 & E2 & Hd2 & Hs2 & Hr2).
    rewrite (bind_Ret _ _ _ _ _ E2).
    destruct (IH w2) as (rel & inv & w' & E3 & Hd3 & Hrel & Hinv & Hr3); [congruence|].
    rewrite (bind_Ret _ _ _ _ _ E3). eexists _, _, w'. split; [done|].
    destruct (pass_partition poll (deferredRequests w1)) as (P1 & P2 & P3).
    cbn [fst snd fmap list_fmap concat]. rewrite app_assoc, <- Hd1. split_and!; [done| | |].
    + rewrite Hrel, Hd2, !fmap_app, P1, <- app_assoc. done.
    + unfold registered in *. rewrite omap_app. etrans; [|by apply submseteq_app; [exact P3|]].
      rewrite <- app_assoc. apply submseteq_app; [done|]. etrans; [exact Hinv|].
      by rewrite omap_app, Hd2.
    + intros a. rewrite Hr3. unfold foreign_refs. rewrite Hr2, Hd2.
      specialize (Hf1 a). specialize (P2 a). unfold foreign_refs in Hf1. lia.
Qed.
End orb.

(** A request with a callback object (address 7), answered in the second round, and an orphan
    that is never answered. *)
Definition sample_request (op : string) : request := mkRequest (OO := model_OrbOps) 1%N op None.

Definition sample_rounds : list (list (request * option Z) * (request → option reply)) :=
  [([(sample_request "_is_a", Some 7)], λ _, None);
   ([(sample_request "push", None)],
    λ r, if String.eqb (req_op r) "_is_a" then Some (Returned (ABool true) None) else None)].

Lemma run_releases_witness :
  (orbShutdownRequested model_world = false ∧ quiet (λ _ _ _, mret tt)) ∧
  ∃ rel inv w', run sample_rounds (λ _ _ _, mret tt) model_world = Ret (rel, inv) w' ∧
    rel ≡ₚ [sample_request "_is_a"; sample_request "push"] ∧ ref_count 7 w' = 0.
Proof.
  assert (Hq : quiet (OO := model_OrbOps) (λ _ _ _, mret tt)).
  { intros c r p w. eexists. split; [reflexivity|]. split_and!; [intros; discriminate..| | |]; reflexivity. }
  split; [split; [reflexivity|exact Hq]|].
  destruct (run_releases sample_rounds (λ _ _ _, mret tt) model_world eq_refl Hq)
    as (rel & inv & w' & E & _ & Hrel & _ & Hr).
  exists rel, inv, w'. split; [exact E|]. split; [exact Hrel|]. rewrite Hr. reflexivity.
Defined.
