(* ===== verification/OrbLock.v ===== *)
(** * OrbLock: the lock of the deferred requests (src/Orb.cc, src/ProxyManager.cc)

    [_deferredRequestsLock] is not recursive.  A callback object is a proxy: when its last
    reference is dropped it is deleted, and a proxy with a request of its own outstanding gives
    that to [Orb::deferredRequest], which takes the lock.  [run] drops its callbacks where it does
    not have the lock, for that reason; but not after its loop.

    [None] is a thread that waits for itself for ever.  [Orb] models the requests with their
    responses; here are the references, the objects behind them, and the lock. *)

From S2P Require Import Prelude Monad Corba ModelOrb Orb.

Local Open Scope list_scope.

Section lock.
Context `{OO : OrbOps}.

(** A callback object: its references, and [_req] of [Proxy]. *)
Record callback_object := mkCallback { co_refs : nat; co_req : option request }.

Record locked := mkLocked {
  lk_held : bool;
  lk_requests : list (request * option Z);
  lk_objects : gmap Z callback_object }.

Definition lk_lock (s : locked) : option locked :=
  if lk_held s then None else Some (mkLocked true (lk_requests s) (lk_objects s)).
Definition lk_unlock (s : locked) : locked := mkLocked false (lk_requests s) (lk_objects s).
Definition lk_set_requests (l : list (request * option Z)) (s : locked) : locked :=
  mkLocked (lk_held s) l (lk_objects s).
Definition lk_set_objects (m : gmap Z callback_object) (s : locked) : locked :=
  mkLocked (lk_held s) (lk_requests s) m.

(** [deferredRequest(req)], without a callback. *)
Definition lk_deferredRequest (req : request) (s : locked) : option locked :=
  s ← lk_lock s;
  Some (lk_unlock (lk_set_requests (lk_requests s ++ [(req, None)]) s)).

(** [~Proxy()] *)
Definition destroy_callback (o : callback_object) (s : locked) : option locked :=
  match co_req o with Some req => lk_deferredRequest req s | None => Some s end.

(** [_remove_ref()] *)
Definition lk_remove_ref (a : Z) (s : locked) : option locked :=
  match lk_objects s !! a with
  | None => Some s
  | Some o =>
      match co_refs o with
      | S (S n) => Some (lk_set_objects (<[a := mkCallback (S n) (co_req o)]> (lk_objects s)) s)
      | _ => destroy_callback o (lk_set_objects (delete a (lk_objects s)) s)
      end
  end.




(** The same with the wait for each response, as the loop is written: [responds] says which requests
    are answered in the end. *)
Fixpoint lk_drain (responds : request → bool) (l : list (request * option Z)) (s : locked) : option locked :=
  match l with
  | [] => Some s
  | (req, cb) :: l' =>
      _ ← (if responds req then Some tt else None);                         (* get_response() *)
      s ← match cb with Some a => lk_remove_ref a s | None => Some s end;
      lk_drain responds l' (lk_set_requests l' s)
  end.
Definition lk_collect (responds : request → bool) (s : locked) : option locked :=
  s ← lk_lock s;
  s ← lk_drain responds (lk_requests s) s;
  Some (lk_unlock s).

(** ** What is deleted *)

Definition cnt (a : Z) (l : list Z) : nat := length (filter (λ b, b = a) l).

Lemma cnt_cons a b l : cnt a (b :: l) = ((if decide (b = a) then 1 else 0) + cnt a l)%nat.
Proof. unfold cnt. rewrite filter_cons. by case_decide. Qed.

(** Every reference in [l] is one of an object. *)
Definition backed (l : list Z) (s : locked) : Prop :=
  (∀ a o, lk_objects s !! a = Some o → (0 < co_refs o)%nat) ∧
  ∀ a, (0 < cnt a l)%nat → ∃ o, lk_objects s !! a = Some o ∧ (cnt a l ≤ co_refs o)%nat.

(** [l] has all references to the object at [a]. *)
Definition dies (l : list Z) (s : locked) (a : Z) (o : callback_object) : Prop :=
  lk_objects s !! a = Some o ∧ co_refs o = cnt a l.

(** One reference less. *)
Definition dropped (a : Z) (m : gmap Z callback_object) : gmap Z callback_object :=
  match m !! a with
  | None => m
  | Some o => match co_refs o with
              | S (S n) => <[a := mkCallback (S n) (co_req o)]> m
              | _ => delete a m
              end
  end.

Lemma dropped_ne a b m : a ≠ b → dropped a m !! b = m !! b.
Proof.
  intros Hn. unfold dropped. destruct (m !! a) as [[[|[|n]] r]|]; cbn; [| |by rewrite lookup_insert_ne|done];
    by rewrite lookup_delete_ne.
Qed.

Lemma backed_cons a l s : backed (a :: l) s →
  ∃ o, lk_objects s !! a = Some o ∧
    backed l (lk_set_objects (dropped a (lk_objects s)) s) ∧
    ∀ r, (∃ b o', dies (a :: l) s b o' ∧ co_req o' = Some r) ↔
      (co_refs o = 1%nat ∧ co_req o = Some r) ∨
      ∃ b o', dies l (lk_set_objects (dropped a (lk_objects s)) s) b o' ∧ co_req o' = Some r.
Proof.
  intros [H1 H2]. destruct (H2 a) as (o & Ho & Hc); [rewrite cnt_cons, decide_True by done; lia|].
  rewrite cnt_cons, decide_True in Hc by done. exists o. split; [done|].
  assert (Hd : dropped a (lk_objects s) !! a =
    match co_refs o with S (S n) => Some (mkCallback (S n) (co_req o)) | _ => None end).
  { unfold dropped. rewrite Ho. destruct (co_refs o) as [|[|n]]; by simpl_map. }
  unfold dies, backed. cbn [lk_objects lk_set_objects]. split; [split|].
  - intros b p Hp. destruct (decide (a = b)) as [<-|Hn]; [|rewrite dropped_ne in Hp by done; by eapply H1].
    rewrite Hd in Hp. destruct (co_refs o) as [|[|n]]; [done..|]. injection Hp as <-. cbn. lia.
  - intros b Hb. destruct (decide (a = b)) as [<-|Hn].
    + rewrite Hd. destruct (co_refs o) as [|[|n]]; [lia..|]. eexists. split; [done|]. cbn. lia.
    + rewrite dropped_ne by done. destruct (H2 b) as (p & Hp & Hq); rewrite cnt_cons, decide_False in * by done; by eauto.
  - intros r. split.
    + intros (b & p & [Hp Hq] & Hr). rewrite cnt_cons in Hq. destruct (decide (a = b)) as [<-|Hn].
      * rewrite Ho in Hp. injection Hp as <-. destruct (co_refs o) as [|[|n]] eqn:E; [lia|by left|].
        right. exists a, (mkCallback (S n) (co_req o)). rewrite Hd. split; [|done]. split; [done|]. cbn. lia.
      * right. exists b, p. rewrite dropped_ne by done. split; [|done]. split; [done|]. lia.
    + intros [[Hq Hr]|(b & p & [Hp Hq] & Hr)].
      * exists a, o. split; [|done]. split; [done|]. rewrite cnt_cons, decide_True by done. lia.
      * destruct (decide (a = b)) as [<-|Hn].
        -- exists a, o. rewrite cnt_cons, decide_True by done. rewrite Hd in Hp.
           destruct (co_refs o) as [|[|n]]; [done..|]. injection Hp as <-. cbn in Hq, Hr. split; [|done]. split; [done|]. lia.
        -- exists b, p. rewrite cnt_cons, decide_False by done. by rewrite dropped_ne in Hp.
Qed.
Definition dropped_in (a : Z) (s : locked) : locked := lk_set_objects (dropped a (lk_objects s)) s.

(** [q] is the request of an object that is deleted. *)
Definition dying (l : list Z) (s : locked) (q : request) : Prop := ∃ a o, dies l s a o ∧ co_req o = Some q.

(** Dropping the last reference to an object with a request takes the lock. *)
Lemma remove_ref_cases a l s : backed (a :: l) s →
  backed l (dropped_in a s) ∧
  ((∃ r, lk_remove_ref a s = lk_deferredRequest r (dropped_in a s) ∧
      ∀ q, dying (a :: l) s q ↔ q = r ∨ dying l (dropped_in a s) q) ∨
   (lk_remove_ref a s = Some (dropped_in a s) ∧ ∀ q, dying (a :: l) s q ↔ dying l (dropped_in a s) q)).
Proof.
  intros Hb. destruct (backed_cons a l s Hb) as (o & Ho & Hb' & Hd). split; [done|].
  pose proof (proj1 Hb _ _ Ho) as Hpos. unfold dying, dropped_in in *. unfold lk_remove_ref, destroy_callback.
  assert (Hdr : dropped a (lk_objects s) = match co_refs o with
    | S (S n) => <[a := mkCallback (S n) (co_req o)]> (lk_objects s) | _ => delete a (lk_objects s) end).
  { unfold dropped. by rewrite Ho. }
  rewrite Ho. destruct (co_refs o) as [|[|n]] eqn:En; [lia| |].
  - destruct (co_req o) as [r|] eqn:Er.
    + left. exists r. rewrite Hdr. split; [done|]. rewrite <- Hdr. intros q. rewrite Hd. split; intros [K|K]; auto.
      * left. by destruct K as [_ [= ->]].
      * left. by subst.
    + right. rewrite Hdr. split; [done|]. rewrite <- Hdr. intros q. rewrite Hd. split; [|by right].
      intros [[_ ?]|K]; [done|exact K].
  - right. rewrite Hdr. split; [done|]. rewrite <- Hdr. intros q. rewrite Hd. split; [|by right].
    intros [[? _]|K]; [done|exact K].
Qed.

Lemma dying_nil s q : backed [] s → ¬ dying [] s q.
Proof. intros Hb (a & o & [Ho Hc] & _). apply (proj1 Hb) in Ho. cbn in Hc. lia. Qed.


Lemma dying_requests l r s q : dying l (lk_set_requests r s) q ↔ dying l s q.
Proof. done. Qed.

(** Waiting for the responses with the lock held: for one that never comes, or for the lock. *)
Lemma drain_held responds l : ∀ s, backed (omap snd l) s → lk_held s = true →
  lk_drain responds l s = None ↔ (∃ p, p ∈ l ∧ responds p.1 = false) ∨ ∃ q, dying (omap snd l) s q.
Proof.
  induction l as [|[req cb] l IH]; intros s Hb Hh; cbn [lk_drain].
  - split; [done|]. intros [(p & ?%elem_of_nil & _)|[q Hq]]; [done|by eapply dying_nil in Hq].
  - assert (Hex : (∃ p, p ∈ (req, cb) :: l ∧ responds p.1 = false) ↔
      responds req = false ∨ ∃ p, p ∈ l ∧ responds p.1 = false).
    { setoid_rewrite elem_of_cons. split.
      - intros (p & [->|Hp] & Hr); [by left|right; eauto].
      - intros [Hr|(p & Hp & Hr)]; eauto. }
    rewrite Hex. destruct (responds req) eqn:Er; cbn [mbind option_bind]; [|by split; [left; left|]].
    assert (Hgo : ∀ s', backed (omap snd l) s' → lk_held s' = true →
      lk_drain responds l (lk_set_requests l s') = None ↔
      (true = false ∨ ∃ p, p ∈ l ∧ responds p.1 = false) ∨ ∃ q, dying (omap snd l) s' q).
    { intros s' Hb' Hh'. rewrite (IH (lk_set_requests l s') Hb' Hh'). setoid_rewrite dying_requests.
      split; [intros [K|K]; auto|intros [[[=]|K]|K]; auto]. }
    destruct cb as [a|]; cbn [omap list_omap snd] in *; [|by apply Hgo].
    destruct (remove_ref_cases a (omap snd l) s Hb) as [Hb' [(r & -> & Hd)|[-> Hd]]].
    + unfold lk_deferredRequest, lk_lock. cbn [lk_held dropped_in lk_set_objects]. rewrite Hh. cbn.
      split; [|done]. intros _. right. exists r. apply Hd. by left.
    + cbn [mbind option_bind]. setoid_rewrite Hd. by apply Hgo.
Qed.




(** ** The two places where callbacks are dropped *)

Definition callbacks (l : list (request * option Z)) : list Z := omap snd l.





(** The requests that stay and the callbacks that are dropped are those of [Orb.run_pass]. *)
Lemma turn_is_pass (poll : request → option reply) l :
  let answered r := match poll r with Some _ => true | None => false end in
  List.filter (λ p, negb (answered p.1)) l = remaining (pass_spec poll l) ∧
  callbacks (List.filter (λ p, answered p.1) l) = usedCallbacks (pass_spec poll l).
Proof.
  unfold pass_spec, callbacks. cbn [remaining usedCallbacks]. induction l as [|[r cb] l [IH1 IH2]]; [done|].
  rewrite filter_cons. cbn [List.filter omap list_omap fst snd].
  destruct (poll r); cbn [negb]; [rewrite decide_False by done|rewrite decide_True by done]; cbn [omap list_omap snd].
  - split; [exact IH1|]. by rewrite IH2.
  - split; [by rewrite IH1|exact IH2].
Qed.

End lock.


