(* ===== verification/Proxy.v ===== *)
(** * Proxy: proxies, their managers, and their records in the log
      (src/ProxyManager.h, src/ProxyManager.cc; [WriteLock] of src/omniEventsLog.h)

    A proxy writes one line to the log when it is connected and one when it goes away.  A
    manager owns the proxies of one kind of one channel.  What a kind of proxy provides to its
    manager is the class [ProxyClass]. *)

From S2P Require Import Prelude Monad CxxMap Stream PersistNode PersistReplay PersistLog.
From S2P Require Import Corba Servant Orb.

Local Open Scope string_scope.
Local Open Scope list_scope.

Section proxy.
Context `{OO : OrbOps}.

(** ** [WriteLock] *)

(** [omniEventsLog::exists()] *)
Definition log_exists (w : world) : bool := match logstream w with Some _ => true | None => false end.

(** [{ WriteLock log; ... }]: the destructor flushes the stream and asks for a checkpoint, on
    an exception too.  [theLog] must exist. *)
Definition write_lock (m : ostream_op) : M exn world unit := λ w,
  match logstream w with
  | None => Aborted w
  | Some t =>
      let close t' := set_checkpointNeeded true (set_logstream (Some t') w) in
      match m w t with
      | Ret _ t' => Ret tt (close t')
      | Throw e t' => Throw e (close t')
      | Exited c t' => Exited c (set_logstream (Some t') w)
      | Aborted t' => Aborted (set_logstream (Some t') w)
      end
  end.

(** [if(omniEventsLog::exists()) { WriteLock log; m(log.os); }] *)
Definition log_write (m : ostream_op) : M exn world unit :=
  w ← get; when (log_exists w) (write_lock m).

(** ** Class [Proxy] *)

(** Where a proxy lives: its channel (the name of the parent POA), its POA, its address. *)
Record place := mkPlace { channelName : string; proxyPoa : string; this : Z }.

Definition proxy_key (channel name oid : string) : string :=
  "ecf/" +:+ channel +:+ "/" +:+ name +:+ "/" +:+ oid.

(** [keyOutput(os,name)] *)
Definition keyOutput (pl : place) (name : string) : ostream_op := λ w,
  match servant_to_id (proxyPoa pl) (this pl) (poas w) with
  | inl e => throw e
  | inr oid => emit (proxy_key (channelName pl) name oid)
  end.

(** [eraseKey(name)] *)
Definition eraseKey (pl : place) (name : string) : M exn world unit :=
  log_write (λ w, _ ← emit "-"; _ ← keyOutput pl name w; emit nl).

(** [basicOutput(os,name,target,extraAttributes)] *)
Definition basicOutput (pl : place) (name : string) (target : option Object) (extra : option string)
    : ostream_op := λ w,
  _ ← keyOutput pl name w;
  _ ← match target with
      | Some o =>
          _ ← emit (" IOR=" +:+ object_to_string o);
          match extra with Some x => emit x | None => mret tt end
      | None => mret tt
      end;
  emit (" ;;" +:+ nl).

(** [basicOutput(os,name,iorstr,extraAttributes)] *)
Definition basicOutput_ior (pl : place) (name iorstr : string) (extra : option string) : ostream_op := λ w,
  _ ← keyOutput pl name w;
  _ ← emit (" IOR=" +:+ iorstr);
  _ ← match extra with Some x => emit x | None => mret tt end;
  emit (" ;;" +:+ nl).

(** [~Proxy()]: an outstanding request is left to the Orb. *)
Definition destroy_Proxy (req : option request) : M exn world unit :=
  match req with Some r => deferredRequest r None | None => mret tt end.
(** Send a request and leave it to the Orb. *)
Definition send_orphan (o : Object) (op : string) : M exn world unit :=
  let req := mkRequest o op None in
  _ ← send_deferred req; deferredRequest req None.

End proxy.

(** What the manager needs of a kind of proxy. *)
Class ProxyClass `{OO : OrbOps} (T : Type) := {
  proxy_reincarnate : place → string → PersistNode → Meth T unit;
  proxy_output : place → T → ostream_op;
  proxy_req : T → option request }.

Section manager.
Context `{OO : OrbOps} {T : Type} `{PC : !ProxyClass T}.

(** ** Class [ProxyManager] *)

(** [_servants] is a set of pointers: address and object. *)
Record ProxyManager := mkProxyManager {
  _managedPoa : string;
  _servants : list (Z * T) }.

Definition set_servants (l : list (Z * T)) (m : ProxyManager) : ProxyManager :=
  mkProxyManager (_managedPoa m) l.

Definition mplace (channel : string) (a : Z) (m : ProxyManager) : place :=
  mkPlace channel (_managedPoa m) a.

(** [activate(name)]: create the POA of the proxies, and register this object as its servant
    manager.  If the POA could not be created [_managedPoa] is nil, and the last call throws. *)
Definition activate (poa name : string) (this_mgr : Z) : M exn world string := λ w,
  let poaName := poa +:+ "." +:+ name in
  let fin (ok : bool) : M exn world string :=
    _ ← activateObjectWithId poa this_mgr (name +:+ "Manager");
    if ok then mret poaName else throw (SystemException "INV_OBJREF") in
  match create_POA poaName (poas w) with
  | inr p => fin true (set_poas p w)
  | inl AdapterAlreadyExists | inl InvalidPolicy => fin false w
  | inl e => Throw e w
  end.

(** [etherealize]: the servant is deleted, whether it is in the set or not; an outstanding
    request is left to the Orb. *)
Definition etherealize (a : Z) (serv : T) : Meth ProxyManager unit :=
  m ← self;
  _ ← match map_find a (_servants m) with
      | Some _ => upd (set_servants (map_erase a (_servants m)))
      | None => mret tt
      end;
  onW (destroy_Proxy (proxy_req serv)).

(** Run a method of the proxy at address [a]. *)
Definition on_servant {A} (a : Z) (f : Meth T A) : Meth ProxyManager A := λ s,
  match map_find a (_servants s.1) with
  | None => Aborted s
  | Some t =>
      let back (r : T * world) := (set_servants (map_put a r.1 (_servants s.1)) s.1, r.2) in
      match f (t, s.2) with
      | Ret x r => Ret x (back r)
      | Throw e r => Throw e (back r)
      | Exited c r => Exited c (back r)
      | Aborted r => Aborted (back r)
      end
  end.

(** [reincarnate(node)]: one proxy for each child, made by [incarnate] at the next of [addrs].  A
    proxy whose reference is bad is dropped; any other exception ends the loop. *)
Fixpoint reincarnate (channel : string) (incarnate : Z → Meth ProxyManager Z) (addrs : list Z)
    (l : list (string * PersistNode)) : Meth ProxyManager unit :=
  match l, addrs with
  | [], _ => mret tt
  | i :: l', addr :: addrs' =>
      a ← incarnate addr;
      m ← self;
      _ ← try_catch (on_servant a (proxy_reincarnate (mplace channel a m) i.1 i.2))
        (λ e, match e with
              | BAD_PARAM => Some (
                  m ← self;
                  _ ← upd (set_servants (map_erase a (_servants m)));
                  onW (destroy_Proxy (match map_find a (_servants m) with
                                      | Some t => proxy_req t | None => None end)))
              | _ => None
              end);
      reincarnate channel incarnate addrs' l'
  | _ :: _, [] => abort  (* out of memory *)
  end.

(** [output(os)] *)
Definition output_manager (channel : string) (m : ProxyManager) : ostream_op := λ w,
  for_each (_servants m) (λ p, proxy_output (mplace channel p.1 m) p.2 w).
End manager.
Arguments ProxyManager T : clear implicits.

(** ** Log records of a proxy *)

Section records.
Context `{OL : OrbLaws}.

Definition wf_place (pl : place) (name oid : string) : bool :=
  no_space (channelName pl) && no_space name && no_space oid.

Lemma proxy_key_text ch name oid :
  no_space ch = true → no_space name = true → no_space oid = true →
  wf_path (proxy_key ch name oid) = true ∧ no_space (proxy_key ch name oid) = true.
Proof.
  intros H1 H2 H3. split.
  - unfold proxy_key. str_simp. done.
  - unfold proxy_key. rewrite !no_space_app, H1, H2, H3. done.
Qed.

Lemma log_write_ret (m : ostream_op) w t t' :
  logstream w = Some t → m w t = Ret tt t' →
  log_write m w = Ret tt (set_checkpointNeeded true (set_logstream (Some t') w)).
Proof.
  intros Hl Hm. unfold log_write, get, mbind, M_bind, log_exists, when, write_lock.
  rewrite Hl. cbn beta iota. by rewrite Hl, Hm.
Qed.

Lemma log_write_throw (m : ostream_op) w t e t' :
  logstream w = Some t → m w t = Throw e t' →
  log_write m w = Throw e (set_checkpointNeeded true (set_logstream (Some t') w)).
Proof.
  intros Hl Hm. unfold log_write, get, mbind, M_bind, log_exists, when, write_lock.
  rewrite Hl. cbn beta iota. by rewrite Hl, Hm.
Qed.

Lemma log_write_none (m : ostream_op) w : logstream w = None → log_write m w = Ret tt w.
Proof. intros Hl. unfold log_write, get, mbind, M_bind, log_exists. by rewrite Hl. Qed.

Lemma keyOutput_active pl name oid w t :
  servant_to_id (proxyPoa pl) (this pl) (poas w) = inr oid →
  keyOutput pl name w t = Ret tt (t +:+ proxy_key (channelName pl) name oid).
Proof. unfold keyOutput. by intros ->. Qed.

(** The record of an active proxy is one [Put] line; erasing it is one [Del] line. *)
Lemma basicOutput_ior_line pl name oid ior extra w t :
  servant_to_id (proxyPoa pl) (this pl) (poas w) = inr oid →
  basicOutput_ior pl name ior (attr_inline <$> extra) w t =
  Ret tt (t +:+ item_line (Put (proxy_key (channelName pl) name oid)
                             (("IOR", ior) :: option_list extra))).
Proof.
  intros Hs. unfold basicOutput_ior. rewrite (bind_Ret _ _ _ _ _ (keyOutput_active _ _ _ _ _ Hs)).
  unfold emit, modify, mbind, M_bind. destruct extra; simpl;
    f_equal; unfold attr_inline, attr_word; simpl; by rewrite !str_app_assoc.
Qed.

Lemma basicOutput_line pl name oid target w t :
  servant_to_id (proxyPoa pl) (this pl) (poas w) = inr oid →
  basicOutput pl name target None w t =
  Ret tt (t +:+ item_line (Put (proxy_key (channelName pl) name oid)
      (match target with Some o => [("IOR", object_to_string o)] | None => [] end))).
Proof.
  intros Hs. unfold basicOutput. rewrite (bind_Ret _ _ _ _ _ (keyOutput_active _ _ _ _ _ Hs)).
  unfold emit, modify, mbind, M_bind, mret, M_ret. destruct target; simpl;
    f_equal; unfold attr_inline, attr_word; simpl; by rewrite !str_app_assoc.
Qed.

Lemma eraseKey_line pl name oid w t :
  logstream w = Some t → servant_to_id (proxyPoa pl) (this pl) (poas w) = inr oid →
  eraseKey pl name w = Ret tt (set_checkpointNeeded true
    (set_logstream (Some (t +:+ item_line (Del (proxy_key (channelName pl) name oid)))) w)).
Proof.
  intros Hl Hs. unfold eraseKey. apply log_write_ret with t; [done|].
  unfold emit, modify, mbind, M_bind, keyOutput. rewrite Hs. simpl.
  by rewrite !str_app_assoc.
Qed.

(** On a servant the POA does not know, a lone [-] is left in the log. *)
Lemma eraseKey_inactive pl name w t e :
  logstream w = Some t → servant_to_id (proxyPoa pl) (this pl) (poas w) = inl e →
  eraseKey pl name w = Throw e (set_checkpointNeeded true
    (set_logstream (Some (t +:+ "-")) w)).
Proof.
  intros Hl Hs. unfold eraseKey. apply log_write_throw with t; [done|].
  unfold emit, modify, mbind, M_bind, keyOutput. by rewrite Hs.
Qed.

Lemma text_put ch name oid ior :
  no_space ch = true → no_space name = true → no_space oid = true → no_space ior = true →
  text_item (Put (proxy_key ch name oid) [("IOR", ior)]) = true ∧
  text_item (Put (proxy_key ch name oid) [("IOR", ior); ("proxy", "1")]) = true ∧
  text_item (Put (proxy_key ch name oid) []) = true ∧
  text_item (Del (proxy_key ch name oid)) = true.
Proof.
  intros H1 H2 H3 H4. destruct (proxy_key_text ch name oid H1 H2 H3) as [Hp Hs].
  cbn [text_item forallb]. unfold text_attr. cbn [fst snd]. rewrite Hp, Hs, H4.
  split_and!; reflexivity.
Qed.
Lemma send_orphan_ret o op w :
  ∃ w', send_orphan o op w = Ret tt w' ∧ sent w' = sent w ++ [mkRequest o op None] ∧
    deferredRequests w' = deferredRequests w ++ [(mkRequest o op None, None)] ∧
    logstream w' = logstream w ∧ poas w' = poas w ∧ refs w' = refs w ∧
    orbShutdownRequested w' = orbShutdownRequested w.
Proof.
  unfold send_orphan, send_deferred, deferredRequest, get, modify, mbind, M_bind, mret, M_ret.
  simpl. destruct (orbShutdownRequested w) eqn:E; eexists; (split; [done|]); done.
Qed.

Lemma eraseKey_ret pl name oid w :
  servant_to_id (proxyPoa pl) (this pl) (poas w) = inr oid →
  ∃ w', eraseKey pl name w = Ret tt w' ∧ sent w' = sent w ∧ poas w' = poas w ∧
    deferredRequests w' = deferredRequests w ∧ refs w' = refs w ∧
    logstream w' = (λ t, t +:+ item_line (Del (proxy_key (channelName pl) name oid))) <$> logstream w.
Proof.
  intros Hs. destruct (logstream w) as [t|] eqn:El.
  - rewrite (eraseKey_line pl name oid w t El Hs). by eexists.
  - unfold eraseKey. rewrite log_write_none by done. by exists w.
Qed.

(** Erasing the record and deactivating the object. *)
Lemma retire_ret pl name oid w :
  servant_to_id (proxyPoa pl) (this pl) (poas w) = inr oid →
  ∃ w1 w2, eraseKey pl name w = Ret tt w1 ∧
    deactivateObject (proxyPoa pl) (this pl) w1 = Ret tt w2 ∧
    sent w2 = sent w ∧ is_active (proxyPoa pl) (this pl) w2 = false ∧
    logstream w2 = (λ t, t +:+ item_line (Del (proxy_key (channelName pl) name oid))) <$> logstream w.
Proof.
  intros Hs. destruct (eraseKey_ret pl name oid w Hs) as (w1 & E1 & Hs1 & Hp1 & _ & _ & Hl1).
  destruct (deactivate_active_ret (proxyPoa pl) (this pl) w1) as (ps & E2 & Hn).
  { unfold is_active. by rewrite Hp1, Hs. }
  exists w1, (set_poas ps w1). split_and!; try done. unfold is_active. simpl. by rewrite Hn.
Qed.

End records.
