(* ===== verification/ProxyPullConsumer.v ===== *)
(** * ProxyPullConsumer: pulling events from a supplier
      (src/ProxyPullConsumer.h, src/ProxyPullConsumer.cc)

    Each cycle of the channel, [collect] picks up the response to the outstanding request, and
    [triggerRequest] sends a new one if there is none.  The proxy alternates between [pull] and
    [try_pull] on exceptions and gives up after four in a row.

    [_queue] is the list of events of the SupplierAdmin, shared by reference: it is the second
    component of the state of the methods that use it. *)

From S2P Require Import Prelude Monad CxxMap Stream PersistNode PersistReplay PersistLog.
From S2P Require Import Corba ModelOrb Servant Orb Proxy.

Local Open Scope string_scope.
Local Open Scope Z_scope.
Local Open Scope list_scope.

Inductive Mode := Pull | TryPull.

Section pull_consumer.
Context `{OO : OrbOps}.

Record ProxyPullConsumer_i := mkPPC {
  _req : option request;
  _target : option Object;
  _mode : Mode;
  _exceptionCount : Z }.

Definition new_ProxyPullConsumer : ProxyPullConsumer_i := mkPPC None None Pull 0.

Definition set_req (r : option request) (p : ProxyPullConsumer_i) : ProxyPullConsumer_i :=
  mkPPC r (_target p) (_mode p) (_exceptionCount p).
Definition set_target (o : option Object) (p : ProxyPullConsumer_i) : ProxyPullConsumer_i :=
  mkPPC (_req p) o (_mode p) (_exceptionCount p).
Definition set_mode (m : Mode) (p : ProxyPullConsumer_i) : ProxyPullConsumer_i :=
  mkPPC (_req p) (_target p) m (_exceptionCount p).
Definition set_exceptionCount (n : Z) (p : ProxyPullConsumer_i) : ProxyPullConsumer_i :=
  mkPPC (_req p) (_target p) (_mode p) n.

Definition ppc_name : string := "SupplierAdmin/ProxyPullConsumer".

(** [output(os)] *)
Definition ppc_output (pl : place) (p : ProxyPullConsumer_i) : ostream_op :=
  basicOutput pl ppc_name (_target p) None.

(** [connect_pull_supplier(pullSupplier)] *)
Definition connect_pull_supplier (pl : place) (pullSupplier : option Object)
    : Meth ProxyPullConsumer_i unit :=
  p ← self;
  match pullSupplier with
  | None => throw BAD_PARAM
  | Some o =>
      if bool_decide (is_Some (_target p)) || bool_decide (is_Some (_req p))
      then throw AlreadyConnected
      else
        _ ← upd (set_target (Some o));
        p ← self;
        onW (log_write (ppc_output pl p))
  end.

(** [disconnect_pull_consumer()] *)
Definition disconnect_pull_consumer (pl : place) : Meth ProxyPullConsumer_i unit :=
  _ ← onW (eraseKey pl ppc_name);
  _ ← onW (deactivateObject (proxyPoa pl) (this pl));
  p ← self;
  match _target p with
  | None => throw OBJECT_NOT_EXIST
  | Some o =>
      _ ← upd (set_target None);
      onW (send_orphan o "disconnect_pull_supplier")
  end.

(** Does the response carry an event? *)
Definition has_event (opname : string) (out_has_event : option Any) : bool :=
  if String.eqb opname "pull" then true
  else if String.eqb opname "try_pull" then
    match out_has_event with
    | Some a => match any_boolean a with Some b => b | None => false end
    | None => false
    end
  else false.

Definition other_mode (m : Mode) : Mode := match m with Pull => TryPull | TryPull => Pull end.

(** Methods that also touch the shared queue. *)
Definition QMeth (T A : Type) : Type := Meth (T * list Any) A.
Definition onP {T A} (m : Meth T A) : QMeth T A :=
  zoom (λ s, (s.1.1, s.2)) (λ r s, ((r.1, s.1.2), r.2)) m.
Definition push_back {T} (event : Any) : QMeth T unit := upd (λ s, (s.1, s.2 ++ [event])).

(** [collect()]; [poll] is [poll_response] with the response. *)
Definition collect (pl : place) (poll : request → option reply) : QMeth ProxyPullConsumer_i unit :=
  p ← onP self;
  match _req p with
  | None => mret tt
  | Some r =>
      match poll r with
      | None => mret tt
      | Some rep =>
          let opname := req_op r in
          _ ← match rep with
              | Raised ex =>
                  _ ← (if String.eqb "pull" opname || String.eqb "try_pull" opname then
                         onP (upd (λ p, set_mode (other_mode (_mode p))
                                          (set_exceptionCount (i32 (_exceptionCount p + 1)) p)))
                       else mret tt);
                  p ← onP self;
                  if 4 <=? _exceptionCount p then
                    match _target p with
                    | None => abort (* reportObjectFailure: assert(!is_nil(obj)) *)
                    | Some o =>
                        _ ← onP (onW (send_orphan o "disconnect_pull_supplier"));
                        _ ← onP (upd (set_target None));
                        _ ← onP (onW (eraseKey pl ppc_name));
                        onP (onW (deactivateObject (proxyPoa pl) (this pl)))
                    end
                  else mret tt
              | Returned v out =>
                  _ ← (if has_event opname out then push_back v else mret tt);
                  onP (upd (set_exceptionCount 0))
              end;
          onP (upd (set_req None))
      end
  end.

Definition op_name (m : Mode) : string := match m with Pull => "pull" | TryPull => "try_pull" end.

(** [triggerRequest()] *)
Definition triggerRequest : QMeth ProxyPullConsumer_i unit :=
  p ← onP self;
  match _req p, _target p with
  | None, Some o =>
      let req := mkRequest o (op_name (_mode p)) None in
      _ ← onP (upd (set_req (Some req)));
      onP (onW (send_deferred req))
  | _, _ => mret tt
  end.

(** [reincarnate(oid,node)] *)
Definition ppc_reincarnate (pl : place) (oid : string) (node : PersistNode)
    : Meth ProxyPullConsumer_i unit :=
  o ← string_to_M (attrString "IOR" "" node);
  _ ← onW (activateObjectWithId (proxyPoa pl) (this pl) oid);
  connect_pull_supplier pl (Some o).

#[export] Instance ppc_ProxyClass : ProxyClass ProxyPullConsumer_i := {
  proxy_reincarnate := ppc_reincarnate;
  proxy_output := ppc_output;
  proxy_req := _req }.

(** ** The manager *)

(** [incarnate(oid,poa)]: [addr] is the address [new] returns. *)
Definition ppc_incarnate (addr : Z) : Meth (ProxyManager ProxyPullConsumer_i) Z :=
  _ ← upd (λ m, set_servants (map_put addr new_ProxyPullConsumer (_servants m)) m);
  mret addr.

(** Run a method of the proxy at address [a], with the shared queue. *)
Definition on_proxy (a : Z) (f : QMeth ProxyPullConsumer_i unit)
    : QMeth (ProxyManager ProxyPullConsumer_i) unit := λ s,
  match map_find a (_servants s.1.1) with
  | None => Aborted s
  | Some p =>
      let back (r : ProxyPullConsumer_i * list Any * world) :=
        (set_servants (map_put a r.1.1 (_servants s.1.1)) s.1.1, r.1.2, r.2) in
      match f (p, s.1.2, s.2) with
      | Ret x r => Ret x (back r)
      | Throw e r => Throw e (back r)
      | Exited c r => Exited c (back r)
      | Aborted r => Aborted (back r)
      end
  end.

(** [ProxyPullConsumerManager::collect()] and [triggerRequest()] *)
Definition manager_collect (channel : string) (poll : request → option reply)
    : QMeth (ProxyManager ProxyPullConsumer_i) unit :=
  m ← onP self;
  for_each (_servants m) (λ i, on_proxy i.1 (collect (mplace channel i.1 m) poll)).

Definition manager_triggerRequest : QMeth (ProxyManager ProxyPullConsumer_i) unit :=
  m ← onP self;
  for_each (_servants m) (λ i, on_proxy i.1 triggerRequest).

(** The constructor of the manager. *)
Definition new_ProxyPullConsumerManager (poa : string) (this_mgr : Z)
    : M exn world (ProxyManager ProxyPullConsumer_i) :=
  managed ← activate poa "ProxyPullConsumer" this_mgr; mret (mkProxyManager managed []).

(** [ProxyPullConsumerManager::createObject()] *)
Definition ppc_createObject (mypid : Z) (m : ProxyManager ProxyPullConsumer_i) : M exn world Object :=
  createReference mypid (_managedPoa m) "IDL:omg.org/CosEventChannelAdmin/ProxyPullConsumer:1.0".

(** [ProxyPullConsumerManager::disconnect()]: the call goes through the POA, which dispatches it
    to the servant. *)
Definition ppc_disconnect (channel : string) : Meth (ProxyManager ProxyPullConsumer_i) unit :=
  m ← self;
  for_each (_servants m) (λ i, on_servant i.1 (disconnect_pull_consumer (mplace channel i.1 m))).

(** ** The protocol, as a state machine

    Connected, in a mode, after [n] consecutive exceptions; or given up. *)

Definition astate : Type := option (Mode * nat).

(** The state after a cycle, the events it yields, the operations it sends. *)
Definition acycle (st : astate) (r : option reply) : astate * list Any * list string :=
  match st, r with
  | None, _ | _, None => (st, [], [])
  | Some (m, n), Some (Raised _) =>
      if (n <? 3)%nat then (Some (other_mode m, S n), [], [op_name (other_mode m)])
      else (None, [], ["disconnect_pull_supplier"])
  | Some (m, n), Some (Returned v out) =>
      (Some (m, 0%nat), if has_event (op_name m) out then [v] else [], [op_name m])
  end.

Fixpoint acycles (st : astate) (l : list (option reply)) : astate * list Any * list string :=
  match l with
  | [] => (st, [], [])
  | r :: l' =>
      let '(st1, ev1, op1) := acycle st r in
      let '(st2, ev2, op2) := acycles st1 l' in
      (st2, ev1 ++ ev2, op1 ++ op2)
  end.

(** One cycle of the channel, for one proxy. *)
Definition cycle (pl : place) (r : option reply) : QMeth ProxyPullConsumer_i unit :=
  _ ← collect pl (λ _, r); triggerRequest.

Definition cycles (pl : place) (l : list (option reply)) : QMeth ProxyPullConsumer_i unit :=
  for_each l (cycle pl).

(** The proxy that a state of the machine stands for: connected to [o], active as [oid], with
    exactly one request in flight; or disconnected, with none. *)
Definition ppc_rel (pl : place) (oid : string) (o : Object) (st : astate)
    (p : ProxyPullConsumer_i) (w : world) : Prop :=
  match st with
  | Some (m, n) =>
      p = mkPPC (Some (mkRequest o (op_name m) None)) (Some o) m (Z.of_nat n) ∧ (n < 4)%nat ∧
      servant_to_id (proxyPoa pl) (this pl) (poas w) = inr oid
  | None => _req p = None ∧ _target p = None ∧ is_active (proxyPoa pl) (this pl) w = false
  end.

Definition log_after (pl : place) (oid : string) (st st' : astate) (t : option string) : option string :=
  match st, st' with
  | Some _, None => (λ t, t +:+ item_line (Del (proxy_key (channelName pl) ppc_name oid))) <$> t
  | _, _ => t
  end.

#[local] Arguments String.eqb : simpl never.

Ltac ppc_run :=
  unfold cycle, collect, triggerRequest, mbind, M_bind, onP, onW, zoom, self, gets, upd, modify, abort,
    push_back, send_deferred, mret, M_ret; simpl.

Lemma cycle_spec `{!OrbLaws} pl oid o st r p q w :
  ppc_rel pl oid o st p w →
  let '(st', ev, ops) := acycle st r in
  ∃ p' w', cycle pl r (p, q, w) = Ret tt (p', q ++ ev, w') ∧ ppc_rel pl oid o st' p' w' ∧
    sent w' = sent w ++ map (λ op, mkRequest o op None) ops ∧
    logstream w' = log_after pl oid st st' (logstream w).
Proof.
  destruct st as [[m n]|]; simpl.
  2:{ intros (Hr & Ht & Ha). destruct p as [r0 t0 m0 n0]. simpl in *. subst.
      exists (mkPPC None None m0 n0), w. rewrite !app_nil_r. done. }
  intros (-> & Hn & Hid).
  destruct r as [[v out|ex]|]; simpl.
  - (* an event, or none *)
    ppc_run. destruct (has_event (op_name m) out); ppc_run;
      (eexists _, _; split; [rewrite ?app_nil_r; done|]);
      (split_and!; [done|lia|done|done|done]).
  - (* an exception *)
    assert (Hop : (String.eqb "pull" (op_name m) || String.eqb "try_pull" (op_name m))%bool = true)
      by (by destruct m).
    ppc_run. rewrite Hop. simpl.
    rewrite i32_id by lia. destruct (Nat.ltb_spec n 3) as [Hlt|Hge].
    + rewrite (proj2 (Z.leb_gt 4 _)) by lia. simpl. eexists _, _. rewrite app_nil_r. split; [done|].
      split_and!; [by rewrite Nat2Z.inj_succ|lia|done|done|done].
    + rewrite (proj2 (Z.leb_le 4 _)) by lia. simpl.
      destruct (send_orphan_ret o "disconnect_pull_supplier" w) as (w1 & E1 & Hs1 & _ & Hl1 & Hp1 & _).
      rewrite E1. simpl.
      destruct (eraseKey_ret pl ppc_name oid w1) as (w2 & E2 & Hs2 & Hp2 & _ & _ & Hl2); [by rewrite Hp1|].
      rewrite E2. simpl.
      destruct (deactivate_active_ret (proxyPoa pl) (this pl) w2) as (ps & E3 & Hn3).
      { unfold is_active. by rewrite Hp2, Hp1, Hid. }
      rewrite E3. simpl. eexists _, _. rewrite app_nil_r. split; [done|]. split_and!; try done.
      * unfold is_active. simpl. by rewrite Hn3.
      * simpl. by rewrite Hs2, Hs1.
      * simpl. by rewrite Hl2, Hl1.
  - (* no response yet *)
    ppc_run.
    eexists _, w. rewrite !app_nil_r. split; [done|]. done.
Qed.

Lemma acycles_None l : acycles None l = (None, [], []).
Proof. induction l as [|r l IH]; simpl; [done|]. by rewrite IH. Qed.

(** C8: the pull protocol.  Whatever the supplier answers, cycle after cycle, a connected proxy
    behaves as the state machine: one request in flight at any time; an event is queued exactly
    when the response carries one, in order; an exception switches between [pull] and
    [try_pull], a result resets the count; after four consecutive exceptions, and only then, the
    supplier is told once, the record is erased from the log, the object is deactivated, and
    nothing more is sent. *)
Theorem pull_protocol `{!OrbLaws} pl oid o st l p q w :
  ppc_rel pl oid o st p w →
  let '(st', ev, ops) := acycles st l in
  ∃ p' w', cycles pl l (p, q, w) = Ret tt (p', q ++ ev, w') ∧ ppc_rel pl oid o st' p' w' ∧
    sent w' = sent w ++ map (λ op, mkRequest o op None) ops ∧
    logstream w' = log_after pl oid st st' (logstream w).
Proof.
  revert st p q w. induction l as [|r l IH]; intros st p q w Hrel; simpl.
  - exists p, w. rewrite !app_nil_r. split_and!; try done. by destruct st.
  - pose proof (cycle_spec pl oid o st r p q w Hrel) as Hc.
    destruct (acycle st r) as [[st1 ev1] op1] eqn:Ea. destruct Hc as (p1 & w1 & E1 & Hr1 & Hs1 & Hl1).
    specialize (IH st1 p1 (q ++ ev1) w1 Hr1).
    destruct (acycles st1 l) as [[st2 ev2] op2] eqn:Ea2. destruct IH as (p2 & w2 & E2 & Hr2 & Hs2 & Hl2).
    exists p2, w2. unfold cycles in *. simpl. rewrite (bind_Ret _ _ _ _ _ E1), E2, app_assoc.
    split_and!; try done.
    + by rewrite Hs2, Hs1, map_app, app_assoc.
    + rewrite Hl2, Hl1. destruct st as [[m n]|]; [|by simplify_eq/=].
      destruct st1; [done|]. by rewrite acycles_None in Ea2; simplify_eq/=.
Qed.

Lemma ppc_output_log `{!OrbLaws} pl oid p w :
  servant_to_id (proxyPoa pl) (this pl) (poas w) = inr oid →
  ∃ w', log_write (ppc_output pl p) w = Ret tt w' ∧ sent w' = sent w ∧ poas w' = poas w ∧
    deferredRequests w' = deferredRequests w ∧
    logstream w' = (λ t, t +:+ item_line (Put (proxy_key (channelName pl) ppc_name oid)
      (match _target p with Some o => [("IOR", object_to_string o)] | None => [] end))) <$> logstream w.
Proof.
  intros Hs. destruct (logstream w) as [t|] eqn:El.
  - erewrite log_write_ret; [by eexists|done|]. unfold ppc_output. by apply basicOutput_line.
  - rewrite log_write_none by done. by exists w.
Qed.

(** C33: the life of a connection, every branch.  [connect] refuses a nil supplier and a proxy
    that is connected or has a request outstanding, leaving everything as it was; otherwise it
    stores the supplier and appends its record to the log.  [disconnect] erases the record and
    deactivates the object first; then it notifies the supplier once and forgets it, or throws
    [OBJECT_NOT_EXIST] if there is none. *)
Theorem pull_consumer_lifecycle `{!OrbLaws} pl oid p w :
  servant_to_id (proxyPoa pl) (this pl) (poas w) = inr oid →
  connect_pull_supplier pl None (p, w) = Throw BAD_PARAM (p, w) ∧
  (∀ o, (_target p, _req p) ≠ (None, None) →
     connect_pull_supplier pl (Some o) (p, w) = Throw AlreadyConnected (p, w)) ∧
  (∀ o, (_target p, _req p) = (None, None) →
     ∃ w', connect_pull_supplier pl (Some o) (p, w) = Ret tt (set_target (Some o) p, w') ∧
       logstream w' = (λ t, t +:+ item_line (Put (proxy_key (channelName pl) ppc_name oid)
                        [("IOR", object_to_string o)])) <$> logstream w ∧ sent w' = sent w) ∧
  ∃ w', final (disconnect_pull_consumer pl (p, w)) = (set_target None p, w') ∧
    is_active (proxyPoa pl) (this pl) w' = false ∧
    logstream w' = (λ t, t +:+ item_line (Del (proxy_key (channelName pl) ppc_name oid))) <$> logstream w ∧
    match _target p with
    | None => disconnect_pull_consumer pl (p, w) = Throw OBJECT_NOT_EXIST (p, w') ∧ sent w' = sent w
    | Some o => disconnect_pull_consumer pl (p, w) = Ret tt (set_target None p, w') ∧
                sent w' = sent w ++ [mkRequest o "disconnect_pull_supplier" None]
    end.
Proof.
  intros Hid. split_and!.
  - done.
  - intros o Hne. unfold connect_pull_supplier, self, gets, mbind, M_bind. simpl.
    destruct (_target p), (_req p); done.
  - intros o [= Ht Hr]. unfold connect_pull_supplier. ppc_run. rewrite Ht, Hr. simpl.
    destruct (ppc_output_log pl oid (set_target (Some o) p) w Hid) as (w' & E & Hs & _ & _ & Hl).
    unfold onW, zoom. simpl. rewrite E. exists w'. done.
  - unfold disconnect_pull_consumer. ppc_run.
    destruct (eraseKey_ret pl ppc_name oid w Hid) as (w1 & E1 & Hs1 & Hp1 & _ & _ & Hl1).
    rewrite E1. simpl.
    destruct (deactivate_active_ret (proxyPoa pl) (this pl) w1) as (ps & E2 & Hn).
    { unfold is_active. by rewrite Hp1, Hid. }
    rewrite E2. simpl. destruct p as [req target mode count]. simpl. destruct target as [o|].
    + destruct (send_orphan_ret o "disconnect_pull_supplier" (set_poas ps w1)) as (w3 & E3 & Hs3 & _ & Hl3 & Hp3 & _).
      simpl in *. rewrite E3. exists w3. split_and!; try done.
      * unfold is_active. rewrite Hp3. simpl. by rewrite Hn.
      * by rewrite Hl3.
      * by rewrite Hs3, Hs1.
    + exists (set_poas ps w1). split_and!; try done. unfold is_active. simpl. by rewrite Hn.
Qed.

(** Restoring from the log.  The attributes [output] wrote for a connected proxy make
    [reincarnate] activate a new proxy under the recorded id and connect it to the same
    supplier; if the reference is missing or bad, [BAD_PARAM] leaves the proxy as it was, not
    activated, and the log untouched; an id already in use is an error too. *)
Theorem pull_consumer_restored `{!OrbLaws} pl oid o w node :
  (attrString "IOR" "" node = object_to_string o →
   match activate_object_with_id (proxyPoa pl) oid (this pl) (poas w) with
   | inr _ => ∃ w', ppc_reincarnate pl oid node (new_ProxyPullConsumer, w) =
         Ret tt (set_target (Some o) new_ProxyPullConsumer, w') ∧
       servant_to_id (proxyPoa pl) (this pl) (poas w') = inr oid ∧
       logstream w' = (λ t, t +:+ item_line (Put (proxy_key (channelName pl) ppc_name oid)
                          [("IOR", object_to_string o)])) <$> logstream w
   | inl WrongPolicy => ppc_reincarnate pl oid node (new_ProxyPullConsumer, w) =
                        Exited 1 (new_ProxyPullConsumer, w)
   | inl e => ppc_reincarnate pl oid node (new_ProxyPullConsumer, w) =
              Throw e (new_ProxyPullConsumer, w)
   end) ∧
  (string_to_ (attrString "IOR" "" node) = inl BAD_PARAM →
   ppc_reincarnate pl oid node (new_ProxyPullConsumer, w) =
     Throw BAD_PARAM (new_ProxyPullConsumer, w)).
Proof.
  split.
  - intros Ha. unfold ppc_reincarnate, string_to_M. rewrite Ha. unfold string_to_.
    rewrite string_to_object_to_string. ppc_run.
    pose proof (activate_cases (proxyPoa pl) (this pl) oid w) as Hc.
    destruct (activate_object_with_id (proxyPoa pl) oid (this pl) (poas w)) as [e|ps] eqn:E.
    + destruct e; rewrite Hc; done.
    + rewrite Hc. simpl.
      pose proof (activate_servant_to_id _ _ _ _ _ E) as Hid.
      unfold connect_pull_supplier. ppc_run.
      destruct (ppc_output_log pl oid (set_target (Some o) new_ProxyPullConsumer) (set_poas ps w) Hid)
        as (w' & E' & Hs & Hp & _ & Hl).
      unfold onW, zoom. simpl. rewrite E'. exists w'. split_and!; [done|by rewrite Hp|done].
  - intros Hb. unfold ppc_reincarnate, string_to_M. ppc_run. by rewrite Hb.
Qed.
End pull_consumer.

(** ** Witnesses *)

Definition ref9 : Object := obj 9.

Definition sample_place : place := mkPlace "chan" "chan.ProxyPullConsumer" 64.

Definition sample_active : world :=
  set_poas (mkModelPoas [] [("chan.ProxyPullConsumer", 64, "1.2.3")]) model_world.

Definition sample_ppc : ProxyPullConsumer_i :=
  mkPPC (Some (mkRequest ref9 "pull" None)) (Some ref9) Pull 0.

(** An event, three exceptions, a result without event, and four exceptions. *)
Definition sample_replies : list (option (reply)) :=
  [Some (Returned (AULong 1) None); Some (Raised TRANSIENT); None; Some (Raised TIMEOUT);
   Some (Raised TRANSIENT); Some (Returned ANull (Some (ABool false)));
   Some (Raised TRANSIENT); Some (Raised TRANSIENT); Some (Raised TRANSIENT);
   Some (Raised COMM_FAILURE); Some (Raised TRANSIENT)].

Lemma pull_protocol_witness :
  ppc_rel sample_place "1.2.3" ref9 (Some (Pull, 0%nat)) sample_ppc sample_active ∧
  ∃ p w, cycles sample_place sample_replies (sample_ppc, [], sample_active) = Ret tt (p, [AULong 1], w) ∧
    logstream w = Some ("-ecf/chan/SupplierAdmin/ProxyPullConsumer/1.2.3" +:+ nl) ∧
    map req_op (sent w) = ["pull"; "try_pull"; "pull"; "try_pull"; "try_pull"; "pull"; "try_pull";
                           "pull"; "disconnect_pull_supplier"].
Proof.
  assert (Hr : ppc_rel sample_place "1.2.3" ref9 (Some (Pull, 0%nat)) sample_ppc sample_active)
    by (split; [reflexivity|split; [lia|vm_compute; reflexivity]]).
  split; [exact Hr|].
  pose proof (pull_protocol sample_place "1.2.3" _ _ sample_replies _ [] _ Hr) as H.
  change (acycles (Some (Pull, 0%nat)) sample_replies) with
    ((None : astate, [AULong 1],
      ["pull"; "try_pull"; "pull"; "try_pull"; "try_pull"; "pull"; "try_pull";
       "pull"; "disconnect_pull_supplier"])) in H.
  destruct H as (p & w & E & _ & Hs & Hl). exists p, w. split; [exact E|].
  rewrite Hs, Hl. split; reflexivity.
Defined.

Lemma pull_consumer_lifecycle_witness :
  servant_to_id (proxyPoa sample_place) (this sample_place) (poas sample_active) = inr "1.2.3" ∧
  ∃ w', connect_pull_supplier sample_place (Some ref9) (new_ProxyPullConsumer, sample_active) =
    Ret tt (set_target (Some ref9) new_ProxyPullConsumer, w') ∧
    logstream w' = Some ("ecf/chan/SupplierAdmin/ProxyPullConsumer/1.2.3 IOR=IOR:9 ;;" +:+ nl).
Proof.
  split; [vm_compute; reflexivity|].
  destruct (pull_consumer_lifecycle sample_place "1.2.3" new_ProxyPullConsumer sample_active)
    as (_ & _ & Hc & _); [vm_compute; reflexivity|].
  destruct (Hc ref9 eq_refl) as (w' & E & Hl & _). exists w'. split; [exact E|].
  rewrite Hl. vm_compute. reflexivity.
Defined.

Lemma pull_consumer_restored_witness :
  ∃ w', ppc_reincarnate sample_place "1.2.3" (mkNode [] [("IOR", "IOR:9")]) (new_ProxyPullConsumer, model_world) =
    Ret tt (set_target (Some ref9) new_ProxyPullConsumer, w') ∧
    servant_to_id (proxyPoa sample_place) (this sample_place) (poas w') = inr "1.2.3".
Proof.
  destruct (pull_consumer_restored sample_place "1.2.3" ref9 model_world (mkNode [] [("IOR", "IOR:9")]))
    as [H _].
  specialize (H ltac:(vm_compute; reflexivity)). simpl in H.
  destruct H as (w' & E & Hid & _). exists w'. split; [exact E|exact Hid].
Defined.
