(* ===== verification/ProxyPushSupplier.v ===== *)
(** * ProxyPushSupplier: pushing events to a consumer
      (src/ProxyPushSupplier.h, src/ProxyPushSupplier.cc)

    The thread of the manager triggers each proxy in turn: a proxy picks up the response to its
    outstanding [push], and sends the next event of the queue if there is one.  When nothing
    happens the thread waits longer and longer. *)

From S2P Require Import Prelude Monad CxxMap Stream PersistNode PersistReplay PersistLog.
From S2P Require Import Corba ModelOrb Filter EventQueue Servant Orb Proxy.

Local Open Scope string_scope.
Local Open Scope Z_scope.
Local Open Scope list_scope.

Section push_supplier.
Context `{OO : OrbOps}.

(** [_req], [_target], [_target_sior], [_targetIsProxy] and the [EventQueue::Reader] base. *)
Record ProxyPushSupplier_i := mkPPS {
  pps_req : option request;
  pps_target : option Object;
  pps_target_sior : string;
  pps_targetIsProxy : bool;
  pps_reader : Reader }.

(** The constructor: the reader starts at the end of the queue. *)
Definition new_ProxyPushSupplier (q : EventQueue) : ProxyPushSupplier_i :=
  mkPPS None None "" false (new_Reader q).

Definition pps_set_req (r : option request) (p : ProxyPushSupplier_i) : ProxyPushSupplier_i :=
  mkPPS r (pps_target p) (pps_target_sior p) (pps_targetIsProxy p) (pps_reader p).
Definition pps_set_target (o : option Object) (p : ProxyPushSupplier_i) : ProxyPushSupplier_i :=
  mkPPS (pps_req p) o (pps_target_sior p) (pps_targetIsProxy p) (pps_reader p).
Definition pps_set_sior (s : string) (p : ProxyPushSupplier_i) : ProxyPushSupplier_i :=
  mkPPS (pps_req p) (pps_target p) s (pps_targetIsProxy p) (pps_reader p).
Definition pps_set_isProxy (b : bool) (p : ProxyPushSupplier_i) : ProxyPushSupplier_i :=
  mkPPS (pps_req p) (pps_target p) (pps_target_sior p) b (pps_reader p).
Definition pps_set_reader (r : Reader) (p : ProxyPushSupplier_i) : ProxyPushSupplier_i :=
  mkPPS (pps_req p) (pps_target p) (pps_target_sior p) (pps_targetIsProxy p) r.

Definition pps_name : string := "ConsumerAdmin/ProxyPushSupplier".

(** [output(os)] *)
Definition pps_output (pl : place) (p : ProxyPushSupplier_i) : ostream_op :=
  basicOutput_ior pl pps_name (pps_target_sior p)
    (if pps_targetIsProxy p then Some " proxy=1" else None).

(** [connect_push_consumer(pushConsumer)] *)
Definition connect_push_consumer (pl : place) (pushConsumer : option Object)
    : Meth ProxyPushSupplier_i unit :=
  p ← self;
  match pushConsumer with
  | None => throw BAD_PARAM
  | Some o =>
      if bool_decide (is_Some (pps_target p)) || bool_decide (is_Some (pps_req p))
      then throw AlreadyConnected
      else
        _ ← upd (pps_set_target (Some o));
        _ ← upd (pps_set_sior (object_to_string o));
        let req := mkRequest o "_is_a"
          (Some (any_of_string "IDL:omg.org/CosEventChannelAdmin/ProxyPushConsumer:1.0")) in
        _ ← onW (send_deferred req);
        _ ← onW (deferredRequest req (Some (this pl)));
        p ← self;
        onW (log_write (pps_output pl p))
  end.

(** [disconnect_push_supplier()] *)
Definition disconnect_push_supplier (pl : place) : Meth ProxyPushSupplier_i unit :=
  _ ← onW (eraseKey pl pps_name);
  _ ← onW (deactivateObject (proxyPoa pl) (this pl));
  p ← self;
  match pps_target p with
  | None => throw OBJECT_NOT_EXIST
  | Some o =>
      _ ← upd (pps_set_target None);
      onW (send_orphan o "disconnect_push_consumer")
  end.

(** A result; a timeout is passed through. *)
Definition response_ok (rep : reply) : bool :=
  match rep with Returned _ _ | Raised TIMEOUT => true | Raised _ => false end.

(** What [trigger] does with the response to the outstanding request: [true] if the proxy has
    been disconnected, and there is no more work to do. *)
Definition handle_response (pl : place) (rep : reply) : Meth ProxyPushSupplier_i bool :=
  if response_ok rep then
    _ ← upd (pps_set_req None); mret false
  else
    p ← self;
    _ ← match pps_target p with
        | Some o =>
            _ ← upd (pps_set_req None);
            onW (send_orphan o "disconnect_push_consumer")
        | None => mret tt
        end;
    _ ← upd (pps_set_target None);
    _ ← onW (eraseKey pl pps_name);
    _ ← onW (deactivateObject (proxyPoa pl) (this pl));
    mret true.

(** The second half of [trigger]: send the next event, if there is one.  A pointer that is NULL
    or dangling is a crash. *)
Definition push_next (q : EventQueue) (h : heap) (busy waiting : bool)
    : Meth ProxyPushSupplier_i (bool * bool) :=
  p ← self;
  busy ← match pps_req p, pps_target p with
    | None, Some o =>
        if moreEvents q (pps_reader p) then
          let (e, r) := nextEvent q (pps_reader p) in
          match e ≫= λ a, h !! a with
          | None => abort
          | Some event =>
              let req := mkRequest o "push" (Some event) in
              _ ← upd (pps_set_reader r);
              _ ← upd (pps_set_req (Some req));
              _ ← onW (send_deferred req);
              mret true
          end
        else mret busy
    | _, _ => mret busy
    end;
  p ← self;
  mret (busy, match pps_req p with Some _ => true | None => waiting end).

(** [trigger(busy,waiting)]; [poll] is [poll_response] with the response. *)
Definition trigger (pl : place) (poll : request → option reply) (q : EventQueue) (h : heap)
    (busy waiting : bool) : Meth ProxyPushSupplier_i (bool * bool) :=
  p ← self;
  match pps_req p ≫= poll with
  | Some rep =>
      gone ← handle_response pl rep;
      if (gone : bool) then mret (busy, waiting) else push_next q h true waiting
  | None => push_next q h busy waiting
  end.

(** [callback(req)]: the consumer said whether it is a ProxyPushConsumer. *)
Definition callback (pl : place) (return_value : Any) : Meth ProxyPushSupplier_i unit :=
  p ← self;
  if pps_targetIsProxy p then mret tt
  else match any_boolean return_value with
       | Some b =>
           _ ← upd (pps_set_isProxy b);
           p ← self;
           w ← theW;
           if b && log_exists w then onW (write_lock (pps_output pl p)) else mret tt
       | None => upd (pps_set_isProxy false)
       end.

(** [reincarnate(oid,node)]; [remote_connect] is the call of [connect_push_supplier] on a remote
    ProxyPushConsumer. *)
Definition pps_reincarnate (remote_connect : Object → exn + unit) (pl : place) (oid : string)
    (node : PersistNode) : Meth ProxyPushSupplier_i unit :=
  try_catch
    (let ior := attrString "IOR" "" node in
     o ← string_to_M ior;
     _ ← onW (activateObjectWithId (proxyPoa pl) (this pl) oid);
     _ ← onW (remove_ref (this pl));
     _ ← upd (pps_set_target (Some o));
     let isProxy := negb (attrLong "proxy" 0 node =? 0) in
     _ ← upd (pps_set_isProxy isProxy);
     if isProxy then
       c ← string_to_M ior;
       match remote_connect c with inl e => throw e | inr _ => mret tt end
     else mret tt)
    (λ e, match e with
          | AlreadyConnected | TypeError | OBJECT_NOT_EXIST | TRANSIENT | COMM_FAILURE =>
              Some (mret tt)
          | _ => None
          end).

(** What the manager needs, given what remote proxies answer. *)
Definition pps_ProxyClass (remote_connect : Object → exn + unit) : ProxyClass ProxyPushSupplier_i := {|
  proxy_reincarnate := pps_reincarnate remote_connect;
  proxy_output := pps_output;
  proxy_req := pps_req |}.

(** ** The manager *)

(** [incarnate(oid,poa)] *)
Definition pps_incarnate (q : EventQueue) (addr : Z) : Meth (ProxyManager ProxyPushSupplier_i) Z :=
  _ ← upd (λ m, set_servants (map_put addr (new_ProxyPushSupplier q) (_servants m)) m);
  _ ← onW (modify (λ w, set_refs (map_put addr 1 (refs w)) w));
  mret addr.

(** [etherealize]: only a servant of the set is released. *)
Definition pps_etherealize (addr : Z) : Meth (ProxyManager ProxyPushSupplier_i) unit :=
  m ← self;
  match map_find addr (_servants m) with
  | Some _ =>
      _ ← upd (set_servants (map_erase addr (_servants m)));
      onW (remove_ref addr)
  | None => mret tt
  end.

(** The constructor of the manager. *)
Definition new_ProxyPushSupplierManager (poa : string) (this_mgr : Z)
    : M exn world (ProxyManager ProxyPushSupplier_i) :=
  managed ← activate poa "ProxyPushSupplier" this_mgr; mret (mkProxyManager managed []).

Definition pps_createObject (mypid : Z) (m : ProxyManager ProxyPushSupplier_i) : M exn world Object :=
  createReference mypid (_managedPoa m) "IDL:omg.org/CosEventChannelAdmin/ProxyPushSupplier:1.0".

(** [disconnect()] *)
Definition pps_disconnect (channel : string) : Meth (ProxyManager ProxyPushSupplier_i) unit :=
  m ← self;
  for_each (_servants m) (λ i, on_servant i.1 (disconnect_push_supplier (mplace channel i.1 m))).

(** Trigger each servant in turn. *)
Fixpoint trigger_all (channel : string) (poll : request → option reply) (q : EventQueue) (h : heap)
    (l : list (Z * ProxyPushSupplier_i)) (busy waiting : bool)
    : Meth (ProxyManager ProxyPushSupplier_i) (bool * bool) :=
  match l with
  | [] => mret (busy, waiting)
  | i :: l' =>
      m ← self;
      bw ← on_servant i.1 (trigger (mplace channel i.1 m) poll q h busy waiting);
      trigger_all channel poll q h l' bw.1 bw.2
  end.

Definition sleepTimeNanosec0 : Z := 32768.     (* 0x8000 *)
Definition maxSleepNanosec : Z := 8388608.     (* 0x800000 *)

(** How the thread ends an iteration of its loop. *)
Inductive pause := Yield | TimedWait (nsec : Z) | Wait | Ignored.

(** The decision at the end of an iteration. *)
Definition next_pause (busy waiting : bool) (sleepTime : Z) : pause * Z :=
  if busy then (Yield, sleepTimeNanosec0)
  else if waiting then
    let s := if sleepTime <? maxSleepNanosec then u64 (Z.shiftl sleepTime 1) else sleepTime in
    (TimedWait s, s)
  else (Wait, sleepTime).

(** One iteration of [run_undetached]; every CORBA exception is ignored.  [None]: the loop ends,
    since the reference count has reached zero. *)
Definition run_iteration (channel : string) (refCount : Z) (poll : request → option reply)
    (q : EventQueue) (h : heap) (sleepTime : Z)
    : Meth (ProxyManager ProxyPushSupplier_i) (option (pause * Z)) :=
  if refCount <? 1 then mret None
  else try_catch
    (m ← self;
     bw ← trigger_all channel poll q h (_servants m) false false;
     mret (Some (next_pause bw.1 bw.2 sleepTime)))
    (λ _, Some (mret (Some (Ignored, sleepTime)))).

(** ** The protocol, as a state machine

    The log of accepted events, the position of the proxy in it, the event in flight, and
    whether the proxy is still connected. *)

Record pushing := mkPushing { ps_log : list Any; ps_pos : nat; ps_inflight : option Any; ps_alive : bool }.

Inductive pcmd := PSend (event : Any) | PTrigger (rep : option reply).

Definition op : Type := string * option Any.

Definition a_next (st : pushing) : pushing * list op :=
  match ps_log st !! ps_pos st with
  | Some a => (mkPushing (ps_log st) (S (ps_pos st)) (Some a) true, [("push", Some a)])
  | None => (mkPushing (ps_log st) (ps_pos st) None true, [])
  end.

Definition a_pstep (size : Z) (c : pcmd) (st : pushing) : pushing * list op :=
  match c with
  | PSend a =>
      (mkPushing (ps_log st ++ [a]) (lap size (length (ps_log st)) (ps_pos st))
         (ps_inflight st) (ps_alive st), [])
  | PTrigger rep =>
      if ps_alive st then
        match ps_inflight st, rep with
        | None, _ => a_next st
        | Some _, None => (st, [])
        | Some _, Some r =>
            if response_ok r then a_next st
            else (mkPushing (ps_log st) (ps_pos st) None false, [("disconnect_push_consumer", None)])
        end
      else (st, [])
  end.

Fixpoint a_prun (size : Z) (l : list pcmd) (st : pushing) : pushing * list op :=
  match l with
  | [] => (st, [])
  | c :: l' =>
      let '(st1, o1) := a_pstep size c st in
      let '(st2, o2) := a_prun size l' st1 in (st2, o1 ++ o2)
  end.

Record pstate := mkPstate {
  p_proxy : ProxyPushSupplier_i; p_queue : EventQueue; p_heap : heap; p_world : world }.

(** The code: an unfiltered event is appended, or the thread triggers the proxy. *)
Definition pstep (pl : place) (c : pcmd) (s : pstate) : option pstate :=
  match c with
  | PSend a =>
      let e := fresh (dom (p_heap s)) in
      qh ← append e (p_queue s) (<[e := a]> (p_heap s));
      Some (mkPstate (p_proxy s) qh.1 qh.2 (p_world s))
  | PTrigger rep =>
      match trigger pl (λ _, rep) (p_queue s) (p_heap s) false false (p_proxy s, p_world s) with
      | Ret _ (p, w) => Some (mkPstate p (p_queue s) (p_heap s) w)
      | _ => None
      end
  end.

Fixpoint prun (pl : place) (l : list pcmd) (s : pstate) : option pstate :=
  match l with [] => Some s | c :: l' => s1 ← pstep pl c s; prun pl l' s1 end.

Record pps_rel (pl : place) (oid : string) (o : Object) (size : Z) (st : pushing) (s : pstate) : Prop := {
  pr_size : _size (p_queue s) = size;
  pr_filter : _filter (p_queue s) = None;
  pr_rep : Rep (p_queue s) (p_heap s) (ps_log st) 0;
  pr_reader : reader_at (p_queue s) (ps_log st) (pps_reader (p_proxy s)) (ps_pos st);
  pr_req : pps_req (p_proxy s) = (λ a, mkRequest o "push" (Some a)) <$> ps_inflight st;
  pr_alive : if ps_alive st
    then pps_target (p_proxy s) = Some o ∧
         servant_to_id (proxyPoa pl) (this pl) (poas (p_world s)) = inr oid
    else pps_target (p_proxy s) = None ∧ ps_inflight st = None ∧
         is_active (proxyPoa pl) (this pl) (p_world s) = false }.

Definition op_request (o : Object) (x : op) : request := mkRequest o x.1 x.2.

(** The records of the log: the proxy's is erased when it dies. *)
Definition pps_log_after (pl : place) (oid : string) (st st' : pushing) (t : option string) : option string :=
  if ps_alive st && negb (ps_alive st')
  then (λ t, t +:+ item_line (Del (proxy_key (channelName pl) pps_name oid))) <$> t else t.

Ltac pps_run :=
  unfold mbind, M_bind, mret, M_ret, onW, zoom, self, gets, upd, modify, abort, send_deferred, theW;
  cbn -[nextEvent moreEvents].

Lemma push_next_spec pl oid o size st s busy :
  pps_rel pl oid o size st s → ps_alive st = true → ps_inflight st = None →
  ∃ bw p w, push_next (p_queue s) (p_heap s) busy false (p_proxy s, p_world s) = Ret bw (p, w) ∧
    pps_rel pl oid o size (a_next st).1 (mkPstate p (p_queue s) (p_heap s) w) ∧
    sent w = sent (p_world s) ++ map (op_request o) (a_next st).2 ∧
    logstream w = logstream (p_world s).
Proof.
  intros [Hsz Hf R Hat Hreq Hal] Ha Hi. rewrite Ha in Hal. destruct Hal as [Ht Hid].
  rewrite Hi in Hreq. simpl in Hreq. destruct s as [p q h w]. destruct p as [rq tg sior isp rd].
  simpl in *. subst rq tg. unfold push_next. pps_run.
  rewrite (moreEvents_spec _ _ _ _ _ _ R Hat). unfold a_next. case_bool_decide as Hlt.
  - destruct (nextEvent_spec _ _ _ _ _ _ R Hat Hlt) as (e & a & En & He & Hla & Hat').
    rewrite Hla. destruct (nextEvent q rd) as [e' r']. cbn [fst snd] in En, Hat'.
    injection En as ->. simpl. rewrite He. simpl.
    eexists _, _, _. split; [done|]. split_and!; try done.
  - rewrite lookup_ge_None_2 by lia. simpl. eexists _, _, _. split; [done|].
    rewrite app_nil_r. split_and!; try done.
Qed.

(** A reply that is waited for lets the next event be pushed. *)
Lemma reply_pushes `{!OrbLaws} pl oid o size st s :
  pps_rel pl oid o size st s → ps_alive st = true →
  ∃ s', (match push_next (p_queue s) (p_heap s) true false (pps_set_req None (p_proxy s), p_world s) with
         | Ret _ (p, w) => Some (mkPstate p (p_queue s) (p_heap s) w) | _ => None end) = Some s' ∧
    pps_rel pl oid o size (a_next st).1 s' ∧
    sent (p_world s') = sent (p_world s) ++ map (op_request o) (a_next st).2 ∧
    logstream (p_world s') = logstream (p_world s) ∧ ps_alive (a_next st).1 = true.
Proof.
  intros [Hsz Hf R Hat Hreq Hal] Ha. rewrite Ha in Hal. destruct Hal as [Ht Hid].
  set (st0 := mkPushing (ps_log st) (ps_pos st) None true).
  set (s0 := mkPstate (pps_set_req None (p_proxy s)) (p_queue s) (p_heap s) (p_world s)).
  assert (Hrel0 : pps_rel pl oid o size st0 s0) by (split; try done).
  destruct (push_next_spec pl oid o size st0 s0 true Hrel0 eq_refl eq_refl)
    as (bw & p' & w' & E & Hr & Hsent & Hlog).
  simpl in E. rewrite E. eexists. split; [done|]. split_and!; [exact Hr|exact Hsent|exact Hlog|].
  unfold a_next. by destruct (ps_log st !! ps_pos st).
Qed.

Lemma pstep_sim `{!OrbLaws} pl oid o size c st s :
  pps_rel pl oid o size st s →
  ∃ s', pstep pl c s = Some s' ∧ pps_rel pl oid o size (a_pstep size c st).1 s' ∧
    sent (p_world s') = sent (p_world s) ++ map (op_request o) (a_pstep size c st).2 ∧
    logstream (p_world s') = pps_log_after pl oid st (a_pstep size c st).1 (logstream (p_world s)).
Proof.
  intros Hrel. pose proof Hrel as [Hsz Hf R Hat Hreq Hal].
  pose proof (rep_size _ _ _ _ R) as Hs2. destruct c as [a|rep].
  - destruct (append_kept _ _ _ _ _ _ (offered_fresh _ _ _ _ a R)) as (q' & h' & E & R' & Hsz' & Hf').
    { by rewrite Hf. }
    unfold pstep. rewrite E. simpl. eexists. split; [done|]. rewrite app_nil_r.
    split_and!; [|done|by unfold pps_log_after; simpl; destruct (ps_alive st)].
    split; simpl; try done; [congruence|congruence|].
    rewrite <- Hsz. apply append_reader; try done; lia.
  - unfold pstep, trigger. pps_run. rewrite Hreq.
    destruct (ps_alive st) eqn:Ha; unfold pps_log_after; rewrite Ha; simpl.
    2:{ destruct Hal as (Ht & Hi & Hact). rewrite Hi in *. simpl. unfold push_next. pps_run.
        simpl in Hreq. rewrite ?Hreq, ?Ht. pps_run. rewrite ?Hreq.
        eexists. split; [done|]. rewrite app_nil_r. by destruct s. }
    destruct Hal as [Ht Hid]. destruct (ps_inflight st) as [a|] eqn:Hi.
    + destruct (reply_pushes pl oid o size st s Hrel Ha) as (s' & E & Hr & Hsent & Hlog & Hal').
      destruct rep as [r|]; simpl.
      * unfold handle_response. pps_run. destruct (response_ok r) eqn:Hok; simpl.
        { pps_run. rewrite Hal'. simpl. eauto. }
        rewrite Ht. destruct (send_orphan_ret o "disconnect_push_consumer" (p_world s))
          as (w1 & E1 & Hs1 & _ & Hl1 & Hp1 & _). pps_run. rewrite E1.
        destruct (retire_ret pl pps_name oid w1) as (w2 & w3 & E2 & E3 & Hs3 & Hact & Hl3); [by rewrite Hp1|].
        pps_run. rewrite E2. pps_run. rewrite E3. eexists. split; [done|]. simpl. split_and!.
        -- by split.
        -- by rewrite Hs3, Hs1.
        -- by rewrite Hl3, Hl1.
      * unfold push_next. pps_run. rewrite Hreq. pps_run. rewrite ?Hreq. eexists. split; [done|].
        rewrite ?Ha, app_nil_r. by destruct s.
    + destruct (push_next_spec pl oid o size st s false Hrel Ha Hi) as (bw & p & w & E & Hr & Hsent & Hlog).
      simpl. rewrite E. eexists. split; [done|]. split_and!; [exact Hr|exact Hsent|].
      unfold a_next in *. by destruct (ps_log st !! ps_pos st).
Qed.

Definition pushes (l : list op) : list Any :=
  omap (λ x, if String.eqb x.1 "push" then x.2 else None) l.

Lemma pushes_app l1 l2 : pushes (l1 ++ l2) = pushes l1 ++ pushes l2.
Proof. apply omap_app. Qed.

Lemma take_drop_split {A} (l : list A) a b c :
  (a ≤ b)%nat → (b ≤ c)%nat → take (c - a) (drop a l) = take (b - a) (drop a l) ++ take (c - b) (drop b l).
Proof.
  intros H1 H2. replace (c - a)%nat with ((b - a) + (c - b))%nat by lia.
  rewrite <- take_take_drop, drop_drop. do 2 f_equal. f_equal. lia.
Qed.

Lemma a_pstep_order size c st :
  (ps_pos st ≤ length (ps_log st))%nat →
  let '(st', o) := a_pstep size c st in
  (ps_pos st ≤ ps_pos st' ≤ length (ps_log st'))%nat ∧ ps_log st `prefix_of` ps_log st' ∧
  pushes o `sublist_of` take (ps_pos st' - ps_pos st) (drop (ps_pos st) (ps_log st')).
Proof.
  intros Hle.
  assert (Hn : let '(st', o) := a_next st in
    (ps_pos st ≤ ps_pos st' ≤ length (ps_log st'))%nat ∧ ps_log st `prefix_of` ps_log st' ∧
    pushes o `sublist_of` take (ps_pos st' - ps_pos st) (drop (ps_pos st) (ps_log st'))).
  { unfold a_next. destruct (ps_log st !! ps_pos st) as [a|] eqn:E; simpl.
    - pose proof (lookup_lt_Some _ _ _ E). split_and!; [lia..|done|].
      replace (S (ps_pos st) - ps_pos st)%nat with 1%nat by lia.
      rewrite (drop_S _ _ _ E). done.
    - split_and!; [lia..|done|]. apply sublist_nil_l. }
  assert (Hsame : ∀ st', ps_pos st' = ps_pos st → ps_log st' = ps_log st →
    (ps_pos st ≤ ps_pos st' ≤ length (ps_log st'))%nat ∧ ps_log st `prefix_of` ps_log st' ∧
    [] `sublist_of` take (ps_pos st' - ps_pos st) (drop (ps_pos st) (ps_log st'))).
  { intros st' -> ->. split_and!; [lia..|done|apply sublist_nil_l]. }
  destruct c as [a|rep]; simpl.
  - rewrite length_app. simpl. unfold lap. split_and!.
    + case_decide; lia.
    + case_decide; lia.
    + by apply prefix_app_r.
    + apply sublist_nil_l.
  - destruct (ps_alive st), (ps_inflight st), rep as [r|]; try (by apply Hsame); [|done..].
    destruct (response_ok r); [done|]. by apply (Hsame (mkPushing _ _ _ _)).
Qed.

Lemma a_prun_order size l st :
  (ps_pos st ≤ length (ps_log st))%nat →
  let '(st', o) := a_prun size l st in
  (ps_pos st ≤ ps_pos st' ≤ length (ps_log st'))%nat ∧ ps_log st `prefix_of` ps_log st' ∧
  pushes o `sublist_of` take (ps_pos st' - ps_pos st) (drop (ps_pos st) (ps_log st')).
Proof.
  revert st. induction l as [|c l IH]; intros st Hle; simpl.
  - split_and!; [lia..|done|apply sublist_nil_l].
  - pose proof (a_pstep_order size c st Hle) as H1. destruct (a_pstep size c st) as [st1 o1].
    destruct H1 as (Hp1 & [l1 Hl1] & Ho1). specialize (IH st1 ltac:(lia)).
    destruct (a_prun size l st1) as [st2 o2]. destruct IH as (Hp2 & [l2 Hl2] & Ho2).
    split_and!; [lia..| |].
    + exists (l1 ++ l2). by rewrite Hl2, Hl1, app_assoc.
    + rewrite pushes_app, (take_drop_split _ _ (ps_pos st1)) by lia. apply sublist_app; [|done].
      rewrite Hl2. rewrite drop_app_le by lia. rewrite take_app_le; [done|]. rewrite length_drop. lia.
Qed.

(** C9: the push protocol.  For every interleaving of events appended to the queue and triggers,
    whatever the consumer answers, a connected proxy behaves as the state machine: at most one
    [push] in flight; the events are pushed in the order they were appended, none twice; a
    timeout counts as delivered; any other exception makes it notify the consumer once, erase its
    record, deactivate the object and send nothing more.  It never reads a dangling pointer. *)
Theorem push_protocol `{!OrbLaws} pl oid o size st l s :
  pps_rel pl oid o size st s →
  let '(st', ops) := a_prun size l st in
  ∃ s', prun pl l s = Some s' ∧ pps_rel pl oid o size st' s' ∧
    sent (p_world s') = sent (p_world s) ++ map (op_request o) ops ∧
    logstream (p_world s') = pps_log_after pl oid st st' (logstream (p_world s)) ∧
    pushes ops `sublist_of` drop (ps_pos st) (ps_log st').
Proof.
  intros Hrel. pose proof (a_prun_order size l st (at_le _ _ _ _ (pr_reader _ _ _ _ _ _ Hrel))) as Ho.
  assert (Hmain : let '(st', ops) := a_prun size l st in
    ∃ s', prun pl l s = Some s' ∧ pps_rel pl oid o size st' s' ∧
    sent (p_world s') = sent (p_world s) ++ map (op_request o) ops ∧
    logstream (p_world s') = pps_log_after pl oid st st' (logstream (p_world s)) ∧
    (ps_alive st = false → ps_alive st' = false)).
  { clear Ho. revert st s Hrel. induction l as [|c l IH]; intros st s Hrel; simpl.
    - exists s. rewrite app_nil_r. unfold pps_log_after. split_and!; try done. by destruct (ps_alive st).
    - destruct (pstep_sim pl oid o size c st s Hrel) as (s1 & E1 & Hr1 & Hs1 & Hl1).
      assert (Hdead : ps_alive st = false → ps_alive (a_pstep size c st).1 = false).
      { intros Hd. destruct c; simpl; by rewrite ?Hd. }
      destruct (a_pstep size c st) as [st1 o1]. simpl in *. specialize (IH st1 s1 Hr1).
      destruct (a_prun size l st1) as [st2 o2]. destruct IH as (s2 & E2 & Hr2 & Hs2 & Hl2 & Hd2).
      exists s2. rewrite E1. simpl. split_and!; try done; [|  |auto].
      + by rewrite Hs2, Hs1, map_app, app_assoc.
      + rewrite Hl2, Hl1. unfold pps_log_after.
        destruct (ps_alive st), (ps_alive st1), (ps_alive st2); simpl in *; try done;
          [by specialize (Hd2 eq_refl)|by specialize (Hdead eq_refl)..]. }
  destruct (a_prun size l st) as [st' ops]. destruct Hmain as (s' & E & Hr & Hs & Hl & _).
  exists s'. split_and!; try done. destruct Ho as (_ & _ & Hsub). etrans; [exact Hsub|].
  apply sublist_take.
Qed.

(** ** Waiting *)

Fixpoint pauses (l : list (bool * bool)) (sleepTime : Z) : list pause * Z :=
  match l with
  | [] => ([], sleepTime)
  | (busy, waiting) :: l' =>
      let (p, s) := next_pause busy waiting sleepTime in
      let (ps, s') := pauses l' s in (p :: ps, s')
  end.

Definition sleep_ok (s : Z) : Prop :=
  ∃ k, (k ≤ 8)%nat ∧ s = sleepTimeNanosec0 * 2 ^ Z.of_nat k.

Lemma sleep_ok_0 : sleep_ok sleepTimeNanosec0.
Proof. exists 0%nat. split; [lia|reflexivity]. Qed.

Lemma next_pause_ok busy waiting s :
  sleep_ok s → sleep_ok (next_pause busy waiting s).2 ∧
  match (next_pause busy waiting s).1 with
  | TimedWait n => 2 * sleepTimeNanosec0 ≤ n ≤ maxSleepNanosec ∧ n = Z.min (2 * s) maxSleepNanosec
  | _ => True
  end.
Proof.
  intros (k & Hk & ->). unfold next_pause. destruct busy; simpl.
  { split; [apply sleep_ok_0|done]. }
  destruct waiting; simpl; [|split; [by exists k|done]].
  split.
  - exists (S k `min` 8)%nat. split; [lia|].
    do 9 (destruct k as [|k]; [vm_compute; reflexivity|]). lia.
  - do 9 (destruct k as [|k]; [split; [split; vm_compute; discriminate|vm_compute; reflexivity]|]). lia.
Qed.

(** The pauses of the thread.  Whatever happens, it never waits less than 0x10000 or more
    than 0x800000 nanoseconds; [k] rounds without progress after one with progress wait twice as
    long each time, up to the maximum; work to do resets the time. *)
Theorem backoff_bounds l k :
  Forall (λ p, match p with TimedWait n => 65536 ≤ n ≤ 8388608 | _ => True end)
    (pauses l sleepTimeNanosec0).1 ∧
  (pauses (l ++ (true, true) :: replicate k (false, true)) sleepTimeNanosec0).2 =
    Z.min (32768 * 2 ^ Z.of_nat k) 8388608.
Proof.
  assert (Hall : ∀ l s, sleep_ok s → sleep_ok (pauses l s).2 ∧
    Forall (λ p, match p with TimedWait n => 65536 ≤ n ≤ 8388608 | _ => True end) (pauses l s).1).
  { clear l. induction l as [|[b w] l IH]; intros s Hs; simpl; [by split; [|constructor]|].
    pose proof (next_pause_ok b w s Hs) as [Hs1 Hp]. destruct (next_pause b w s) as [p s1].
    destruct (IH s1 Hs1) as [Hs2 Hf]. destruct (pauses l s1) as [ps s2]. simpl in *.
    split; [done|]. constructor; [|done]. destruct p; try done. destruct Hp as [Hp _]. exact Hp. }
  assert (Happ : ∀ l1 l2 s, (pauses (l1 ++ l2) s).2 = (pauses l2 (pauses l1 s).2).2).
  { induction l1 as [|[b w] l1 IH]; intros l2 s; simpl; [done|].
    destruct (next_pause b w s) as [p s1]. specialize (IH l2 s1).
    destruct (pauses (l1 ++ l2) s1), (pauses l1 s1). done. }
  assert (H0 : sleep_ok sleepTimeNanosec0) by apply sleep_ok_0.
  split; [by apply Hall|]. rewrite Happ. simpl.
  destruct (pauses l sleepTimeNanosec0) as [ps s]. simpl.
  assert (Hk : (pauses (replicate k (false, true)) sleepTimeNanosec0).2 = Z.min (32768 * 2 ^ Z.of_nat k) 8388608).
  { induction k as [|k IHk]; [done|]. rewrite replicate_S_end, Happ.
    pose proof (Hall (replicate k (false, true)) sleepTimeNanosec0 H0) as [Hs _].
    destruct (next_pause_ok false true _ Hs) as [_ Hn]. simpl in *.
    rewrite IHk in *.
    assert (2 ^ Z.of_nat (S k) = 2 * 2 ^ Z.of_nat k) as -> by (rewrite Nat2Z.inj_succ, Z.pow_succ_r; lia).
    destruct Hn as [_ Hn]. rewrite Hn. unfold maxSleepNanosec. lia. }
  destruct (pauses (replicate k (false, true)) sleepTimeNanosec0). exact Hk.
Qed.

(** ** Connection and records *)

Definition pps_attrs (p : ProxyPushSupplier_i) : list (string * string) :=
  ("IOR", pps_target_sior p) :: (if pps_targetIsProxy p then [("proxy", "1")] else []).

Lemma pps_output_line `{!OrbLaws} pl oid p w t :
  servant_to_id (proxyPoa pl) (this pl) (poas w) = inr oid →
  pps_output pl p w t =
    Ret tt (t +:+ item_line (Put (proxy_key (channelName pl) pps_name oid) (pps_attrs p))).
Proof.
  intros Hs. unfold pps_output, pps_attrs.
  pose proof (basicOutput_ior_line pl pps_name oid (pps_target_sior p)
    (if pps_targetIsProxy p then Some ("proxy", "1") else None) w t Hs) as Hb.
  by destruct (pps_targetIsProxy p).
Qed.

Lemma pps_log_write `{!OrbLaws} pl oid p w :
  servant_to_id (proxyPoa pl) (this pl) (poas w) = inr oid →
  ∃ w', log_write (pps_output pl p) w = Ret tt w' ∧ sent w' = sent w ∧ poas w' = poas w ∧
    deferredRequests w' = deferredRequests w ∧
    logstream w' = (λ t, t +:+ item_line (Put (proxy_key (channelName pl) pps_name oid) (pps_attrs p)))
                   <$> logstream w.
Proof.
  intros Hs. destruct (logstream w) as [t|] eqn:El.
  - erewrite log_write_ret; [by eexists|done|]. by apply pps_output_line.
  - rewrite log_write_none by done. by exists w.
Qed.

(** The life of a connection, every branch.  [connect] refuses a nil consumer and a proxy
    that is connected or has a push outstanding, and changes nothing then; otherwise it asks the
    consumer whether it is a proxy, with this object as callback, and appends the record.
    [disconnect] erases the record and deactivates the object; then it notifies the consumer
    once, or throws [OBJECT_NOT_EXIST] if there is none. *)
Theorem push_supplier_lifecycle `{!OrbLaws} pl oid p w :
  servant_to_id (proxyPoa pl) (this pl) (poas w) = inr oid → orbShutdownRequested w = false →
  connect_push_consumer pl None (p, w) = Throw BAD_PARAM (p, w) ∧
  (∀ o, (pps_target p, pps_req p) ≠ (None, None) →
     connect_push_consumer pl (Some o) (p, w) = Throw AlreadyConnected (p, w)) ∧
  (∀ o, (pps_target p, pps_req p) = (None, None) →
     ∃ p' w' req, connect_push_consumer pl (Some o) (p, w) = Ret tt (p', w') ∧
       pps_target p' = Some o ∧ pps_target_sior p' = object_to_string o ∧
       pps_reader p' = pps_reader p ∧ req_target req = o ∧ req_op req = "_is_a" ∧
       sent w' = sent w ++ [req] ∧
       deferredRequests w' = deferredRequests w ++ [(req, Some (this pl))] ∧
       logstream w' = (λ t, t +:+ item_line (Put (proxy_key (channelName pl) pps_name oid) (pps_attrs p')))
                      <$> logstream w) ∧
  ∃ w', final (disconnect_push_supplier pl (p, w)) = (pps_set_target None p, w') ∧
    is_active (proxyPoa pl) (this pl) w' = false ∧
    logstream w' = (λ t, t +:+ item_line (Del (proxy_key (channelName pl) pps_name oid))) <$> logstream w ∧
    match pps_target p with
    | None => disconnect_push_supplier pl (p, w) = Throw OBJECT_NOT_EXIST (p, w') ∧ sent w' = sent w
    | Some o => disconnect_push_supplier pl (p, w) = Ret tt (pps_set_target None p, w') ∧
                sent w' = sent w ++ [mkRequest o "disconnect_push_consumer" None]
    end.
Proof.
  intros Hid Hsh. destruct p as [rq tg sior isp rd]. split_and!.
  - done.
  - intros o Hne. unfold connect_push_consumer. pps_run. simpl in Hne. destruct tg, rq; done.
  - intros o [= -> ->]. unfold connect_push_consumer. pps_run. unfold deferredRequest, get. pps_run.
    rewrite Hsh. pps_run.
    match goal with |- context [log_write (pps_output pl ?p0) ?w0] =>
      destruct (pps_log_write pl oid p0 w0 Hid) as (w' & E & Hs & _ & Hd & Hl) end.
    rewrite E. eexists _, w', (mkRequest o "_is_a" _). split; [done|].
    split_and!; [done..|exact Hs|exact Hd|exact Hl].
  - unfold disconnect_push_supplier. pps_run.
    destruct (retire_ret pl pps_name oid w Hid) as (w1 & w2 & E1 & E2 & Hs & Ha & Hl).
    rewrite E1. pps_run. rewrite E2. pps_run. destruct tg as [o|].
    + destruct (send_orphan_ret o "disconnect_push_consumer" w2) as (w3 & E3 & Hs3 & _ & Hl3 & Hp3 & _).
      pps_run. rewrite E3. exists w3. split_and!; try done.
      * unfold is_active. by rewrite Hp3.
      * by rewrite Hl3.
      * by rewrite Hs3, Hs.
    + exists w2. done.
Qed.

(** A restored proxy forgets its reference.  [reincarnate] connects the proxy to the consumer
    of its record, but the record it writes from then on (at the next checkpoint) has an empty
    reference, from which it cannot be reincarnated again. *)
Theorem push_supplier_reference_lost `{!OrbLaws} remote_connect q pl oid o w w' p' node t :
  attrString "IOR" "" node = object_to_string o →
  pps_reincarnate remote_connect pl oid node (new_ProxyPushSupplier q, w) = Ret tt (p', w') →
  servant_to_id (proxyPoa pl) (this pl) (poas w') = inr oid →
  pps_target p' = Some o ∧
  ∃ attrs, pps_output pl p' w' t =
      Ret tt (t +:+ item_line (Put (proxy_key (channelName pl) pps_name oid) attrs)) ∧
    map_find "IOR" attrs = Some "" ∧
    ∀ q2 w2 node2, attrString "IOR" "" node2 = "" →
      pps_reincarnate remote_connect pl oid node2 (new_ProxyPushSupplier q2, w2) =
        Throw BAD_PARAM (new_ProxyPushSupplier q2, w2).
Proof.
  intros Ha Hr Hid.
  assert (Hp : pps_target p' = Some o ∧ pps_target_sior p' = "").
  { unfold pps_reincarnate, try_catch, string_to_M, string_to_ in Hr. rewrite Ha in Hr.
    rewrite string_to_object_to_string in Hr.
    unfold mbind, M_bind, mret, M_ret, onW, zoom, upd, modify, remove_ref in Hr. simpl in Hr.
    pose proof (activate_cases (proxyPoa pl) (this pl) oid w) as Hc.
    destruct (activate_object_with_id (proxyPoa pl) oid (this pl) (poas w)) as [e|ps] eqn:E.
    - destruct (activate_raises _ _ _ _ _ E) as [-> | [-> | [-> | ->]]]; rewrite Hc in Hr; discriminate Hr.
    - rewrite Hc in Hr. simpl in Hr. destruct (negb (attrLong "proxy" 0 node =? 0)); [|by simplify_eq/=].
      destruct (remote_connect o) as [e|u]; [|by simplify_eq/=].
      destruct e; simpl in Hr; by simplify_eq/=. }
  destruct Hp as [Ht Hsior]. split; [done|]. exists (pps_attrs p'). split; [by apply pps_output_line|].
  split; [unfold pps_attrs; by rewrite Hsior|].
  intros q2 w2 node2 Ha2. unfold pps_reincarnate, try_catch, string_to_M, string_to_. rewrite Ha2.
  by rewrite string_to_object_empty.
Qed.

(** ** A push outstanding when the consumer disconnects *)

Lemma lex_inline_put p attrs s :
  no_space p = true → p ≠ "" → is_comment p = false → forallb text_attr attrs = true →
  lex (p +:+ foldr (λ a acc, attr_inline a +:+ acc) "" attrs +:+ " ;;" +:+ nl +:+ s) =
  p :: map attr_word attrs ++ ";;" :: lex s.
Proof.
  intros Hp Hne Hc Ha. destruct (lex_inline_attrs attrs s Ha) as (u & -> & Hu).
  by rewrite lex_word, Hu.
Qed.

(** If the consumer disconnects while a push is outstanding, and the push then fails, the
    thread does not recover: the trigger throws, the request stays, and each iteration of the loop
    (which does not pause) appends a lone [-] to the log.  Such a [-] turns the next record that is
    written into an erasure: on restart the object it belongs to is gone, and a node named after
    its attribute appears instead. *)
Theorem push_failure_after_disconnect `{!OrbLaws} pl p w t r ex q h channel2 oid2 ior l :
  pps_target p = None → pps_req p = Some r → logstream w = Some t →
  servant_to_id (proxyPoa pl) (this pl) (poas w) = inl ServantNotActive →
  response_ok (Raised ex) = false → is_log t l →
  no_space channel2 = true → no_space oid2 = true → no_space ior = true →
  let key := proxy_key channel2 pps_name oid2 in
  ∃ w', trigger pl (λ _, Some (Raised ex)) q h false false (p, w) = Throw ServantNotActive (p, w') ∧
    logstream w' = Some (t +:+ "-") ∧
    parse (t +:+ "-" +:+ item_line (Put key [("IOR", ior)])) =
      Some (add_path (comps ("IOR=" +:+ ior)) (del_path (comps key) (replay empty_node l))).
Proof.
  intros Ht Hr Hl Hs Hok [Hli Hlex] H1 H2 H3 key.
  exists (set_checkpointNeeded true (set_logstream (Some (t +:+ "-")) w)).
  split_and!; [|done|].
  - unfold trigger. pps_run. rewrite Hr. simpl. unfold handle_response. rewrite Hok. pps_run.
    rewrite Ht. pps_run. rewrite (eraseKey_inactive _ _ _ _ _ Hl Hs).
    destruct p as [rq tg sior isp rd]. simpl in *. by subst.
  - rewrite parse_run_words, Hlex.
    destruct (proxy_key_text channel2 pps_name oid2 H1 eq_refl H2) as [Hp Hsp]. fold key in Hp, Hsp.
    assert (Hat : forallb text_attr [("IOR", ior)] = true) by (simpl; unfold text_attr; simpl; by rewrite H3).
    assert (Hline : lex ("-" +:+ item_line (Put key [("IOR", ior)])) =
              String "-" key :: map attr_word [("IOR", ior)] ++ [";;"]).
    { pose proof (lex_inline_put (String "-" key) [("IOR", ior)] "" Hsp ltac:(done) eq_refl Hat) as Hx.
      exact Hx. }
    rewrite Hline, run_items; [|by apply text_items_wf|done].
    rewrite run_unfold. cbn [map app node_words].
    destruct (attr_word_spec ("IOR", ior) empty_node eq_refl) as (Hc & Hsc & _).
    assert (is_comment (String "-" key) = false) as -> by done.
    assert (String.eqb (String "-" key) ";;" = false) as -> by done.
    cbn [do_word]. rewrite Hc, Hsc. unfold attr_word. cbn [fst snd].
    change ("IOR" +:+ "=" +:+ ior) with (String "I" (String "O" (String "R" (String "=" ior)))).
    cbn [do_word node_words]. rewrite String.eqb_refl. rewrite bool_decide_true by by eexists.
    done.
Qed.
End push_supplier.

(** ** Witnesses *)

Definition pps_place : place := mkPlace "chan" "chan.ProxyPushSupplier" 64.

Definition pps_world : world :=
  set_poas (mkModelPoas [] [("chan.ProxyPushSupplier", 64, "1.2.3")]) model_world.

Definition pps_queue : EventQueue := mkEventQueue 0 3 [None; None; None] None.

Definition pps_connected : ProxyPushSupplier_i :=
  mkPPS None (Some (obj 9)) "IOR:9" false (mkReader 0).

Definition pps_start : pstate := mkPstate pps_connected pps_queue ∅ pps_world.

(** Two events; the first push times out, the second fails. *)
Definition pps_script : list pcmd :=
  [PSend (ev (AULong 1)); PTrigger None; PSend (ev (AULong 2)); PTrigger None;
   PTrigger (Some (Raised TIMEOUT)); PTrigger (Some (Raised COMM_FAILURE)); PSend (ev (AULong 3));
   PTrigger None].

Definition pps_initial : pushing := mkPushing [] 0 None true.

Lemma push_protocol_witness :
  pps_rel pps_place "1.2.3" (obj 9) 3 pps_initial pps_start ∧
  ∃ s', prun pps_place pps_script pps_start = Some s' ∧
    map (λ r, (req_op r, req_arg r)) (sent (p_world s')) =
      [("push", Some (ev (AULong 1))); ("push", Some (ev (AULong 2))); ("disconnect_push_consumer", None)] ∧
    logstream (p_world s') = Some ("-ecf/chan/ConsumerAdmin/ProxyPushSupplier/1.2.3" +:+ nl).
Proof.
  assert (Hr : pps_rel pps_place "1.2.3" (obj 9) 3 pps_initial pps_start).
  { split; [reflexivity|reflexivity|exact (rep_new 2 pps_queue eq_refl eq_refl)|
      |reflexivity|split; vm_compute; reflexivity].
    split; [simpl; lia|reflexivity|reflexivity]. }
  split; [exact Hr|].
  pose proof (push_protocol pps_place "1.2.3" (obj 9) 3 pps_initial pps_script pps_start Hr) as H.
  destruct (a_prun 3 pps_script pps_initial) as [st' ops] eqn:E. vm_compute in E. injection E as <- <-.
  destruct H as (s' & E & _ & Hs & Hl & _). exists s'. split; [exact E|]. rewrite Hs, Hl. split; reflexivity.
Defined.

Lemma push_supplier_lifecycle_witness :
  servant_to_id (proxyPoa pps_place) (this pps_place) (poas pps_world) = inr "1.2.3" ∧
  orbShutdownRequested pps_world = false ∧
  ∃ w', disconnect_push_supplier pps_place (pps_connected, pps_world) =
          Ret tt (pps_set_target None pps_connected, w') ∧
        sent w' = [mkRequest (obj 9) "disconnect_push_consumer" None].
Proof.
  split; [vm_compute; reflexivity|]. split; [reflexivity|].
  destruct (push_supplier_lifecycle pps_place "1.2.3" pps_connected pps_world)
    as (_ & _ & _ & w' & _ & _ & _ & E & Hs); [vm_compute; reflexivity|reflexivity|].
  exists w'. split; [exact E|exact Hs].
Defined.

Definition pps_restored : ProxyPushSupplier_i := mkPPS None (Some (obj 9)) "" false (mkReader 0).
Definition pps_restored_world : world := set_refs [(64, -1)] pps_world.

Lemma push_supplier_reference_lost_witness :
  pps_reincarnate (λ _, inr tt) pps_place "1.2.3" (mkNode [] [("IOR", "IOR:9")])
    (new_ProxyPushSupplier pps_queue, model_world) = Ret tt (pps_restored, pps_restored_world) ∧
  servant_to_id (proxyPoa pps_place) (this pps_place) (poas pps_restored_world) = inr "1.2.3" ∧
  pps_target pps_restored = Some (obj 9) ∧
  pps_output pps_place pps_restored pps_restored_world "" =
    Ret tt ("ecf/chan/ConsumerAdmin/ProxyPushSupplier/1.2.3 IOR= ;;" +:+ nl).
Proof.
  assert (E : pps_reincarnate (λ _, inr tt) pps_place "1.2.3" (mkNode [] [("IOR", "IOR:9")])
    (new_ProxyPushSupplier pps_queue, model_world) = Ret tt (pps_restored, pps_restored_world))
    by reflexivity.
  split; [exact E|]. split; [reflexivity|]. split; [|reflexivity].
  apply (push_supplier_reference_lost (λ _, inr tt) pps_queue pps_place "1.2.3" (obj 9)
    model_world pps_restored_world pps_restored (mkNode [] [("IOR", "IOR:9")]) "" eq_refl E).
  vm_compute. reflexivity.
Defined.

Lemma push_failure_after_disconnect_witness :
  let p := mkPPS (Some (mkRequest (obj 9) "push" None)) None "IOR:9" false (mkReader 0) in
  ∃ w', trigger pps_place (λ _, Some (Raised TRANSIENT)) pps_queue ∅ false false (p, model_world) =
          Throw ServantNotActive (p, w') ∧
    logstream w' = Some "-" ∧
    parse ("-ecf/c/ConsumerAdmin/ProxyPushSupplier/1.2.4 IOR=IOR:7 ;;" +:+ nl) =
      Some (mkNode [("IOR=IOR:7", empty_node)] []).
Proof.
  intros p.
  destruct (push_failure_after_disconnect pps_place p model_world ""
    (mkRequest (obj 9) "push" None) TRANSIENT pps_queue ∅ "c" "1.2.4" "IOR:7" [])
    as (w' & E & Hl & Hp); try reflexivity; [exact is_log_nil|].
  exists w'. split; [exact E|]. split; [exact Hl|]. etrans; [exact Hp|]. vm_compute. reflexivity.
Defined.
