(* ===== verification/PushThread.v ===== *)
(** * PushThread: the thread that pushes, and those that wake it
      (run_undetached, PauseThenWake, _add_ref and _remove_ref of src/ProxyPushSupplier.h, .cc)

    The thread of a ProxyPushSupplierManager triggers its servants in turn.  Then it goes round
    again, or sleeps for a while, or blocks until it is signalled.  It holds [_lock] but while it
    sleeps or blocks.

    The other threads add a servant, or send events to the queue, with a [PauseThenWake]: they take
    the lock, release it, and only then signal the thread: the thread may run, and go to sleep again,
    in between.  [etherealize] and [_add_ref] only take the lock; [connect_push_consumer],
    [disconnect_push_supplier] and the callback do neither.  [step] is what any of them can do next.
    What is done under the lock is one step, as is an iteration of the thread; a signal is a step of
    its own. *)

From S2P Require Import Prelude Monad CxxMap Stream PersistNode PersistReplay PersistLog.
From S2P Require Import Corba ModelOrb Filter EventQueue QueueRefine Servant Orb Proxy ProxyPushSupplier.

Local Open Scope string_scope.
Local Open Scope Z_scope.
Local Open Scope list_scope.

(** What the thread is doing: it runs or is about to, it is in [timedwait], in [wait], or it has
    left its loop. *)
Inductive thread := Running | Sleeping | Blocked | Ended.

Section push_thread.
Context `{OO : OrbOps}.
Variable channel : string.

(** The manager, with the queue it reads.  [t_signals]: how many threads have released the lock and
    are about to signal; [t_late]: the servants that a consumer connected to since the last
    iteration. *)
Record mgr := mkMgr {
  t_thread : thread;
  t_refCount : Z;
  t_sleep : Z;
  t_manager : ProxyManager ProxyPushSupplier_i;
  t_queue : EventQueue;
  t_heap : heap;
  t_world : world;
  t_signals : nat;
  t_late : list Z }.

(** [_condition.signal()] *)
Definition signal (t : thread) : thread := match t with Ended => Ended | _ => Running end.

Definition t_set (t : thread) (m : ProxyManager ProxyPushSupplier_i) (w : world) (s : mgr) : mgr :=
  mkMgr t (t_refCount s) (t_sleep s) m (t_queue s) (t_heap s) w (t_signals s) (t_late s).

(** [{ PauseThenWake p(this); f; }], but for the signal *)
Definition pause_then_wake (f : mgr → mgr) (s : mgr) : mgr :=
  let s' := f s in
  mkMgr (t_thread s') (t_refCount s') (t_sleep s') (t_manager s') (t_queue s') (t_heap s') (t_world s')
    (S (t_signals s')) (t_late s').

(** The signal *)
Definition t_wake (n : nat) (s : mgr) : mgr :=
  mkMgr (signal (t_thread s)) (t_refCount s) (t_sleep s) (t_manager s) (t_queue s) (t_heap s) (t_world s)
    n (t_late s).

Definition t_state (s : mgr) : ProxyManager ProxyPushSupplier_i * world := (t_manager s, t_world s).

(** [incarnate] and [etherealize] of the manager. *)
Definition t_incarnate (a : Z) (s : mgr) : mgr :=
  pause_then_wake (λ s, let r := final (pps_incarnate (t_queue s) a (t_state s)) in t_set (t_thread s) r.1 r.2 s) s.
Definition t_etherealize (a : Z) (s : mgr) : mgr :=
  let r := final (pps_etherealize a (t_state s)) in t_set (t_thread s) r.1 r.2 s.

(** [_add_ref()] and [_remove_ref()] *)
Definition t_ref (d : Z) (s : mgr) : mgr :=
  mkMgr (t_thread s) (t_refCount s + d) (t_sleep s) (t_manager s) (t_queue s) (t_heap s) (t_world s)
    (t_signals s) (t_late s).
Definition t_add_ref (s : mgr) : mgr := t_ref 1 s.
Definition t_remove_ref (s : mgr) : mgr := pause_then_wake (t_ref (-1)) s.

(** [ConsumerAdmin_i::send(event)] *)
Definition t_send (q : EventQueue) (h : heap) (s : mgr) : mgr :=
  pause_then_wake (λ s, mkMgr (t_thread s) (t_refCount s) (t_sleep s) (t_manager s) q h (t_world s)
    (t_signals s) (t_late s)) s.

(** A call of the servant at [a] by another thread. *)
Definition t_call (a : Z) (f : place → Meth ProxyPushSupplier_i unit) (late : list Z) (s : mgr) : mgr :=
  let r := final (on_servant a (f (mplace channel a (t_manager s))) (t_state s)) in
  mkMgr (t_thread s) (t_refCount s) (t_sleep s) r.1 (t_queue s) (t_heap s) r.2 (t_signals s) late.

(** The end of an iteration. *)
Definition t_after (r : option (pause * Z)) (m : ProxyManager ProxyPushSupplier_i) (w : world) (s : mgr) : mgr :=
  match r with
  | None => t_set Ended m w s
  | Some (p, sleep) =>
      mkMgr (match p with Yield | Ignored => Running | TimedWait _ => Sleeping | Wait => Blocked end)
        (t_refCount s) sleep m (t_queue s) (t_heap s) w (t_signals s) []
  end.

Inductive step : mgr → mgr → Prop :=
| step_iterate poll r m w s :
    t_thread s = Running →
    run_iteration channel (t_refCount s) poll (t_queue s) (t_heap s) (t_sleep s) (t_state s) = Ret r (m, w) →
    step s (t_after r m w s)
| step_signal n s : t_signals s = S n → step s (t_wake n s)
| step_wake s : step s (t_wake (t_signals s) s)      (* a timeout, or a spurious wake-up *)
| step_incarnate a s : map_find a (_servants (t_manager s)) = None → step s (t_incarnate a s)
| step_etherealize a s : step s (t_etherealize a s)
| step_add_ref s : t_refCount s < 2147483647 → step s (t_add_ref s)   (* the overflow is undefined *)
| step_remove_ref s : step s (t_remove_ref s)
| step_send e q h s : append e (t_queue s) (t_heap s) = Some (q, h) → step s (t_send q h s)
| step_connect a o s : step s (t_call a (λ pl, connect_push_consumer pl o) (a :: t_late s) s)
| step_disconnect a s : step s (t_call a disconnect_push_supplier (t_late s) s)
| step_callback a v s : step s (t_call a (λ pl, callback pl v) (t_late s) s).

(** The manager is new: its thread starts, and its creator has a reference. *)
Inductive reachable : mgr → Prop :=
| reach_start poa q h w : reachable (mkMgr Running 1 sleepTimeNanosec0 (mkProxyManager poa []) q h w 0 [])
| reach_step s s' : reachable s → step s s' → reachable s'.

(** A proxy for which there is nothing to do: it has no consumer, or it has sent every event, and
    knows how each push ended. *)
Definition settled (q : EventQueue) (p : ProxyPushSupplier_i) : Prop :=
  match pps_target p with
  | None => True
  | Some _ => pps_req p = None ∧ moreEvents q (pps_reader p) = false
  end.
End push_thread.

(** ** Computations that return, taken apart *)

Lemma bind_Ret_inv {E S A B} (m : M E S A) (f : A → M E S B) s b s2 :
  mbind f m s = Ret b s2 → ∃ a s1, m s = Ret a s1 ∧ f a s1 = Ret b s2.
Proof. unfold mbind, M_bind. destruct (m s); naive_solver. Qed.

Lemma onW_Ret_inv `{OO : OrbOps} {T A} (m : M exn world A) (s : T * world) a s' :
  onW m s = Ret a s' → s'.1 = s.1.
Proof. unfold onW, zoom. destruct (m s.2); naive_solver. Qed.

Ltac inv_bind H :=
  let a := fresh "a" in let t := fresh "t" in let v := fresh "v" in let Ha := fresh "Ha" in
  apply bind_Ret_inv in H; destruct H as (a & [t v] & Ha & H);
  match type of Ha with
  | onW _ _ = _ => apply onW_Ret_inv in Ha
  | upd _ _ = _ => unfold upd, modify in Ha
  | self _ = _ => unfold self, gets in Ha
  | _ => idtac
  end; simplify_eq/=.

Section push_thread_lemmas.
Context `{OO : OrbOps}.
Variable channel : string.

(** The second half of [trigger]: a proxy that did nothing has nothing to do. *)
Lemma push_next_settled q h b wt s b' wt' s' :
  push_next q h b wt s = Ret (b', wt') s' →
  implb b b' = true ∧ implb wt wt' = true ∧ (b' = false → wt' = false → settled q s'.1).
Proof.
  destruct s as [p w]. unfold push_next, settled. intros Hr. inv_bind Hr. inv_bind Hr. inv_bind Hr.
  unfold mret, M_ret in *. destruct (pps_req t) as [r|] eqn:Er; simplify_eq/=.
  { rewrite Er. by destruct b', wt. }
  destruct (pps_target t) as [o|] eqn:Et; simplify_eq/=.
  2:{ rewrite Er, Et. by destruct b', wt. }
  destruct (moreEvents q (pps_reader t)) eqn:Em; simplify_eq/=.
  2:{ rewrite Er, Et. by destruct b', wt. }
  destruct (default None _ ≫= _) as [ev|]; [|done].
  do 3 inv_bind Ha. by destruct b, wt.
Qed.

(** A proxy that is gone has no consumer. *)
Lemma handle_response_gone pl rep s s' :
  handle_response pl rep s = Ret true s' → pps_target s'.1 = None.
Proof.
  destruct s as [p w]. unfold handle_response. destruct (response_ok rep); intros Hr.
  { by inv_bind Hr. }
  do 5 inv_bind Hr. unfold mret, M_ret in *. by simplify_eq/=.
Qed.

(** A proxy whose trigger reports nothing, neither [busy] nor [waiting], is settled. *)
Lemma trigger_settled pl poll q h b wt s b' wt' s' :
  trigger pl poll q h b wt s = Ret (b', wt') s' →
  implb b b' = true ∧ implb wt wt' = true ∧ (b' = false → wt' = false → settled q s'.1).
Proof.
  destruct s as [p w]. unfold trigger. intros Hr. inv_bind Hr.
  destruct (pps_req t ≫= poll) as [rep|]; [|by apply push_next_settled in Hr].
  apply bind_Ret_inv in Hr. destruct Hr as ([] & s1 & Hg & Hr).
  - apply handle_response_gone in Hg. unfold mret, M_ret in Hr. simplify_eq.
    unfold settled. rewrite Hg. by destruct b', wt'.
  - apply push_next_settled in Hr. destruct Hr as (Hb & Hw & Hs). simpl in Hb. subst b'. by destruct b.
Qed.

(** A call of a servant only changes that servant. *)
Lemma on_servant_final {T A} a (f : Meth T A) m w :
  ∃ m' w', final (on_servant a f (m, w)) = (m', w') ∧
    (∀ b, b ≠ a → map_find b (_servants m') = map_find b (_servants m)) ∧
    (∀ p', map_find a (_servants m') = Some p' → ∃ p, map_find a (_servants m) = Some p ∧
       p' = (final (f (p, w))).1) ∧
    (map_sorted (_servants m) = true → map_sorted (_servants m') = true).
Proof.
  unfold on_servant. simpl. destruct (map_find a (_servants m)) as [p|] eqn:Ep.
  2:{ exists m, w. rewrite Ep. split_and!; try done. }
  assert (∃ p' w', final (f (p, w)) = (p', w')) as (p' & w' & Ef) by (destruct (final (f (p, w))); eauto).
  exists (set_servants (map_put a p' (_servants m)) m), w'. split_and!.
  - destruct (f (p, w)); simpl in *; by subst.
  - intros b Hb. by apply map_find_put_ne.
  - intros p2. simpl. rewrite map_find_put_eq. intros [= <-]. exists p. by rewrite Ef.
  - intros Hs. by apply map_sorted_put.
Qed.

Lemma on_servant_Ret {T A} a (f : Meth T A) s x s' :
  on_servant a f s = Ret x s' →
  ∃ p p' w', map_find a (_servants s.1) = Some p ∧ f (p, s.2) = Ret x (p', w') ∧
    s' = (set_servants (map_put a p' (_servants s.1)) s.1, w').
Proof.
  unfold on_servant. destruct (map_find a (_servants s.1)) as [p|]; [|done].
  destruct (f (p, s.2)) as [y [p' w']| | |] eqn:E; [|done..]. intros [= <- <-]. by eexists _, _, _.
Qed.

(** The loop over the servants. *)
Lemma trigger_all_sorted poll q h l b wt s :
  map_sorted (_servants s.1) = true →
  map_sorted (_servants (final (trigger_all channel poll q h l b wt s)).1) = true.
Proof.
  revert b wt s. induction l as [|i l IH]; intros b wt [m w] Hs; [done|]. cbn [trigger_all].
  unfold mbind, M_bind, self, gets. cbn [fst].
  set (f := trigger _ _ _ _ _ _).
  destruct (on_servant_final i.1 f m w) as (m1 & w1 & Ef & _ & _ & Hs1).
  destruct (on_servant i.1 f (m, w)) as [bw s1| | |]; simpl in *; subst; [|by apply Hs1..].
  apply IH. by apply Hs1.
Qed.

Lemma trigger_all_settled poll q h l b wt s b' wt' s' :
  trigger_all channel poll q h l b wt s = Ret (b', wt') s' →
  implb b b' = true ∧ implb wt wt' = true ∧
  (∀ a, a ∉ l.*1 → map_find a (_servants s'.1) = map_find a (_servants s.1)) ∧
  (b' = false → wt' = false →
   ∀ a p, a ∈ l.*1 → map_find a (_servants s'.1) = Some p → settled q p).
Proof.
  revert b wt s. induction l as [|i l IH]; intros b wt [m w] Hr; cbn [trigger_all] in Hr.
  { unfold mret, M_ret in Hr. simplify_eq. destruct b', wt'; split_and!; try done; set_solver. }
  unfold mbind, M_bind, self, gets in Hr. cbn [fst] in Hr.
  destruct (on_servant i.1 _ (m, w)) as [[b1 wt1] s1| | |] eqn:E; [|done..].
  apply on_servant_Ret in E as (p & p' & w' & Hp & Ht & ->). simpl in *.
  apply trigger_settled in Ht as (Hb1 & Hw1 & Hs1).
  apply IH in Hr as (Hb & Hw & Hun & Hset). simpl in *.
  split_and!; [by destruct b, b1, b'|by destruct wt, wt1, wt'| |].
  - intros a [Hne Hl]%not_elem_of_cons. rewrite Hun by done. by apply map_find_put_ne.
  - intros -> -> a p2 Ha Hf. destruct (decide (a ∈ l.*1)) as [Hin|Hout]; [by eapply Hset|].
    apply elem_of_cons in Ha as [->|Ha]; [|done].
    rewrite Hun, map_find_put_eq in Hf by done. simplify_eq. apply Hs1; [by destruct b1|by destruct wt1].
Qed.

(** A thread that is about to block leaves every servant settled. *)
Lemma run_iteration_settled rc poll q h sl s r s' :
  map_sorted (_servants s.1) = true →
  run_iteration channel rc poll q h sl s = Ret r s' →
  map_sorted (_servants s'.1) = true ∧
  match r with
  | None => rc < 1
  | Some (p, _) => 1 ≤ rc ∧
      (p = Wait → ∀ a p, map_find a (_servants s'.1) = Some p → settled q p)
  end.
Proof.
  intros Hs. destruct s as [m w]. unfold run_iteration. destruct (rc <? 1) eqn:Hrc.
  { intros [= <- <-]. split; [done|lia]. }
  pose proof (trigger_all_sorted poll q h (_servants m) false false (m, w) Hs) as Hs'.
  unfold try_catch, mbind, M_bind, self, gets. cbn [fst].
  destruct (trigger_all _ _ _ _ _ _ _ (m, w)) as [[b wt] s1|e s1| |] eqn:E; [| |done..].
  - apply trigger_all_settled in E as (_ & _ & Hun & Hset). simpl in *.
    unfold mret, M_ret, next_pause. intros Hr. destruct b, wt; simplify_eq/=; (split; [done|]; split; [lia|]); intros Hw; try done.
    intros a p Hf. apply (Hset eq_refl eq_refl a p); [|done].
    destruct (decide (a ∈ (_servants m).*1)) as [|Hout]; [done|]. rewrite Hun in Hf by done.
    apply map_find_elem in Hf. by apply (list_elem_of_fmap_2 fst) in Hf.
  - intros [= <- <-]. split; [done|]. split; [lia|done].
Qed.

(** The calls that do not take the lock leave a settled proxy settled. *)
Lemma disconnect_settled pl q p w :
  settled q p → settled q (final (disconnect_push_supplier pl (p, w))).1.
Proof.
  intros Hp. unfold disconnect_push_supplier, mbind, M_bind, onW, zoom, self, gets, upd, modify. simpl.
  destruct (eraseKey _ _ w) as [? w1| | |]; simpl; [|done..].
  destruct (deactivateObject _ _ w1) as [? w2| | |]; simpl; [|done..].
  destruct (pps_target p); simpl; [|done]. by destruct (send_orphan _ _ w2).
Qed.

Lemma callback_settled pl q v p w :
  settled q p → settled q (final (callback pl v (p, w))).1.
Proof.
  intros Hp. unfold callback, mbind, M_bind, onW, zoom, self, gets, upd, modify, theW. simpl.
  destruct (pps_targetIsProxy p); [done|]. destruct (any_boolean v) as [b|]; [|done]. simpl.
  destruct (b && log_exists w); [|done]. cbn [fst snd]. by destruct (write_lock (pps_output pl (pps_set_isProxy b p)) w).
Qed.

(** The invariant of the thread. *)
Record thread_ok (s : mgr) : Prop := {
  th_sorted : map_sorted (_servants (t_manager s)) = true;
  th_idle : t_thread s = Blocked → t_signals s = 0%nat → ∀ a p, map_find a (_servants (t_manager s)) = Some p →
    a ∉ t_late s → settled (t_queue s) p;
  th_refs : t_refCount s < 1 → t_signals s = 0%nat → t_thread s = Running ∨ t_thread s = Ended }.

Lemma signal_not_blocked t : signal t ≠ Blocked.
Proof. by destruct t. Qed.
Lemma signal_awake t : signal t = Running ∨ signal t = Ended.
Proof. destruct t; auto. Qed.

(** A [PauseThenWake] keeps the invariant, whatever is done to the servants and the queue. *)
Lemma pause_then_wake_ok f s :
  map_sorted (_servants (t_manager (f s))) = true → thread_ok (pause_then_wake f s).
Proof.
  intros Hs. by split.
Qed.

Lemma t_wake_ok n s : thread_ok s → thread_ok (t_wake n s).
Proof.
  intros [H1 _ _]. split; simpl; [done| |].
  - intros Hb. by apply signal_not_blocked in Hb.
  - intros _ _. apply signal_awake.
Qed.

Lemma t_call_ok a f late s :
  thread_ok s → (∀ b, b ∈ t_late s → b ∈ late) →
  (a ∈ late ∨ ∀ pl q p w, settled q p → settled q (final (f pl (p, w))).1) →
  thread_ok (t_call channel a f late s).
Proof.
  intros [H1 H2 H3] Hlate Hf. unfold t_call.
  destruct (on_servant_final a (f (mplace channel a (t_manager s))) (t_manager s) (t_world s))
    as (m' & w' & E & Hun & Hat & Hso). unfold t_state. rewrite E.
  split; simpl; [by apply Hso| |done].
  intros Hb Hn b p Hp Hnl. destruct (decide (b = a)) as [->|Hne].
  - destruct Hf as [|Hf]; [done|]. destruct (Hat p Hp) as (p0 & Hp0 & ->). apply Hf.
    apply (H2 Hb Hn a); auto.
  - rewrite Hun in Hp by done. apply (H2 Hb Hn b); auto.
Qed.

Lemma t_etherealize_ok a s : thread_ok s → thread_ok (t_etherealize a s).
Proof.
  intros [H1 H2 H3]. unfold t_etherealize, pps_etherealize, mbind, M_bind, self, gets. simpl.
  destruct (map_find a (_servants (t_manager s))) as [p|] eqn:Ep; simpl.
  - split; simpl; [by apply map_sorted_erase| |done].
    intros Hb Hn b p' Hp'. destruct (decide (b = a)) as [->|Hne].
    + by rewrite map_find_erase_eq in Hp'.
    + rewrite map_find_erase_ne in Hp' by done. by apply (H2 Hb Hn b).
  - split; simpl; done.
Qed.

Lemma reachable_ok s : reachable channel s → thread_ok s.
Proof.
  induction 1 as [poa q h w|s s' _ IH Hst].
  { split; simpl; [done|done|lia]. }
  pose proof IH as [H1 H2 H3]. destruct Hst as [poll r m w s Ht Hr|n s Hn|s|a s Hf|a s|s Hlt|s|e q h s Ha|a o s|a s|a v s].
  - apply run_iteration_settled in Hr as [Hso Hr]; [|done]. simpl in *. destruct r as [[p sl]|]; simpl.
    + destruct Hr as [Hrc Hset]. split; simpl; [done| |lia].
      intros Hb _ a pp Hp _. apply (Hset ltac:(by destruct p) a pp Hp).
    + split; simpl; [done|done|by right].
  - by apply t_wake_ok.
  - by apply t_wake_ok.
  - apply pause_then_wake_ok. simpl. by apply map_sorted_put.
  - by apply t_etherealize_ok.
  - split; simpl; [done|done|]. intros ? Hn. apply H3; [lia|done].
  - by apply pause_then_wake_ok.
  - by apply pause_then_wake_ok.
  - apply t_call_ok; [done|set_solver|left; by left].
  - apply t_call_ok; [done|done|right]. intros. by apply disconnect_settled.
  - apply t_call_ok; [done|done|right]. intros. by apply callback_settled.
Qed.

(** C10: what the thread has done when it is idle.  Whatever the consumers answer, and however
    events, new servants, releases, disconnections and callbacks interleave with the thread: while
    the thread is blocked and nobody is about to signal it, every servant whose consumer connected
    before the last iteration has sent all of the events of the queue and knows how each push ended,
    or has no consumer any more: no event, new servant or release is missed.  A consumer that
    connected since ([t_late]) is not covered: connecting does not signal the thread, and the events
    it missed wait for the next signal ([late_consumer_waits]), after whose iteration it is no
    longer late.  Once the last reference is released and signalled the thread is not left
    asleep: it has left its loop, or its next iteration does. *)
Theorem idle_means_done s :
  reachable channel s → t_signals s = 0%nat →
  (t_thread s = Blocked → ∀ a p, map_find a (_servants (t_manager s)) = Some p →
     a ∉ t_late s → settled (t_queue s) p) ∧
  (t_refCount s < 1 → t_thread s = Ended ∨
     t_thread s = Running ∧ ∀ poll,
       run_iteration channel (t_refCount s) poll (t_queue s) (t_heap s) (t_sleep s) (t_state s) =
       Ret None (t_state s)).
Proof.
  intros Hr Hn. apply reachable_ok in Hr as [H1 H2 H3]. split; [intros Hb; exact (H2 Hb Hn)|]. intros Hlt.
  destruct (H3 Hlt Hn) as [Ht|Ht]; [right|by left]. split; [done|]. intros poll.
  unfold run_iteration. by rewrite (proj2 (Z.ltb_lt _ _) Hlt).
Qed.
End push_thread_lemmas.

(** ** Witness *)

(** A consumer connects, an event is sent, the consumer answers the push: the thread runs until
    there is nothing to do. *)
Definition pt_run (poll : request → option reply) (s : mgr) : mgr :=
  match run_iteration "chan" (t_refCount s) poll (t_queue s) (t_heap s) (t_sleep s) (t_state s) with
  | Ret r (m, w) => t_after r m w s
  | _ => s
  end.

Lemma pt_run_reachable poll s :
  reachable "chan" s → (if t_thread s is Running then true else false) = true →
  (if run_iteration "chan" (t_refCount s) poll (t_queue s) (t_heap s) (t_sleep s) (t_state s) is Ret _ _
   then true else false) = true → reachable "chan" (pt_run poll s).
Proof.
  intros Hr Ht He. apply (reach_step _ s); [done|]. unfold pt_run.
  destruct (run_iteration _ _ _ _ _ _ _) as [r [m w]| | |] eqn:E; [|done..].
  apply (step_iterate _ poll); [by destruct (t_thread s)|done].
Qed.

Definition pt_none (r : request) : option reply := None.
Definition pt_answer (r : request) : option reply := Some (Returned (ev (ABool true)) None).

(** [pps_world] has the servant 64. *)
Definition pt_start : mgr :=
  mkMgr Running 1 sleepTimeNanosec0 (mkProxyManager "chan.ProxyPushSupplier" []) pps_queue {[1%N := ev (AULong 7)]}
    pps_world 0 [].

Definition pt_sent : mgr :=
  t_call "chan" 64 (λ pl, connect_push_consumer pl (Some (obj 9))) [64] (t_wake 0 (t_incarnate 64 pt_start)).

(** The event is sent while the thread is blocked. *)
Definition pt_pushed : mgr :=
  let s := pt_run pt_none pt_sent in
  let qh := default (t_queue s, t_heap s) (append 1 (t_queue s) (t_heap s)) in
  pt_run pt_answer (pt_run pt_none (t_wake 0 (t_send qh.1 qh.2 s))).

Definition pt_idle : mgr := pt_run pt_none pt_pushed.

Lemma pt_idle_reachable : reachable "chan" pt_idle.
Proof.
  assert (H1 : reachable "chan" pt_sent).
  { apply (reach_step _ (t_wake 0 (t_incarnate 64 pt_start))); [|apply step_connect].
    apply (reach_step _ (t_incarnate 64 pt_start)); [|by apply step_signal].
    apply (reach_step _ pt_start); [apply reach_start|by apply step_incarnate]. }
  unfold pt_idle, pt_pushed. cbv zeta.
  repeat (apply pt_run_reachable; [|vm_compute; reflexivity..]).
  eapply reach_step; [|apply step_signal; reflexivity].
  eapply reach_step; [|eapply step_send; vm_compute; reflexivity].
  apply pt_run_reachable; [exact H1|vm_compute; reflexivity..].
Qed.

Definition pt_proxy : ProxyPushSupplier_i :=
  mkPPS None (Some (obj 9)) (object_to_string (obj 9)) false (mkReader 1).

Lemma pt_idle_proxy : map_find 64 (_servants (t_manager pt_idle)) = Some pt_proxy.
Proof. vm_compute. reflexivity. Qed.

Lemma pt_idle_blocked : t_thread pt_idle = Blocked ∧ t_late pt_idle = [] ∧ t_signals pt_idle = 0%nat.
Proof. vm_compute. split_and!; reflexivity. Qed.

(** The event is sent before the consumer connects, and the thread is blocked in between: the
    consumer is late. *)
Definition pt_late : mgr :=
  let s := t_wake 0 (t_incarnate 64 pt_start) in
  let qh := default (t_queue s, t_heap s) (append 1 (t_queue s) (t_heap s)) in
  t_call "chan" 64 (λ pl, connect_push_consumer pl (Some (obj 9))) [64]
    (pt_run pt_none (t_wake 0 (t_send qh.1 qh.2 s))).

Lemma late_consumer_waits :
  reachable "chan" pt_late ∧ t_thread pt_late = Blocked ∧ t_signals pt_late = 0%nat ∧ t_late pt_late = [64] ∧
  ∃ p, map_find 64 (_servants (t_manager pt_late)) = Some p ∧
    pps_target p = Some (obj 9) ∧ moreEvents (t_queue pt_late) (pps_reader p) = true.
Proof.
  split.
  - unfold pt_late. cbv zeta.
    eapply reach_step; [|apply (step_connect _ 64 (Some (obj 9)))].
    apply pt_run_reachable; [|vm_compute; reflexivity..].
    eapply reach_step; [|apply step_signal; reflexivity].
    eapply reach_step; [|eapply step_send; vm_compute; reflexivity].
    apply (reach_step _ (t_incarnate 64 pt_start)); [|by apply step_signal].
    apply (reach_step _ pt_start); [apply reach_start|by apply step_incarnate].
  - split; [vm_compute; reflexivity|]. split; [vm_compute; reflexivity|]. split; [vm_compute; reflexivity|].
    eexists. split; [vm_compute; reflexivity|]. split; vm_compute; reflexivity.
Qed.

Lemma idle_means_done_witness :
  reachable "chan" pt_idle ∧ map req_op (sent (t_world pt_idle)) = ["_is_a"; "push"] ∧
  map_find 64 (_servants (t_manager pt_idle)) = Some pt_proxy ∧ settled (t_queue pt_idle) pt_proxy.
Proof.
  split; [exact pt_idle_reachable|]. split; [vm_compute; reflexivity|].
  split; [exact pt_idle_proxy|].
  apply (proj1 (idle_means_done "chan" pt_idle pt_idle_reachable (proj2 (proj2 pt_idle_blocked))) (proj1 pt_idle_blocked) 64 pt_proxy
    pt_idle_proxy).
  rewrite (proj1 (proj2 pt_idle_blocked)). apply not_elem_of_nil.
Defined.
