(* ===== verification/ProxyPullSupplier.v ===== *)
(** * ProxyPullSupplier: consumers that pull
      (src/ProxyPullSupplier.h, src/ProxyPullSupplier.cc)

    A consumer polls the proxy, which reads the event queue of the channel.  [pull] does not
    block: it throws [TRANSIENT] when there is no event.  The manager limits the number of
    proxies by evicting the one that was used longest ago. *)

From S2P Require Import Prelude Monad CxxMap Stream PersistNode PersistReplay PersistLog.
From S2P Require Import Corba ModelOrb Filter EventQueue Servant Orb Proxy.

Local Open Scope string_scope.
Local Open Scope Z_scope.
Local Open Scope list_scope.

Section pull_supplier.
Context `{OO : OrbOps}.

(** [_target], [_connected], [_timestamp] and the [EventQueue::Reader] base; [_req] of the base
    class [Proxy] is never set. *)
Record ProxyPullSupplier_i := mkPLS {
  pls_target : option Object;
  pls_connected : bool;
  pls_timestamp : Z;
  pls_reader : Reader }.

Definition pls_set_target (o : option Object) (p : ProxyPullSupplier_i) : ProxyPullSupplier_i :=
  mkPLS o (pls_connected p) (pls_timestamp p) (pls_reader p).
Definition pls_set_connected (b : bool) (p : ProxyPullSupplier_i) : ProxyPullSupplier_i :=
  mkPLS (pls_target p) b (pls_timestamp p) (pls_reader p).
Definition pls_set_timestamp (t : Z) (p : ProxyPullSupplier_i) : ProxyPullSupplier_i :=
  mkPLS (pls_target p) (pls_connected p) t (pls_reader p).
Definition pls_set_reader (r : Reader) (p : ProxyPullSupplier_i) : ProxyPullSupplier_i :=
  mkPLS (pls_target p) (pls_connected p) (pls_timestamp p) r.

Definition pls_name : string := "ConsumerAdmin/ProxyPullSupplier".

(** [touch()] *)
Definition touch : Meth ProxyPullSupplier_i unit :=
  w ← theW; upd (pls_set_timestamp (clock w).1).

(** The constructor. *)
Definition new_ProxyPullSupplier (q : EventQueue) (w : world) : ProxyPullSupplier_i :=
  mkPLS None false (clock w).1 (new_Reader q).

(** [output(os)] *)
Definition pls_output (pl : place) (p : ProxyPullSupplier_i) : ostream_op :=
  basicOutput pl pls_name (pls_target p) None.

(** [connect_pull_consumer(pullConsumer)]: the consumer may be nil.  The code also tests the
    member [_req] of Proxy, which nothing of this class assigns, so it is always nil. *)
Definition connect_pull_consumer (pl : place) (pullConsumer : option Object)
    : Meth ProxyPullSupplier_i unit :=
  p ← self;
  if pls_connected p || bool_decide (is_Some (pls_target p)) then throw AlreadyConnected
  else
    _ ← touch;
    _ ← upd (pls_set_connected true);
    _ ← match pullConsumer with
        | Some o => upd (pls_set_target (Some o))
        | None => mret tt
        end;
    p ← self;
    onW (log_write (pls_output pl p)).

(** [disconnect_pull_supplier()] *)
Definition disconnect_pull_supplier (pl : place) : Meth ProxyPullSupplier_i unit :=
  _ ← touch;
  _ ← onW (eraseKey pl pls_name);
  _ ← onW (deactivateObject (proxyPoa pl) (this pl));
  p ← self;
  if negb (pls_connected p) then throw OBJECT_NOT_EXIST
  else match pls_target p with
       | Some o =>
           _ ← upd (pls_set_target None);
           let req := mkRequest o "disconnect_pull_consumer" None in
           _ ← onW (send_deferred req);
           onW (deferredRequest req None)
       | None => mret tt
       end.

(** The copy of [*nextEvent()]; NULL or a dangling pointer is a crash. *)
Definition take_event (q : EventQueue) (h : heap) : Meth ProxyPullSupplier_i Any :=
  p ← self;
  let (e, r) := nextEvent q (pls_reader p) in
  match e ≫= λ a, h !! a with
  | None => abort
  | Some event => _ ← upd (pls_set_reader r); mret event
  end.

(** [pull()] *)
Definition pull (q : EventQueue) (h : heap) : Meth ProxyPullSupplier_i Any :=
  p ← self;
  if negb (pls_connected p) then throw Disconnected
  else
    _ ← touch;
    p ← self;
    if moreEvents q (pls_reader p) then take_event q h else throw TRANSIENT.

(** [try_pull(has_event)] *)
Definition try_pull (q : EventQueue) (h : heap) : Meth ProxyPullSupplier_i (Any * bool) :=
  p ← self;
  if negb (pls_connected p) then throw Disconnected
  else
    _ ← touch;
    p ← self;
    if moreEvents q (pls_reader p) then event ← take_event q h; mret (event, true)
    else mret (any_empty, false).

(** [reincarnate(oid,node)] *)
Definition pls_reincarnate (pl : place) (oid : string) (node : PersistNode)
    : Meth ProxyPullSupplier_i unit :=
  o ← string_to_M (attrString "IOR" "" node);
  _ ← onW (activateObjectWithId (proxyPoa pl) (this pl) oid);
  connect_pull_consumer pl (Some o).

#[export] Instance pls_ProxyClass : ProxyClass ProxyPullSupplier_i := {
  proxy_reincarnate := pls_reincarnate;
  proxy_output := pls_output;
  proxy_req := λ _, None }.

(** ** The manager *)

(** The loop of [incarnate] that looks for the oldest proxy. *)
Fixpoint find_oldest (l : list (Z * ProxyPullSupplier_i)) (oldest : option (Z * Z)) : option (Z * Z) :=
  match l with
  | [] => oldest
  | (a, p) :: l' =>
      find_oldest l'
        (match oldest with
         | None => Some (a, pls_timestamp p)
         | Some (_, age) => if pls_timestamp p <? age then Some (a, pls_timestamp p) else oldest
         end)
  end.

(** [incarnate(oid,poa)]: at the limit, the oldest proxy is disconnected first.  With no proxy at
    all (a limit of zero) the pointer is NULL. *)
Definition pls_incarnate (channel : string) (maxNumProxies : Z) (q : EventQueue) (addr : Z)
    : Meth (ProxyManager ProxyPullSupplier_i) Z :=
  m ← self;
  _ ← (if maxNumProxies <=? Z.of_nat (length (_servants m)) then
         match find_oldest (_servants m) None with
         | None => abort
         | Some (a, _) =>
             try_catch (on_servant a (disconnect_pull_supplier (mplace channel a m)))
               (λ e, match e with OBJECT_NOT_EXIST => Some (mret tt) | _ => None end)
         end
       else mret tt);
  w ← theW;
  _ ← upd (λ m, set_servants (map_put addr (new_ProxyPullSupplier q w) (_servants m)) m);
  mret addr.

(** The constructor of the manager. *)
Definition new_ProxyPullSupplierManager (poa : string) (this_mgr : Z)
    : M exn world (ProxyManager ProxyPullSupplier_i) :=
  managed ← activate poa "ProxyPullSupplier" this_mgr; mret (mkProxyManager managed []).

Definition pls_createObject (mypid : Z) (m : ProxyManager ProxyPullSupplier_i) : M exn world Object :=
  createReference mypid (_managedPoa m) "IDL:omg.org/CosEventChannelAdmin/ProxyPullSupplier:1.0".

(** [disconnect()] *)
Definition pls_disconnect (channel : string) : Meth (ProxyManager ProxyPullSupplier_i) unit :=
  m ← self;
  for_each (_servants m) (λ i, on_servant i.1 (disconnect_pull_supplier (mplace channel i.1 m))).

(** ** Lemmas *)

Ltac pls_run :=
  unfold touch, theW, send_deferred, mbind, M_bind, mret, M_ret, onW, zoom, self, gets, upd, modify, abort;
  cbn -[nextEvent moreEvents].

(** Pulling.  A consumer that is not connected gets [Disconnected].  Otherwise [pull] returns
    the next event of the queue (in order, as the abstract queue gives it) and moves on, or throws
    [TRANSIENT] if there is none; [try_pull] returns the same event with [has_event], or an empty
    value without it.  Neither reads a dangling pointer, and both record the time. *)
Theorem pull_next_event q h log rej p n w :
  Rep q h log rej → reader_at q log (pls_reader p) n →
  if pls_connected p then
    match log !! n with
    | Some a => ∃ r, reader_at q log r (S n) ∧
        pull q h (p, w) = Ret a (pls_set_reader r (pls_set_timestamp (clock w).1 p), w) ∧
        try_pull q h (p, w) = Ret (a, true) (pls_set_reader r (pls_set_timestamp (clock w).1 p), w)
    | None =>
        pull q h (p, w) = Throw TRANSIENT (pls_set_timestamp (clock w).1 p, w) ∧
        try_pull q h (p, w) = Ret (any_empty, false) (pls_set_timestamp (clock w).1 p, w)
    end
  else pull q h (p, w) = Throw Disconnected (p, w) ∧ try_pull q h (p, w) = Throw Disconnected (p, w).
Proof.
  intros R Hat. destruct p as [tg conn ts rd]. simpl in *. unfold pull, try_pull, take_event.
  destruct conn; pls_run; [|done]. rewrite (moreEvents_spec _ _ _ _ _ _ R Hat).
  destruct (log !! n) as [a|] eqn:Ea.
  - pose proof (lookup_lt_Some _ _ _ Ea) as Hlt. rewrite bool_decide_true by done. pls_run.
    destruct (nextEvent_spec _ _ _ _ _ _ R Hat Hlt) as (e & a' & En & He & Hla & Hat').
    rewrite Ea in Hla. injection Hla as <-.
    destruct (nextEvent q rd) as [e' r']. cbn [fst snd] in En, Hat'. injection En as ->.
    exists r'. split; [done|]. pls_run. rewrite He. done.
  - apply lookup_ge_None in Ea. rewrite bool_decide_false by lia. done.
Qed.

(** The oldest proxy: its time is the least, and it is the first with that time. *)
Lemma find_oldest_spec l o :
  match find_oldest l o with
  | None => l = [] ∧ o = None
  | Some (a, t) =>
      Forall (λ x, t ≤ pls_timestamp x.2) l ∧ (∀ a0 t0, o = Some (a0, t0) → t ≤ t0) ∧
      ((∃ p, (a, p) ∈ l ∧ pls_timestamp p = t) ∨ o = Some (a, t))
  end.
Proof.
  revert o. induction l as [|[a p] l IH]; intros o; simpl.
  - destruct o as [[a t]|]; [|done]. split_and!; [constructor|by intros ? ? [= _ ->]|by right].
  - specialize (IH (match o with
      | Some (_, age) => if pls_timestamp p <? age then Some (a, pls_timestamp p) else o
      | None => Some (a, pls_timestamp p) end)).
    destruct (find_oldest l _) as [[b t]|].
    + destruct IH as (Hall & Hold & Hsrc).
      assert (Hp : t ≤ pls_timestamp p ∧ ∀ a0 t0, o = Some (a0, t0) → t ≤ t0).
      { destruct o as [[a0 t0]|]; [|split; [by eapply Hold|done]].
        destruct (Z.ltb_spec (pls_timestamp p) t0).
        - specialize (Hold _ _ eq_refl). split; [done|]. intros ? ? [= _ <-]. lia.
        - specialize (Hold _ _ eq_refl). split; [lia|]. by intros ? ? [= _ <-]. }
      destruct Hp as [Hp Ho]. split_and!; [by constructor|done|].
      destruct Hsrc as [(p' & Hin & Ht)|Heq].
      * left. exists p'. split; [by right|done].
      * destruct o as [[a0 t0]|].
        -- destruct (pls_timestamp p <? t0); [|by right].
           injection Heq as <- <-. left. exists p. split; [by left|done].
        -- injection Heq as <- <-. left. exists p. split; [by left|done].
    + destruct IH as [_ IH]. destruct o as [[? ?]|]; [by case_match|done].
Qed.

Lemma pls_retire `{!OrbLaws} pl oid w :
  servant_to_id (proxyPoa pl) (this pl) (poas w) = inr oid →
  ∃ w', eraseKey pl pls_name w = Ret tt w' ∧ poas w' = poas w ∧ sent w' = sent w ∧ clock w' = clock w ∧
    logstream w' = (λ t, t +:+ item_line (Del (proxy_key (channelName pl) pls_name oid))) <$> logstream w ∧
  ∃ ps, deactivateObject (proxyPoa pl) (this pl) w' = Ret tt (set_poas ps w') ∧
    servant_to_id (proxyPoa pl) (this pl) ps = inl ServantNotActive.
Proof.
  intros Hs. destruct (logstream w) as [t|] eqn:El.
  - rewrite (eraseKey_line pl pls_name oid w t El Hs). eexists. split; [done|]. split_and!; try done.
    apply deactivate_active_ret. unfold is_active. simpl. by rewrite Hs.
  - unfold eraseKey. rewrite log_write_none by done. exists w. split_and!; try done.
    apply deactivate_active_ret. unfold is_active. by rewrite Hs.
Qed.

(** What disconnecting does to an active proxy. *)
Lemma pls_disconnect_spec `{!OrbLaws} pl oid p w :
  servant_to_id (proxyPoa pl) (this pl) (poas w) = inr oid →
  ∃ w', final (disconnect_pull_supplier pl (p, w)) =
      (pls_set_target (if pls_connected p then None else pls_target p)
         (pls_set_timestamp (clock w).1 p), w') ∧
    is_active (proxyPoa pl) (this pl) w' = false ∧ clock w' = clock w ∧
    logstream w' = (λ t, t +:+ item_line (Del (proxy_key (channelName pl) pls_name oid))) <$> logstream w ∧
    if pls_connected p then
      disconnect_pull_supplier pl (p, w) =
        Ret tt (pls_set_target None (pls_set_timestamp (clock w).1 p), w') ∧
      sent w' = sent w ++ match pls_target p with
                          | Some o => [mkRequest o "disconnect_pull_consumer" None] | None => [] end
    else
      disconnect_pull_supplier pl (p, w) = Throw OBJECT_NOT_EXIST (pls_set_timestamp (clock w).1 p, w') ∧
      sent w' = sent w.
Proof.
  intros Hs. destruct (pls_retire pl oid w Hs) as (w1 & E1 & Hp1 & Hs1 & Hc1 & Hl1 & ps & E2 & Hn).
  destruct p as [tg conn ts rd]. unfold disconnect_pull_supplier. pls_run. rewrite E1. pls_run.
  rewrite E2. pls_run. destruct conn; pls_run.
  - destruct tg as [o|]; pls_run.
    + unfold deferredRequest, get. pls_run.
      destruct (orbShutdownRequested w1); pls_run; eexists; (split; [done|]);
        (split_and!; [unfold is_active; simpl; by rewrite Hn|done|done|done|simpl; by rewrite Hs1]).
    + eexists. split; [done|]. split_and!; try done; [unfold is_active; simpl; by rewrite Hn|].
      simpl. by rewrite Hs1, app_nil_r.
  - eexists. split; [done|]. split_and!; try done. unfold is_active. simpl. by rewrite Hn.
Qed.

(** C36: the limit on the number of proxies.  Below it, a new proxy is simply added.  At the limit
    the proxy that was used longest ago is disconnected (its record is erased, its object
    deactivated, its consumer told), whether it was connected or not, and the new one added.  With
    a limit of zero and no proxies the pointer to the oldest is NULL: the program crashes. *)
Theorem pull_supplier_eviction `{!OrbLaws} channel maxNumProxies q addr m w :
  map_sorted (_servants m) = true →
  (Z.of_nat (length (_servants m)) < maxNumProxies →
     pls_incarnate channel maxNumProxies q addr (m, w) =
       Ret addr (set_servants (map_put addr (new_ProxyPullSupplier q w) (_servants m)) m, w)) ∧
  (maxNumProxies ≤ Z.of_nat (length (_servants m)) → _servants m = [] →
     pls_incarnate channel maxNumProxies q addr (m, w) = Aborted (m, w)) ∧
  (maxNumProxies ≤ Z.of_nat (length (_servants m)) → _servants m ≠ [] →
     ∃ a p, map_find a (_servants m) = Some p ∧
       Forall (λ x, pls_timestamp p ≤ pls_timestamp x.2) (_servants m) ∧
       ∀ oid, servant_to_id (_managedPoa m) a (poas w) = inr oid →
         ∃ p' w', pls_incarnate channel maxNumProxies q addr (m, w) =
             Ret addr (set_servants (map_put addr (new_ProxyPullSupplier q w)
                         (map_put a p' (_servants m))) m, w') ∧
           is_active (_managedPoa m) a w' = false ∧
           logstream w' = (λ t, t +:+ item_line (Del (proxy_key channel pls_name oid))) <$> logstream w ∧
           sent w' = sent w ++ (if pls_connected p then
               match pls_target p with
               | Some o => [mkRequest o "disconnect_pull_consumer" None] | None => [] end else [])).
Proof.
  intros Hsort. destruct m as [poa servants]. simpl in *. unfold pls_incarnate. pls_run.
  split_and!.
  - intros Hlt. rewrite (proj2 (Z.leb_gt _ _)) by lia. done.
  - intros Hle ->. simpl in Hle. by rewrite (proj2 (Z.leb_le _ _)) by (simpl; lia).
  - intros Hle Hne. pose proof (find_oldest_spec servants None) as Hold.
    destruct (find_oldest servants None) as [[a t]|] eqn:Ef; [|by destruct Hold].
    destruct Hold as (Hall & _ & [(p & Hin & <-)|]); [|done].
    assert (Hfind : map_find a servants = Some p) by (by apply map_elem_find).
    exists a, p. split_and!; [done|done|]. intros oid Hid.
    rewrite (proj2 (Z.leb_le _ _)) by lia. pls_run. unfold try_catch, on_servant. pls_run.
    rewrite Hfind.
    destruct (pls_disconnect_spec (mkPlace channel poa a) oid p w Hid)
      as (w' & Hfin & Hact & Hc & Hl & Hd).
    unfold mplace. simpl in *. unfold new_ProxyPullSupplier.
    destruct (pls_connected p); destruct Hd as [Ed Hs]; rewrite Ed; pls_run; rewrite ?Hc;
      eexists _, w'; (split; [done|]); split_and!; try done.
    by rewrite app_nil_r.
Qed.

Definition pls_attrs (o : option Object) : list (string * string) :=
  match o with Some o => [("IOR", object_to_string o)] | None => [] end.

(** The life of a connection, every branch.  [connect] refuses a proxy that is already
    connected and changes nothing then; a nil consumer is accepted.  The record of an anonymous
    consumer has no reference, and a proxy cannot be reincarnated from it; from any other record
    it can.  [disconnect] erases the record, deactivates the object, and tells the consumer if
    there is one; it throws [OBJECT_NOT_EXIST] if the proxy was not connected. *)
Theorem pull_supplier_lifecycle `{!OrbLaws} pl oid q p o w :
  servant_to_id (proxyPoa pl) (this pl) (poas w) = inr oid →
  (pls_connected p = true → connect_pull_consumer pl o (p, w) = Throw AlreadyConnected (p, w)) ∧
  (pls_connected p = false → pls_target p = None →
     ∃ w', connect_pull_consumer pl o (p, w) =
         Ret tt (mkPLS o true (clock w).1 (pls_reader p), w') ∧
       logstream w' = (λ t, t +:+ item_line (Put (proxy_key (channelName pl) pls_name oid) (pls_attrs o)))
                      <$> logstream w) ∧
  (∃ w', final (disconnect_pull_supplier pl (p, w)) =
      (pls_set_target (if pls_connected p then None else pls_target p)
         (pls_set_timestamp (clock w).1 p), w') ∧
    is_active (proxyPoa pl) (this pl) w' = false ∧
    logstream w' = (λ t, t +:+ item_line (Del (proxy_key (channelName pl) pls_name oid))) <$> logstream w ∧
    (pls_connected p = false → disconnect_pull_supplier pl (p, w) =
       Throw OBJECT_NOT_EXIST (pls_set_timestamp (clock w).1 p, w'))) ∧
  ∀ w2, match o with
    | None => pls_reincarnate pl oid (mkNode [] (pls_attrs o)) (new_ProxyPullSupplier q w2, w2) =
              Throw BAD_PARAM (new_ProxyPullSupplier q w2, w2)
    | Some _ => ∀ ps, activate_object_with_id (proxyPoa pl) oid (this pl) (poas w2) = inr ps →
        ∃ p' w', pls_reincarnate pl oid (mkNode [] (pls_attrs o)) (new_ProxyPullSupplier q w2, w2) =
          Ret tt (p', w') ∧ pls_target p' = o ∧ pls_connected p' = true
    end.
Proof.
  intros Hid.
  assert (Hconn : ∀ o p w, servant_to_id (proxyPoa pl) (this pl) (poas w) = inr oid →
     pls_connected p = false → pls_target p = None →
     ∃ w', connect_pull_consumer pl o (p, w) =
         Ret tt (mkPLS o true (clock w).1 (pls_reader p), w') ∧
       logstream w' = (λ t, t +:+ item_line (Put (proxy_key (channelName pl) pls_name oid) (pls_attrs o)))
                      <$> logstream w).
  { clear. intros o [tg conn ts rd] w Hid Hc Ht. simpl in *. subst. unfold connect_pull_consumer. pls_run.
    assert (Hm : ∀ p, pls_target p = o → ∃ w', log_write (pls_output pl p) w = Ret tt w' ∧
        logstream w' = (λ t, t +:+ item_line (Put (proxy_key (channelName pl) pls_name oid) (pls_attrs o)))
                      <$> logstream w).
    { intros p Hp. destruct (logstream w) as [t|] eqn:El.
      - erewrite log_write_ret; [by eexists|done|]. unfold pls_output, pls_attrs. rewrite Hp.
        by apply basicOutput_line.
      - rewrite log_write_none by done. by exists w. }
    destruct o as [o|]; pls_run.
    all: match goal with |- context [log_write (pls_output _ ?p0) _] =>
      destruct (Hm p0 eq_refl) as (w' & E & Hl) end; rewrite E; eauto. }
  split_and!.
  - intros Hc. unfold connect_pull_consumer. pls_run. by rewrite Hc.
  - by apply Hconn.
  - destruct (pls_disconnect_spec pl oid p w Hid) as (w' & Hf & Ha & _ & Hl & Hd).
    exists w'. split_and!; try done. intros Hc. rewrite Hc in Hd. by destruct Hd.
  - intros w2. destruct o as [o|]; simpl.
    + intros ps E. unfold pls_reincarnate, string_to_M, string_to_, attrString. simpl.
      rewrite string_to_object_to_string. pls_run.
      pose proof (activate_cases (proxyPoa pl) (this pl) oid w2) as Hc. rewrite E in Hc. rewrite Hc. pls_run.
      destruct (Hconn (Some o) (new_ProxyPullSupplier q w2) (set_poas ps w2)) as (w' & E' & _);
        [by eapply activate_servant_to_id|done|done|].
      rewrite E'. eexists _, w'. done.
    + unfold pls_reincarnate, string_to_M, string_to_, attrString. simpl. by rewrite string_to_object_empty.
Qed.
End pull_supplier.

(** ** Witnesses *)

Definition pls_place : place := mkPlace "chan" "chan.ProxyPullSupplier" 64.

Definition pls_world : world :=
  set_poas (mkModelPoas [] [("chan.ProxyPullSupplier", 64, "1.2.3"); ("chan.ProxyPullSupplier", 80, "2.2.3")])
    model_world.

Definition pls_queue : EventQueue := mkEventQueue 0 3 [None; None; None] None.

Definition pls_connected_to (o : N) (t : Z) : ProxyPullSupplier_i :=
  mkPLS (Some (obj o)) true t (mkReader 0).

Lemma pull_next_event_witness :
  Rep pls_queue ∅ [] 0 ∧ reader_at pls_queue [] (mkReader 0) 0 ∧
  pull pls_queue ∅ (pls_connected_to 9 5, pls_world) = Throw TRANSIENT (pls_connected_to 9 1000, pls_world).
Proof.
  assert (R : Rep pls_queue ∅ [] 0) by exact (rep_new 2 pls_queue eq_refl eq_refl).
  assert (Hat : reader_at pls_queue [] (mkReader 0) 0) by (split; [simpl; lia|reflexivity|reflexivity]).
  split; [exact R|]. split; [exact Hat|].
  exact (proj1 (pull_next_event pls_queue ∅ [] 0 (pls_connected_to 9 5) 0 pls_world R Hat)).
Defined.

Lemma pull_supplier_eviction_witness :
  let m := mkProxyManager "chan.ProxyPullSupplier" [(64, pls_connected_to 9 500); (80, pls_connected_to 7 400)] in
  map_sorted (_servants m) = true ∧ 2 ≤ Z.of_nat (length (_servants m)) ∧
  ∃ a p, map_find a (_servants m) = Some p ∧
    Forall (λ x, pls_timestamp p ≤ pls_timestamp x.2) (_servants m).
Proof.
  intros m. split; [reflexivity|]. split; [simpl; lia|].
  destruct (pull_supplier_eviction "chan" 2 pls_queue 96 m pls_world eq_refl) as (_ & _ & H).
  destruct H as (a & p & Hf & Hall & _); [simpl; lia|discriminate|].
  exists a, p. split; [exact Hf|exact Hall].
Defined.

Lemma pull_supplier_lifecycle_witness :
  servant_to_id (proxyPoa pls_place) (this pls_place) (poas pls_world) = inr "1.2.3" ∧
  ∃ w', connect_pull_consumer pls_place None (new_ProxyPullSupplier pls_queue pls_world, pls_world) =
      Ret tt (mkPLS None true 1000 (mkReader 0), w') ∧
    logstream w' = Some ("ecf/chan/ConsumerAdmin/ProxyPullSupplier/1.2.3 ;;" +:+ nl).
Proof.
  split; [reflexivity|].
  destruct (pull_supplier_lifecycle pls_place "1.2.3" pls_queue
    (new_ProxyPullSupplier pls_queue pls_world) None pls_world eq_refl) as (_ & H & _).
  destruct (H eq_refl eq_refl) as (w' & E & Hl). exists w'. split; [exact E|exact Hl].
Defined.
