(* ===== verification/ProxyPushConsumer.v ===== *)
(** * ProxyPushConsumer: suppliers that push
      (src/ProxyPushConsumer.h, src/ProxyPushConsumer.cc)

    One servant stands for every ProxyPushConsumer object of a channel: the object id of the
    current call says which.  A [Connection] is kept for each supplier that gave a reference; it
    is shared by the map of connections and by the deferred request it is the callback of, so
    connections live on a heap and the map holds addresses.

    [_queue] is the list of events of the SupplierAdmin, the second component of the state of
    [push]. *)

From S2P Require Import Prelude Monad CxxMap Stream PersistNode PersistReplay PersistLog PersistLookup.
From S2P Require Import Corba ModelOrb Servant Orb Proxy.

Local Open Scope string_scope.
Local Open Scope Z_scope.
Local Open Scope list_scope.

Section push_consumer.
Context `{OO : OrbOps}.

(** [struct Connection]; [_channelName] points to that of the servant. *)
Record Connection := mkConnection {
  c_channelName : string;
  c_oidstr : string;
  c_target : Object;
  c_target_sior : string;
  c_targetIsProxy : bool }.

(** [_connections] holds pointers; [pc_heap] is what they point to. *)
Record ProxyPushConsumer_i := mkPPCon {
  _connections : list (string * Z);
  pc_heap : list (Z * Connection);
  pc_channelName : string;
  pc_poa : string;
  _useLocalQueue : bool }.

Definition set_connections (l : list (string * Z)) (p : ProxyPushConsumer_i) : ProxyPushConsumer_i :=
  mkPPCon l (pc_heap p) (pc_channelName p) (pc_poa p) (_useLocalQueue p).
Definition set_heap (h : list (Z * Connection)) (p : ProxyPushConsumer_i) : ProxyPushConsumer_i :=
  mkPPCon (_connections p) h (pc_channelName p) (pc_poa p) (_useLocalQueue p).
Definition set_useLocalQueue (b : bool) (p : ProxyPushConsumer_i) : ProxyPushConsumer_i :=
  mkPPCon (_connections p) (pc_heap p) (pc_channelName p) (pc_poa p) b.

(** The members after construction. *)
Definition new_ProxyPushConsumer (channel : string) : ProxyPushConsumer_i :=
  mkPPCon [] [] channel (channel +:+ ".ProxyPushConsumer") false.

(** The constructor: [consumerAdmin] is the address of the ConsumerAdmin.  If the POA could not
    be created [_poa] is nil, and [set_servant] throws. *)
Definition construct_ProxyPushConsumer (channel : string) (consumerAdmin : Z)
    : M exn world ProxyPushConsumer_i :=
  _ ← add_ref consumerAdmin;
  w ← get;
  let pc := new_ProxyPushConsumer channel in
  match create_POA (pc_poa pc) (poas w) with
  | inr p => _ ← modify (set_poas p); mret pc
  | inl AdapterAlreadyExists | inl InvalidPolicy => throw (SystemException "INV_OBJREF")
  | inl e => throw e
  end.

Definition pc_name : string := "SupplierAdmin/ProxyPushConsumer".

(** The constructor of [Connection]. *)
Definition new_Connection (channel oid : string) (o : Object) (isProxy : bool) : Connection :=
  mkConnection channel oid o (object_to_string o) isProxy.

(** [Connection::output(os)] *)
Definition c_output (c : Connection) : ostream_op := λ _,
  _ ← emit ("ecf/" +:+ c_channelName c);
  _ ← emit ("/SupplierAdmin/ProxyPushConsumer/" +:+ c_oidstr c);
  _ ← emit (" IOR=" +:+ c_target_sior c);
  _ ← (if c_targetIsProxy c then emit " proxy=1" else mret tt);
  emit (" ;;" +:+ nl).

(** [currentObjectId()]: what [POACurrent] says; [None] is [NoContext]. *)
Definition currentObjectId (current : option string) : string :=
  match current with Some oid => oid | None => "ERROR" end.

(** [new Connection(...)] at address [addr], with one reference. *)
Definition alloc_connection (addr : Z) (c : Connection) : Meth ProxyPushConsumer_i unit :=
  _ ← upd (λ p, set_heap (map_put addr c (pc_heap p)) p);
  onW (modify (λ w, set_refs (map_put addr 1 (refs w)) w)).

(** [connect_push_supplier(pushSupplier)]: [current] is the id of the object called, [addr] the
    address of the new connection. *)
Definition connect_push_supplier (current : option string) (addr : Z) (pushSupplier : option Object)
    : Meth ProxyPushConsumer_i unit :=
  match pushSupplier with
  | None => mret tt
  | Some o =>
      let oidstr := currentObjectId current in
      p ← self;
      match map_find oidstr (_connections p) with
      | Some _ => throw AlreadyConnected
      | None =>
          let newConnection := new_Connection (pc_channelName p) oidstr o false in
          _ ← alloc_connection addr newConnection;
          _ ← upd (λ p, set_connections (map_insert oidstr addr (_connections p)).1 p);
          let req := mkRequest o "_is_a"
            (Some (any_of_string "IDL:omg.org/CosEventChannelAdmin/ProxyPushSupplier:1.0")) in
          _ ← onW (send_deferred req);
          _ ← onW (deferredRequest req (Some addr));
          onW (log_write (c_output newConnection))
      end
  end.

(** The object an address points to. *)
Definition deref (addr : Z) : Meth ProxyPushConsumer_i Connection := λ s,
  match map_find addr (pc_heap s.1) with Some c => Ret c s | None => Aborted s end.

(** [disconnect_push_consumer()]: accepts calls from suppliers it has no record of. *)
Definition disconnect_push_consumer (current : option string) : Meth ProxyPushConsumer_i unit :=
  let oidstr := currentObjectId current in
  p ← self;
  match map_find oidstr (_connections p) with
  | None => mret tt
  | Some addr =>
      c ← deref addr;
      let req := mkRequest (c_target c) "disconnect_push_supplier" None in
      _ ← onW (remove_ref addr);
      _ ← upd (λ p, set_connections (map_erase oidstr (_connections p)) p);
      _ ← onW (send_deferred req);
      _ ← onW (deferredRequest req None);
      onW (log_write (λ _,
        _ ← emit ("-ecf/" +:+ pc_channelName p);
        emit ("/SupplierAdmin/ProxyPushConsumer/" +:+ oidstr +:+ nl)))
  end.

(** [push(event)]; [real_time] is the build option OMNIEVENTS_REAL_TIME_PUSH, and [send] is
    [_consumerAdmin.send] then. *)
Definition push (real_time : bool) (send : Any → M exn world unit) (event : Any)
    : Meth (ProxyPushConsumer_i * list Any) unit :=
  s ← self;
  if real_time && negb (_useLocalQueue s.1) then
    _ ← onW (send event);
    upd (λ s, (set_useLocalQueue true s.1, s.2))
  else upd (λ s, (s.1, s.2 ++ [event])).

(** [trigger()] *)
Definition pc_trigger : Meth ProxyPushConsumer_i unit := upd (set_useLocalQueue false).

(** [createObject()] *)
Definition pc_createObject (mypid : Z) (p : ProxyPushConsumer_i) : M exn world Object :=
  createReference mypid (pc_poa p) "IDL:omg.org/CosEventChannelAdmin/ProxyPushConsumer:1.0".

(** [disconnect()]: every supplier is told; the records go with that of the channel. *)
Definition pc_disconnect : Meth ProxyPushConsumer_i unit :=
  p ← self;
  for_each (_connections p) (λ i,
    c ← deref i.2;
    let req := mkRequest (c_target c) "disconnect_push_supplier" None in
    _ ← onW (remove_ref i.2);
    _ ← upd (λ p, set_connections (map_erase i.1 (_connections p)) p);
    _ ← onW (send_deferred req);
    onW (deferredRequest req None)).

(** One iteration of [reincarnate]; [remote_connect] is the call of [connect_push_consumer] on a
    remote ProxyPushSupplier. *)
Definition pc_reincarnate_one (remote_connect : Object → string → exn + unit) (addr : Z)
    (i : string * PersistNode) : Meth ProxyPushConsumer_i unit :=
  let oidstr := i.1 in
  let ior := attrString "IOR" "" i.2 in
  let isProxy := negb (attrLong "proxy" 0 i.2 =? 0) in
  p ← self;
  match map_find oidstr (_connections p) with
  | Some _ => abort  (* assert *)
  | None =>
      try_catch
        (supp ← string_to_M ior;
         _ ← alloc_connection addr (new_Connection (pc_channelName p) oidstr supp isProxy);
         _ ← upd (λ p, set_connections (map_insert oidstr addr (_connections p)).1 p);
         if isProxy then
           proxySupp ← string_to_M ior;
           match remote_connect proxySupp oidstr with inl e => throw e | inr _ => mret tt end
         else mret tt)
        (λ e, match e with
              | BAD_PARAM | AlreadyConnected | TypeError | OBJECT_NOT_EXIST | TRANSIENT
              | COMM_FAILURE => Some (mret tt)
              | _ => None
              end)
  end.

(** [reincarnate(node)]: [addrs] are the addresses of the new connections. *)
Fixpoint pc_reincarnate (remote_connect : Object → string → exn + unit) (addrs : list Z)
    (l : list (string * PersistNode)) : Meth ProxyPushConsumer_i unit :=
  match l, addrs with
  | [], _ => mret tt
  | i :: l', addr :: addrs' =>
      _ ← pc_reincarnate_one remote_connect addr i; pc_reincarnate remote_connect addrs' l'
  | _ :: _, [] => abort  (* out of memory *)
  end.

(** [output(os)] *)
Definition pc_output (p : ProxyPushConsumer_i) : ostream_op := λ w,
  for_each (_connections p) (λ i,
    match map_find i.2 (pc_heap p) with
    | Some c => c_output c w
    | None => abort
    end).

(** [~ProxyPushConsumer_i()] *)
Definition pc_destroy : Meth ProxyPushConsumer_i unit :=
  p ← self;
  _ ← onW (for_each (_connections p) (λ i, remove_ref i.2));
  upd (set_connections []).

(** [Connection::callback(req)] *)
Definition c_callback (addr : Z) (return_value : Any) : Meth ProxyPushConsumer_i unit :=
  c ← deref addr;
  match any_boolean return_value with
  | Some b =>
      let c' := mkConnection (c_channelName c) (c_oidstr c) (c_target c) (c_target_sior c) b in
      _ ← upd (λ p, set_heap (map_put addr c' (pc_heap p)) p);
      w ← theW;
      if b && log_exists w then onW (write_lock (c_output c')) else mret tt
  | None => mret tt
  end.
(** ** Lemmas *)

Definition pc_key (ch oid : string) : string := proxy_key ch pc_name oid.

(** The attributes of the record of a connection, and the node they make. *)
Definition c_attrs (c : Connection) : list (string * string) :=
  ("IOR", c_target_sior c) :: (if c_targetIsProxy c then [("proxy", "1")] else []).
Definition c_node (c : Connection) : PersistNode := mkNode [] (c_attrs c).

Lemma c_output_line c w t :
  c_output c w t = Ret tt (t +:+ item_line (Put (pc_key (c_channelName c) (c_oidstr c)) (c_attrs c))).
Proof.
  unfold c_output, emit, modify, mbind, M_bind, mret, M_ret, c_attrs, pc_key, proxy_key.
  destruct (c_targetIsProxy c); simpl; f_equal; unfold attr_inline, attr_word; simpl;
    by rewrite !str_app_assoc.
Qed.

Definition add_line (i : item) (w : world) : option string :=
  (λ t, t +:+ item_line i) <$> logstream w.

(** Writing a line changes the log, and nothing else but the request for a checkpoint. *)
Lemma log_write_line (m : ostream_op) i w :
  (∀ t, m w t = Ret tt (t +:+ item_line i)) →
  ∃ w', log_write m w = Ret tt w' ∧ logstream w' = add_line i w ∧ sent w' = sent w ∧
    deferredRequests w' = deferredRequests w ∧ refs w' = refs w ∧
    orbShutdownRequested w' = orbShutdownRequested w.
Proof.
  intros Hm. unfold add_line. destruct (logstream w) as [t|] eqn:El.
  - rewrite (log_write_ret m w t _ El (Hm t)). by eexists.
  - rewrite log_write_none by done. exists w. by rewrite El.
Qed.

Definition is_a_request (o : Object) : request :=
  mkRequest o "_is_a" (Some (any_of_string "IDL:omg.org/CosEventChannelAdmin/ProxyPushSupplier:1.0")).

Ltac pc_run :=
  unfold alloc_connection, theW, send_deferred, mbind, M_bind, mret, M_ret, onW, zoom, self, gets, upd,
    modify, abort, throw; simpl.

Lemma connect_fresh current addr o p w :
  let oid := currentObjectId current in
  let c := new_Connection (pc_channelName p) oid o false in
  map_find oid (_connections p) = None → orbShutdownRequested w = false →
  ∃ w', connect_push_supplier current addr (Some o) (p, w) =
      Ret tt (set_connections (map_put oid addr (_connections p))
                (set_heap (map_put addr c (pc_heap p)) p), w') ∧
    sent w' = sent w ++ [is_a_request o] ∧
    deferredRequests w' = deferredRequests w ++ [(is_a_request o, Some addr)] ∧
    ref_count addr w' = 2 ∧ orbShutdownRequested w' = false ∧
    logstream w' = add_line (Put (pc_key (pc_channelName p) oid) (c_attrs c)) w.
Proof.
  intros oid c Hf Hs. unfold connect_push_supplier. fold oid. pc_run. rewrite Hf. pc_run.
  unfold deferredRequest, get, add_ref. pc_run. rewrite Hs. pc_run.
  unfold map_insert. rewrite Hf. simpl.
  match goal with |- context [log_write ?m ?x] => change m with (c_output c); set (w1 := x) end.
  destruct (log_write_line (c_output c) (Put (pc_key (pc_channelName p) oid) (c_attrs c)) w1)
    as (w' & E & Hl & Hse & Hd & Hr & Ho); [intros t; apply c_output_line|].
  rewrite E. exists w'. split; [done|]. split_and!; [done|done| |by rewrite Ho|done].
  unfold ref_count. rewrite Hr. subst w1. simpl. rewrite map_find_put_eq. simpl.
  unfold ref_count. simpl. by rewrite map_find_put_eq.
Qed.

Lemma disconnect_known current addr c p w :
  let oid := currentObjectId current in
  let req := mkRequest (c_target c) "disconnect_push_supplier" None in
  map_find oid (_connections p) = Some addr → map_find addr (pc_heap p) = Some c →
  ∃ w', disconnect_push_consumer current (p, w) =
      Ret tt (set_connections (map_erase oid (_connections p)) p, w') ∧
    sent w' = sent w ++ [req] ∧ deferredRequests w' = deferredRequests w ++ [(req, None)] ∧
    ref_count addr w' = ref_count addr w - 1 ∧ orbShutdownRequested w' = orbShutdownRequested w ∧
    logstream w' = add_line (Del (pc_key (pc_channelName p) oid)) w.
Proof.
  intros oid req Hf Hc. unfold disconnect_push_consumer, deref. fold oid. pc_run. rewrite Hf. pc_run.
  rewrite Hc. pc_run. unfold deferredRequest, get, add_ref, remove_ref. pc_run.
  assert (Hn : ∀ b : bool, (if b then @None Z else None) = None) by (by destruct b). rewrite Hn. pc_run.
  match goal with |- context [log_write ?m ?x] => set (w1 := x); set (out := m) end.
  destruct (log_write_line out (Del (pc_key (pc_channelName p) oid)) w1)
    as (w' & E & Hl & Hse & Hd & Hr & Ho).
  { intros t. unfold out, emit, pc_key, proxy_key. pc_run. f_equal. by rewrite !str_app_assoc. }
  rewrite E. exists w'. split; [done|]. split_and!; [done|done| |by rewrite Ho|done].
  unfold ref_count. rewrite Hr. subst w1. simpl. by rewrite map_find_put_eq.
Qed.

Lemma callback_spec addr c v b p w :
  map_find addr (pc_heap p) = Some c → any_boolean v = Some b →
  let c' := mkConnection (c_channelName c) (c_oidstr c) (c_target c) (c_target_sior c) b in
  ∃ w', c_callback addr v (p, w) = Ret tt (set_heap (map_put addr c' (pc_heap p)) p, w') ∧
    refs w' = refs w ∧ orbShutdownRequested w' = orbShutdownRequested w ∧
    logstream w' = if b then add_line (Put (pc_key (c_channelName c) (c_oidstr c)) (c_attrs c')) w
                   else logstream w.
Proof.
  intros Hc Hb c'. unfold c_callback, deref. pc_run. rewrite Hc. pc_run. rewrite Hb. pc_run. fold c'.
  destruct b; simpl; [|by exists w].
  destruct (log_write_line (c_output c') (Put (pc_key (c_channelName c) (c_oidstr c)) (c_attrs c')) w)
    as (w' & E & Hl & Hse & Hd & Hr & Ho); [intros t; apply (c_output_line c')|].
  unfold log_write, get, mbind, M_bind, when in E. unfold log_exists in *.
  destruct (logstream w) as [t|] eqn:El; simpl.
  - rewrite E. by exists w'.
  - exists w. split_and!; try done. unfold add_line. by rewrite El.
Qed.
(** ** What the log says about the connections *)

Context `{OL : !OrbLaws}.

Definition pc_path (ch : string) : list string := ["ecf"; ch; "SupplierAdmin"; "ProxyPushConsumer"].

(** A name that can be a component of a record's path. *)
Definition pc_text (s : string) : bool := no_space s && str_forall (not_char "/") s.

Lemma pc_key_comps ch oid :
  pc_text ch = true → pc_text oid = true → comps (pc_key ch oid) = pc_path ch ++ [oid].
Proof.
  unfold pc_text. intros; boolify. unfold pc_key, proxy_key, pc_name, pc_path.
  change ("ecf/" +:+ ch +:+ "/" +:+ "SupplierAdmin/ProxyPushConsumer" +:+ "/" +:+ oid)
    with ("ecf" +:+ String "/" (ch +:+ "/SupplierAdmin" +:+ "/ProxyPushConsumer" +:+ String "/" oid)).
  rewrite comps_split, split_at_app by done.
  change (ch +:+ "/SupplierAdmin" +:+ "/ProxyPushConsumer" +:+ String "/" oid)
    with (ch +:+ String "/" ("SupplierAdmin" +:+ String "/" ("ProxyPushConsumer" +:+ String "/" oid))).
  rewrite comps_split, split_at_app by done. rewrite comps_split, split_at_app by done.
  rewrite comps_split, split_at_app by done. by rewrite comps_plain.
Qed.

(** The connections as they appear in the log, and as objects. *)
Definition heap_node (h : list (Z * Connection)) (a : Z) : PersistNode :=
  match map_find a h with Some c => c_node c | None => empty_node end.
Definition view (p : ProxyPushConsumer_i) : list (string * option Connection) :=
  map_vals (λ a, map_find a (pc_heap p)) (_connections p).

Definition c_good (ch oid : string) (c : Connection) : Prop :=
  c_oidstr c = oid ∧ c_channelName c = ch ∧ c_target_sior c = object_to_string (c_target c) ∧
  pc_text oid = true.

(** [recs] are the connections the log has records of. *)
Record pc_inv (ch : string) (p : ProxyPushConsumer_i) (w : world) (l : list item)
    (recs : list (string * Connection)) : Prop := {
  inv_name : pc_channelName p = ch;
  inv_sorted : map_sorted (_connections p) = true;
  inv_good a c : map_find a (pc_heap p) = Some c → c_good ch (c_oidstr c) c;
  inv_heap oid a : map_find oid (_connections p) = Some a →
    ∃ c, map_find a (pc_heap p) = Some c ∧ c_oidstr c = oid;
  inv_running : orbShutdownRequested w = false;
  inv_log : ∃ t, logstream w = Some t ∧ is_log t l;
  inv_children : children_at (pc_path ch) (replay empty_node l) = map_vals c_node recs;
  inv_recs : map_sorted recs = true ∧ Forall (λ i, c_good ch i.1 i.2) recs }.

Lemma c_attrs_node c : set_attrs (c_attrs c) empty_node = c_node c.
Proof. unfold c_node, c_attrs. by destruct (c_targetIsProxy c). Qed.

Lemma children_put ch c oid l :
  pc_text ch = true → pc_text oid = true →
  children_at (pc_path ch) (replay empty_node (l ++ [Put (pc_key ch oid) (c_attrs c)])) =
  map_put oid (c_node c) (children_at (pc_path ch) (replay empty_node l)).
Proof.
  intros H1 H2. rewrite replay_snoc. cbn [apply_item].
  by rewrite pc_key_comps, c_attrs_node, children_set.
Qed.

Lemma children_erase ch oid l :
  pc_text ch = true → pc_text oid = true →
  children_at (pc_path ch) (replay empty_node (l ++ [Del (pc_key ch oid)])) =
  map_erase oid (children_at (pc_path ch) (replay empty_node l)).
Proof.
  intros H1 H2. rewrite replay_snoc. cbn [apply_item]. by rewrite pc_key_comps, children_del.
Qed.

Lemma c_item_text ch oid c :
  pc_text ch = true → c_good ch oid c →
  text_item (Put (pc_key ch oid) (c_attrs c)) = true ∧ text_item (Del (pc_key ch oid)) = true.
Proof.
  intros Hch (_ & _ & Hs & Hoid). unfold pc_text in *. boolify.
  destruct (text_put ch pc_name oid (c_target_sior c)) as (T1 & T2 & _ & T4); try done.
  { rewrite Hs. apply object_to_string_text. }
  split; [|done]. unfold c_attrs. by destruct (c_targetIsProxy c).
Qed.

Lemma log_grows i w l :
  text_item i = true → (∃ t, logstream w = Some t ∧ is_log t l) →
  ∃ t, add_line i w = Some t ∧ is_log t (l ++ [i]).
Proof.
  intros Hi (t & E & Hl). unfold add_line. rewrite E. eexists. split; [done|].
  by apply is_log_app, is_log_line.
Qed.

(** The operations of the suppliers and of the Orb's thread.  What a supplier gets is not
    needed: an exception leaves the state of the moment. *)
Inductive pc_op :=
| OConnect (current : option string) (addr : Z) (o : option Object)
| ODisconnect (current : option string)
| OAnswer (addr : Z) (v : Any).

Definition pc_do (op : pc_op) : Meth ProxyPushConsumer_i unit :=
  match op with
  | OConnect current addr o => connect_push_supplier current addr o
  | ODisconnect current => disconnect_push_consumer current
  | OAnswer addr v => c_callback addr v
  end.

(** New connections are at new addresses, the object ids can be components of a path; and the
    answer to a connection's request arrives once, while the connection is open or later. *)
Definition pc_valid (op : pc_op) (p : ProxyPushConsumer_i) : Prop :=
  match op with
  | OConnect current addr _ => pc_text (currentObjectId current) = true ∧ map_find addr (pc_heap p) = None
  | ODisconnect _ => True
  | OAnswer addr _ => ∃ c, map_find addr (pc_heap p) = Some c ∧ c_targetIsProxy c = false
  end.

Definition pc_step (s : ProxyPushConsumer_i * world) (op : pc_op) : ProxyPushConsumer_i * world :=
  final (pc_do op s).

Fixpoint pc_valid_run (ops : list pc_op) (s : ProxyPushConsumer_i * world) : Prop :=
  match ops with
  | [] => True
  | op :: ops' => pc_valid op s.1 ∧ pc_valid_run ops' (pc_step s op)
  end.

(** What a step does to the records: a new connection, and one that turns out to be a proxy, is
    written; a connection that is closed is erased. *)
Definition as_proxy (b : bool) (c : Connection) : Connection :=
  mkConnection (c_channelName c) (c_oidstr c) (c_target c) (c_target_sior c) b.
Definition pc_recorded (op : pc_op) (p : ProxyPushConsumer_i) (recs : list (string * Connection))
    : list (string * Connection) :=
  match op with
  | OConnect current _ (Some o) =>
      let oid := currentObjectId current in
      if map_find oid (_connections p) is Some _ then recs
      else map_put oid (new_Connection (pc_channelName p) oid o false) recs
  | OConnect _ _ None => recs
  | ODisconnect current =>
      let oid := currentObjectId current in
      if map_find oid (_connections p) is Some _ then map_erase oid recs else recs
  | OAnswer addr v =>
      match any_boolean v, map_find addr (pc_heap p) with
      | Some true, Some c => map_put (c_oidstr c) (as_proxy true c) recs
      | _, _ => recs
      end
  end.
Fixpoint pc_records (ops : list pc_op) (s : ProxyPushConsumer_i * world) (recs : list (string * Connection))
    : list (string * Connection) :=
  match ops with
  | [] => recs
  | op :: ops' => pc_records ops' (pc_step s op) (pc_recorded op s.1 recs)
  end.

(** A late answer: that the supplier is a proxy is learnt after the object [oid] was disconnected
    from it. *)
Definition pc_late (oid : string) (op : pc_op) (p : ProxyPushConsumer_i) : Prop :=
  match op with
  | OAnswer addr v => any_boolean v = Some true ∧ map_find oid (_connections p) ≠ Some addr ∧
      ∃ c, map_find addr (pc_heap p) = Some c ∧ c_oidstr c = oid
  | _ => False
  end.
Fixpoint pc_late_run (oid : string) (ops : list pc_op) (s : ProxyPushConsumer_i * world) : Prop :=
  match ops with
  | [] => False
  | op :: ops' => pc_late oid op s.1 ∨ pc_late_run oid ops' (pc_step s op)
  end.

(** The records of an object are its connection. *)
Definition recs_agree (oid : string) (p : ProxyPushConsumer_i) (recs : list (string * Connection)) : Prop :=
  Some <$> map_find oid recs = map_find oid (view p).

Lemma view_find p oid :
  map_find oid (view p) = (λ a, map_find a (pc_heap p)) <$> map_find oid (_connections p).
Proof. apply map_vals_find. Qed.

Lemma recs_put ch recs oid c :
  c_good ch oid c → map_sorted recs = true ∧ Forall (λ i, c_good ch i.1 i.2) recs →
  map_sorted (map_put oid c recs) = true ∧ Forall (λ i, c_good ch i.1 i.2) (map_put oid c recs).
Proof.
  intros Hg [Hs Hall]. split; [by apply map_sorted_put|]. rewrite Forall_forall in Hall |- *.
  intros [k d] [[= -> ->]|Hin]%map_put_elem_inv; [done|by apply (Hall (k, d))].
Qed.

Lemma recs_erase ch recs oid :
  map_sorted recs = true ∧ Forall (λ i, c_good ch i.1 i.2) recs →
  map_sorted (map_erase oid recs) = true ∧ Forall (λ i, c_good ch i.1 i.2) (map_erase oid recs).
Proof.
  intros [Hs Hall]. split; [by apply map_sorted_erase|]. rewrite Forall_forall in Hall |- *.
  by intros i Hin%map_erase_elem_inv; apply Hall.
Qed.

(** A state after a step has the invariant, and ids that were not answered late still agree. *)
Definition step_ok (ch : string) (s s' : ProxyPushConsumer_i * world) (recs recs' : list (string * Connection))
    (late : string → Prop) : Prop :=
  (∃ l', pc_inv ch s'.1 s'.2 l' recs') ∧
  (∀ oid, ¬ late oid → recs_agree oid s.1 recs → recs_agree oid s'.1 recs').

Lemma connect_step ch current addr o p w l recs :
  pc_text ch = true → pc_inv ch p w l recs → pc_valid (OConnect current addr (Some o)) p →
  map_find (currentObjectId current) (_connections p) = None →
  step_ok ch (p, w) (pc_step (p, w) (OConnect current addr (Some o))) recs
    (map_put (currentObjectId current) (new_Connection ch (currentObjectId current) o false) recs) (λ _, False).
Proof.
  intros Hch I [Hoid Hfresh] Hf. set (oid := currentObjectId current) in *. unfold pc_step, pc_do.
  destruct (connect_fresh current addr o p w Hf (inv_running _ _ _ _ _ I)) as (w' & E & _ & _ & _ & Hs & Hl).
  rewrite E. fold oid in Hl. rewrite (inv_name _ _ _ _ _ I) in *. set (c := new_Connection ch oid o false) in *. fold oid c in E |- *.
  assert (Hg : c_good ch oid c) by done. split.
  - exists (l ++ [Put (pc_key ch oid) (c_attrs c)]). constructor; simpl; try done.
    + apply I.
    + by apply map_sorted_put, I.
    + intros a c'. destruct (decide (a = addr)) as [->|Hne]; [rewrite map_find_put_eq; by intros [= <-]|].
      rewrite map_find_put_ne by done. apply I.
    + intros oid' a. destruct (decide (oid' = oid)) as [->|Hne].
      * rewrite map_find_put_eq. intros [= <-]. exists c. by rewrite map_find_put_eq.
      * rewrite map_find_put_ne by done. intros Ha. destruct (inv_heap _ _ _ _ _ I _ _ Ha) as (c' & Hc' & Hg').
        exists c'. rewrite map_find_put_ne by congruence. done.
    + rewrite Hl. apply log_grows; [|apply I]. by eapply c_item_text.
    + rewrite children_put, (inv_children _ _ _ _ _ I) by done. by rewrite map_vals_put.
    + apply recs_put; [done|apply I].
  - intros k _. unfold recs_agree. rewrite !view_find. simpl. destruct (decide (k = oid)) as [->|Hne].
    + intros _. by rewrite !map_find_put_eq; simpl; rewrite map_find_put_eq.
    + rewrite !map_find_put_ne by done. intros ->. destruct (map_find k (_connections p)) as [a|] eqn:Ea; [|done].
      simpl. destruct (inv_heap _ _ _ _ _ I _ _ Ea) as (c' & Hc' & _). by rewrite map_find_put_ne by congruence.
Qed.

Lemma disconnect_step ch current addr p w l recs :
  pc_text ch = true → pc_inv ch p w l recs → map_find (currentObjectId current) (_connections p) = Some addr →
  step_ok ch (p, w) (pc_step (p, w) (ODisconnect current)) recs
    (map_erase (currentObjectId current) recs) (λ _, False).
Proof.
  intros Hch I Hf. set (oid := currentObjectId current) in *. unfold pc_step, pc_do.
  destruct (inv_heap _ _ _ _ _ I _ _ Hf) as (c & Hc & Ho). pose proof (inv_good _ _ _ _ _ I _ _ Hc) as Hg.
  rewrite Ho in Hg.
  destruct (disconnect_known current addr c p w Hf Hc) as (w' & E & _ & _ & _ & Hs & Hl).
  rewrite E. fold oid in Hl |- *. rewrite (inv_name _ _ _ _ _ I) in Hl. split.
  - exists (l ++ [Del (pc_key ch oid)]). constructor; simpl; try apply I.
    + by apply map_sorted_erase, I.
    + intros oid' a. destruct (decide (oid' = oid)) as [->|Hne].
      * by rewrite map_find_erase_eq by apply I.
      * rewrite map_find_erase_ne by done. apply I.
    + rewrite Hs. apply I.
    + rewrite Hl. apply log_grows; [|apply I]. by eapply c_item_text.
    + rewrite children_erase, (inv_children _ _ _ _ _ I) by (done || apply Hg). by rewrite map_vals_erase.
    + apply recs_erase, I.
  - intros k _. unfold recs_agree. rewrite !view_find. simpl. destruct (decide (k = oid)) as [->|Hne].
    + by rewrite !map_find_erase_eq by apply I.
    + by rewrite !map_find_erase_ne by done.
Qed.

(** The answer, on time or late, whichever way it goes. *)
Lemma answer_step ch addr v b c p w l recs :
  pc_text ch = true → pc_inv ch p w l recs → any_boolean v = Some b →
  map_find addr (pc_heap p) = Some c → c_targetIsProxy c = false →
  step_ok ch (p, w) (pc_step (p, w) (OAnswer addr v)) recs
    (if b then map_put (c_oidstr c) (as_proxy true c) recs else recs)
    (λ oid, b = true ∧ c_oidstr c = oid ∧ map_find oid (_connections p) ≠ Some addr).
Proof.
  intros Hch I Hb Hc Hp. unfold pc_step, pc_do.
  pose proof (inv_good _ _ _ _ _ I _ _ Hc) as Hg.
  destruct (callback_spec addr c v b p w Hc Hb) as (w' & E & Hr & Hs & Hl). rewrite E.
  fold (as_proxy b c) in Hl |- *. assert (Hg' : c_good ch (c_oidstr c) (as_proxy b c)) by (destruct Hg; done).
  assert (Hcn : c_channelName c = ch) by apply Hg. rewrite Hcn in Hl.
  assert (Hfind : ∀ a, map_find a (map_put addr (as_proxy b c) (pc_heap p)) =
    if decide (a = addr) then Some (as_proxy b c) else map_find a (pc_heap p)).
  { intros a. case_decide as Ha; [subst; apply map_find_put_eq|by apply map_find_put_ne]. }
  split.
  - exists (l ++ if b then [Put (pc_key ch (c_oidstr c)) (c_attrs (as_proxy b c))] else []).
    constructor; simpl; try apply I.
    + intros a c'. rewrite Hfind. case_decide; [by intros [= <-]|apply I].
    + intros oid a Ha. destruct (inv_heap _ _ _ _ _ I _ _ Ha) as (c' & Hc' & Ho). rewrite Hfind.
      case_decide as Hd; [|by exists c']. exists (as_proxy b c). split; [done|]. simpl. congruence.
    + rewrite Hs. apply I.
    + rewrite Hl. destruct b; [|rewrite app_nil_r; apply I]. apply log_grows; [|apply I]. by eapply c_item_text.
    + destruct b; [|rewrite app_nil_r; apply I].
      rewrite children_put, (inv_children _ _ _ _ _ I) by (done || apply Hg). by rewrite map_vals_put.
    + destruct b; [|apply I]. apply recs_put; [done|apply I].
  - intros k Hk. unfold recs_agree. rewrite !view_find. simpl. intros Ha.
    assert (Hsame : b = false → as_proxy b c = c) by (intros ->; destruct c; simpl in *; by subst).
    destruct (map_find k (_connections p)) as [a|] eqn:Ea; simpl in *.
    + rewrite Hfind. destruct (inv_heap _ _ _ _ _ I _ _ Ea) as (c' & Hc' & Ho). case_decide as Hd.
      * subst a. replace c' with c in * by congruence. subst k. destruct b; [by rewrite map_find_put_eq|].
        by rewrite Hsame, Ha, Hc.
      * destruct b; [|done]. rewrite map_find_put_ne; [done|]. intros ->. apply Hk. split_and!; [done..|].
        congruence.
    + destruct b; [|done]. rewrite map_find_put_ne; [done|]. intros ->. by apply Hk.
Qed.

Lemma same_step ch p w l recs late :
  pc_inv ch p w l recs → step_ok ch (p, w) (p, w) recs recs late.
Proof. intros I. split; [by exists l|done]. Qed.

Lemma inv_step ch op p w l recs :
  pc_text ch = true → pc_inv ch p w l recs → pc_valid op p →
  step_ok ch (p, w) (pc_step (p, w) op) recs (pc_recorded op p recs) (λ oid, pc_late oid op p).
Proof.
  intros Hch I Hv.
  assert (Hmono : ∀ s' recs' (late : string → Prop), step_ok ch (p, w) s' recs recs' late →
    (∀ oid, late oid → pc_late oid op p) → step_ok ch (p, w) s' recs recs' (λ oid, pc_late oid op p)).
  { intros s' recs' late [K1 K2] Himp. split; [done|]. intros oid Hn. apply K2. by intros ?%Himp. }
  destruct op as [current addr [o|]|current|addr v]; cbn [pc_recorded].
  - destruct (map_find (currentObjectId current) (_connections p)) as [a|] eqn:E.
    + unfold pc_step, pc_do, connect_push_supplier. pc_run. rewrite E. by eapply same_step.
    + rewrite (inv_name _ _ _ _ _ I). eapply Hmono; [by eapply connect_step|done].
  - by eapply same_step.
  - destruct (map_find (currentObjectId current) (_connections p)) as [a|] eqn:E.
    + eapply Hmono; [by eapply disconnect_step|done].
    + unfold pc_step, pc_do, disconnect_push_consumer. pc_run. rewrite E. by eapply same_step.
  - destruct Hv as (c & Hc & Hp). rewrite Hc. destruct (any_boolean v) as [b|] eqn:Hb.
    + replace (match b with true => _ | false => recs end)
        with (if b then map_put (c_oidstr c) (as_proxy true c) recs else recs) by done.
      eapply Hmono; [by eapply answer_step|]. intros oid (-> & Ho & Hne). split_and!; [done..|by exists c].
    + unfold pc_step, pc_do, c_callback, deref. pc_run. rewrite Hc, Hb. by eapply same_step.
Qed.

Lemma inv_run ch ops p w l recs :
  pc_text ch = true → pc_inv ch p w l recs → pc_valid_run ops (p, w) →
  let s' := foldl pc_step (p, w) ops in
  (∃ l', pc_inv ch s'.1 s'.2 l' (pc_records ops (p, w) recs)) ∧
  (∀ oid, ¬ pc_late_run oid ops (p, w) → recs_agree oid p recs → recs_agree oid s'.1 (pc_records ops (p, w) recs)).
Proof.
  intros Hch. revert p w l recs. induction ops as [|op ops IH]; intros p w l recs I Hv; [split; [by exists l|done]|].
  destruct Hv as [Hv Hvs]. simpl in *. destruct (inv_step ch op p w l recs Hch I Hv) as [(l' & I') A'].
  destruct (pc_step (p, w) op) as [p' w'].
  destruct (IH p' w' l' _ I' Hvs) as [I2 A2]. split; [done|]. intros oid Hn Ha. apply A2; [tauto|].
  apply A'; [tauto|done].
Qed.

(** ** Reincarnation *)

(** The exceptions [reincarnate] catches. *)
Definition pc_swallowed (e : exn) : bool :=
  match e with
  | BAD_PARAM | AlreadyConnected | TypeError | OBJECT_NOT_EXIST | TRANSIENT | COMM_FAILURE => true
  | _ => false
  end.

Definition remote_ok (remote_connect : Object → string → exn + unit) : Prop :=
  ∀ o s, match remote_connect o s with inl e => pc_swallowed e = true | inr _ => True end.

Lemma c_node_attrs c :
  attrString "IOR" "" (c_node c) = c_target_sior c ∧
  negb (attrLong "proxy" 0 (c_node c) =? 0) = c_targetIsProxy c.
Proof. destruct c as [ch oid o s []]; done. Qed.

Lemma reincarnate_one_ret remote addr ch oid c p w :
  remote_ok remote → pc_channelName p = ch → c_good ch oid c →
  map_find oid (_connections p) = None →
  ∃ w', pc_reincarnate_one remote addr (oid, c_node c) (p, w) =
    Ret tt (set_connections (map_put oid addr (_connections p)) (set_heap (map_put addr c (pc_heap p)) p), w') ∧
    poas w' = poas w.
Proof.
  intros Hr Hch (Ho & Hcn & Hs & _) Hf. destruct (c_node_attrs c) as [A1 A2].
  unfold pc_reincarnate_one. cbn [fst snd]. rewrite A1, A2, Hs. pc_run. rewrite Hf.
  unfold try_catch, string_to_M, string_to_. rewrite string_to_object_to_string. pc_run.
  unfold map_insert. rewrite Hf. simpl.
  assert (new_Connection (pc_channelName p) oid (c_target c) (c_targetIsProxy c) = c) as ->.
  { unfold new_Connection. rewrite <- Hs, <- Ho, Hch, <- Hcn. by destruct c. }
  destruct (c_targetIsProxy c); [|by eexists].
  specialize (Hr (c_target c) oid). destruct (remote (c_target c) oid) as [e|[]]; [|by eexists].
  destruct e; try done; by eexists.
Qed.

(** Connections with their ids, none of them in the map yet, in increasing order. *)
Lemma reincarnate_all remote ch cs addrs p w :
  remote_ok remote → pc_channelName p = ch →
  Forall (λ i, c_good ch i.1 i.2) cs → NoDup addrs → (length cs ≤ length addrs)%nat →
  map_sorted (_connections p) = true → map_sorted (view p ++ map_vals Some cs) = true →
  (∀ oid a, map_find oid (_connections p) = Some a → a ∉ addrs) →
  ∃ p' w', pc_reincarnate remote addrs (map_vals c_node cs) (p, w) = Ret tt (p', w') ∧
    view p' = view p ++ map_vals Some cs ∧
    pc_channelName p' = pc_channelName p ∧ map_sorted (_connections p') = true ∧ poas w' = poas w.
Proof.
  intros Hr. revert addrs p w. induction cs as [|[oid c] cs IH]; intros addrs p w Hch Hg Hn Hlen Hs Hv Ha.
  { exists p, w. split; [by destruct addrs|]. by rewrite app_nil_r. }
  destruct addrs as [|addr addrs]; [simpl in Hlen; lia|].
  inversion Hg as [|? ? Hgc Hg']; inversion Hn as [|? ? Hna Hn']; subst. simpl in Hgc, Hlen.
  change (map_vals Some ((oid, c) :: cs)) with ((oid, Some c) :: map_vals Some cs) in Hv.
  assert (Hlast : Forall (λ i, key_ltb i.1 oid = true) (view p)) by (by eapply map_sorted_before).
  assert (Hf : map_find oid (_connections p) = None).
  { assert (map_find oid (view p) = None) as Hx.
    { rewrite <- (app_nil_r (view p)). by rewrite map_find_app_r. }
    unfold view in Hx. rewrite map_vals_find in Hx. by destruct (map_find oid (_connections p)). }
  destruct (reincarnate_one_ret remote addr (pc_channelName p) oid c p w Hr eq_refl Hgc Hf) as (w1 & E & Hp1).
  cbn [map_vals map fst snd pc_reincarnate]. rewrite (bind_Ret _ _ _ _ _ E).
  set (p1 := set_connections _ _). assert (Hv1 : view p1 = view p ++ [(oid, Some c)]).
  { subst p1. unfold view. simpl. rewrite map_vals_put, map_find_put_eq.
    rewrite <- map_put_last by done. unfold view. f_equal. apply map_vals_ext. intros k a Hin.
    rewrite map_find_put_ne; [done|]. intros ->. apply map_elem_find in Hin; [|done].
    apply (Ha _ _ Hin). by left. }
  destruct (IH addrs p1 w1) as (p' & w' & E' & Hv' & Hc' & Hs' & Hp'); try done.
  - lia.
  - by apply map_sorted_put.
  - by rewrite Hv1, <- app_assoc.
  - intros oid' a. subst p1. simpl. destruct (decide (oid' = oid)) as [->|Hne].
    + rewrite map_find_put_eq. by intros [= <-].
    + rewrite map_find_put_ne by done. intros Hfa Hin. apply (Ha _ _ Hfa). by right.
  - exists p', w'. split; [exact E'|]. rewrite Hv', Hv1, <- app_assoc, Hc', Hs', Hp', Hp1. by split_and!.
Qed.

(** ** Properties *)

(** C35: connecting and disconnecting a supplier that pushes, on every branch.  A nil supplier is
    accepted without a record.  A second supplier on the same object gets [AlreadyConnected].
    Otherwise the connection is stored under the current object id with two references (the map's
    and that of the request which asks the supplier whether it is a proxy), and its record is
    appended to the log.  Disconnecting an unknown object is accepted; a known one is forgotten,
    its supplier told, its reference dropped and its record erased. *)
Theorem push_consumer_lifecycle current addr p w :
  orbShutdownRequested w = false →
  let oid := currentObjectId current in
  let key := pc_key (pc_channelName p) oid in
  connect_push_supplier current addr None (p, w) = Ret tt (p, w) ∧
  match map_find oid (_connections p) with
  | None =>
      disconnect_push_consumer current (p, w) = Ret tt (p, w) ∧
      ∀ o, ∃ w', connect_push_supplier current addr (Some o) (p, w) =
          Ret tt (set_connections (map_put oid addr (_connections p))
            (set_heap (map_put addr (mkConnection (pc_channelName p) oid o (object_to_string o) false)
                         (pc_heap p)) p), w') ∧
        ref_count addr w' = 2 ∧
        deferredRequests w' = deferredRequests w ++ [(is_a_request o, Some addr)] ∧
        logstream w' = add_line (Put key [("IOR", object_to_string o)]) w
  | Some a =>
      (∀ o, connect_push_supplier current addr (Some o) (p, w) = Throw AlreadyConnected (p, w)) ∧
      match map_find a (pc_heap p) with
      | Some c => ∃ w', disconnect_push_consumer current (p, w) =
            Ret tt (set_connections (map_erase oid (_connections p)) p, w') ∧
          ref_count a w' = ref_count a w - 1 ∧
          sent w' = sent w ++ [mkRequest (c_target c) "disconnect_push_supplier" None] ∧
          logstream w' = add_line (Del key) w
      | None => True
      end
  end.
Proof.
  intros Hs oid key. split; [done|]. destruct (map_find oid (_connections p)) as [a|] eqn:Hf.
  - split.
    + intros o. unfold connect_push_supplier. pc_run. fold oid. by rewrite Hf.
    + destruct (map_find a (pc_heap p)) as [c|] eqn:Hc; [|done].
      destruct (disconnect_known current a c p w Hf Hc) as (w' & E & H1 & _ & H3 & _ & H5).
      by exists w'.
  - split.
    + unfold disconnect_push_consumer. pc_run. fold oid. by rewrite Hf.
    + intros o. destruct (connect_fresh current addr o p w Hf Hs) as (w' & E & _ & H2 & H3 & _ & H5).
      by exists w'.
Qed.

(** C18: recovery.  After any run of connects, disconnects and answers of suppliers, the log read
    back and given to a new servant restores the connections there are records of, which are those
    of [pc_records]: written when a supplier connects and when it turns out to be a proxy, erased
    when it disconnects.  They are the connections there were, the same objects with the same
    suppliers and the same knowledge of which are proxies, except for an object that learns only
    after its disconnection that its supplier was a proxy: such a late answer writes the record
    again. *)
Theorem push_consumer_recovered ch ops w t0 l0 :
  pc_text ch = true → orbShutdownRequested w = false →
  logstream w = Some t0 → is_log t0 l0 → children_at (pc_path ch) (replay empty_node l0) = [] →
  let s0 := (new_ProxyPushConsumer ch, w) in
  pc_valid_run ops s0 →
  let s := foldl pc_step s0 ops in
  let recs := pc_records ops s0 [] in
  ∃ t root, logstream s.2 = Some t ∧ parse t = Some root ∧
    ∀ remote addrs w2, remote_ok remote → NoDup addrs → (length recs ≤ length addrs)%nat →
    ∃ p' w', pc_reincarnate remote addrs (children_at (pc_path ch) root) (new_ProxyPushConsumer ch, w2) =
      Ret tt (p', w') ∧
      view p' = map_vals Some recs ∧
      ∀ oid, ¬ pc_late_run oid ops s0 → map_find oid (view p') = map_find oid (view s.1).
Proof.
  intros Hch Hs Hl Hlog Hnil s0 Hv s recs.
  assert (I0 : pc_inv ch (new_ProxyPushConsumer ch) w l0 []) by (constructor; eauto; done).
  destruct (inv_run ch ops _ _ _ _ Hch I0 Hv) as [(l & I) A]. fold s0 s recs in I, A.
  destruct (inv_log _ _ _ _ _ I) as (t & Ht & Hit). destruct (inv_recs _ _ _ _ _ I) as [R1 R2].
  exists t, (replay empty_node l).
  split; [done|]. split; [by apply is_log_parse|]. intros remote addrs w2 Hr Hn Hlen.
  rewrite (inv_children _ _ _ _ _ I).
  destruct (reincarnate_all remote ch recs addrs (new_ProxyPushConsumer ch) w2) as (p' & w' & E & Hv' & _);
    try done; [change (map_sorted (map_vals Some recs) = true); by rewrite map_vals_sorted|].
  exists p', w'. split; [done|]. split; [done|]. intros oid Ho.
  rewrite Hv', <- (A oid Ho) by done. apply map_vals_find.
Qed.

(** A supplier that connects and disconnects before its [_is_a] request is answered, and the answer
    is that it is a proxy: the servant has no connection, but the log has a record of one. *)
Lemma connection_resurrected ch current addr o v w :
  any_boolean v = Some true → orbShutdownRequested w = false →
  let oid := currentObjectId current in
  let ops := [OConnect current addr (Some o); ODisconnect current; OAnswer addr v] in
  let s0 := (new_ProxyPushConsumer ch, w) in
  _connections (foldl pc_step s0 ops).1 = [] ∧ pc_late_run oid ops s0 ∧
  pc_records ops s0 [] = [(oid, mkConnection ch oid o (object_to_string o) true)].
Proof.
  intros Hb Hs oid ops s0. subst ops. cbn [foldl pc_late_run pc_records].
  assert (Hp1 : (pc_step s0 (OConnect current addr (Some o))).1 =
    set_connections [(oid, addr)] (set_heap [(addr, new_Connection ch oid o false)] (new_ProxyPushConsumer ch))).
  { subst s0. unfold pc_step, pc_do. destruct (connect_fresh current addr o (new_ProxyPushConsumer ch) w eq_refl Hs)
      as (w' & E & _). by rewrite E. }
  destruct (pc_step s0 (OConnect current addr (Some o))) as [p1 w1]. cbn [fst] in Hp1. subst p1.
  set (p1 := set_connections _ _) in *.
  assert (Hf1 : map_find (currentObjectId current) (_connections p1) = Some addr).
  { change (_connections p1) with (map_put oid addr []). by rewrite map_find_put_eq. }
  assert (Hh1 : map_find addr (pc_heap p1) = Some (new_Connection ch oid o false)).
  { change (pc_heap p1) with (map_put addr (new_Connection ch oid o false) []). by rewrite map_find_put_eq. }
  assert (Hp2 : (pc_step (p1, w1) (ODisconnect current)).1 = set_connections [] p1).
  { unfold pc_step, pc_do. destruct (disconnect_known current addr _ p1 w1 Hf1 Hh1) as (w' & E & _).
    rewrite E. fold oid. simpl. by rewrite key_eqb_refl. }
  destruct (pc_step (p1, w1) (ODisconnect current)) as [p2 w2]. cbn [fst] in Hp2. subst p2.
  destruct (callback_spec addr _ v true (set_connections [] p1) w2 Hh1 Hb) as (w3 & E & _).
  assert (Hst : ∀ s, pc_step s (OAnswer addr v) = final (c_callback addr v s)) by done. rewrite Hst, E.
  split; [done|]. split.
  - right; right; left. cbn [pc_late fst]. split; [done|]. split; [done|].
    eexists. split; [exact Hh1|done].
  - cbn [pc_recorded fst]. rewrite Hf1, Hb.
    change (pc_heap (set_connections [] p1)) with (pc_heap p1). rewrite Hh1. cbn. rewrite key_eqb_refl. done.
Qed.

(** A client without a reference, and a proxy that is not connected: nothing happens; and a second
    client is refused. *)
Lemma silent_calls current addr s :
  connect_push_supplier current addr None s = Ret tt s ∧
  (map_find (currentObjectId current) (_connections s.1) = None → disconnect_push_consumer current s = Ret tt s) ∧
  (∀ a o, map_find (currentObjectId current) (_connections s.1) = Some a →
     connect_push_supplier current addr (Some o) s = Throw AlreadyConnected s).
Proof.
  destruct s as [p w]. split; [done|]. unfold disconnect_push_consumer, connect_push_supplier. pc_run. split.
  - by intros ->.
  - by intros a o ->.
Qed.
End push_consumer.

(** ** Witnesses *)

(** Two suppliers, and an attempt of one to take the other's object.  Both are proxies, but that of
    the second is learnt late. *)
Definition pc_ops : list pc_op :=
  [OConnect (Some "1.2.3") 64 (Some (obj 9)); OConnect (Some "1.2.3") 80 (Some (obj 7));
   OConnect (Some "0.2.3") 80 (Some (obj 7)); OAnswer 64 (ev (ABool true));
   ODisconnect (Some "0.2.3"); OAnswer 80 (ev (ABool true))].

Lemma push_consumer_lifecycle_witness :
  orbShutdownRequested model_world = false ∧
  ∃ w', connect_push_supplier (Some "1.2.3") 64 (Some (obj 9)) (new_ProxyPushConsumer "chan", model_world) =
      Ret tt (mkPPCon [("1.2.3", 64)] [(64, mkConnection "chan" "1.2.3" (obj 9) "IOR:9" false)] "chan"
                "chan.ProxyPushConsumer" false, w') ∧
    ref_count 64 w' = 2.
Proof.
  split; [reflexivity|].
  destruct (push_consumer_lifecycle (Some "1.2.3") 64 (new_ProxyPushConsumer "chan") model_world eq_refl)
    as (_ & _ & H). destruct (H (obj 9)) as (w' & E & Hr & _). exists w'. split; [exact E|exact Hr].
Defined.

Lemma push_consumer_recovered_witness :
  let s0 := (new_ProxyPushConsumer "chan", model_world) in
  pc_valid_run pc_ops s0 ∧
  ∃ t root p' w', logstream (foldl pc_step s0 pc_ops).2 = Some t ∧
    parse t = Some root ∧
    pc_reincarnate (λ _ _, inl TRANSIENT) [16; 32] (children_at (pc_path "chan") root)
      (new_ProxyPushConsumer "chan", model_world) = Ret tt (p', w') ∧
    view (foldl pc_step s0 pc_ops).1 = [("1.2.3", Some (mkConnection "chan" "1.2.3" (obj 9) "IOR:9" true))] ∧
    view p' = [("0.2.3", Some (mkConnection "chan" "0.2.3" (obj 7) "IOR:7" true));
               ("1.2.3", Some (mkConnection "chan" "1.2.3" (obj 9) "IOR:9" true))].
Proof.
  assert (V : pc_valid_run pc_ops (new_ProxyPushConsumer "chan", model_world)).
  { split; [split; reflexivity|]. split; [split; reflexivity|]. split; [split; reflexivity|].
    split; [|split; [exact I|split; [|exact I]]].
    - exists (mkConnection "chan" "1.2.3" (obj 9) "IOR:9" false). split; reflexivity.
    - exists (mkConnection "chan" "0.2.3" (obj 7) "IOR:7" false). split; reflexivity. }
  split; [exact V|].
  destruct (push_consumer_recovered "chan" pc_ops model_world "" [] eq_refl eq_refl eq_refl
    is_log_nil eq_refl V) as (t & root & Ht & Hp & H).
  destruct (H (λ _ _, inl TRANSIENT) [16; 32] model_world) as (p' & w' & E & Hv & _).
  - intros o s. reflexivity.
  - apply (bool_decide_unpack _). vm_compute. exact Logic.I.
  - vm_compute. lia.
  - exists t, root, p', w'. split; [exact Ht|]. split; [exact Hp|]. split; [exact E|].
    split; [reflexivity|]. rewrite Hv. reflexivity.
Defined.
