(* ===== verification/ClientRecords.v ===== *)
(** * ClientRecords: the records of the clients of a channel

    The four kinds of proxies write the same record: the path of the channel, the kind and the
    object id, with the reference of the client as attribute, and [proxy=1] if the client is a
    proxy of another channel.  Here is what a list of such records reads back as. *)

From S2P Require Import Prelude Monad CxxMap Stream PersistNode PersistReplay PersistLog PersistLookup.
From S2P Require Import Corba Proxy ProxyPushConsumer.

Local Open Scope string_scope.
Local Open Scope list_scope.

(** The components of a name that is put together. *)
Lemma comps_app a b : comps (a +:+ String "/" b) = comps a ++ comps b.
Proof.
  induction a as [|c a IH]; [done|]. simpl. destruct (ceqb c "/") eqn:E; [by rewrite IH|].
  rewrite IH. destruct (comps_cons a) as (h & t & ->). done.
Qed.

Section records.
Context `{OL : OrbLaws}.

(** A client: its reference, and whether it is known to be a proxy of another channel. *)
Definition Client : Type := Object * bool.

(** The record of a client, and the node that is read from it. *)
Definition ref_attrs (d : Client) : list (string * string) :=
  ("IOR", object_to_string d.1) :: (if d.2 then [("proxy", "1")] else []).
Definition ref_node (d : Client) : PersistNode := mkNode [] (ref_attrs d).

Lemma object_to_string_inj o o' : object_to_string o = object_to_string o' → o = o'.
Proof.
  intros E. pose proof (string_to_object_to_string o) as K. rewrite E, string_to_object_to_string in K. congruence.
Qed.

Lemma ref_node_inj d d' : ref_node d = ref_node d' → d = d'.
Proof.
  destruct d as [o []], d' as [o' []]; intros [= E]; apply object_to_string_inj in E; by subst.
Qed.

Lemma ref_node_attrs d :
  attrString "IOR" "" (ref_node d) = object_to_string d.1 ∧
  negb (attrLong "proxy" 0 (ref_node d) =? 0)%Z = d.2.
Proof. by destruct d as [o []]. Qed.

(** The record of a connection, given the kind of proxy and the channel. *)
Definition conn_item (kind ch : string) (d : string * Client) : item :=
  Put (proxy_key ch kind d.1) (ref_attrs d.2).

Definition conn_path (kind ch : string) : list string := ["ecf"; ch] ++ comps kind.

Lemma conn_comps kind ch oid :
  pc_text ch = true → pc_text oid = true → comps (proxy_key ch kind oid) = conn_path kind ch ++ [oid].
Proof.
  unfold pc_text. intros; boolify. unfold proxy_key, conn_path.
  change ("ecf/" +:+ ch +:+ "/" +:+ kind +:+ "/" +:+ oid)
    with ("ecf" +:+ String "/" (ch +:+ String "/" (kind +:+ String "/" oid))).
  rewrite !comps_app, (comps_plain ch), (comps_plain oid) by done. done.
Qed.

Lemma conn_items_text kind ch conns :
  no_space kind = true → pc_text ch = true → Forall (λ d, pc_text d.1 = true) conns →
  forallb text_item (map (conn_item kind ch) conns) = true.
Proof.
  intros Hk Hch Hc. induction Hc as [|[oid o] conns Ho _ IH]; [done|]. cbn [map forallb]. rewrite IH, andb_true_r.
  unfold pc_text in *. cbn [fst] in *. boolify.
  destruct (text_put ch kind oid (object_to_string o.1)) as (K1 & K2 & _); try done.
  - apply object_to_string_text.
  - by destruct o as [o []].
Qed.

Lemma replay_conns kind ch conns root :
  pc_text ch = true → Forall (λ d, pc_text d.1 = true) conns →
  children_at (conn_path kind ch) (replay root (map (conn_item kind ch) conns)) =
    foldl (λ l d, map_put d.1 (ref_node d.2) l) (children_at (conn_path kind ch) root) conns.
Proof.
  intros Hch Hc. revert root. induction Hc as [|[oid o] conns Ho _ IH]; intros root; [done|].
  cbn [map foldl]. unfold replay. cbn [foldl]. fold (replay (apply_item root (conn_item kind ch (oid, o))) (map (conn_item kind ch) conns)).
  rewrite IH. cbn [conn_item apply_item fst snd]. rewrite conn_comps by done.
  assert (set_attrs (ref_attrs o) empty_node = ref_node o) as -> by (by destruct o as [o []]). by rewrite children_set.
Qed.

(** The nodes that are read: those of the connections, in the order of their ids. *)
Definition nodes_of (conns : list (string * Client)) : list (string * PersistNode) :=
  foldl (λ l d, map_put d.1 (ref_node d.2) l) [] conns.

Lemma nodes_find (conns : list (string * Client)) : ∀ l : list (string * PersistNode),
  NoDup conns.*1 → map_sorted l = true → (∀ d, d ∈ conns → map_find d.1 l = None) →
  let l' := foldl (λ l d, map_put d.1 (ref_node d.2) l) l conns in
  map_sorted l' = true ∧
  ∀ k n, map_find k l' = Some n ↔ map_find k l = Some n ∨ ∃ o, (k, o) ∈ conns ∧ n = ref_node o.
Proof.
  induction conns as [|[oid o] conns IH]; intros l Hn Hs Hf.
  { split; [done|]. intros k n. split; [by left|]. by intros [?|(? & ?%elem_of_nil & _)]. }
  cbn [foldl fst snd]. cbn [fmap list_fmap fst] in Hn. apply NoDup_cons in Hn as [Hx Hn].
  assert (Hl : map_find oid l = None) by (apply (Hf (oid, o)); by left).
  destruct (IH (map_put oid (ref_node o) l)) as [I1 I2]; [done|by apply map_sorted_put| |].
  { intros [k o'] Hin. cbn [fst]. rewrite map_find_put_ne; [apply (Hf (k, o')); by right|].
    intros ->. apply Hx, list_elem_of_fmap. by exists (oid, o'). }
  split; [done|]. intros k n. rewrite I2. destruct (decide (k = oid)) as [->|Hne].
  - rewrite map_find_put_eq, Hl. split.
    + intros [[= <-]|(o' & Hin & ->)]; right; [exists o|exists o']; (split; [|done]); [by left|by right].
    + intros [?|(o' & [[= ->]|Hin]%elem_of_cons & ->)]; [done|by left|].
      exfalso. apply Hx, list_elem_of_fmap. by exists (oid, o').
  - rewrite map_find_put_ne by done. split; (intros [?|(o' & Hin & ->)]; [by left|right; exists o'; split; [|done]]).
    + by right.
    + by apply elem_of_cons in Hin as [[= -> _]|?].
Qed.

Definition as_node (d : string * Client) : string * PersistNode := (d.1, ref_node d.2).

Lemma nodes_sorted conns :
  NoDup conns.*1 → ∃ srt, nodes_of conns = map as_node srt ∧ NoDup srt.*1 ∧ srt ≡ₚ conns.
Proof.
  intros Hn. destruct (nodes_find conns [] Hn eq_refl ltac:(done)) as [Hs Hf].
  fold (nodes_of conns) in Hs, Hf.
  assert (Hsrt : ∃ srt, nodes_of conns = map as_node srt ∧ ∀ d, d ∈ srt → d ∈ conns).
  { assert (Hall : ∀ k n, (k, n) ∈ nodes_of conns → ∃ o, (k, o) ∈ conns ∧ n = ref_node o).
    { intros k n Hin. apply map_elem_find in Hin; [|done]. apply Hf in Hin as [?|?]; done. }
    clear Hs Hf. induction (nodes_of conns) as [|[k n] l IH]; [exists []; by split; [|intros d ?%elem_of_nil]|].
    destruct IH as (srt & -> & Hin); [intros; apply Hall; by right|].
    destruct (Hall k n) as (o & Ho & ->); [by left|]. exists ((k, o) :: srt). split; [done|].
    intros d [->|Hd]%elem_of_cons; [done|by apply Hin]. }
  destruct Hsrt as (srt & E & Hin).
  assert (Hkeys : NoDup srt.*1).
  { assert (srt.*1 = (nodes_of conns).*1) as -> by (rewrite E; clear; by induction srt as [|d l IH]; [|cbn; f_equal]).
    by apply map_sorted_nodup. }
  exists srt. split; [done|]. split; [done|]. apply NoDup_Permutation.
  - by eapply NoDup_fmap_1.
  - by eapply NoDup_fmap_1.
  - intros [k o]. split; [apply Hin|]. intros Ho.
    assert (K : map_find k (nodes_of conns) = Some (ref_node o)) by (apply Hf; right; by exists o).
    apply map_find_elem in K. rewrite E in K. apply list_elem_of_fmap in K as ([k' o'] & Ek & Hd).
      unfold as_node in Ek. cbn [fst snd] in Ek. assert (Hr : ref_node o = ref_node o') by congruence.
      apply ref_node_inj in Hr as ->. by assert (k = k') as -> by congruence.
Qed.
End records.
