(* ===== verification/ManagerRestore.v ===== *)
(** * ManagerRestore: what a manager writes, a new manager restores

    [ProxyManager::output] writes a record for every proxy at a checkpoint, and
    [ProxyManager::reincarnate] makes proxies from the records at the next start.  The proofs are
    against an interface, [ProxyLaws]: a kind of proxy promises that a proxy with a record writes
    its object id with the reference of its client, and that a new proxy given such a record
    connects to that client.  The three kinds with managers keep the promise.  That a proxy with a
    client has a record of it is another matter: it holds for ProxyPullConsumer and
    ProxyPullSupplier, but not for a ProxyPushSupplier that was itself restored (see
    [ProxyPushSupplier.push_supplier_reference_lost]). *)

From S2P Require Import Prelude Monad CxxMap Stream PersistNode PersistReplay PersistLog PersistLookup.
From S2P Require Import Corba ModelOrb Filter EventQueue Servant Orb Proxy ProxyPullConsumer ProxyPullSupplier ProxyPushConsumer ProxyPushSupplier ClientRecords.

Local Open Scope string_scope.
Local Open Scope list_scope.

Section restore.
Context `{OL : OrbLaws} {T : Type} `{PC : !ProxyClass T}.

Class ProxyLaws := {
  rec_name : string;
  rec_name_text : no_space rec_name = true;
  client : T → option Client;
  recorded : T → Client → Prop;
  pristine : T → Prop;
  output_law pl t d oid w buf :
    recorded t d → servant_to_id (proxyPoa pl) (this pl) (poas w) = inr oid →
    proxy_output pl t w buf =
      Ret tt (buf +:+ item_line (Put (proxy_key (channelName pl) rec_name oid) (ref_attrs d)));
  reincarnate_law pl oid t0 t1 d w ps :
    pristine t0 → recorded t1 d → activate_object_with_id (proxyPoa pl) oid (this pl) (poas w) = inr ps →
    ∃ t w', proxy_reincarnate pl oid (ref_node d) (t0, w) = Ret tt (t, w') ∧
      client t = Some d ∧ poas w' = ps }.
Context `{PL : !ProxyLaws}.

(** ** Writing *)

(** The proxies of a manager: the object id and the recorded client of each. *)
Definition holds (m : ProxyManager T) (w : world) (conns : list (string * Client)) : Prop :=
  Forall2 (λ s d, recorded s.2 d.2 ∧ servant_to_id (_managedPoa m) s.1 (poas w) = inr d.1)
    (_servants m) conns.

Lemma output_conns ch m w conns buf :
  holds m w conns →
  output_manager ch m w buf = Ret tt (buf +:+ foldr String.append "" (map item_line (map (conn_item rec_name ch) conns))).
Proof.
  unfold holds, output_manager. intros Hm.
  assert (Hgo : ∀ servants conns buf,
    Forall2 (λ s d, recorded s.2 d.2 ∧ servant_to_id (_managedPoa m) s.1 (poas w) = inr d.1) servants conns →
    for_each servants (λ p, proxy_output (mplace ch p.1 m) p.2 w) buf =
      Ret tt (buf +:+ foldr String.append "" (map item_line (map (conn_item rec_name ch) conns)))).
  { clear. intros servants conns buf Hall. revert buf.
    induction Hall as [|s d servants conns [Hc Hid] _ IH]; intros buf; cbn [for_each map foldr].
    - by rewrite str_app_nil_r.
    - rewrite (bind_Ret _ _ _ _ _ (output_law (mplace ch s.1 m) s.2 d.2 d.1 w buf Hc Hid)).
      rewrite IH, str_app_assoc. done. }
  by apply Hgo.
Qed.

(** ** Restoring *)

(** The POA takes each id for the servant at the address. *)
Fixpoint activate_all (p : string) (l : list (string * Z)) (st : poa_state) : option poa_state :=
  match l with
  | [] => Some st
  | (oid, a) :: l' =>
      match activate_object_with_id p oid a st with inl _ => None | inr st' => activate_all p l' st' end
  end.

Lemma activate_all_other p l : ∀ st st' a,
  activate_all p l st = Some st' → a ∉ l.*2 → servant_to_id p a st' = servant_to_id p a st.
Proof.
  induction l as [|[oid b] l IH]; intros st st' a E Ha; cbn [activate_all] in E; [by injection E as ->|].
  destruct (activate_object_with_id p oid b st) as [e|st1] eqn:E1; [done|].
  cbn [fmap list_fmap snd] in Ha. apply not_elem_of_cons in Ha as [Hne Ha].
  rewrite (IH _ _ _ E Ha). eapply activate_other; [done|congruence].
Qed.

Lemma activate_all_ids p l : ∀ st st',
  activate_all p l st = Some st' → NoDup l.*2 →
  ∀ oid a, (oid, a) ∈ l → servant_to_id p a st' = inr oid.
Proof.
  induction l as [|[oid b] l IH]; intros st st' E Hn oid' a Hin; cbn [activate_all] in E; [by apply elem_of_nil in Hin|].
  destruct (activate_object_with_id p oid b st) as [e|st1] eqn:E1; [done|].
  cbn [fmap list_fmap snd] in Hn. apply NoDup_cons in Hn as [Hx Hn].
  apply elem_of_cons in Hin as [[= -> ->]|Hin]; [|by eapply IH].
  rewrite (activate_all_other _ _ _ _ _ E Hx). by eapply activate_servant_to_id.
Qed.

(** How a manager makes the servant for an id, as long as it has less than [n]. *)
Definition incarnates (n : nat) (incarnate : Z → Meth (ProxyManager T) Z) : Prop :=
  ∀ a m w, map_find a (_servants m) = None → (length (_servants m) < n)%nat →
  ∃ t0 w', incarnate a (m, w) = Ret a (set_servants (map_put a t0 (_servants m)) m, w') ∧
    pristine t0 ∧ poas w' = poas w.

(** A connection that a proxy can have a record of. *)
Definition recordable (d : string * Client) : Prop := ∃ t, recorded t d.2.

Lemma map_put_fresh (a : Z) (t : T) m : map_find a m = None → map_put a t m ≡ₚ (a, t) :: m.
Proof.
  induction m as [|[b u] m IH]; intros Hf; [done|]. cbn [map_find map_put] in *.
  destruct (key_eqb a b) eqn:E; [done|]. unfold key_eqb in E.
  destruct (key_ltb a b); [done|]. destruct (key_ltb b a); [|done]. rewrite (IH Hf). constructor.
Qed.

Lemma reincarnate_conns n ch incarnate srt : ∀ addrs m w st,
  incarnates n incarnate → Forall recordable srt → NoDup addrs → length addrs = length srt →
  (∀ a, a ∈ addrs → map_find a (_servants m) = None) → (length (_servants m) + length srt ≤ n)%nat →
  activate_all (_managedPoa m) (zip srt.*1 addrs) (poas w) = Some st →
  ∃ m' w' l, reincarnate ch incarnate addrs (map as_node srt) (m, w) = Ret tt (m', w') ∧ poas w' = st ∧
    _managedPoa m' = _managedPoa m ∧ _servants m' ≡ₚ l ++ _servants m ∧ l.*1 = addrs ∧
    Forall2 (λ s d, client s.2 = Some d.2) l srt.
Proof.
  intros addrs m w st Hinc Hrec. revert addrs m w.
  induction Hrec as [|[oid o] srt [t1 Hrec] _ IH]; intros addrs m w Hn Hlen Hfresh Hroom Hact.
  - destruct addrs; [|done]. exists m, w, []. injection Hact as <-. by split_and!.
  - destruct addrs as [|a addrs]; [done|]. cbn [map as_node fst snd reincarnate].
    apply NoDup_cons in Hn as [Hx Hn]. cbn [fmap list_fmap zip zip_with fst activate_all] in Hact.
    destruct (activate_object_with_id (_managedPoa m) oid a (poas w)) as [e|ps] eqn:Ea; [done|].
    cbn [length] in Hlen, Hroom.
    assert (Hfa : map_find a (_servants m) = None) by (apply Hfresh; by left).
    destruct (Hinc a m w Hfa) as (t0 & w1 & E1 & Hf & Hp); [lia|].
    rewrite (bind_Ret _ _ _ _ _ E1).
    set (m1 := set_servants _ m).
    destruct (reincarnate_law (mplace ch a m1) oid t0 t1 o w1 ps Hf Hrec ltac:(by rewrite Hp)) as (t & w2 & E2 & Hc & Hp2).
    assert (E3 : on_servant a (proxy_reincarnate (mplace ch a m1) oid (ref_node o)) (m1, w1) =
      Ret tt (set_servants (map_put a t (_servants m1)) m1, w2)).
    { unfold on_servant. cbn [fst snd]. unfold m1 at 1. cbn [_servants set_servants]. rewrite map_find_put_eq.
      by rewrite E2. }
    rewrite (bind_Ret self _ _ m1 (m1, w1)) by done.
    rewrite (bind_Ret _ _ _ _ _ (try_catch_Ret _ _ _ _ _ E3)).
    set (m2 := set_servants _ m1).
    assert (Hm2 : _servants m2 = map_put a t (_servants m)) by (unfold m2, m1; cbn; apply map_put_put).
    destruct (IH addrs m2 w2) as (m' & w' & l & E & Hst & Hpoa & Hperm & Hl & Hall); try done.
    + lia.
    + intros b Hb. rewrite Hm2, map_find_put_ne by (intros ->; done). apply Hfresh. by right.
    + rewrite Hm2, map_put_length by done. lia.
    + by rewrite Hp2.
    + exists m', w', ((a, t) :: l). split_and!; try done.
      * rewrite Hperm, Hm2, map_put_fresh by done. cbn [app]. by rewrite Permutation_middle.
      * cbn. by rewrite Hl.
      * by constructor.
Qed.

(** What a manager serves: the ids and clients of its proxies, all of them, in some order. *)
Definition serves (m : ProxyManager T) (w : world) (conns : list (string * Client)) : Prop :=
  ∃ srt, srt ≡ₚ conns ∧
    Forall2 (λ s d, client s.2 = Some d.2 ∧ servant_to_id (_managedPoa m) s.1 (poas w) = inr d.1)
      (_servants m) srt.

Lemma reincarnate_serves n ch incarnate addrs conns poa w st :
  incarnates n incarnate → NoDup conns.*1 → Forall recordable conns → (length conns ≤ n)%nat →
  NoDup addrs → length addrs = length conns →
  activate_all poa (zip (nodes_of conns).*1 addrs) (poas w) = Some st →
  ∃ m' w', reincarnate ch incarnate addrs (nodes_of conns) (mkProxyManager poa [], w) = Ret tt (m', w') ∧
    _managedPoa m' = poa ∧ poas w' = st ∧ serves m' w' conns.
Proof.
  intros Hinc Hn Hrec Hroom Hna Hlen Hact.
  destruct (nodes_sorted conns Hn) as (srt & Esrt & Hns & Hperm). rewrite Esrt in *.
  assert (Hkeys : (map as_node srt).*1 = srt.*1) by (clear; by induction srt as [|d l IH]; [|cbn; f_equal]).
  rewrite Hkeys in Hact. pose proof (Permutation_length Hperm) as Hplen.
  destruct (reincarnate_conns n ch incarnate srt addrs (mkProxyManager poa []) w st) as
    (m' & w' & l & E & Hst & Hpoa & Hl & Hla & Hall); try done; [by rewrite Hperm|lia|cbn; lia|].
  exists m', w'. split_and!; try done. cbn [_servants] in Hl. rewrite app_nil_r in Hl.
  pose proof (activate_all_ids _ _ _ _ Hact) as Hids. rewrite snd_zip in Hids by (rewrite length_fmap; lia).
  specialize (Hids Hna). cbn [_managedPoa] in *.
  assert (Hall2 : Forall2 (λ s d, client s.2 = Some d.2 ∧ servant_to_id poa s.1 st = inr d.1) l srt).
  { apply Forall2_same_length_lookup_2; [by eapply Forall2_length|]. intros i s d Hs Hd.
    split; [by eapply (Forall2_lookup_lr _ _ _ _ _ _ Hall Hs Hd)|].
    apply Hids, (list_elem_of_lookup_2 _ i), lookup_zip_with_Some. exists d.1, s.1. split_and!; [by destruct s| |].
    - by rewrite list_lookup_fmap, Hd.
    - by rewrite <- Hla, list_lookup_fmap, Hs. }
  destruct (Permutation_Forall2 (symmetry Hl) Hall2) as (srt' & Hp' & Hall').
  exists srt'. rewrite Hst, Hpoa. split; [by rewrite <- Hp'|done].
Qed.

Lemma holds_recordable m w conns : holds m w conns → Forall recordable conns.
Proof.
  unfold holds. intros Hh. induction Hh as [|s d l l' [Hr _] _ IH]; constructor; [|done]. by exists s.2.
Qed.

(** C19: a manager restored.  Let a manager have proxies with the records [conns], each active
    under an id of its own.  What it writes at a checkpoint, after any records that do not speak
    of it, parses; and a new manager given the nodes that are read makes exactly one proxy for
    each: active under the same id, with the same client.  Its POA must take the ids, and there
    must be room for the proxies. *)
Theorem manager_restored ch m w conns t0 l0 :
  pc_text ch = true → holds m w conns → NoDup conns.*1 → Forall (λ d, pc_text d.1 = true) conns →
  is_log t0 l0 → children_at (conn_path rec_name ch) (replay empty_node l0) = [] →
  ∃ t root, output_manager ch m w t0 = Ret tt t ∧ parse t = Some root ∧
  ∀ n incarnate addrs poa w2 st,
    let nodes := children_at (conn_path rec_name ch) root in
    incarnates n incarnate → (length conns ≤ n)%nat → NoDup addrs → length addrs = length conns →
    activate_all poa (zip nodes.*1 addrs) (poas w2) = Some st →
    ∃ m' w', reincarnate ch incarnate addrs nodes (mkProxyManager poa [], w2) = Ret tt (m', w') ∧
      _managedPoa m' = poa ∧ serves m' w' conns.
Proof.
  intros Hch Hm Hn Hconns Hl0 Hnil.
  pose proof (conn_items_text rec_name ch conns rec_name_text Hch Hconns) as Htext.
  pose proof (is_log_app _ _ _ _ Hl0 (is_log_lines _ Htext)) as Hlog.
  eexists _, _. split; [by apply output_conns|]. split; [by apply is_log_parse|].
  intros n incarnate addrs poa w2 st nodes Hinc Hroom Hna Hlen Hact.
  assert (Hnodes : nodes = nodes_of conns).
  { unfold nodes, replay. rewrite foldl_app. fold (replay empty_node l0).
    fold (replay (replay empty_node l0) (map (conn_item rec_name ch) conns)).
    by rewrite replay_conns, Hnil. }
  rewrite Hnodes in *.
  destruct (reincarnate_serves n ch incarnate addrs conns poa w2 st) as (m' & w' & E & Hp & _ & Hs); try done.
  - by eapply holds_recordable.
  - by exists m', w'.
Qed.
End restore.

(** ** The kinds of proxies that keep the promise *)

Section instances.
Context `{OL : OrbLaws}.

(** Writing to the log, when the record can be written, does not touch the POAs. *)
Lemma log_write_poas (m : ostream_op) w :
  (∀ t, ∃ t', m w t = Ret tt t') → ∃ w', log_write m w = Ret tt w' ∧ poas w' = poas w.
Proof.
  intros Hm. destruct (logstream w) as [t|] eqn:El.
  - destruct (Hm t) as [t' E]. rewrite (log_write_ret m w t t') by done. by eexists.
  - rewrite log_write_none by done. by exists w.
Qed.

Lemma basicOutput_writes pl name oid target w :
  servant_to_id (proxyPoa pl) (this pl) (poas w) = inr oid →
  ∀ t, ∃ t', basicOutput pl name target None w t = Ret tt t'.
Proof. intros Hid t. eexists. by apply basicOutput_line. Qed.

Lemma activate_holds poa this oid w ps :
  activate_object_with_id poa oid this (poas w) = inr ps →
  activateObjectWithId poa this oid w = Ret tt (set_poas ps w) ∧
  servant_to_id poa this (poas (set_poas ps w)) = inr oid.
Proof.
  intros E. pose proof (activate_cases poa this oid w) as K. rewrite E in K. split; [done|].
  cbn. by eapply activate_servant_to_id.
Qed.

#[export] Instance ppc_ProxyLaws : ProxyLaws (T := ProxyPullConsumer_i).
Proof.
  refine {| rec_name := ppc_name; client t := (λ o, (o, false)) <$> _target t;
            recorded t d := _target t = Some d.1 ∧ d.2 = false; pristine t := t = new_ProxyPullConsumer |}.
  - done.
  - intros pl t [o b] oid w buf [Ht Hb] Hid. cbn in Ht, Hb. subst b.
    cbn [proxy_output ppc_ProxyClass]. unfold ppc_output. rewrite Ht.
    exact (basicOutput_line pl ppc_name oid (Some o) w buf Hid).
  - intros pl oid t0 t1 [o b] w ps -> [_ Hb] E. cbn in Hb. subst b. destruct (activate_holds _ _ _ _ _ E) as [E1 Hid].
    destruct (log_write_poas (ppc_output pl (set_target (Some o) new_ProxyPullConsumer)) (set_poas ps w))
      as (w' & E2 & Hp); [by apply (basicOutput_writes _ _ oid)|].
    exists (set_target (Some o) new_ProxyPullConsumer), w'. split; [|done].
    cbn [proxy_reincarnate ppc_ProxyClass]. unfold ppc_reincarnate, string_to_M.
    rewrite (proj1 (ref_node_attrs _)). unfold string_to_. rewrite string_to_object_to_string.
    unfold onW, zoom, mbind, M_bind. cbn. rewrite E1. unfold connect_pull_supplier, self, gets, upd, modify, onW, zoom, mbind, M_bind.
    cbn -[ppc_output log_write]. by rewrite E2.
Defined.

#[export] Instance pls_ProxyLaws : ProxyLaws (T := ProxyPullSupplier_i).
Proof.
  refine {| rec_name := pls_name; client t := (λ o, (o, false)) <$> pls_target t;
            recorded t d := pls_target t = Some d.1 ∧ d.2 = false;
            pristine t := pls_target t = None ∧ pls_connected t = false |}.
  - done.
  - intros pl t [o b] oid w buf [Ht Hb] Hid. cbn in Ht, Hb. subst b.
    cbn [proxy_output pls_ProxyClass]. unfold pls_output. rewrite Ht.
    exact (basicOutput_line pl pls_name oid (Some o) w buf Hid).
  - intros pl oid [tg conn ts rd] t1 [o b] w ps [Htg Hconn] [_ Hb] E. cbn in Htg, Hconn, Hb. subst.
    destruct (activate_holds _ _ _ _ _ E) as [E1 Hid].
    destruct (log_write_poas (pls_output pl (mkPLS (Some o) true (clock w).1 rd)) (set_poas ps w))
      as (w' & E2 & Hp); [by apply (basicOutput_writes _ _ oid)|].
    exists (mkPLS (Some o) true (clock w).1 rd), w'. split; [|done].
    cbn [proxy_reincarnate pls_ProxyClass]. unfold pls_reincarnate, string_to_M.
    rewrite (proj1 (ref_node_attrs _)). unfold string_to_. rewrite string_to_object_to_string.
    unfold onW, zoom, mbind, M_bind. cbn. rewrite E1.
    unfold connect_pull_consumer, touch, theW, self, gets, upd, modify, onW, zoom, mbind, M_bind.
    cbn -[pls_output log_write]. unfold pls_set_target, pls_set_connected, pls_set_timestamp.
    cbn -[pls_output log_write]. by rewrite E2.
Defined.

(** The exceptions of a remote ProxyPushConsumer that a ProxyPushSupplier ignores. *)
Definition pps_ignored (e : exn) : bool :=
  match e with
  | AlreadyConnected | TypeError | OBJECT_NOT_EXIST | TRANSIENT | COMM_FAILURE => true
  | _ => false
  end.
Definition answers (remote_connect : Object → exn + unit) : Prop :=
  ∀ o, match remote_connect o with inl e => pps_ignored e = true | inr _ => True end.

(** A ProxyPushSupplier has a record of its client until it is restored itself.  Whether the client
    is a proxy is part of the record. *)
Definition pps_ProxyLaws remote_connect (Hrem : answers remote_connect) :
  ProxyLaws (PC := pps_ProxyClass remote_connect).
Proof.
  refine {| rec_name := pps_name; client t := (λ o, (o, pps_targetIsProxy t)) <$> pps_target t;
            recorded t d := pps_target t = Some d.1 ∧ pps_target_sior t = object_to_string d.1 ∧
                            pps_targetIsProxy t = d.2;
            pristine t := pps_target t = None |}.
  - done.
  - intros pl t [o b] oid w buf (Ht & Hs & Hb) Hid. cbn in Ht, Hs, Hb.
    cbn [proxy_output pps_ProxyClass]. rewrite (pps_output_line pl oid t w buf Hid).
    unfold pps_attrs, ref_attrs. by rewrite Hs, Hb.
  - intros pl oid [rq tg sior isp rd] t1 d w ps Htg _ E. cbn in Htg. subst tg.
    destruct (activate_holds _ _ _ _ _ E) as [E1 Hid].
    exists (mkPPS rq (Some d.1) sior d.2 rd). eexists.
    cbn [proxy_reincarnate pps_ProxyClass]. unfold pps_reincarnate, try_catch, string_to_M.
    destruct (ref_node_attrs d) as [A1 A2]. rewrite A1, A2. unfold string_to_. rewrite string_to_object_to_string.
    unfold onW, zoom, mbind, M_bind. cbn [mret M_ret fst snd]. rewrite E1.
    unfold remove_ref, upd, modify, mret, M_ret. cbn -[map_put].
    specialize (Hrem d.1). destruct d as [o []]; cbn -[map_put] in *; [|done].
    destruct (remote_connect o) as [e|[]]; [|done]. by destruct e.
Defined.

(** What their managers do for an id. *)
Lemma ppc_incarnates n : incarnates n ppc_incarnate.
Proof. intros a m w _ _. by exists new_ProxyPullConsumer, w. Qed.

Lemma pls_incarnates channel maxNumProxies q :
  incarnates (Z.to_nat maxNumProxies) (pls_incarnate channel maxNumProxies q).
Proof.
  intros a m w _ Hlt. exists (new_ProxyPullSupplier q w), w. split; [|by split].
  unfold pls_incarnate, self, theW, gets, upd, modify, mbind, M_bind. cbn [fst snd].
  rewrite (proj2 (Z.leb_gt _ _)) by lia. done.
Qed.

Lemma pps_incarnates remote_connect (Hrem : answers remote_connect) n q :
  incarnates (PL := pps_ProxyLaws remote_connect Hrem) n (pps_incarnate q).
Proof. intros a m w _ _. exists (new_ProxyPushSupplier q). by eexists. Qed.
End instances.

(** ** Witness: two proxies, and a start on which their ids come in the other order. *)

Definition two_proxies : ProxyManager ProxyPullConsumer_i :=
  mkProxyManager "chan.ProxyPullConsumer"
    [(64%Z, mkPPC None (Some (obj 9)) Pull 0); (80%Z, mkPPC None (Some (obj 10)) TryPull 2)].
Definition two_world : world :=
  set_poas (mkModelPoas [] [("chan.ProxyPullConsumer", 64%Z, "7.2.3"); ("chan.ProxyPullConsumer", 80%Z, "1.2.3")]) model_world.
Definition two_conns : list (string * Client) := [("7.2.3", (obj 9, false)); ("1.2.3", (obj 10, false))].

Definition two_text : string :=
  "ecf/chan/SupplierAdmin/ProxyPullConsumer/7.2.3 IOR=IOR:9 ;;" +:+ nl +:+
  "ecf/chan/SupplierAdmin/ProxyPullConsumer/1.2.3 IOR=IOR:a ;;" +:+ nl.

Lemma manager_restored_witness :
  holds two_proxies two_world two_conns ∧
  output_manager "chan" two_proxies two_world "" = Ret tt two_text ∧
  ∃ root, parse two_text = Some root ∧
    ∃ m' w', reincarnate "chan" ppc_incarnate [16%Z; 32%Z] (children_at (conn_path ppc_name "chan") root)
               (mkProxyManager "chan.ProxyPullConsumer" [], model_world) = Ret tt (m', w') ∧
      ∃ p a, (a, p) ∈ _servants m' ∧ _target p = Some (obj 10) ∧
        servant_to_id "chan.ProxyPullConsumer" a (poas w') = inr "1.2.3".
Proof.
  assert (Hh : holds two_proxies two_world two_conns) by (repeat constructor).
  split; [exact Hh|].
  assert (Hn : NoDup two_conns.*1) by (apply (bool_decide_unpack _); vm_compute; exact I).
  destruct (manager_restored "chan" two_proxies two_world two_conns "" [] eq_refl Hh Hn
              ltac:(repeat constructor) is_log_nil eq_refl)
    as (t & root & Ht & Hp & K).
  assert (Et : output_manager "chan" two_proxies two_world "" = Ret tt two_text) by (vm_compute; reflexivity).
  split; [exact Et|]. rewrite Et in Ht. injection Ht as <-. exists root. split; [exact Hp|].
  assert (Er : parse two_text = Some (mkNode [("ecf", mkNode [("chan", mkNode [("SupplierAdmin", mkNode
    [("ProxyPullConsumer", mkNode [("1.2.3", ref_node (obj 10, false)); ("7.2.3", ref_node (obj 9, false))] [])] [])] [])] [])] []))
    by (vm_compute; reflexivity).
  rewrite Er in Hp. injection Hp as <-.
  destruct (K 2 ppc_incarnate [16%Z; 32%Z] "chan.ProxyPullConsumer" model_world
              (mkModelPoas [] [("chan.ProxyPullConsumer", 32%Z, "7.2.3"); ("chan.ProxyPullConsumer", 16%Z, "1.2.3")])
              (ppc_incarnates 2) ltac:(reflexivity) ltac:(apply (bool_decide_unpack _); vm_compute; exact I)
              ltac:(reflexivity) ltac:(vm_compute; reflexivity)) as (m' & w' & E & Hpoa & Hiff).
  exists m', w'. split; [exact E|].
  destruct Hiff as (srt & Hperm & Hall).
  assert (Hin : ("1.2.3", (obj 10, false)) ∈ srt) by (rewrite Hperm; right; left).
  apply list_elem_of_lookup in Hin as [i Hi].
  destruct (Forall2_lookup_r _ _ _ _ _ Hall Hi) as ([a p] & Hs & Hc & Hid). rewrite Hpoa in Hid.
  exists p, a. split; [by eapply list_elem_of_lookup_2|]. split; [|exact Hid].
  cbn in Hc. destruct (_target p) as [o|]; [|discriminate Hc]. injection Hc as ->. reflexivity.
Defined.
