(* ===== verification/SupplierAdmin.v ===== *)
(** * SupplierAdmin: the supplier side of a channel (src/SupplierAdmin.h, src/SupplierAdmin.cc)

    Owns the servant of the pushing suppliers and, once needed, the manager of the pulled ones,
    and the list of events that have arrived.  Each cycle of the channel [collect] empties it.
    When the retry period is longer than the cycle, suppliers are pulled only when a whole
    number of periods has passed. *)

From S2P Require Import Prelude Monad CxxMap Stream PersistNode PersistReplay PersistLog ChannelProps.
From S2P Require Import Corba ModelOrb Servant Orb Proxy ProxyPullConsumer ProxyPushConsumer.

Local Open Scope string_scope.
Local Open Scope Z_scope.
Local Open Scope list_scope.

(** ** The time of the next pull *)

(** [pair<unsigned long,unsigned long>::operator>=]: seconds first. *)
Definition time_ge (a b : Z * Z) : bool := (b.1 <? a.1) || (a.1 =? b.1) && (b.2 <=? a.2).

(** The body of the [do] loop: [p] milliseconds later. *)
Definition advance (p : Z) (next : Z * Z) : Z * Z :=
  let nsec := u64 (next.2 + u32 (p mod 1000 * MILLION)) in
  (u64 (next.1 + u64 (p / 1000 + nsec / BILLION)), nsec mod BILLION).

(** [do{ ... } while(now>=_nextPull)]; [None]: more than [fuel] rounds. *)
Fixpoint advance_loop (fuel : nat) (p : Z) (now next : Z * Z) : option (Z * Z) :=
  match fuel with
  | O => None
  | S f =>
      let next' := advance p next in
      if time_ge now next' then advance_loop f p now next' else Some next'
  end.

Definition nanoseconds (t : Z * Z) : Z := t.1 * BILLION + t.2.

(** One round per period, and one more. *)
Definition advance_fuel (p : Z) (now next : Z * Z) : nat :=
  Z.to_nat ((nanoseconds now - nanoseconds next) / (p * MILLION) + 1).

Section supplier_admin.
Context `{OO : OrbOps}.

(** [_channel] is represented by the properties it reads; [_poa] by its name, which is that of
    the channel. *)
Record SupplierAdmin_i := mkSA {
  sa_poa : string;
  sa_properties : PersistNode;
  sa_pushConsumer : ProxyPushConsumer_i;
  sa_pullConsumer : option (ProxyManager ProxyPullConsumer_i);
  sa_queue : list Any;
  sa_nextPull : Z * Z }.

Definition sa_set_push (c : ProxyPushConsumer_i) (s : SupplierAdmin_i) : SupplierAdmin_i :=
  mkSA (sa_poa s) (sa_properties s) c (sa_pullConsumer s) (sa_queue s) (sa_nextPull s).
Definition sa_set_pull (m : option (ProxyManager ProxyPullConsumer_i)) (s : SupplierAdmin_i) : SupplierAdmin_i :=
  mkSA (sa_poa s) (sa_properties s) (sa_pushConsumer s) m (sa_queue s) (sa_nextPull s).
Definition sa_set_queue (q : list Any) (s : SupplierAdmin_i) : SupplierAdmin_i :=
  mkSA (sa_poa s) (sa_properties s) (sa_pushConsumer s) (sa_pullConsumer s) q (sa_nextPull s).
Definition sa_set_nextPull (t : Z * Z) (s : SupplierAdmin_i) : SupplierAdmin_i :=
  mkSA (sa_poa s) (sa_properties s) (sa_pushConsumer s) (sa_pullConsumer s) (sa_queue s) t.

(** The initial [_nextPull]: zero means every cycle. *)
Definition initial_nextPull (props : PersistNode) (now : Z * Z) : Z * Z :=
  if cyclePeriod_ns props / MILLION <? pullRetryPeriod_ms props then now else (0, 0).

(** The constructor: [this_sa] is its address, [consumerAdmin] that of the ConsumerAdmin. *)
Definition new_SupplierAdmin (poa : string) (props : PersistNode) (consumerAdmin this_sa : Z)
    : M exn world SupplierAdmin_i :=
  next ← gets (λ w, initial_nextPull props (clock w));
  pc ← construct_ProxyPushConsumer poa consumerAdmin;
  _ ← activateObjectWithId poa this_sa "SupplierAdmin";
  mret (mkSA poa props pc None [] next).

(** Run a method of the servant of the pushing suppliers. *)
Definition on_push {A} (m : Meth ProxyPushConsumer_i A) : Meth SupplierAdmin_i A :=
  zoom (λ s, (sa_pushConsumer s.1, s.2)) (λ r s, (sa_set_push r.1 s.1, r.2)) m.

(** Run a method of the manager of the pulled suppliers, if there is one. *)
Definition on_pull (m : Meth (ProxyManager ProxyPullConsumer_i) unit) : Meth SupplierAdmin_i unit := λ s,
  match sa_pullConsumer s.1 with
  | None => Ret tt s
  | Some mgr =>
      zoom (λ s, (mgr, s.2)) (λ r s, (sa_set_pull (Some r.1) s.1, r.2)) m s
  end.

(** The same, with the shared queue. *)
Definition on_pull_q (m : QMeth (ProxyManager ProxyPullConsumer_i) unit) : Meth SupplierAdmin_i unit := λ s,
  match sa_pullConsumer s.1 with
  | None => Ret tt s
  | Some mgr =>
      zoom (λ s, ((mgr, sa_queue s.1), s.2))
        (λ r s, (sa_set_queue r.1.2 (sa_set_pull (Some r.1.1) s.1), r.2)) m s
  end.

(** [if(!_pullConsumer) _pullConsumer=new ProxyPullConsumerManager(_poa,_queue)] *)
Definition need_pullConsumer (this_mgr : Z) : Meth SupplierAdmin_i unit :=
  s ← self;
  match sa_pullConsumer s with
  | Some _ => mret tt
  | None =>
      m ← onW (new_ProxyPullConsumerManager (sa_poa s) this_mgr);
      upd (sa_set_pull (Some m))
  end.

(** [obtain_push_consumer()] *)
Definition obtain_push_consumer (mypid : Z) : Meth SupplierAdmin_i Object :=
  s ← self; onW (pc_createObject mypid (sa_pushConsumer s)).

(** [obtain_pull_consumer()] *)
Definition obtain_pull_consumer (mypid this_mgr : Z) : Meth SupplierAdmin_i Object :=
  _ ← need_pullConsumer this_mgr;
  s ← self;
  match sa_pullConsumer s with
  | Some m => onW (ppc_createObject mypid m)
  | None => abort
  end.

(** The pull half of [collect]: time is checked only if pulls are delayed. *)
Definition trigger_pull : Meth SupplierAdmin_i unit :=
  s ← self;
  if 0 =? (sa_nextPull s).1 then on_pull_q manager_triggerRequest
  else
    w ← theW;
    let now := clock w in
    if time_ge now (sa_nextPull s) then
      _ ← on_pull_q manager_triggerRequest;
      let p := pullRetryPeriod_ms (sa_properties s) in
      match advance_loop (advance_fuel p now (sa_nextPull s)) p now (sa_nextPull s) with
      | Some next => upd (sa_set_nextPull next)
      | None => abort
      end
    else mret tt.

(** [collect(events)]; [poll] is [poll_response] with the responses. *)
Definition sa_collect (poll : request → option reply) : Meth SupplierAdmin_i (list Any) :=
  s ← self;
  _ ← match sa_pullConsumer s with
      | Some _ => _ ← on_pull_q (manager_collect (sa_poa s) poll); trigger_pull
      | None => mret tt
      end;
  _ ← on_push pc_trigger;
  s ← self;
  _ ← upd (sa_set_queue []);
  mret (sa_queue s).

(** A call of [push] on the servant, with the shared queue. *)
Definition sa_push (real_time : bool) (send : Any → M exn world unit) (event : Any) : Meth SupplierAdmin_i unit :=
  zoom (λ s, ((sa_pushConsumer s.1, sa_queue s.1), s.2))
    (λ r s, (sa_set_queue r.1.2 (sa_set_push r.1.1 s.1), r.2)) (push real_time send event).

(** [disconnect()] *)
Definition sa_disconnect : Meth SupplierAdmin_i unit :=
  s ← self;
  _ ← on_push pc_disconnect;
  on_pull (ppc_disconnect (sa_poa s)).

(** A child of the node that has children of its own. *)
Definition child_with_children (key : string) (node : PersistNode) : option PersistNode :=
  match child key node with
  | Some c => match _child c with [] => None | _ => Some c end
  | None => None
  end.

(** [reincarnate(node)]; [addrs] and [addrs'] are the addresses of the new objects. *)
Definition sa_reincarnate (remote_connect : Object → string → exn + unit) (this_mgr : Z)
    (addrs addrs' : list Z) (node : PersistNode) : Meth SupplierAdmin_i unit :=
  _ ← match child_with_children "ProxyPushConsumer" node with
      | Some n => on_push (pc_reincarnate remote_connect addrs (_child n))
      | None => mret tt
      end;
  match child_with_children "ProxyPullConsumer" node with
  | Some n =>
      _ ← need_pullConsumer this_mgr;
      s ← self;
      on_pull (reincarnate (sa_poa s) ppc_incarnate addrs' (_child n))
  | None => mret tt
  end.

(** [output(os)]: a CORBA exception of the first part is logged. *)
Definition sa_output (s : SupplierAdmin_i) : ostream_op := λ w,
  _ ← try_catch (pc_output (sa_pushConsumer s) w) (λ _, Some (mret tt));
  match sa_pullConsumer s with
  | Some m => output_manager (sa_poa s) m w
  | None => mret tt
  end.

(** [queueLength()] *)
Definition sa_queueLength (s : SupplierAdmin_i) : Z := i64 (Z.of_nat (length (sa_queue s))).

(** [~SupplierAdmin_i()]; [this_mgr] is the address of the manager. *)
Definition sa_destroy (this_mgr : Z) : Meth SupplierAdmin_i unit :=
  s ← self;
  _ ← match sa_pullConsumer s with
      | Some _ => _ ← onW (remove_ref this_mgr); upd (sa_set_pull None)
      | None => mret tt
      end;
  _ ← on_push pc_destroy;
  upd (sa_set_queue []).

(** ** The schedule of pulls *)

Lemma time_ge_spec a b :
  0 ≤ a.2 < BILLION → 0 ≤ b.2 < BILLION → time_ge a b = true ↔ nanoseconds b ≤ nanoseconds a.
Proof. unfold time_ge, nanoseconds, BILLION. lia. Qed.

Lemma advance_spec p next :
  0 ≤ p < 4294967296 → 0 ≤ next.1 < 18446744073700000000 → 0 ≤ next.2 < BILLION →
  nanoseconds (advance p next) = nanoseconds next + p * MILLION ∧
  0 ≤ (advance p next).2 < BILLION ∧ 0 ≤ (advance p next).1.
Proof.
  intros Hp H1 H2. unfold advance, nanoseconds, MILLION, BILLION in *. cbn [fst snd].
  pose proof (Z.mod_pos_bound p 1000 ltac:(lia)) as Hm.
  pose proof (Z.div_mod p 1000 ltac:(lia)) as Hd.
  rewrite (u32_id (p mod 1000 * 1000000)) by lia.
  rewrite (u64_id (next.2 + _)) by lia.
  set (ns := next.2 + p mod 1000 * 1000000) in *.
  pose proof (Z.mod_pos_bound ns 1000000000 ltac:(lia)) as Hn.
  pose proof (Z.div_mod ns 1000000000 ltac:(lia)) as Hq.
  assert (0 ≤ ns / 1000000000 ≤ 2) by (subst ns; lia).
  rewrite !u64_id; [lia|lia|]. rewrite u64_id; lia.
Qed.

Lemma advance_loop_spec p now : ∀ fuel next,
  1 ≤ p < 4294967296 → 0 ≤ now.1 < 18446744073700000000 → 0 ≤ now.2 < BILLION →
  0 ≤ next.1 → 0 ≤ next.2 < BILLION → nanoseconds next ≤ nanoseconds now →
  (nanoseconds now - nanoseconds next) / (p * MILLION) + 1 ≤ Z.of_nat fuel →
  ∃ r k, advance_loop fuel p now next = Some r ∧ 1 ≤ k ∧
    nanoseconds r = nanoseconds next + k * (p * MILLION) ∧
    nanoseconds now < nanoseconds r ≤ nanoseconds now + p * MILLION ∧ 0 ≤ r.2 < BILLION.
Proof.
  intros fuel. induction fuel as [|f IH]; intros next Hp Hn1 Hn2 Hx1 Hx2 Hle Hf.
  { pose proof (Z.div_pos (nanoseconds now - nanoseconds next) (p * MILLION)). unfold MILLION in *. lia. }
  destruct (advance_spec p next) as (Ha & Hb & Hc); [lia| |done|].
  { unfold nanoseconds, BILLION in *. lia. }
  cbn [advance_loop]. destruct (time_ge now (advance p next)) eqn:E.
  - apply time_ge_spec in E; [|done..].
    destruct (IH (advance p next)) as (r & k & Hr & Hk & Hrn & Hlt & H2); try done.
    + rewrite Ha. replace (nanoseconds now - (nanoseconds next + p * MILLION))
        with (nanoseconds now - nanoseconds next + (-1) * (p * MILLION)) by lia.
      rewrite Z.div_add by (unfold MILLION; lia). lia.
    + exists r, (k + 1). split; [done|]. split; [lia|]. split; [|done]. rewrite Hrn, Ha. lia.
  - exists (advance p next), 1. split; [done|]. split; [lia|]. split; [rewrite Ha; lia|]. split; [|done].
    assert (¬ nanoseconds (advance p next) ≤ nanoseconds now) as Hnot.
    { intros Hc'. apply time_ge_spec in Hc'; [congruence|done..]. }
    lia.
Qed.

(** ** Collecting from every proxy *)

Context `{OL : !OrbLaws}.

(** The event a proxy's response carries. *)
Definition pulled (poll : request → option reply) (p : ProxyPullConsumer_i) : option Any :=
  match _req p with
  | Some r => match poll r with
              | Some (Returned v out) => if has_event (req_op r) out then Some v else None
              | _ => None
              end
  | None => None
  end.

(** A proxy after its response was collected: an exception counts, and a supplier that raised four
    in a row is given up. *)
Definition answered (poll : request → option reply) (p : ProxyPullConsumer_i) : ProxyPullConsumer_i :=
  match _req p with
  | None => p
  | Some r =>
      match poll r with
      | None => p
      | Some (Returned _ _) => mkPPC None (_target p) (_mode p) 0
      | Some (Raised _) =>
          let failed := String.eqb "pull" (req_op r) || String.eqb "try_pull" (req_op r) in
          let count := if failed then i32 (_exceptionCount p + 1) else _exceptionCount p in
          mkPPC None (if 4 <=? count then None else _target p)
            (if failed then other_mode (_mode p) else _mode p) count
      end
  end.

(** A proxy with a request in flight is connected, and a connected proxy is active. *)
Definition proxy_fine (pl : place) (p : ProxyPullConsumer_i) (w : world) : Prop :=
  (_req p ≠ None → is_Some (_target p)) ∧
  (is_Some (_target p) → is_active (proxyPoa pl) (this pl) w = true).

(** The constructor, when the POA accepts everything. *)
Lemma new_SupplierAdmin_ret poa props ca sa w p p' :
  create_POA (poa +:+ ".ProxyPushConsumer") (poas w) = inr p →
  activate_object_with_id poa "SupplierAdmin" sa p = inr p' →
  ∃ next, new_SupplierAdmin poa props ca sa w =
    Ret (mkSA poa props (new_ProxyPushConsumer poa) None [] next)
        (set_poas p' (set_refs (map_put ca (ref_count ca w + 1) (refs w)) w)).
Proof.
  intros Hp Hp'. set (w1 := set_refs (map_put ca (ref_count ca w + 1) (refs w)) w).
  assert (E : construct_ProxyPushConsumer poa ca w = Ret (new_ProxyPushConsumer poa) (set_poas p w1)).
  { unfold construct_ProxyPushConsumer, add_ref, modify, get, mbind, M_bind. cbn [poas set_refs pc_poa new_ProxyPushConsumer].
    by rewrite Hp. }
  pose proof (activate_cases poa sa "SupplierAdmin" (set_poas p w1)) as Hc. cbn [poas set_poas] in Hc. rewrite Hp' in Hc.
  unfold new_SupplierAdmin, gets. unfold mbind at 1, M_bind at 1. rewrite (bind_Ret _ _ _ _ _ E).
  rewrite (bind_Ret _ _ _ _ _ Hc). by eexists.
Qed.

(** Collecting from one proxy may deactivate it, but not the others. *)
Definition others_active (pl : place) (w w' : world) : Prop :=
  (∀ i, servant_to_id (proxyPoa pl) (this pl) (poas w') = inr i →
        servant_to_id (proxyPoa pl) (this pl) (poas w) = inr i) ∧
  ∀ a, (∀ i, servant_to_id (proxyPoa pl) (this pl) (poas w) = inr i →
             servant_to_id (proxyPoa pl) a (poas w) ≠ inr i) →
    servant_to_id (proxyPoa pl) a (poas w') = servant_to_id (proxyPoa pl) a (poas w).

Lemma others_active_refl pl w : others_active pl w w.
Proof. by split. Qed.

#[local] Hint Resolve others_active_refl : core.

Ltac sa_run :=
  unfold mbind, M_bind, mret, M_ret, onP, onW, zoom, self, gets, upd, modify, abort, push_back; simpl.

#[local] Arguments String.eqb : simpl never.
#[local] Arguments Z.leb : simpl never.
#[local] Arguments Z.eqb : simpl never.

(** After a failure the proxy counts it, or is given up. *)
Lemma give_up_ret pl (q : list Any) w o p1 :
  is_active (proxyPoa pl) (this pl) w = true → _target p1 = Some o →
  let p2 := set_target (if 4 <=? _exceptionCount p1 then None else _target p1) p1 in
  ∃ w', (if 4 <=? _exceptionCount p1 then
     _ ← onP (onW (send_orphan o "disconnect_pull_supplier"));
     _ ← onP (upd (set_target None));
     _ ← onP (onW (eraseKey pl ppc_name));
     onP (onW (deactivateObject (proxyPoa pl) (this pl)))
   else mret tt) (p1, q, w) = Ret tt (p2, q, w') ∧ others_active pl w w' ∧ clock w' = clock w ∧
   proxy_fine pl (set_req None p2) w'.
Proof.
  intros Hact H1. destruct (4 <=? _exceptionCount p1).
  2: { exists w. split; [by destruct p1|]. split; [done|]. by split. }
  unfold is_active in Hact. destruct (servant_to_id (proxyPoa pl) (this pl) (poas w)) as [e|oid] eqn:Eid; [done|].
  destruct (send_orphan_ret o "disconnect_pull_supplier" w) as (w1 & E1 & _ & _ & _ & Hp1 & _).
  sa_run. rewrite E1. sa_run.
  assert (clock w1 = clock w) as Hc1.
  { unfold send_orphan, send_deferred, deferredRequest, get in E1. unfold mbind, M_bind, modify, mret, M_ret in E1.
    simpl in E1. destruct (orbShutdownRequested w); by injection E1 as <-. }
  assert (∃ w2, eraseKey pl ppc_name w1 = Ret tt w2 ∧ poas w2 = poas w1 ∧ clock w2 = clock w1)
    as (w2 & E2 & Hp2 & Hc2).
  { destruct (logstream w1) as [t|] eqn:El.
    - rewrite (eraseKey_line pl ppc_name oid w1 t El) by (by rewrite Hp1). by eexists.
    - unfold eraseKey. rewrite log_write_none by done. by exists w1. }
  rewrite E2. sa_run. unfold deactivateObject. rewrite Hp2, Hp1, Eid.
  destruct (deactivate_active (proxyPoa pl) oid (this pl) (poas w) Eid) as (ps & Hd & Hn & Hoth).
  rewrite Hd. eexists. split; [done|]. split.
  - split; simpl; [intros i; by rewrite Hn|]. intros a Ha'. apply Hoth. right. by apply Ha'.
  - split; [simpl; congruence|]. split; simpl; [done|]. by intros [? ?].
Qed.

Lemma collect_ret pl poll p q w :
  proxy_fine pl p w →
  ∃ w', collect pl poll (p, q, w) = Ret tt (answered poll p, q ++ option_list (pulled poll p), w') ∧
    others_active pl w w' ∧ clock w' = clock w ∧ proxy_fine pl (answered poll p) w'.
Proof.
  intros [Hf Ha]. unfold collect, pulled, answered. sa_run.
  destruct (_req p) as [r|] eqn:Er; simpl.
  2: { exists w. rewrite app_nil_r. do 2 (split; [done|]). split; [done|]. by split; [rewrite Er|]. }
  destruct (poll r) as [[v out|ex]|]; sa_run.
  - destruct (has_event (req_op r) out); sa_run; exists w; rewrite ?app_nil_r;
      (split; [done|]; split; [done|]; split; [done|]; by split).
  - destruct (Hf ltac:(done)) as [o Ho]. rewrite Ho in Ha. specialize (Ha ltac:(by eexists)) as Hact.
    rewrite app_nil_r. pose proof (λ p1, give_up_ret pl q w o p1 Hact) as Hend.
    unfold mbind, M_bind, mret, M_ret, onP, onW, zoom, self, gets, upd, modify in Hend. simpl in Hend.
    destruct (String.eqb "pull" (req_op r) || String.eqb "try_pull" (req_op r)); simpl.
    + destruct (Hend (set_mode (other_mode (_mode p)) (set_exceptionCount (i32 (_exceptionCount p + 1)) p)) Ho)
        as (w' & E & H1 & H2 & H3). cbn [_exceptionCount _target set_mode set_exceptionCount] in E, H3 |- *. rewrite Ho in *.
      rewrite E. exists w'. done.
    + destruct (Hend p Ho) as (w' & E & H1 & H2 & H3). rewrite Ho in *. rewrite E. exists w'. done.
  - exists w. rewrite app_nil_r. split; [done|]. split; [done|]. split; [done|]. by split; [rewrite Er|].
Qed.

Lemma on_proxy_ret a f m q w p p' q' w' :
  map_find a (_servants m) = Some p → f (p, q, w) = Ret tt (p', q', w') →
  on_proxy a f (m, q, w) = Ret tt (set_servants (map_put a p' (_servants m)) m, q', w').
Proof. intros Hf E. unfold on_proxy. simpl. by rewrite Hf, E. Qed.

(** A manager in good order: its proxies are fine, and active under different ids. *)
Record manager_wf (ch : string) (m : ProxyManager ProxyPullConsumer_i) (w : world) : Prop := {
  mwf_sorted : map_sorted (_servants m) = true;
  mwf_fine a p : map_find a (_servants m) = Some p → proxy_fine (mplace ch a m) p w;
  mwf_ids a b i : is_Some (map_find a (_servants m)) → is_Some (map_find b (_servants m)) →
    servant_to_id (_managedPoa m) a (poas w) = inr i →
    servant_to_id (_managedPoa m) b (poas w) = inr i → a = b }.

Lemma find_put_dom {V} a b (v : V) (m : list (Z * V)) :
  is_Some (map_find a m) → is_Some (map_find b (map_put a v m)) ↔ is_Some (map_find b m).
Proof.
  intros Ha. destruct (decide (b = a)) as [->|Hne]; [|by rewrite map_find_put_ne].
  rewrite map_find_put_eq. split; [done|by eexists].
Qed.

(** One proxy changes. *)
Lemma manager_wf_put ch m a p p' w w' :
  manager_wf ch m w → map_find a (_servants m) = Some p → proxy_fine (mplace ch a m) p' w' →
  others_active (mplace ch a m) w w' → manager_wf ch (set_servants (map_put a p' (_servants m)) m) w'.
Proof.
  intros [Hs Hf Hi] Hfa Hp' [H1 H2].
  assert (Hsame : ∀ b, b ≠ a → is_Some (map_find b (_servants m)) →
    servant_to_id (_managedPoa m) b (poas w') = servant_to_id (_managedPoa m) b (poas w)).
  { intros b Hne Hb. apply (H2 b). intros i Hia Hib. simpl in *. apply Hne.
    apply (Hi b a i); [done|by rewrite Hfa|done|done]. }
  assert (Hback : ∀ b i, is_Some (map_find b (_servants m)) →
    servant_to_id (_managedPoa m) b (poas w') = inr i → servant_to_id (_managedPoa m) b (poas w) = inr i).
  { intros b i Hb. destruct (decide (b = a)) as [->|Hne]; [apply H1|by rewrite Hsame]. }
  assert (Hd : ∀ b, is_Some (map_find b (map_put a p' (_servants m))) ↔ is_Some (map_find b (_servants m))).
  { intros b. apply find_put_dom. by rewrite Hfa. }
  constructor; simpl.
  - by apply map_sorted_put.
  - intros b q. destruct (decide (b = a)) as [->|Hne].
    + rewrite map_find_put_eq. by intros [= <-].
    + rewrite map_find_put_ne by done. intros Hb. destruct (Hf b q Hb) as [F1 F2]. split; [done|].
      intros Ht. specialize (F2 Ht). unfold is_active in *. cbn [mplace proxyPoa this _managedPoa set_servants] in *.
      by rewrite Hsame; [|done|rewrite Hb].
  - intros b c i. rewrite !Hd. intros Hb Hc Hib Hic. eapply Hi; [done|done|by apply Hback..].
Qed.

(** The servants after each was treated in turn. *)
Lemma servants_all (f : ProxyPullConsumer_i → ProxyPullConsumer_i) (m m' : ProxyManager ProxyPullConsumer_i) :
  map_sorted (_servants m) = true → map_sorted (_servants m') = true →
  (∀ a p, (a, p) ∈ _servants m → map_find a (_servants m') = Some (f p)) →
  (∀ a, a ∉ (_servants m).*1 → map_find a (_servants m') = map_find a (_servants m)) →
  _servants m' = map_vals f (_servants m).
Proof.
  intros Hs Hs' H1 H2. apply map_sorted_ext; [done|by rewrite map_vals_sorted|]. intros a. rewrite map_vals_find.
  destruct (map_find a (_servants m)) as [p|] eqn:E; [by apply H1, map_find_elem|].
  rewrite H2; [by rewrite E|]. intros ([b x] & -> & Hin)%list_elem_of_fmap. cbn [fst] in E.
  by rewrite (map_elem_find _ _ _ Hs Hin) in E.
Qed.

Lemma collect_all ch poa poll l : ∀ m q w,
  _managedPoa m = poa → manager_wf ch m w → NoDup l.*1 →
  (∀ a p, (a, p) ∈ l → map_find a (_servants m) = Some p) →
  ∃ m' w', for_each l (λ i, on_proxy i.1 (collect (mkPlace ch poa i.1) poll)) (m, q, w) =
      Ret tt (m', q ++ omap (pulled poll) l.*2, w') ∧
    _managedPoa m' = poa ∧ manager_wf ch m' w' ∧ clock w' = clock w ∧
    (∀ a p, (a, p) ∈ l → map_find a (_servants m') = Some (answered poll p)) ∧
    (∀ a, a ∉ l.*1 → map_find a (_servants m') = map_find a (_servants m)).
Proof.
  induction l as [|[a p] l IH]; intros m q w Hpoa Hw Hn Hm.
  { exists m, w. rewrite app_nil_r. split_and!; try done. intros a p Hin. by apply elem_of_nil in Hin. }
  cbn [for_each fmap list_fmap fst snd omap list_omap] in Hn |- *.
  inversion Hn as [|? ? Hna Hn']; subst.
  assert (Hfa : map_find a (_servants m) = Some p) by (apply Hm; by left).
  destruct (collect_ret (mkPlace ch (_managedPoa m) a) poll p q w) as (w1 & E & Hoth & Hc & Hp').
  { by apply (mwf_fine _ _ _ Hw). }
  rewrite (bind_Ret _ _ _ _ _ (on_proxy_ret _ _ _ _ _ _ _ _ _ Hfa E)).
  pose proof (manager_wf_put ch m a p _ w w1 Hw Hfa Hp' Hoth) as Hw1.
  destruct (IH (set_servants (map_put a (answered poll p) (_servants m)) m) (q ++ option_list (pulled poll p)) w1)
    as (m' & w' & E' & Hpoa' & Hw' & Hc' & H1 & H2); try done.
  - intros b pb Hb. simpl. rewrite map_find_put_ne.
    + apply Hm. by right.
    + intros ->. apply Hna, list_elem_of_fmap. by exists (a, pb).
  - exists m', w'. split.
    { rewrite E'. rewrite <- app_assoc. by destruct (pulled poll p). }
    split; [done|]. split; [done|]. split; [congruence|]. split.
    + intros b pb [[= -> ->]|Hb]%elem_of_cons; [|by apply H1].
      rewrite H2 by done. simpl. by rewrite map_find_put_eq.
    + intros b Hb. apply not_elem_of_cons in Hb as [Hb1 Hb2]. rewrite H2 by done. simpl.
      by rewrite map_find_put_ne.
Qed.

(** A proxy after [triggerRequest]. *)
Definition triggered (p : ProxyPullConsumer_i) : ProxyPullConsumer_i :=
  match _req p, _target p with
  | None, Some o => set_req (Some (mkRequest o (op_name (_mode p)) None)) p
  | _, _ => p
  end.

Lemma trigger_all ch l : ∀ m q w,
  manager_wf ch m w → NoDup l.*1 → (∀ a p, (a, p) ∈ l → map_find a (_servants m) = Some p) →
  ∃ m' w', for_each l (λ i, on_proxy i.1 triggerRequest) (m, q, w) = Ret tt (m', q, w') ∧
    clock w' = clock w ∧ manager_wf ch m' w' ∧
    (∀ a p, (a, p) ∈ l → map_find a (_servants m') = Some (triggered p)) ∧
    (∀ a, a ∉ l.*1 → map_find a (_servants m') = map_find a (_servants m)).
Proof.
  induction l as [|[a p] l IH]; intros m q w Hw Hn Hm.
  { exists m, w. split_and!; try done. intros a p Hin. by apply elem_of_nil in Hin. }
  cbn [for_each fmap list_fmap fst snd] in Hn |- *. inversion Hn as [|? ? Hna Hn']; subst.
  assert (Hfa : map_find a (_servants m) = Some p) by (apply Hm; by left).
  assert (∃ w1, triggerRequest (p, q, w) = Ret tt (triggered p, q, w1) ∧ clock w1 = clock w ∧ poas w1 = poas w)
    as (w1 & E & Hc & Hp).
  { unfold triggerRequest, triggered, send_deferred. sa_run. destruct (_req p); [by exists w|].
    destruct (_target p); sa_run; by eexists. }
  rewrite (bind_Ret _ _ _ _ _ (on_proxy_ret _ _ _ _ _ _ _ _ _ Hfa E)).
  assert (Hw1 : manager_wf ch (set_servants (map_put a (triggered p) (_servants m)) m) w1).
  { apply (manager_wf_put ch m a p (triggered p) w w1 Hw Hfa).
    - destruct (mwf_fine _ _ _ Hw _ _ Hfa) as [F1 F2]. unfold triggered, proxy_fine, is_active in *. rewrite Hp.
      destruct (_req p) eqn:Er; [by rewrite Er|]. destruct (_target p) eqn:Et; simpl; rewrite ?Er, ?Et; [|done].
      split; [intros _; by eexists|done].
    - unfold others_active. by rewrite Hp. }
  destruct (IH (set_servants (map_put a (triggered p) (_servants m)) m) q w1)
    as (m' & w' & E' & Hc' & Hw' & H1 & H2); try done.
  - intros b pb Hb. simpl. rewrite map_find_put_ne.
    + apply Hm. by right.
    + intros ->. apply Hna, list_elem_of_fmap. by exists (a, pb).
  - exists m', w'. split; [done|]. split; [congruence|]. split; [done|]. split.
    + intros b pb [[= -> ->]|Hb]%elem_of_cons; [|by apply H1].
      rewrite H2 by done. simpl. by rewrite map_find_put_eq.
    + intros b Hb. apply not_elem_of_cons in Hb as [Hb1 Hb2]. rewrite H2 by done. simpl.
      by rewrite map_find_put_ne.
Qed.

Lemma sorted_nodup {V} (m : list (Z * V)) : map_sorted m = true → NoDup m.*1.
Proof.
  induction m as [|[a v] m IH]; simpl; [constructor|]. intros; boolify. constructor; [|auto].
  intros Hin. apply list_elem_of_fmap in Hin as ([b x] & -> & Hin). simpl in *.
  match goal with H : keys_above _ _ = true |- _ => apply keys_above_forall in H;
    rewrite Forall_forall in H; specialize (H _ Hin) end.
  simpl in *. by rewrite key_ltb_irrefl in *.
Qed.

(** ** Properties *)

(** The retry period counts only if the time of the next pull is not zero. *)
Definition schedule_ok (props : PersistNode) (next : Z * Z) : Prop :=
  next.1 = 0 ∨ 1 ≤ pullRetryPeriod_ms props ∧ 0 ≤ next.1 ∧ 0 ≤ next.2 < BILLION.

(** Times the clock shows: nanoseconds are less than a second, and the seconds are far from the
    end of the 64 bits. *)
Definition clock_ok (now : Z * Z) : Prop := 0 ≤ now.1 < 18446744073700000000 ∧ 0 ≤ now.2 < BILLION.

Lemma pullRetryPeriod_range props : 0 ≤ pullRetryPeriod_ms props < 4294967296.
Proof. apply u32_range. Qed.

(** C37: when suppliers are pulled.  The first time is chosen so that pulls are delayed only if the
    retry period is longer than a cycle.  When a pull is due, the loop that computes the next time
    terminates, for any time that has passed; it moves the time by a whole number of periods (at
    least one) to the first one that is later than now, and keeps the nanoseconds below a
    second. *)
Theorem pull_schedule props now next :
  clock_ok now →
  schedule_ok props (initial_nextPull props now) ∧
  ((initial_nextPull props now).1 ≠ 0 → cyclePeriod_ns props / MILLION < pullRetryPeriod_ms props) ∧
  let p := pullRetryPeriod_ms props in
  (schedule_ok props next → next.1 ≠ 0 → time_ge now next = true →
   ∃ r k, advance_loop (advance_fuel p now next) p now next = Some r ∧ 1 ≤ k ∧
     nanoseconds r = nanoseconds next + k * (p * MILLION) ∧
     nanoseconds now < nanoseconds r ≤ nanoseconds now + p * MILLION ∧ 0 < r.1 ∧ 0 ≤ r.2 < BILLION).
Proof.
  intros [Hn1 Hn2]. assert (0 ≤ cyclePeriod_ns props / MILLION) as Hc.
  { apply Z.div_pos; [apply u64_range|done]. }
  pose proof (pullRetryPeriod_range props) as Hp. split_and!.
  - unfold initial_nextPull, schedule_ok. case_match; [|by left]. boolify. right. lia.
  - unfold initial_nextPull. case_match; [|done]. by boolify.
  - intros p [Hs|(Hp1 & Hs1 & Hs2)] Hne Hge; [done|]. apply time_ge_spec in Hge; [|done..].
    assert (Hfuel : (nanoseconds now - nanoseconds next) / (p * MILLION) + 1 ≤
      Z.of_nat (advance_fuel p now next)).
    { unfold advance_fuel. assert (0 ≤ (nanoseconds now - nanoseconds next) / (p * MILLION)); [|lia].
      apply Z.div_pos; [lia|]. unfold MILLION, p. lia. }
    destruct (advance_loop_spec p now (advance_fuel p now next) next) as (r & k & E & Hk & Hr & Hlt & H2);
      [unfold p; lia|done..|].
    exists r, k. do 4 (split; [done|]). split; [|done].
    unfold nanoseconds, BILLION in *. lia.
Qed.

(** What [collect] needs: the proxies are in order, each with its own id, and a request in flight
    only where there is a supplier. *)
Record sa_wf (s : SupplierAdmin_i) (w : world) : Prop := {
  wf_clock : clock_ok (clock w);
  wf_schedule : schedule_ok (sa_properties s) (sa_nextPull s);
  wf_proxies m : sa_pullConsumer s = Some m → manager_wf (sa_poa s) m w }.

Definition proxies (s : SupplierAdmin_i) : list (Z * ProxyPullConsumer_i) :=
  match sa_pullConsumer s with Some m => _servants m | None => [] end.

(** Is it time to pull? *)
Definition pull_due (s : SupplierAdmin_i) (w : world) : bool :=
  (0 =? (sa_nextPull s).1) || time_ge (clock w) (sa_nextPull s).

Lemma map_elem_all {V} (m : list (Z * V)) : map_sorted m = true →
  ∀ a v, (a, v) ∈ m → map_find a m = Some v.
Proof. intros Hs a v. by apply map_elem_find. Qed.

(** The pulls. *)
Lemma pull_all s m w :
  sa_pullConsumer s = Some m → manager_wf (sa_poa s) m w →
  ∃ m' w', on_pull_q manager_triggerRequest (s, w) =
      Ret tt (sa_set_queue (sa_queue s) (sa_set_pull (Some m') s), w') ∧ clock w' = clock w ∧
    manager_wf (sa_poa s) m' w' ∧ _servants m' = map_vals triggered (_servants m).
Proof.
  intros Hm Hw. pose proof (mwf_sorted _ _ _ Hw) as Hs.
  unfold on_pull_q, manager_triggerRequest. cbn [fst snd]. rewrite Hm. sa_run.
  destruct (trigger_all (sa_poa s) (_servants m) m (sa_queue s) w Hw) as (m' & w' & E & Hc & Hw' & H1 & H2);
    [by apply sorted_nodup|by apply map_elem_all|].
  rewrite E. eexists m', w'. do 3 (split; [done|]). apply servants_all; [done|apply Hw'|done|done].
Qed.

(** The specification of the time of the next pull, and of the supplier side as a whole: what
    waits, what the proxies of the pulled suppliers are doing (if there ever was one), and when they
    are pulled next. *)
Definition next_pull (props : PersistNode) (now next : Z * Z) : Z * Z :=
  let p := pullRetryPeriod_ms props in
  if 0 =? next.1 then next
  else if time_ge now next then default next (advance_loop (advance_fuel p now next) p now next)
  else next.

Record supply := mkSupply {
  su_props : PersistNode;
  su_clock : Z * Z;
  su_pending : list Any;
  su_proxies : option (list (Z * ProxyPullConsumer_i));
  su_next : Z * Z }.

Definition supply_of (s : SupplierAdmin_i) (w : world) : supply :=
  mkSupply (sa_properties s) (clock w) (sa_queue s) (_servants <$> sa_pullConsumer s) (sa_nextPull s).

(** A cycle: what waits goes, then the events of the responses; the proxies take their responses,
    and those that have none outstanding are pulled if it is time. *)
Definition su_collect (poll : request → option reply) (su : supply) : list Any * supply :=
  let proxies := default [] (su_proxies su) in
  let due := (0 =? (su_next su).1) || time_ge (su_clock su) (su_next su) in
  let after p := if due then triggered (answered poll p) else answered poll p in
  (su_pending su ++ omap (pulled poll) proxies.*2,
   mkSupply (su_props su) (su_clock su) [] (map_vals after <$> su_proxies su)
     (if su_proxies su is Some _ then next_pull (su_props su) (su_clock su) (su_next su) else su_next su)).

(** The pull half of [collect]. *)
Lemma trigger_pull_ret s m w :
  sa_pullConsumer s = Some m → manager_wf (sa_poa s) m w → clock_ok (clock w) →
  schedule_ok (sa_properties s) (sa_nextPull s) →
  let next := next_pull (sa_properties s) (clock w) (sa_nextPull s) in
  ∃ m' w', trigger_pull (s, w) =
      Ret tt (sa_set_nextPull next (sa_set_queue (sa_queue s) (sa_set_pull (Some m') s)), w') ∧
    clock w' = clock w ∧ schedule_ok (sa_properties s) next ∧ manager_wf (sa_poa s) m' w' ∧
    _servants m' = (if pull_due s w then map_vals triggered (_servants m) else _servants m).
Proof.
  intros Hm Hw Hclk Hsch. unfold trigger_pull, pull_due, next_pull, theW. sa_run. rewrite !(Z.eqb_sym 0).
  destruct (pull_all s m w Hm Hw) as (m' & w' & E & Hc & Hw' & Hall).
  destruct ((sa_nextPull s).1 =? 0) eqn:E0; boolify; simpl.
  - rewrite E. exists m', w'. by split_and!.
  - destruct (time_ge (clock w) (sa_nextPull s)) eqn:Ege; simpl.
    + rewrite E. simpl. destruct (pull_schedule (sa_properties s) (clock w) (sa_nextPull s) Hclk) as (_ & _ & HS).
      destruct (HS Hsch E0 Ege) as (r & k & Er & Hk & Hr & Hlt & Hr1 & Hr2). rewrite Er.
      exists m', w'. destruct Hsch as [?|(Hp & _)]; [done|].
      split; [done|]. split; [done|]. split; [right; simpl; lia|]. by split.
    + exists m, w. split_and!; try done. destruct s; simpl in *. by subst.
Qed.

(** Pushed events join the list. *)
Lemma pushes_ret send evs s w :
  for_each evs (sa_push false send) (s, w) = Ret tt (sa_set_queue (sa_queue s ++ evs) s, w).
Proof.
  revert s. induction evs as [|e evs IH]; intros s; [rewrite app_nil_r; by destruct s|].
  cbn [for_each]. assert (E : sa_push false send e (s, w) = Ret tt (sa_set_queue (sa_queue s ++ [e]) s, w)).
  { unfold sa_push, push. sa_run. by destruct s. }
  rewrite (bind_Ret _ _ _ _ _ E), IH. simpl. rewrite <- app_assoc. by destruct s.
Qed.

(** What [collect] does, with the properties it keeps. *)
Lemma collect_spec poll s w :
  sa_wf s w →
  let r := su_collect poll (supply_of s w) in
  ∃ s' w', sa_collect poll (s, w) = Ret r.1 (s', w') ∧
    supply_of s' w' = r.2 ∧ _useLocalQueue (sa_pushConsumer s') = false ∧ sa_wf s' w'.
Proof.
  intros [Hclk Hsch Hprox]. destruct s as [poa props pc [m|] q next]; unfold su_collect, supply_of;
    cbn [sa_poa sa_properties sa_pushConsumer sa_pullConsumer sa_queue sa_nextPull su_props su_clock su_pending
      su_proxies su_next fst snd fmap option_fmap option_map default] in *.
  - pose proof (Hprox m eq_refl) as Hw. pose proof (mwf_sorted _ _ _ Hw) as Hs.
    unfold sa_collect, on_push, pc_trigger. sa_run.
    destruct (collect_all poa (_managedPoa m) poll (_servants m) m q w eq_refl Hw)
      as (m1 & w1 & E1 & Hpoa1 & Hw1 & Hc1 & H1 & H2); try done; [by apply sorted_nodup|by apply map_elem_all|].
    pose proof (servants_all _ m m1 Hs (mwf_sorted _ _ _ Hw1) H1 H2) as Hm1.
    unfold on_pull_q, manager_collect. sa_run. unfold mplace. rewrite E1. simpl.
    set (evs' := omap (pulled poll) (_servants m).*2) in *.
    destruct (trigger_pull_ret (mkSA poa props pc (Some m1) (q ++ evs') next) m1 w1)
      as (m2 & w2 & E2 & Hc2 & Hok2 & Hw2 & Hm2); try done; [by rewrite Hc1|].
    match goal with |- context [trigger_pull ?x] =>
      change x with (mkSA poa props pc (Some m1) (q ++ evs') next, w1) end.
    rewrite E2. simpl. eexists _, w2. split; [done|].
    unfold pull_due in Hm2. cbn [sa_nextPull sa_properties] in *. rewrite Hc1 in *.
    split; [|split; [done|]].
    + simpl. rewrite Hc2, Hm2, Hm1. f_equal. f_equal.
      destruct (_ || _); [|done]. unfold map_vals. by rewrite map_map.
    + constructor; simpl; [by rewrite Hc2|done|]. by intros m3 [= <-].
  - unfold sa_collect, on_push, pc_trigger. sa_run. eexists _, w.
    rewrite (app_nil_r q). split; [done|]. by split_and!.
Qed.

(** After a cycle that pulls, every connected proxy has a request outstanding. *)
Lemma triggered_in_flight poll p : is_Some (_target (triggered (answered poll p))) →
  is_Some (_req (triggered (answered poll p))).
Proof.
  unfold triggered. intros Ht. destruct (_req (answered poll p)) eqn:Er; [by rewrite Er|].
  destruct (_target (answered poll p)) eqn:Et; [by eexists|]. rewrite Et in Ht. by destruct Ht.
Qed.

(** A cycle of the supplier side.  Whatever suppliers push, and whatever the answers to the
    pulls are, [collect] returns every event pushed since the last call, in order, followed by the
    events the pulled suppliers returned; the list is left empty, so no event is delivered twice;
    the proxies, and the time of the next pull, are those of the specification.  Nothing throws, no
    assertion fails, and the proxies are left in good order. *)
Theorem supplier_collect send evs poll s w :
  sa_wf s w →
  ∃ s' w', (_ ← for_each evs (sa_push false send); sa_collect poll) (s, w) =
      Ret (sa_queue s ++ evs ++ omap (pulled poll) (proxies s).*2) (s', w') ∧
    supply_of s' w' = (su_collect poll (supply_of s w)).2 ∧
    _useLocalQueue (sa_pushConsumer s') = false ∧ sa_wf s' w'.
Proof.
  intros Hwf. rewrite (bind_Ret _ _ _ _ _ (pushes_ret send evs s w)).
  destruct (collect_spec poll (sa_set_queue (sa_queue s ++ evs) s) w) as (s' & w' & E & H1 & H2 & H3).
  { destruct Hwf. by constructor. }
  exists s', w'. rewrite E. unfold su_collect, supply_of, proxies. cbn. rewrite <- app_assoc.
  split; [by destruct (sa_pullConsumer s)|done].
Qed.
End supplier_admin.

(** ** Witnesses *)

Lemma pull_schedule_witness :
  clock_ok (1000, 0) ∧
  ∃ r k, advance_loop (advance_fuel 1000 (1000, 0) (998, 500000000)) 1000 (1000, 0) (998, 500000000) = Some r ∧
    1 ≤ k ∧ nanoseconds r = nanoseconds (998, 500000000) + k * (1000 * MILLION).
Proof.
  assert (Hc : clock_ok (1000, 0)) by (unfold clock_ok, BILLION; simpl; lia).
  split; [exact Hc|].
  destruct (pull_schedule empty_node (1000, 0) (998, 500000000) Hc) as (_ & _ & H).
  destruct H as (r & k & E & Hk & Hr & _).
  - right. unfold BILLION. vm_compute. intuition discriminate.
  - discriminate.
  - reflexivity.
  - exists r, k. split; [exact E|]. split; [exact Hk|exact Hr].
Defined.

(** A channel with two pulled suppliers, one of which has answered. *)
Definition sa_manager : ProxyManager ProxyPullConsumer_i :=
  mkProxyManager "chan.ProxyPullConsumer"
    [(64, mkPPC (Some (mkRequest (obj 9) "pull" None)) (Some (obj 9)) Pull 0);
     (80, mkPPC None (Some (obj 7)) Pull 0)].

Definition sa_sample : SupplierAdmin_i :=
  mkSA "chan" empty_node (new_ProxyPushConsumer "chan") (Some sa_manager) [ev (AULong 1)] (998, 500000000).

Definition sa_world : world :=
  set_poas (mkModelPoas [] [("chan.ProxyPullConsumer", 64, "1.2.3"); ("chan.ProxyPullConsumer", 80, "2.2.3")])
    model_world.

Definition sa_poll : request → option reply := λ _, Some (Returned (ev (AULong 3)) None).

Lemma sa_sample_wf : sa_wf sa_sample sa_world.
Proof.
  constructor.
  - split; [|unfold BILLION]; simpl; lia.
  - right. unfold BILLION. vm_compute. intuition discriminate.
  - intros m [= <-]. assert (Hk : ∀ a, is_Some (map_find a (_servants sa_manager)) → a = 64 ∨ a = 80).
    { intros a [p Hp]. apply map_find_elem in Hp. cbn [_servants sa_manager] in Hp.
      apply elem_of_cons in Hp as [[= -> _]|Hp]; [by left|].
      apply list_elem_of_singleton in Hp as [= -> _]. by right. }
    constructor.
    + reflexivity.
    + intros a p Hp. apply map_find_elem in Hp. cbn [_servants sa_manager] in Hp.
      apply elem_of_cons in Hp as [[= -> ->]|Hp]; [split; [intros _; by eexists|intros _; reflexivity]|].
      apply list_elem_of_singleton in Hp as [= -> ->]. split; [intros _; by eexists|intros _; reflexivity].
    + intros a b i Ha Hb. destruct (Hk a Ha) as [-> | ->], (Hk b Hb) as [-> | ->]; try reflexivity;
        intros H1 H2; cbn [servant_to_id model_OrbOps poas sa_world] in H1, H2;
        injection H1 as <-; discriminate H2.
Qed.

Lemma supplier_collect_witness :
  sa_wf sa_sample sa_world ∧
  ∃ s' w', (_ ← for_each [ev (AULong 2)] (sa_push false (λ _, mret tt)); sa_collect sa_poll) (sa_sample, sa_world) =
      Ret [ev (AULong 1); ev (AULong 2); ev (AULong 3)] (s', w') ∧ sa_queue s' = [].
Proof.
  split; [exact sa_sample_wf|].
  destruct (supplier_collect (λ _, mret tt) [ev (AULong 2)] sa_poll sa_sample sa_world sa_sample_wf)
    as (s' & w' & E & Hq & _).
  exists s', w'. split; [exact E|]. exact (f_equal su_pending Hq).
Defined.
