(* ===== verification/ConsumerAdmin.v ===== *)
(** * ConsumerAdmin: the consumer side of a channel (src/ConsumerAdmin.h, src/ConsumerAdmin.cc)

    Owns the event queue, and, once needed, the managers of the pushing and pulling suppliers
    (which are what consumers talk to).  Events handed to [send] go through the filter of the
    queue. *)

From S2P Require Import Prelude Monad CxxMap Stream PersistNode PersistReplay PersistLog ChannelProps.
From S2P Require Import Corba ModelOrb Filter EventQueue Servant Orb Proxy ProxyPushSupplier ProxyPullSupplier.
From S2P Require Import SupplierAdmin.

Local Open Scope string_scope.
Local Open Scope Z_scope.
Local Open Scope list_scope.

Section consumer_admin.
Context `{OO : OrbOps}.

(** [ca_heap] holds the events of the queue.  [_channel] is represented by its properties, [_poa]
    by its name. *)
Record ConsumerAdmin_i := mkCA {
  ca_poa : string;
  ca_properties : PersistNode;
  ca_queue : EventQueue;
  ca_heap : heap;
  ca_pushSupplier : option (ProxyManager ProxyPushSupplier_i);
  ca_pullSupplier : option (ProxyManager ProxyPullSupplier_i) }.

Definition ca_set_events (q : EventQueue) (h : heap) (s : ConsumerAdmin_i) : ConsumerAdmin_i :=
  mkCA (ca_poa s) (ca_properties s) q h (ca_pushSupplier s) (ca_pullSupplier s).
Definition ca_set_push (m : option (ProxyManager ProxyPushSupplier_i)) (s : ConsumerAdmin_i) : ConsumerAdmin_i :=
  mkCA (ca_poa s) (ca_properties s) (ca_queue s) (ca_heap s) m (ca_pullSupplier s).
Definition ca_set_pull (m : option (ProxyManager ProxyPullSupplier_i)) (s : ConsumerAdmin_i) : ConsumerAdmin_i :=
  mkCA (ca_poa s) (ca_properties s) (ca_queue s) (ca_heap s) (ca_pushSupplier s) m.

(** The filter the constructor gives the queue: the repository id comes first. *)
Definition channel_filter (props : PersistNode) : option Filter :=
  if hasAttr "FilterId" props then Some (FilterByRepositoryId (attrString "FilterId" "" props))
  else if hasAttr "FilterKind" props then Some (FilterByTCKind (attrLong "FilterKind" 0 props))
  else None.

(** The constructor; [this_ca] is its address. *)
Definition new_ConsumerAdmin (poa : string) (props : PersistNode) (this_ca : Z) : M exn world ConsumerAdmin_i :=
  match new_EventQueue (maxQueueLength props) with
  | None => abort  (* assert *)
  | Some q =>
      let q := match channel_filter props with Some f => setFilter f q | None => q end in
      _ ← activateObjectWithId poa this_ca "ConsumerAdmin";
      mret (mkCA poa props q ∅ None None)
  end.

(** Run a method of a manager, if there is one. *)
Definition on_push_manager (m : Meth (ProxyManager ProxyPushSupplier_i) unit) : Meth ConsumerAdmin_i unit := λ s,
  match ca_pushSupplier s.1 with
  | None => Ret tt s
  | Some mgr => zoom (λ s, (mgr, s.2)) (λ r s, (ca_set_push (Some r.1) s.1, r.2)) m s
  end.
Definition on_pull_manager (m : Meth (ProxyManager ProxyPullSupplier_i) unit) : Meth ConsumerAdmin_i unit := λ s,
  match ca_pullSupplier s.1 with
  | None => Ret tt s
  | Some mgr => zoom (λ s, (mgr, s.2)) (λ r s, (ca_set_pull (Some r.1) s.1, r.2)) m s
  end.

(** [obtain_push_supplier()] *)
Definition obtain_push_supplier (mypid this_mgr : Z) : Meth ConsumerAdmin_i Object :=
  s ← self;
  m ← match ca_pushSupplier s with
      | Some m => mret m
      | None =>
          m ← onW (new_ProxyPushSupplierManager (ca_poa s) this_mgr);
          _ ← upd (ca_set_push (Some m)); mret m
      end;
  onW (pps_createObject mypid m).

(** [obtain_pull_supplier()] *)
Definition obtain_pull_supplier (mypid this_mgr : Z) : Meth ConsumerAdmin_i Object :=
  s ← self;
  m ← match ca_pullSupplier s with
      | Some m => mret m
      | None =>
          m ← onW (new_ProxyPullSupplierManager (ca_poa s) this_mgr);
          _ ← upd (ca_set_pull (Some m)); mret m
      end;
  onW (pls_createObject mypid m).

(** [send(event)]: the thread of the pushing suppliers is paused meanwhile, so appending is one
    step. *)
Definition ca_send (event : N) : Meth ConsumerAdmin_i unit :=
  s ← self;
  match append event (ca_queue s) (ca_heap s) with
  | Some (q, h) => upd (ca_set_events q h)
  | None => abort
  end.

(** An event the caller owns gets its address. *)
Definition alloc_event (event : Any) : Meth ConsumerAdmin_i N :=
  s ← self;
  let addr := fresh (dom (ca_heap s)) in
  _ ← upd (ca_set_events (ca_queue s) (<[addr := event]> (ca_heap s)));
  mret addr.

(** [send(events)]: the list owned its events, whose addresses play no part before. *)
Definition ca_send_events (events : list Any) : Meth ConsumerAdmin_i unit :=
  for_each events (λ event, addr ← alloc_event event; ca_send addr).

(** [disconnect()] *)
Definition ca_disconnect : Meth ConsumerAdmin_i unit :=
  s ← self;
  _ ← on_push_manager (pps_disconnect (ca_poa s));
  on_pull_manager (pls_disconnect (ca_poa s)).

(** [reincarnate(node)]: called on a new object, so there are no managers yet.  [addrs] and
    [addrs'] are the addresses of the proxies. *)
Definition ca_reincarnate (remote_connect : Object → exn + unit) (push_mgr pull_mgr : Z)
    (addrs addrs' : list Z) (node : PersistNode) : Meth ConsumerAdmin_i unit :=
  _ ← match child_with_children "ProxyPushSupplier" node with
      | Some n =>
          s ← self;
          m ← onW (new_ProxyPushSupplierManager (ca_poa s) push_mgr);
          _ ← upd (ca_set_push (Some m));
          on_push_manager (reincarnate (PC := pps_ProxyClass remote_connect) (ca_poa s)
            (pps_incarnate (ca_queue s)) addrs (_child n))
      | None => mret tt
      end;
  match child_with_children "ProxyPullSupplier" node with
  | Some n =>
      s ← self;
      m ← onW (new_ProxyPullSupplierManager (ca_poa s) pull_mgr);
      _ ← upd (ca_set_pull (Some m));
      on_pull_manager (reincarnate (ca_poa s)
        (pls_incarnate (ca_poa s) (maxNumProxies (ca_properties s)) (ca_queue s)) addrs' (_child n))
  | None => mret tt
  end.

(** [output(os)]: a CORBA exception of the first part is logged, one of the second is not
    caught. *)
Definition ca_output (s : ConsumerAdmin_i) : ostream_op := λ w,
  _ ← match ca_pushSupplier s with
      | Some m => try_catch (output_manager (PC := pps_ProxyClass (λ _, inr tt)) (ca_poa s) m w)
                    (λ _, Some (mret tt))
      | None => mret tt
      end;
  match ca_pullSupplier s with
  | Some m => output_manager (ca_poa s) m w
  | None => mret tt
  end.

(** [queueLength()]: the size of the buffer. *)
Definition ca_queueLength (s : ConsumerAdmin_i) : Z := _size (ca_queue s).

(** [~ConsumerAdmin_i()], with that of the queue. *)
Definition ca_destroy (push_mgr pull_mgr : Z) : Meth ConsumerAdmin_i unit :=
  s ← self;
  _ ← match ca_pushSupplier s with
      | Some _ => _ ← onW (remove_ref push_mgr); upd (ca_set_push None)
      | None => mret tt
      end;
  _ ← match ca_pullSupplier s with
      | Some _ => _ ← onW (remove_ref pull_mgr); upd (ca_set_pull None)
      | None => mret tt
      end;
  upd (λ s, ca_set_events (ca_queue s) (destroy_EventQueue (ca_queue s) (ca_heap s)) s).

(** ** Lemmas *)

Ltac ca_run :=
  unfold mbind, M_bind, mret, M_ret, onW, zoom, self, gets, upd, modify, abort; simpl.

(** The constructor, when the POA accepts the object. *)
Lemma new_ConsumerAdmin_ret `{!OrbLaws} poa props this_ca w p :
  0 < maxQueueLength props → activate_object_with_id poa "ConsumerAdmin" this_ca (poas w) = inr p →
  ∃ q, new_EventQueue (maxQueueLength props) = Some q ∧
    new_ConsumerAdmin poa props this_ca w =
      Ret (mkCA poa props (match channel_filter props with Some f => setFilter f q | None => q end) ∅ None None)
          (set_poas p w).
Proof.
  intros Hq Hp. unfold new_ConsumerAdmin.
  destruct (new_EventQueue (maxQueueLength props)) as [q|] eqn:Eq.
  2: { unfold new_EventQueue in Eq. case_match; [done|]. boolify. lia. }
  pose proof (activate_cases poa this_ca "ConsumerAdmin" w) as Hc. rewrite Hp in Hc.
  rewrite (bind_Ret _ _ _ _ _ Hc). by exists q.
Qed.

(** The events a list adds to the log of the queue, and those it leaves on the heap. *)
Definition accepted (f : option Filter) (evs : list Any) : list Any := List.filter (keeps f) evs.
Definition refused (f : option Filter) (evs : list Any) : nat :=
  length (List.filter (λ a, negb (keeps f a)) evs).

Lemma accepted_app f l1 l2 : accepted f (l1 ++ l2) = accepted f l1 ++ accepted f l2.
Proof. apply List.filter_app. Qed.
Lemma refused_app f l1 l2 : refused f (l1 ++ l2) = (refused f l1 + refused f l2)%nat.
Proof. unfold refused. by rewrite List.filter_app, length_app. Qed.

Lemma send_one a s log rej w :
  Rep (ca_queue s) (ca_heap s) log rej → well_typed a = true →
  ∃ q h, (addr ← alloc_event a; ca_send addr) (s, w) = Ret tt (ca_set_events q h s, w) ∧
    Rep q h (log ++ accepted (_filter (ca_queue s)) [a]) (rej + refused (_filter (ca_queue s)) [a]) ∧
    _size q = _size (ca_queue s) ∧ _filter q = _filter (ca_queue s).
Proof.
  intros R Hw. unfold alloc_event, ca_send. ca_run.
  pose proof (offered_fresh _ _ _ _ a R) as Ho. unfold accepted, refused. simpl.
  destruct (keeps (_filter (ca_queue s)) a) eqn:Ek; simpl.
  - destruct (append_kept _ _ _ _ _ _ Ho) as (q & h & E & R' & Hs & Hf).
    { destruct (_filter (ca_queue s)) as [f|]; [|done]. by rewrite keep_well_typed, Ek. }
    rewrite E, Nat.add_0_r. by exists q, h.
  - destruct (_filter (ca_queue s)) as [f|] eqn:Ef; [|done].
    destruct (append_rejected _ _ _ _ _ _ f Ho Ef) as [E R'].
    { by rewrite keep_well_typed, Ek. }
    rewrite E, app_nil_r, Nat.add_1_r. eexists _, _. split; [done|]. by rewrite Ef.
Qed.

Lemma send_all evs : ∀ s log rej w,
  Rep (ca_queue s) (ca_heap s) log rej → forallb well_typed evs = true →
  ∃ q h, ca_send_events evs (s, w) = Ret tt (ca_set_events q h s, w) ∧
    Rep q h (log ++ accepted (_filter (ca_queue s)) evs) (rej + refused (_filter (ca_queue s)) evs) ∧
    _size q = _size (ca_queue s) ∧ _filter q = _filter (ca_queue s).
Proof.
  unfold ca_send_events. induction evs as [|a evs IH]; intros s log rej w R Hw.
  - exists (ca_queue s), (ca_heap s). unfold accepted, refused. simpl. rewrite app_nil_r, Nat.add_0_r.
    split_and!; try done. by destruct s.
  - cbn [forallb for_each] in Hw |- *. boolify.
    destruct (send_one a s log rej w R) as (q1 & h1 & E1 & R1 & Hs1 & Hf1); [done|].
    rewrite (bind_Ret _ _ _ _ _ E1).
    destruct (IH (ca_set_events q1 h1 s) _ _ w R1) as (q & h & E & R' & Hs & Hf); [done|].
    cbn [ca_queue ca_heap ca_set_events] in *. rewrite Hf1 in R'.
    exists q, h. split; [exact E|]. split; [|by rewrite Hs, Hf].
    unfold accepted, refused in *. simpl in R' |- *. rewrite <- app_assoc, <- Nat.add_assoc in R'.
    destruct (keeps (_filter (ca_queue s)) a); simpl in *; exact R'.
Qed.

(** A new ConsumerAdmin.  With a positive MaxQueueLength below [INT_MAX], the constructor makes
    an empty queue with room for that many unread events, under the filter the properties ask for:
    a FilterId wins over a FilterKind.  With a MaxQueueLength of zero an assertion of the queue
    fails. *)
Theorem consumer_admin_created `{!OrbLaws} poa props this_ca w :
  (maxQueueLength props = 0 → new_ConsumerAdmin poa props this_ca w = Aborted w) ∧
  (0 < maxQueueLength props < INT_MAX →
   ∀ p, activate_object_with_id poa "ConsumerAdmin" this_ca (poas w) = inr p →
   ∃ ca, new_ConsumerAdmin poa props this_ca w = Ret ca (set_poas p w) ∧
     Rep (ca_queue ca) (ca_heap ca) [] 0 ∧ ca_queueLength ca = maxQueueLength props + 1 ∧
     match map_find "FilterId" (_attr props), map_find "FilterKind" (_attr props) with
     | Some rid, _ => _filter (ca_queue ca) = Some (FilterByRepositoryId rid)
     | None, Some v => _filter (ca_queue ca) = Some (FilterByTCKind (atol v))
     | None, None => _filter (ca_queue ca) = None
     end).
Proof.
  split; [unfold new_ConsumerAdmin; by intros ->|]. intros Hq p Hp.
  destruct (new_ConsumerAdmin_ret poa props this_ca w p) as (q & Eq & ->); [lia|done|].
  pose proof (rep_new _ _ Eq ltac:(lia)) as R.
  assert (_size q = maxQueueLength props + 1 ∧ _filter q = None) as [Hs Hf].
  { unfold new_EventQueue in Eq. case_match; [|done]. by injection Eq as <-. }
  eexists. split; [done|]. unfold ca_queueLength. simpl.
  unfold channel_filter, hasAttr, attrString, attrLong.
  destruct (map_find "FilterId" (_attr props)) as [rid|]; simpl; [split_and!; [by apply rep_setFilter|done..]|].
  destruct (map_find "FilterKind" (_attr props)) as [v|]; simpl; [|done].
  split_and!; [by apply rep_setFilter|done..].
Qed.

(** Sending.  Events handed to the consumer side join the abstract queue in order, those the
    filter refuses excepted; [append] never reads a dangling pointer; every reader (a pushing or
    pulling supplier) stays at a position of the queue, and is moved only in whole laps. *)
Theorem consumer_send evs s log rej w :
  Rep (ca_queue s) (ca_heap s) log rej → forallb well_typed evs = true →
  ∃ q h, ca_send_events evs (s, w) = Ret tt (ca_set_events q h s, w) ∧
    Rep q h (log ++ accepted (_filter (ca_queue s)) evs) (rej + refused (_filter (ca_queue s)) evs) ∧
    ∀ r pos, reader_at (ca_queue s) log r pos →
      ∃ laps : nat, reader_at q (log ++ accepted (_filter (ca_queue s)) evs) r
                      (pos + laps * Z.to_nat (_size q)).
Proof.
  intros R Hw. destruct (send_all evs s log rej w R Hw) as (q & h & E & R' & Hs & _).
  exists q, h. split; [done|]. split; [done|]. intros r pos Hat.
  pose proof (rep_size _ _ _ _ R) as Hsz. rewrite Hs.
  generalize (accepted (_filter (ca_queue s)) evs). intros l. revert Hs. clear -Hat Hsz. intros Hs.
  assert (Hgo : ∀ l log pos, reader_at (ca_queue s) log r pos →
    ∃ laps : nat, reader_at (ca_queue s) (log ++ l) r (pos + laps * Z.to_nat (_size (ca_queue s)))).
  { clear l log pos Hat. induction l as [|a l IH]; intros log pos Hat.
    - exists 0%nat. by rewrite app_nil_r, Nat.add_0_r.
    - pose proof (append_reader (ca_queue s) (ca_queue s) log a r pos ltac:(lia) eq_refl Hat) as H1.
      destruct (IH _ _ H1) as (k & Hk). rewrite <- app_assoc in Hk. unfold lap in Hk. case_decide as Hd.
      + by exists k.
      + exists (S k). replace (pos + S k * _)%nat with
          (S (length log) + k * Z.to_nat (_size (ca_queue s)))%nat; [done|].
        destruct Hat as [Hle Hlag _]. lia. }
  destruct (Hgo l log pos Hat) as (k & [H1 H2' H3]). exists k. split; rewrite ?Hs; done.
Qed.
End consumer_admin.

(** ** Witnesses *)

Definition ca_props : PersistNode :=
  mkNode [] [("FilterId", "IDL:a:1.0"); ("FilterKind", "5"); ("MaxQueueLength", "2")].

Lemma consumer_admin_created_witness :
  0 < maxQueueLength ca_props < INT_MAX ∧
  ∃ ca p, new_ConsumerAdmin "chan" ca_props 32 model_world = Ret ca (set_poas p model_world) ∧
    ca_queueLength ca = 3 ∧ _filter (ca_queue ca) = Some (FilterByRepositoryId "IDL:a:1.0").
Proof.
  assert (Hq : 0 < maxQueueLength ca_props < INT_MAX) by (vm_compute; split; reflexivity).
  split; [exact Hq|].
  destruct (consumer_admin_created "chan" ca_props 32 model_world) as [_ H].
  destruct (H Hq (mkModelPoas [] [("chan", 32, "ConsumerAdmin")]) eq_refl) as (ca & E & _ & Hl & Hf).
  exists ca, (mkModelPoas [] [("chan", 32, "ConsumerAdmin")]).
  split; [exact E|]. split; [exact Hl|exact Hf].
Defined.

Definition ca_sample : ConsumerAdmin_i :=
  mkCA "chan" ca_props (mkEventQueue 0 3 [None; None; None] (Some (FilterByRepositoryId "IDL:a:1.0")))
    ∅ None None.

Lemma consumer_send_witness :
  Rep (ca_queue ca_sample) (ca_heap ca_sample) [] 0 ∧
  ∃ q h, ca_send_events [ev (AStruct "IDL:a:1.0"); ev (AULong 1)] (ca_sample, model_world) =
      Ret tt (ca_set_events q h ca_sample, model_world) ∧
    Rep q h [ev (AStruct "IDL:a:1.0")] 1.
Proof.
  assert (R : Rep (ca_queue ca_sample) (ca_heap ca_sample) [] 0).
  { exact (rep_setFilter (FilterByRepositoryId "IDL:a:1.0") (mkEventQueue 0 3 [None; None; None] None)
      ∅ [] 0 (rep_new 2 _ eq_refl eq_refl)). }
  split; [exact R|].
  destruct (consumer_send [ev (AStruct "IDL:a:1.0"); ev (AULong 1)] ca_sample [] 0 model_world R eq_refl)
    as (q & h & E & R' & _).
  exists q, h. split; [exact E|exact R'].
Defined.
