(* ===== verification/EventChannel.v ===== *)
(** * EventChannel: a channel and its main loop (src/EventChannel.h, src/EventChannel.cc,
      src/Mapper.h)

    A channel owns a ConsumerAdmin and a SupplierAdmin.  Its thread alternates between a transfer
    phase, in which incoming calls are held and the events collected by the SupplierAdmin are
    handed to the ConsumerAdmin, and a communication phase, in which calls are served.  The
    calls of the communication phase are arguments of [mainLoop].

    The POA manager belongs to the ORB: it is a parameter ([PoaManagerOps]). *)

From S2P Require Import Prelude Monad CxxMap Stream PersistNode PersistReplay PersistLog ChannelProps.
From S2P Require Import Corba ModelOrb Filter EventQueue Servant Orb Proxy ProxyPullConsumer ProxyPushConsumer ProxyPushSupplier SupplierAdmin ConsumerAdmin.

Local Open Scope string_scope.
Local Open Scope Z_scope.
Local Open Scope list_scope.

(** [PortableServer::POAManager] *)
Class PoaManagerOps `{AnyOps} := {
  pm_state : Type;
  pm_initial : pm_state;                 (* of the manager [create_POA] makes *)
  pm_holding : pm_state → bool;          (* get_state() == HOLDING *)
  pm_activate : pm_state → exn + pm_state;
  pm_hold_requests : pm_state → exn + pm_state }.

(** As long as nobody deactivates the manager: it starts out holding, and can be activated and
    made to hold. *)
Class PoaManagerLaws `{PM : PoaManagerOps} : Prop := {
  pm_initial_holding : pm_holding pm_initial = true;
  pm_activates st : pm_holding st = true →
    ∃ st', pm_activate st = inr st' ∧ pm_holding st' = false ∧
    ∃ st2, pm_hold_requests st' = inr st2 ∧ pm_holding st2 = true }.

Section channel.
Context `{OO : OrbOps} `{PM : !PoaManagerOps}.

(** [_poa] by its name; [None] is nil.  [_mapper] by the address of the servant. *)
Record EventChannel_i := mkEC {
  ec_supplierAdmin : option SupplierAdmin_i;
  ec_consumerAdmin : option ConsumerAdmin_i;
  ec_poa : option string;
  ec_poaManager : pm_state;
  ec_shutdownRequested : bool;
  ec_properties : PersistNode;
  ec_mapper : option Z;
  ec_refCount : Z;
  ec_name : string }.

Definition ec_set_sa (s : option SupplierAdmin_i) (c : EventChannel_i) : EventChannel_i :=
  mkEC s (ec_consumerAdmin c) (ec_poa c) (ec_poaManager c) (ec_shutdownRequested c) (ec_properties c)
    (ec_mapper c) (ec_refCount c) (ec_name c).
Definition ec_set_ca (s : option ConsumerAdmin_i) (c : EventChannel_i) : EventChannel_i :=
  mkEC (ec_supplierAdmin c) s (ec_poa c) (ec_poaManager c) (ec_shutdownRequested c) (ec_properties c)
    (ec_mapper c) (ec_refCount c) (ec_name c).
Definition ec_set_poa (p : option string) (c : EventChannel_i) : EventChannel_i :=
  mkEC (ec_supplierAdmin c) (ec_consumerAdmin c) p (ec_poaManager c) (ec_shutdownRequested c)
    (ec_properties c) (ec_mapper c) (ec_refCount c) (ec_name c).
Definition ec_set_pm (p : pm_state) (c : EventChannel_i) : EventChannel_i :=
  mkEC (ec_supplierAdmin c) (ec_consumerAdmin c) (ec_poa c) p (ec_shutdownRequested c)
    (ec_properties c) (ec_mapper c) (ec_refCount c) (ec_name c).
Definition ec_set_shutdown (b : bool) (c : EventChannel_i) : EventChannel_i :=
  mkEC (ec_supplierAdmin c) (ec_consumerAdmin c) (ec_poa c) (ec_poaManager c) b
    (ec_properties c) (ec_mapper c) (ec_refCount c) (ec_name c).
Definition ec_set_properties (n : PersistNode) (c : EventChannel_i) : EventChannel_i :=
  mkEC (ec_supplierAdmin c) (ec_consumerAdmin c) (ec_poa c) (ec_poaManager c) (ec_shutdownRequested c)
    n (ec_mapper c) (ec_refCount c) (ec_name c).
Definition ec_set_mapper (m : option Z) (c : EventChannel_i) : EventChannel_i :=
  mkEC (ec_supplierAdmin c) (ec_consumerAdmin c) (ec_poa c) (ec_poaManager c) (ec_shutdownRequested c)
    (ec_properties c) m (ec_refCount c) (ec_name c).
Definition ec_set_refCount (n : Z) (c : EventChannel_i) : EventChannel_i :=
  mkEC (ec_supplierAdmin c) (ec_consumerAdmin c) (ec_poa c) (ec_poaManager c) (ec_shutdownRequested c)
    (ec_properties c) (ec_mapper c) n (ec_name c).
Definition ec_set_name (s : string) (c : EventChannel_i) : EventChannel_i :=
  mkEC (ec_supplierAdmin c) (ec_consumerAdmin c) (ec_poa c) (ec_poaManager c) (ec_shutdownRequested c)
    (ec_properties c) (ec_mapper c) (ec_refCount c) s.

(** The constructor. *)
Definition new_EventChannel : EventChannel_i :=
  mkEC None None None pm_initial false empty_node None 1 "".

(** Run a method of an admin, if there is one. *)
Definition on_sa {A} (dflt : A) (m : Meth SupplierAdmin_i A) : Meth EventChannel_i A := λ s,
  match ec_supplierAdmin s.1 with
  | None => Ret dflt s
  | Some a => zoom (λ s, (a, s.2)) (λ r s, (ec_set_sa (Some r.1) s.1, r.2)) m s
  end.
Definition on_ca {A} (dflt : A) (m : Meth ConsumerAdmin_i A) : Meth EventChannel_i A := λ s,
  match ec_consumerAdmin s.1 with
  | None => Ret dflt s
  | Some a => zoom (λ s, (a, s.2)) (λ r s, (ec_set_ca (Some r.1) s.1, r.2)) m s
  end.

(** A call on the POA manager. *)
Definition on_pm (f : pm_state → exn + pm_state) : Meth EventChannel_i unit :=
  c ← self;
  match f (ec_poaManager c) with
  | inl e => throw e
  | inr st => upd (ec_set_pm st)
  end.

(** [for_consumers()]: [_this()] of the servant activated as [ConsumerAdmin]. *)
Definition for_consumers : Meth EventChannel_i Object :=
  c ← self;
  match ec_consumerAdmin c with
  | Some ca =>
      if ec_shutdownRequested c then throw OBJECT_NOT_EXIST
      else w ← theW;
           match id_to_reference (ca_poa ca) "ConsumerAdmin" (poas w) with
           | inr o => mret o | inl e => throw e end
  | None => throw OBJECT_NOT_EXIST
  end.

(** [for_suppliers()] *)
Definition for_suppliers : Meth EventChannel_i Object :=
  c ← self;
  match ec_supplierAdmin c with
  | Some sa =>
      if ec_shutdownRequested c then throw OBJECT_NOT_EXIST
      else w ← theW;
           match id_to_reference (sa_poa sa) "SupplierAdmin" (poas w) with
           | inr o => mret o | inl e => throw e end
  | None => throw OBJECT_NOT_EXIST
  end.

(** [destroy()] *)
Definition ec_destroy : Meth EventChannel_i unit :=
  c ← self;
  if ec_shutdownRequested c then throw OBJECT_NOT_EXIST
  else
    _ ← upd (ec_set_shutdown true);
    _ ← (if pm_holding (ec_poaManager c) then on_pm pm_activate else mret tt);
    _ ← on_ca tt ca_disconnect;
    on_sa tt sa_disconnect.

(** [_add_ref()]; a reference count is an [int]. *)
Definition ec_add_ref : Meth EventChannel_i unit :=
  upd (λ c, ec_set_refCount (i32 (ec_refCount c + 1)) c).

(** [_remove_ref()]: [true] if the count has reached zero, and the thread is joined. *)
Definition ec_remove_ref : Meth EventChannel_i bool :=
  _ ← upd (λ c, ec_set_refCount (i32 (ec_refCount c - 1)) c);
  c ← self;
  mret (ec_refCount c =? 0).

(** [createPoa(channelName)] *)
Definition createPoa (channelName : string) : Meth EventChannel_i unit :=
  _ ← onW (poa_op (create_POA channelName));
  _ ← upd (ec_set_poa (Some channelName));
  upd (ec_set_pm pm_initial).

(** The constructor of [Mapper], at address [addr], and [Mapper::destroy()]. *)
Definition INSPOA : string := "omniINSPOA".
Definition new_Mapper (addr : Z) (id : string) : M exn world unit := activateObjectWithId INSPOA addr id.
Definition mapper_destroy (addr : Z) : M exn world unit := deactivateObject INSPOA addr.

(** [setInsName(v)]: the new mapper is made before the old one is destroyed. *)
Definition setInsName (addr : Z) (v : string) : Meth EventChannel_i unit :=
  newMapper ← (if negb (str_empty v) then _ ← onW (new_Mapper addr v); mret (Some addr) else mret None);
  c ← self;
  _ ← match ec_mapper c with Some old => onW (mapper_destroy old) | None => mret tt end;
  upd (ec_set_mapper newMapper).

(** What [activate] needs from outside: addresses for the new objects, and what remote proxies
    answer to being connected. *)
Record env := mkEnv {
  e_ca : Z; e_sa : Z; e_sa_mgr : Z; e_push_mgr : Z; e_pull_mgr : Z; e_mapper : Z;
  e_pushcons : list Z; e_pullcons : list Z; e_pushsupp : list Z; e_pullsupp : list Z;
  e_connect_consumer : Object → exn + unit;
  e_connect_supplier : Object → string → exn + unit }.

(** [activate(channelName,node)], at address [this_ec]; starting the thread is left to the
    caller.  Activation adds a reference to the servant. *)
Definition ec_activate (e : env) (this_ec : Z) (channelName : string) (node : option PersistNode)
    : Meth EventChannel_i unit :=
  _ ← upd (ec_set_name channelName);
  _ ← createPoa channelName;
  _ ← match node with
      | Some n => upd (λ c, ec_set_properties (mkNode (_child (ec_properties c)) (_attr n)) c)
      | None => mret tt
      end;
  c ← self;
  ca ← onW (new_ConsumerAdmin channelName (ec_properties c) (e_ca e));
  _ ← upd (ec_set_ca (Some ca));
  sa ← onW (new_SupplierAdmin channelName (ec_properties c) (e_ca e) (e_sa e));
  _ ← upd (ec_set_sa (Some sa));
  _ ← match node with
      | Some n =>
          _ ← match child "SupplierAdmin" n with
              | Some saNode => on_sa tt (sa_reincarnate (e_connect_supplier e) (e_sa_mgr e)
                                           (e_pushcons e) (e_pullcons e) saNode)
              | None => mret tt
              end;
          match child "ConsumerAdmin" n with
          | Some caNode => on_ca tt (ca_reincarnate (e_connect_consumer e) (e_push_mgr e) (e_pull_mgr e)
                                       (e_pushsupp e) (e_pullsupp e) caNode)
          | None => mret tt
          end
      | None => mret tt
      end;
  _ ← onW (activateObjectWithId channelName this_ec "EventChannel");
  _ ← ec_add_ref;
  _ ← ec_remove_ref;
  c ← self;
  setInsName (e_mapper e) (attrString "InsName" "" (ec_properties c)).

(** [~EventChannel_i()]; the admins are released, and the POA is not touched. *)
Definition ec_delete (e : env) : Meth EventChannel_i unit :=
  c ← self;
  _ ← match ec_mapper c with
      | Some m => _ ← onW (mapper_destroy m); upd (ec_set_mapper None)
      | None => mret tt
      end;
  _ ← match ec_consumerAdmin c with
      | Some _ => _ ← onW (remove_ref (e_ca e)); upd (ec_set_ca None)
      | None => mret tt
      end;
  match ec_supplierAdmin c with
  | Some _ => _ ← onW (remove_ref (e_sa e)); upd (ec_set_sa None)
  | None => mret tt
  end.

(** [output(os)]; the name of a nil POA cannot be had. *)
Definition ec_output (c : EventChannel_i) : ostream_op := λ w,
  match ec_poa c with
  | None => throw (SystemException "INV_OBJREF")
  | Some poaName =>
      _ ← emit (output ("ecf/" +:+ poaName) (ec_properties c));
      _ ← match ec_supplierAdmin c with Some a => sa_output a w | None => mret tt end;
      match ec_consumerAdmin c with Some a => ca_output a w | None => mret tt end
  end.

(** [name()] *)
Definition ec_get_name (c : EventChannel_i) : string :=
  match ec_poa c with Some p => p | None => ec_name c end.

Definition hasMapper (c : EventChannel_i) : bool :=
  match ec_mapper c with Some _ => true | None => false end.

(** A call that is served: what it throws goes to the client. *)
Definition serve (call : Meth EventChannel_i unit) : Meth EventChannel_i unit :=
  try_catch call (λ _, Some (mret tt)).

(** The transfer phase: the events collected are handed over. *)
Definition transfer (poll : request → option reply) : Meth EventChannel_i unit :=
  events ← on_sa [] (sa_collect poll);
  on_ca tt (ca_send_events events).

(** A cycle of [mainLoop]: the calls that are still in progress while requests are held, the
    responses that have arrived, and the calls served while the thread sleeps. *)
Record cycle_env := mkCycle {
  holding_calls : list (Meth EventChannel_i unit);
  responses : request → option reply;
  served_calls : list (Meth EventChannel_i unit) }.

(** [while(_refCount>0 && !_shutdownRequested)]: [true] if the loop has ended, [false] if it is
    still running after the given cycles. *)
Fixpoint loop_cycles (cycles : list cycle_env) : Meth EventChannel_i bool :=
  c ← self;
  if (0 <? ec_refCount c) && negb (ec_shutdownRequested c) then
    match cycles with
    | [] => mret false
    | cy :: cycles' =>
        _ ← for_each (holding_calls cy) serve;
        _ ← on_pm pm_hold_requests;
        c ← self;
        if ec_shutdownRequested c then mret true
        else
          _ ← transfer (responses cy);
          _ ← on_pm pm_activate;
          _ ← for_each (served_calls cy) serve;
          loop_cycles cycles'
    end
  else mret true.

(** [mainLoop()] *)
Definition mainLoop (cycles : list cycle_env) : Meth EventChannel_i bool :=
  _ ← on_pm pm_activate; loop_cycles cycles.

(** ** The store *)

(** [EventChannelStore]: the set of the addresses of channels, [channels] being what is there. *)
Definition EventChannelStore : Type := list (Z * unit).

Definition store_insert (channel : Z) (st : EventChannelStore) : EventChannelStore :=
  (map_insert channel tt st).1.
Definition store_erase (channel : Z) (st : EventChannelStore) : EventChannelStore :=
  match map_find channel st with None => st | Some _ => map_erase channel st end.

(** [output(os)] *)
Definition store_output (channels : list (Z * EventChannel_i)) (st : EventChannelStore) : ostream_op := λ w,
  for_each st (λ i, match map_find i.1 channels with Some c => ec_output c w | None => abort end).

(** [exists(cname)] *)
Definition store_exists (channels : list (Z * EventChannel_i)) (st : EventChannelStore) (cname : string) : bool :=
  existsb (λ i, match map_find i.1 channels with
                | Some c => String.eqb cname (ec_get_name c) | None => false end) st.

(** [empty()]: the channels in turn; an exception of one ends the loop. *)
Definition store_empty (st : EventChannelStore) : M exn (list (Z * EventChannel_i) * world) unit :=
  for_each st (λ i s,
    match map_find i.1 s.1 with
    | None => Aborted s
    | Some c => zoom (λ s, (c, s.2)) (λ r s, (map_put i.1 r.1 s.1, r.2)) ec_destroy s
    end).

(** [struct EventChannelInfo] *)
Record EventChannelInfo := mkInfo {
  channel_name : string; pull_retry_period : Z; max_queue_length : Z; max_num_proxies : Z;
  cycle_period : Z; has_mapper : bool; filter_id : string }.

Definition channel_info (c : EventChannel_i) : EventChannelInfo :=
  mkInfo (ec_get_name c) (i32 (pullRetryPeriod_ms (ec_properties c)))
    (i32 (maxQueueLength (ec_properties c))) (i32 (maxNumProxies (ec_properties c)))
    (i32 (cyclePeriod_ns (ec_properties c))) (hasMapper c)
    (if hasAttr "FilterId" (ec_properties c) then attrString "FilterId" "" (ec_properties c) else "").

(** [list(clist)] *)
Definition store_list (channels : list (Z * EventChannel_i)) (st : EventChannelStore) : list EventChannelInfo :=
  omap (λ i, channel_info <$> map_find i.1 channels) st.

(** ** The thread *)

(** [run_undetached()], for the channel at [this_ec]; the first component of the state is the
    store it was given, if any.  Every CORBA exception ends the thread. *)
Definition RMeth (A : Type) : Type := M exn (option EventChannelStore * EventChannel_i * world) A.

Definition on_channel {A} (m : Meth EventChannel_i A) : RMeth A :=
  zoom (λ s, (s.1.2, s.2)) (λ r s, (s.1.1, r.1, r.2)) m.
Definition on_store (f : EventChannelStore → EventChannelStore) : RMeth unit :=
  modify (λ s, (f <$> s.1.1, s.1.2, s.2)).

(** The result says whether the thread has ended. *)
Definition run_undetached (this_ec : Z) (cycles : list cycle_env) : RMeth bool :=
  c ← on_channel self;
  _ ← assert (bool_decide (is_Some (ec_poa c)));
  try_catch
    (_ ← on_store (store_insert this_ec);
     c ← on_channel self;
     _ ← on_channel (onW (log_write (ec_output c)));
     ended ← on_channel (mainLoop cycles);
     if negb ended then mret false
     else
       _ ← on_store (store_erase this_ec);
       c ← on_channel self;
       _ ← (if ec_shutdownRequested c then
              match ec_poa c with
              | None => throw (SystemException "INV_OBJREF")
              | Some poaName =>
                  _ ← on_channel (onW (log_write (λ _, emit ("-ecf/" +:+ poaName +:+ nl))));
                  _ ← on_channel (onW (modify (λ w, set_poas (destroy_POA poaName (poas w)) w)));
                  on_channel (upd (ec_set_poa None))
              end
            else mret tt);
       mret true)
    (λ _, Some (mret true)).

(** ** Lemmas *)

Ltac ec_run :=
  unfold on_sa, on_ca, on_pm, theW, mbind, M_bind, mret, M_ret, onW, zoom, self, gets, upd, modify, abort, throw; simpl.

Ltac step_self :=
  match goal with |- context [mbind ?k self ?s] =>
    change (mbind k self s) with (k s.1 s); cbn beta end.

(** Calls of the delivery property: a supplier pushes an event, or time passes. *)
Inductive call := CPush (event : Any) | CTick (now : Z * Z).

Definition set_clock (t : Z * Z) (w : world) : world :=
  mkWorld (logstream w) (checkpointNeeded w) (sent w) (deferredRequests w) (orbShutdownRequested w)
    (refs w) (poas w) t (uid_count w).

Definition do_call (x : call) : Meth EventChannel_i unit :=
  match x with
  | CPush event => on_sa tt (sa_push false (λ _, mret tt) event)
  | CTick now => onW (modify (set_clock now))
  end.

Definition call_ok (x : call) : Prop :=
  match x with CPush a => well_typed a = true | CTick now => clock_ok now end.

(** A script: for each cycle, the calls while requests are being held, the responses, and the
    calls of the communication phase. *)
Definition script : Type := list (list call * (request → option reply) * list call).

Definition cycle_of (x : list call * (request → option reply) * list call) : cycle_env :=
  mkCycle (map do_call x.1.1) x.1.2 (map do_call x.2).

Definition cycle_ok (x : list call * (request → option reply) * list call) : Prop :=
  Forall call_ok x.1.1 ∧ Forall call_ok x.2 ∧
  ∀ r v out, x.1.2 r = Some (Returned v out) → well_typed v = true.

(** The specification: calls on the supplier side, and what is handed over in the script, from what
    waits, what the proxies of the pulled suppliers are doing, and the clock. *)
Definition su_call (su : supply) (x : call) : supply :=
  match x with
  | CPush a => mkSupply (su_props su) (su_clock su) (su_pending su ++ [a]) (su_proxies su) (su_next su)
  | CTick now => mkSupply (su_props su) now (su_pending su) (su_proxies su) (su_next su)
  end.
Definition su_calls (l : list call) (su : supply) : supply := fold_left su_call l su.

Fixpoint delivered (su : supply) (l : script) : list Any * supply :=
  match l with
  | [] => ([], su)
  | (held, poll, served) :: l' =>
      let r := su_collect poll (su_calls held su) in
      let d := delivered (su_calls served r.2) l' in
      (r.1 ++ d.1, d.2)
  end.

(** A running channel: [log] has been accepted by its queue, [su] is the supplier side. *)
Record running (c : EventChannel_i) (w : world) (f : option Filter) (log : list Any) (rej : nat)
    (su : supply) : Prop := {
  run_up : ec_shutdownRequested c = false;
  run_ref : 0 < ec_refCount c;
  run_sa : ∃ s, ec_supplierAdmin c = Some s ∧ sa_wf s w ∧ supply_of s w = su;
  run_ca : ∃ a, ec_consumerAdmin c = Some a ∧ Rep (ca_queue a) (ca_heap a) log rej ∧ _filter (ca_queue a) = f }.

Context `{OL : !OrbLaws} `{PL : !PoaManagerLaws}.

Lemma sa_wf_tick s w now : sa_wf s w → clock_ok now → sa_wf s (set_clock now w).
Proof. intros [H1 H2 H3] Hn. constructor; [done|done|]. intros m Hm. destruct (H3 m Hm). by constructor. Qed.

Lemma sa_wf_queue s w q : sa_wf s w → sa_wf (sa_set_queue q s) w.
Proof. intros [H1 H2 H3]. by constructor. Qed.

Lemma serve_ret m s s' : m s = Ret tt s' → serve m s = Ret tt s'.
Proof. unfold serve, try_catch. by intros ->. Qed.

Lemma calls_ret l : ∀ c w f log rej su,
  running c w f log rej su → Forall call_ok l →
  ∃ c' w', for_each (map do_call l) serve (c, w) = Ret tt (c', w') ∧
    running c' w' f log rej (su_calls l su) ∧ ec_poaManager c' = ec_poaManager c.
Proof.
  induction l as [|x l IH]; intros c w f log rej su R Hok; [by exists c, w|].
  inversion Hok as [|? ? Hx Hl]; subst. cbn [map for_each su_calls fold_left].
  destruct (run_sa _ _ _ _ _ _ R) as (s & Hs & Hwf & Hq).
  destruct x as [a|now].
  - set (s1 := sa_set_queue (sa_queue s ++ [a]) s).
    assert (E : do_call (CPush a) (c, w) = Ret tt (ec_set_sa (Some s1) c, w)).
    { unfold do_call, sa_push, push. ec_run. rewrite Hs. ec_run. done. }
    rewrite (bind_Ret _ _ _ _ _ (serve_ret _ _ _ E)).
    apply (IH (ec_set_sa (Some s1) c) w f log rej); [|done].
    destruct R as [R1 R2 R3 R4]. constructor; try done. exists s1. split; [done|].
    split; [by apply sa_wf_queue|by rewrite <- Hq].
  - assert (E : do_call (CTick now) (c, w) = Ret tt (c, set_clock now w)) by done.
    rewrite (bind_Ret _ _ _ _ _ (serve_ret _ _ _ E)).
    apply (IH c (set_clock now w) f log rej); [|done].
    destruct R as [R1 R2 R3 R4]. constructor; try done. exists s. split; [done|].
    split; [by apply sa_wf_tick|by rewrite <- Hq].
Qed.

Lemma pulled_answer poll p a :
  pulled poll p = Some a → ∃ r out, poll r = Some (Returned a out).
Proof.
  unfold pulled. destruct (_req p) as [r|]; [|done]. destruct (poll r) as [[v out|]|] eqn:E; try done.
  case_match; [|done]. intros [= <-]. by exists r, out.
Qed.

(** Everything that waits has a type. *)
Definition su_typed (su : supply) : bool := forallb well_typed (su_pending su).

Lemma collect_typed poll su :
  su_typed su = true → (∀ r v out, poll r = Some (Returned v out) → well_typed v = true) →
  forallb well_typed (su_collect poll su).1 = true.
Proof.
  intros Hw Hpoll. unfold su_collect. cbn [fst]. rewrite forallb_app. unfold su_typed in Hw. rewrite Hw.
  apply forallb_forall. intros x Hx%list_elem_of_In.
  apply list_elem_of_omap in Hx as (p & _ & (r & out & Hr)%pulled_answer). by eapply Hpoll.
Qed.

Lemma transfer_ret poll c w f log rej su :
  running c w f log rej su → su_typed su = true →
  (∀ r v out, poll r = Some (Returned v out) → well_typed v = true) →
  let r := su_collect poll su in
  ∃ c' w', transfer poll (c, w) = Ret tt (c', w') ∧
    running c' w' f (log ++ accepted f r.1) (rej + refused f r.1) r.2 ∧
    ec_poaManager c' = ec_poaManager c.
Proof.
  intros [R1 R2 (s & Hs & Hwf & Hq) (a & Ha & R & Hf)] Hw Hpoll r.
  destruct (collect_spec poll s w Hwf) as (s' & w' & E & Hsu & _ & Hwf'). rewrite Hq in E, Hsu. fold r in E, Hsu.
  pose proof (collect_typed poll su Hw Hpoll) as Ht. fold r in Ht. clearbody r.
  destruct (send_all r.1 a log rej w' R Ht) as (q & h & E2 & R' & Hsz & Hfl).
  unfold transfer. ec_run. rewrite Hs. ec_run. rewrite E. ec_run. rewrite Ha. ec_run. rewrite E2.
  eexists _, _. split; [done|]. rewrite Hf in *. split; [|done]. constructor; simpl; try done.
  - by exists s'.
  - eexists. split; [done|]. split; [exact R'|exact Hfl].
Qed.

Lemma running_pm c w f log rej su st :
  running c w f log rej su → running (ec_set_pm st c) w f log rej su.
Proof. intros []. by constructor. Qed.

Lemma calls_typed l su : Forall call_ok l → su_typed su = true → su_typed (su_calls l su) = true.
Proof.
  intros Hl. revert su. induction Hl as [|[a|now] l Hx _ IH]; intros su Hsu; [done|..]; apply IH; [|done].
  unfold su_typed in *. cbn [su_call su_pending] in *. rewrite forallb_app, Hsu. cbn. by rewrite Hx.
Qed.

Lemma loop_ret l : ∀ c w f log rej su,
  running c w f log rej su → su_typed su = true → Forall cycle_ok l →
  (∃ st, pm_hold_requests (ec_poaManager c) = inr st ∧ pm_holding st = true) →
  ∃ c' w', loop_cycles (map cycle_of l) (c, w) = Ret false (c', w') ∧
    running c' w' f (log ++ accepted f (delivered su l).1) (rej + refused f (delivered su l).1) (delivered su l).2.
Proof.
  induction l as [|[[h poll] s] l IH]; intros c w f log rej su R Hw Hok Hpm.
  - exists c, w. cbn [map loop_cycles]. ec_run. rewrite (run_up _ _ _ _ _ _ R).
    rewrite (proj2 (Z.ltb_lt _ _) (run_ref _ _ _ _ _ _ R)). simpl. split; [done|].
    unfold accepted, refused. simpl. by rewrite app_nil_r, Nat.add_0_r.
  - inversion Hok as [|? ? (Hh & Hsv & Hp) Hok']; subst. cbn [fst snd] in *. cbn [map loop_cycles].
    step_self. cbn [fst snd].
    rewrite (run_up _ _ _ _ _ _ R), (proj2 (Z.ltb_lt _ _) (run_ref _ _ _ _ _ _ R)). cbn [andb negb].
    destruct (calls_ret h c w f log rej su R Hh) as (c1 & w1 & E1 & R1 & Hpm1).
    change (holding_calls (cycle_of (h, poll, s))) with (map do_call h).
    rewrite (bind_Ret _ _ _ _ _ E1). destruct Hpm as (st1 & Est1 & Hst1).
    assert (E2 : on_pm pm_hold_requests (c1, w1) = Ret tt (ec_set_pm st1 c1, w1)).
    { ec_run. by rewrite Hpm1, Est1. }
    rewrite (bind_Ret _ _ _ _ _ E2). pose proof (running_pm _ _ _ _ _ _ st1 R1) as R2.
    step_self. cbn [fst snd].
    rewrite (run_up _ _ _ _ _ _ R2).
    destruct (transfer_ret poll _ _ _ _ _ _ R2 (calls_typed h su Hh Hw) Hp) as (c3 & w3 & E3 & R3 & Hpm3).
    change (responses (cycle_of (h, poll, s))) with poll. rewrite (bind_Ret _ _ _ _ _ E3).
    destruct (pm_activates st1 Hst1) as (st4 & Est4 & _ & Hnext).
    assert (E4 : on_pm pm_activate (c3, w3) = Ret tt (ec_set_pm st4 c3, w3)).
    { ec_run. rewrite Hpm3. simpl. by rewrite Est4. }
    rewrite (bind_Ret _ _ _ _ _ E4). pose proof (running_pm _ _ _ _ _ _ st4 R3) as R4.
    destruct (calls_ret s _ _ _ _ _ _ R4 Hsv) as (c5 & w5 & E5 & R5 & Hpm5).
    change (served_calls (cycle_of (h, poll, s))) with (map do_call s). rewrite (bind_Ret _ _ _ _ _ E5).
    simpl in R5, Hpm5.
    destruct (IH c5 w5 f _ _ _ R5) as (c' & w' & E & R');
      [by apply calls_typed|done|by rewrite Hpm5|].
    exists c', w'. split; [exact E|]. cbn [delivered fst snd].
    rewrite accepted_app, refused_app, app_assoc, Nat.add_assoc. exact R'.
Qed.

(** ** Properties *)

(** C1: a channel delivers.  From a running channel, any number of cycles with any pushes, any
    passing of time and any answers to the pulls leave it running, without an exception or a
    failed assertion; and what its queue has accepted is what it had accepted before, followed by
    exactly the events of the specification [delivered], in its order and none twice, those the
    filter refuses excepted.  In each cycle these are the events that wait, those pushed, and the
    event of each proxy whose outstanding pull was answered with one; the proxy is then free, and
    pulls again when it is time.  Events pushed after the last transfer are still waiting, and the
    proxies, their counts of failures and the time of the next pull are those of the
    specification, too. *)
Theorem channel_delivers c w f log rej su l :
  running c w f log rej su → su_typed su = true → Forall cycle_ok l →
  pm_holding (ec_poaManager c) = true →
  ∃ c' w', mainLoop (map cycle_of l) (c, w) = Ret false (c', w') ∧
    running c' w' f (log ++ accepted f (delivered su l).1) (rej + refused f (delivered su l).1) (delivered su l).2.
Proof.
  intros R Hw Hok Hpm. destruct (pm_activates _ Hpm) as (st & Est & _ & Hnext).
  assert (E : on_pm pm_activate (c, w) = Ret tt (ec_set_pm st c, w)) by (ec_run; by rewrite Est).
  unfold mainLoop. rewrite (bind_Ret _ _ _ _ _ E).
  apply (loop_ret l (ec_set_pm st c) w f log rej su); [by apply running_pm|done|done|done].
Qed.

Lemma destroy_again c w :
  ec_shutdownRequested c = true → ec_destroy (c, w) = Throw OBJECT_NOT_EXIST (c, w).
Proof. intros Hc. unfold ec_destroy. ec_run. by rewrite Hc. Qed.

(** However [destroy] ends, the channel is marked. *)
Lemma destroy_marks c w : ec_shutdownRequested (final (ec_destroy (c, w))).1 = true.
Proof.
  destruct (ec_shutdownRequested c) eqn:Ec; [by rewrite destroy_again|].
  assert (Hca : ∀ A d (m : Meth ConsumerAdmin_i A) s, ec_shutdownRequested (final (on_ca d m s)).1 =
    ec_shutdownRequested s.1).
  { intros A d m s. unfold on_ca, zoom. destruct (ec_consumerAdmin s.1); [|done].
    by destruct (m _). }
  assert (Hsa : ∀ A d (m : Meth SupplierAdmin_i A) s, ec_shutdownRequested (final (on_sa d m s)).1 =
    ec_shutdownRequested s.1).
  { intros A d m s. unfold on_sa, zoom. destruct (ec_supplierAdmin s.1); [|done].
    by destruct (m _). }
  assert (Htail : ∀ s, ec_shutdownRequested s.1 = true →
    ec_shutdownRequested (final ((_ ← on_ca tt ca_disconnect; on_sa tt sa_disconnect) s)).1 = true).
  { intros s Hs. unfold mbind, M_bind. pose proof (Hca unit tt ca_disconnect s) as H1. rewrite Hs in H1.
    destruct (on_ca tt ca_disconnect s); try done. simpl in H1. by rewrite Hsa. }
  unfold ec_destroy. step_self. cbn [fst]. rewrite Ec.
  match goal with |- context [mbind ?k (upd ?f) ?s] =>
    change (mbind k (upd f) s) with (k tt (f s.1, s.2)); cbn beta end. cbn [fst snd].
  destruct (pm_holding (ec_poaManager c)).
  - assert (Hpm : ∀ f s, ec_shutdownRequested (final (on_pm f s)).1 = ec_shutdownRequested s.1).
    { intros f [c0 w0]. ec_run. by destruct (f (ec_poaManager c0)). }
    unfold mbind at 1, M_bind at 1.
    pose proof (Hpm pm_activate (ec_set_shutdown true c, w)) as H1.
    destruct (on_pm pm_activate (ec_set_shutdown true c, w)); try done. by apply Htail.
  - unfold mbind at 1, M_bind at 1. unfold mret, M_ret. by apply Htail.
Qed.

(** Destroying a channel.  [destroy] throws [OBJECT_NOT_EXIST] if the channel is being
    destroyed already, and changes nothing.  Otherwise, however it ends (telling the clients may
    throw), the channel gives out no references to its admins any more, cannot be destroyed again,
    and its main loop ends at the next test. *)
Theorem channel_destroy c w :
  (ec_shutdownRequested c = true → ec_destroy (c, w) = Throw OBJECT_NOT_EXIST (c, w)) ∧
  let s := final (ec_destroy (c, w)) in
  ec_shutdownRequested s.1 = true ∧
  for_consumers s = Throw OBJECT_NOT_EXIST s ∧ for_suppliers s = Throw OBJECT_NOT_EXIST s ∧
  ec_destroy s = Throw OBJECT_NOT_EXIST s ∧ ∀ cycles, loop_cycles cycles s = Ret true s.
Proof.
  split; [apply destroy_again|]. intros s. pose proof (destroy_marks c w) as Hup. fold s in Hup.
  destruct s as [c' w']. cbn [fst] in Hup. split; [done|]. split_and!.
  - unfold for_consumers. step_self. cbn [fst]. rewrite Hup. by destruct (ec_consumerAdmin c').
  - unfold for_suppliers. step_self. cbn [fst]. rewrite Hup. by destruct (ec_supplierAdmin c').
  - by apply destroy_again.
  - intros cycles. destruct cycles; cbn [loop_cycles]; step_self; cbn [fst]; rewrite Hup, andb_false_r; done.
Qed.

(** The record of a channel is its properties. *)
Lemma channel_record name attrs :
  output ("ecf/" +:+ name) (mkNode [] attrs) = log_text [Put ("ecf/" +:+ name) attrs].
Proof. by rewrite output_log_text. Qed.

(** C38: the life of a channel's thread.  A new channel without proxies is put into the store and
    its record into the log, before the main loop.  If the loop ends because the channel was
    destroyed, the channel leaves the store, its record is erased (with everything below it), and
    its POA is destroyed.  If the main loop throws, the thread ends too, but the channel stays in
    the store and in the log. *)
Theorem channel_thread this_ec cycles st c w name attrs sa ca t l :
  ec_poa c = Some name → ec_properties c = mkNode [] attrs →
  ec_supplierAdmin c = Some sa → _connections (sa_pushConsumer sa) = [] → sa_pullConsumer sa = None →
  ec_consumerAdmin c = Some ca → ca_pushSupplier ca = None → ca_pullSupplier ca = None →
  logstream w = Some t → is_log t l → text_item (Put ("ecf/" +:+ name) attrs) = true →
  map_find this_ec st = None → map_sorted st = true →
  ∃ w1 t1, logstream w1 = Some t1 ∧ is_log t1 (l ++ [Put ("ecf/" +:+ name) attrs]) ∧
    (∀ c2 w2 t2 l2, mainLoop cycles (c, w1) = Ret true (c2, w2) →
       ec_shutdownRequested c2 = true → ec_poa c2 = Some name → logstream w2 = Some t2 → is_log t2 l2 →
       ∃ w3 t3, run_undetached this_ec cycles (Some st, c, w) = Ret true (Some st, ec_set_poa None c2, w3) ∧
         poas w3 = destroy_POA name (poas w2) ∧ logstream w3 = Some t3 ∧
         is_log t3 (l2 ++ [Del ("ecf/" +:+ name)])) ∧
    (∀ e c2 w2, mainLoop cycles (c, w1) = Throw e (c2, w2) →
       run_undetached this_ec cycles (Some st, c, w) = Ret true (Some (store_insert this_ec st), c2, w2)).
Proof.
  intros Hpoa Hprops Hsa Hcon Hpull Hca Hcp1 Hcp2 Hlog Hl Hitem Hst Hsort.
  assert (Hdel : text_item (Del ("ecf/" +:+ name)) = true) by (simpl in Hitem |- *; by boolify).
  set (t1 := t +:+ log_text [Put ("ecf/" +:+ name) attrs]).
  assert (Hout : ec_output c w t = Ret tt t1).
  { unfold ec_output. rewrite Hpoa, Hprops, Hsa, Hca, channel_record. unfold sa_output, ca_output, pc_output.
    rewrite Hcon, Hpull, Hcp1, Hcp2. done. }
  pose proof (log_write_ret (ec_output c) w t t1 Hlog Hout) as Hw.
  set (w1 := set_checkpointNeeded true (set_logstream (Some t1) w)) in *.
  exists w1, t1. split; [done|]. split; [apply is_log_app, is_log_text; [done|cbn [forallb]; by rewrite Hitem]|].
  assert (Hins : store_insert this_ec st = map_put this_ec tt st) by (unfold store_insert, map_insert; by rewrite Hst).
  split.
  - intros c2 w2 t2 l2 Hm Hdown Hpoa2 Hlog2 Hl2.
    assert (Her : store_erase this_ec (store_insert this_ec st) = st).
    { rewrite Hins. unfold store_erase. rewrite map_find_put_eq. apply map_sorted_ext.
      - by apply map_sorted_erase, map_sorted_put.
      - done.
      - intros k. destruct (decide (k = this_ec)) as [->|Hne].
        + rewrite map_find_erase_eq by (by apply map_sorted_put). by rewrite Hst.
        + by rewrite map_find_erase_ne, map_find_put_ne. }
    set (t3 := t2 +:+ item_line (Del ("ecf/" +:+ name))).
    pose proof (log_write_ret (λ _, emit ("-ecf/" +:+ name +:+ nl)) w2 t2 t3 Hlog2 eq_refl) as Hw3.
    exists (set_poas (destroy_POA name (poas w2)) (set_checkpointNeeded true (set_logstream (Some t3) w2))), t3.
    split; [|split_and!; [done|done|by apply is_log_app, is_log_line]].
    unfold run_undetached, on_channel, on_store, assert, try_catch. ec_run. rewrite Hpoa. simpl.
    rewrite Hw. simpl. rewrite Hm. simpl. rewrite Hdown, Hpoa2. simpl. rewrite Hw3. simpl. by rewrite Her.
  - intros e c2 w2 Hm. unfold run_undetached, on_channel, on_store, assert, try_catch. ec_run. rewrite Hpoa. simpl.
    rewrite Hw. simpl. by rewrite Hm.
Qed.
(** Destroying every channel.  If [empty] returns, every channel of the store is being
    destroyed.  But it stops at the first channel whose [destroy] throws, in particular at one that
    is being destroyed already: the channels after it are not touched. *)
Theorem store_empty_destroys st chs w :
  (∀ chs' w', store_empty st (chs, w) = Ret tt (chs', w') →
     ∀ a, a ∈ st.*1 → ∃ c, map_find a chs' = Some c ∧ ec_shutdownRequested c = true) ∧
  (∀ a c st', st = (a, tt) :: st' → map_find a chs = Some c → ec_shutdownRequested c = true →
     store_empty st (chs, w) = Throw OBJECT_NOT_EXIST (map_put a c chs, w)).
Proof.
  set (one := λ (i : Z * unit) (s : list (Z * EventChannel_i) * world),
    match map_find i.1 s.1 with
    | None => Aborted s
    | Some c => zoom (λ s, (c, s.2)) (λ r s, (map_put i.1 r.1 s.1, r.2)) ec_destroy s
    end).
  assert (Hone : ∀ i s s', one i s = Ret tt s' →
    (∃ c, map_find i.1 s'.1 = Some c ∧ ec_shutdownRequested c = true) ∧
    ∀ b, b ≠ i.1 → map_find b s'.1 = map_find b s.1).
  { intros i [h v] s' E. unfold one, zoom in E. cbn [fst snd] in E. destruct (map_find i.1 h) as [c|]; [|done].
    pose proof (destroy_marks c v) as Hm. destruct (ec_destroy (c, v)) as [[] [c' v']| | |]; try done.
    simplify_eq/=. split; [exists c'; by rewrite map_find_put_eq|].
    intros b Hb. by rewrite map_find_put_ne. }
  split.
  - unfold store_empty. fold one. revert chs w.
    assert (Hall : ∀ l s s' (P : Z → Prop), for_each l one s = Ret tt s' →
      (∀ a, P a → ∃ c, map_find a s.1 = Some c ∧ ec_shutdownRequested c = true) →
      ∀ a, P a ∨ a ∈ l.*1 → ∃ c, map_find a s'.1 = Some c ∧ ec_shutdownRequested c = true).
    { clear st. induction l as [|i l IH]; intros s s' P E HP a Ha.
      - injection E as <-. destruct Ha as [Ha|Ha]; [by apply HP|by apply elem_of_nil in Ha].
      - cbn [for_each] in E. unfold mbind, M_bind in E. destruct (one i s) as [[] s1| | |] eqn:E1; try done.
        destruct (Hone _ _ _ E1) as [Hi Hoth].
        apply (IH s1 s' (λ b, b = i.1 ∨ P b) E).
        + intros b [->|Hb]; [done|]. destruct (decide (b = i.1)) as [->|Hne]; [done|].
          rewrite Hoth by done. by apply HP.
        + destruct Ha as [Ha|Ha]; [by left; right|]. apply elem_of_cons in Ha as [->|Ha]; [by left; left|by right]. }
    intros chs w chs' w' E a Ha. apply (Hall st (chs, w) (chs', w') (λ _, False) E); [done|by right].
  - intros a c st' -> Hf Hc. unfold store_empty. cbn [for_each].
    apply bind_Throw. cbn [fst snd]. rewrite Hf. unfold zoom. by rewrite destroy_again.
Qed.

(** A proxy that is not connected stops [destroy].  If the first proxy that pushes to consumers
    was never connected (or has lost its consumer) but is still active, telling it to disconnect
    throws [OBJECT_NOT_EXIST]: [destroy] throws it to its caller, although the channel is being
    destroyed; no other consumer and no supplier is told. *)
Theorem destroy_interrupted c w ca m b p rest oid :
  ec_shutdownRequested c = false → pm_holding (ec_poaManager c) = false →
  ec_consumerAdmin c = Some ca → ca_pushSupplier ca = Some m → _servants m = (b, p) :: rest →
  pps_target p = None → servant_to_id (_managedPoa m) b (poas w) = inr oid →
  ∃ ca' w', ec_destroy (c, w) = Throw OBJECT_NOT_EXIST (ec_set_ca (Some ca') (ec_set_shutdown true c), w') ∧
    sent w' = sent w ∧ deferredRequests w' = deferredRequests w.
Proof.
  intros Hs Hpm Hca Hm Hsv Ht Hid.
  destruct (eraseKey_ret (mplace (ca_poa ca) b m) pps_name oid w Hid) as (w1 & E1 & Hs1 & Hp1 & Hd1 & _).
  destruct (deactivate_active_ret (_managedPoa m) b w1) as (ps & E2 & _).
  { unfold is_active. by rewrite Hp1, Hid. }
  assert (E : disconnect_push_supplier (mplace (ca_poa ca) b m) (p, w) =
    Throw OBJECT_NOT_EXIST (p, set_poas ps w1)).
  { unfold disconnect_push_supplier. ec_run. rewrite E1. ec_run. rewrite E2. ec_run. by rewrite Ht. }
  assert (Hfind : map_find b (_servants m) = Some p) by (rewrite Hsv; simpl; by rewrite key_eqb_refl).
  unfold ec_destroy, ca_disconnect, on_push_manager, pps_disconnect. ec_run. rewrite Hs. ec_run. rewrite Hpm. ec_run.
  rewrite Hca. ec_run. rewrite Hm. ec_run. rewrite Hsv. cbn [for_each]. ec_run.
  unfold on_servant. cbn [fst snd]. rewrite Hfind, E. eexists _, _. split; [done|]. done.
Qed.
End channel.

(** ** A POA manager *)

Inductive model_pm := PmHolding | PmActive | PmInactive.

#[export] Instance model_PoaManagerOps : PoaManagerOps := {
  pm_state := model_pm;
  pm_initial := PmHolding;
  pm_holding st := match st with PmHolding => true | _ => false end;
  pm_activate st := match st with PmInactive => inl (UserException "AdapterInactive") | _ => inr PmActive end;
  pm_hold_requests st := match st with PmInactive => inl (UserException "AdapterInactive") | _ => inr PmHolding end }.

Definition pmst (st : model_pm) : pm_state := st.

#[export] Instance model_PoaManagerLaws : PoaManagerLaws.
Proof.
  split; [reflexivity|]. intros [| |] Hst; try discriminate Hst. exists PmActive. split; [reflexivity|].
  split; [reflexivity|]. exists PmHolding. split; reflexivity.
Qed.

(** ** Witnesses *)

Definition ec_sample : EventChannel_i :=
  mkEC (Some (mkSA "chan" empty_node (new_ProxyPushConsumer "chan") None [] (0, 0))) (Some ca_sample)
    (Some "chan") (pmst PmHolding) false (mkNode [] [("MaxQueueLength", "2")]) None 1 "chan".

(** The suppliers of [sa_sample], one of which has a pull outstanding; events are pushed before, in
    and after the cycles, and both pulls are answered. *)
Definition ec_pulling : EventChannel_i := ec_set_sa (Some sa_sample) ec_sample.
Definition ec_answers : request → option reply := λ _, Some (Returned (ev (AStruct "IDL:a:1.0")) None).
Definition ec_script : script :=
  [([CPush (ev (AStruct "IDL:a:1.0"))], ec_answers, [CPush (ev (AULong 1)); CTick (1001, 5)]);
   ([], ec_answers, [CPush (ev (AStruct "IDL:a:1.0"))])].
Definition ec_filter : option Filter := Some (FilterByRepositoryId "IDL:a:1.0").

Lemma channel_delivers_witness :
  running ec_pulling sa_world ec_filter [] 0 (supply_of sa_sample sa_world) ∧
  ∃ c' w', mainLoop (map cycle_of ec_script) (ec_pulling, sa_world) = Ret false (c', w') ∧
    let d := delivered (supply_of sa_sample sa_world) ec_script in
    d.1 = [ev (AULong 1); ev (AStruct "IDL:a:1.0"); ev (AStruct "IDL:a:1.0");
           ev (AULong 1); ev (AStruct "IDL:a:1.0"); ev (AStruct "IDL:a:1.0")] ∧
    su_pending d.2 = [ev (AStruct "IDL:a:1.0")] ∧
    running c' w' ec_filter (accepted ec_filter d.1) 2 d.2.
Proof.
  assert (R : running ec_pulling sa_world ec_filter [] 0 (supply_of sa_sample sa_world)).
  { constructor; [reflexivity|simpl; lia| |].
    - exists sa_sample. split; [reflexivity|]. split; [exact sa_sample_wf|reflexivity].
    - eexists. split; [reflexivity|]. split; [|reflexivity].
      exact (rep_setFilter (FilterByRepositoryId "IDL:a:1.0") (mkEventQueue 0 3 [None; None; None] None)
        ∅ [] 0 (rep_new 2 _ eq_refl eq_refl)). }
  split; [exact R|].
  destruct (channel_delivers ec_pulling sa_world _ _ _ _ ec_script R eq_refl) as (c' & w' & E & R').
  - unfold ec_script. repeat (constructor; [split_and!; [repeat constructor..|by intros r v out [= <- _]]|]);
      repeat constructor; unfold clock_ok, BILLION; simpl; lia.
  - reflexivity.
  - exists c', w'. split; [exact E|]. split; [vm_compute; reflexivity|]. split; [vm_compute; reflexivity|exact R'].
Defined.

Lemma channel_destroy_witness :
  let s := final (ec_destroy (ec_sample, model_world)) in
  ec_shutdownRequested s.1 = true ∧ ec_destroy s = Throw OBJECT_NOT_EXIST s.
Proof.
  destruct (channel_destroy ec_sample model_world) as (_ & H1 & _ & _ & H2 & _). split; [exact H1|exact H2].
Defined.

(** A channel whose main loop ends in its first cycle, since it is destroyed. *)
Definition ec_cycles : list cycle_env := [mkCycle [ec_destroy] (λ _, None) []].

Definition ec_sample2 : EventChannel_i :=
  ec_set_ca (Some (mkCA "chan" ca_props (mkEventQueue 0 3 [None; None; None] None) ∅ None None)) ec_sample.

Lemma channel_thread_witness :
  ec_poa ec_sample2 = Some "chan" ∧
  ∃ c2 w3 t3, run_undetached 16 ec_cycles (Some [], ec_sample2, model_world) =
      Ret true (Some [], ec_set_poa None c2, w3) ∧ logstream w3 = Some t3 ∧
    is_log t3 [Put "ecf/chan" [("MaxQueueLength", "2")]; Del "ecf/chan"].
Proof.
  split; [reflexivity|].
  destruct (channel_thread 16 ec_cycles [] ec_sample2 model_world "chan" [("MaxQueueLength", "2")] _ _ "" []
    eq_refl eq_refl eq_refl eq_refl eq_refl eq_refl eq_refl eq_refl eq_refl is_log_nil eq_refl eq_refl eq_refl)
    as (w1 & t1 & Hl1 & Hit & H & _).
  destruct (H (ec_set_pm (pmst PmHolding) (ec_set_shutdown true ec_sample2)) w1 t1 _ eq_refl eq_refl eq_refl Hl1 Hit)
    as (w3 & t3 & E & _ & Hl3 & Hit3).
  exists (ec_set_pm (pmst PmHolding) (ec_set_shutdown true ec_sample2)), w3, t3. split; [exact E|]. split; [exact Hl3|exact Hit3].
Defined.

Lemma store_empty_destroys_witness :
  let down := ec_set_shutdown true ec_sample in
  map_find 16 [(16, down); (32, ec_sample)] = Some down ∧
  store_empty [(16, tt); (32, tt)] ([(16, down); (32, ec_sample)], model_world) =
    Throw OBJECT_NOT_EXIST ([(16, down); (32, ec_sample)], model_world).
Proof.
  split; [reflexivity|].
  destruct (store_empty_destroys [(16, tt); (32, tt)] [(16, ec_set_shutdown true ec_sample); (32, ec_sample)] model_world)
    as [_ H]. exact (H 16 _ [(32, tt)] eq_refl eq_refl eq_refl).
Defined.

Definition ec_unconnected : EventChannel_i :=
  ec_set_pm (pmst PmActive) (ec_set_ca (Some (mkCA "chan" ca_props (mkEventQueue 0 3 [None; None; None] None) ∅
    (Some (mkProxyManager "chan.ProxyPushSupplier" [(64, new_ProxyPushSupplier (mkEventQueue 0 3 [None; None; None] None))]))
    None)) ec_sample).

Definition ec_world : world :=
  set_poas (mkModelPoas [] [("chan.ProxyPushSupplier", 64, "1.2.3")]) model_world.

Lemma destroy_interrupted_witness :
  servant_to_id "chan.ProxyPushSupplier" 64 (poas ec_world) = inr "1.2.3" ∧
  ∃ ca' w', ec_destroy (ec_unconnected, ec_world) =
      Throw OBJECT_NOT_EXIST (ec_set_ca (Some ca') (ec_set_shutdown true ec_unconnected), w') ∧ sent w' = [].
Proof.
  split; [reflexivity|].
  destruct (destroy_interrupted ec_unconnected ec_world _ _ 64 _ [] "1.2.3"
    eq_refl eq_refl eq_refl eq_refl eq_refl eq_refl eq_refl) as (ca' & w' & E & Hs & _).
  exists ca', w'. split; [exact E|exact Hs].
Defined.
