(* ===== verification/EventChannelFactory.v ===== *)
(** * EventChannelFactory: creating and finding channels
      (src/EventChannelFactory.h, src/EventChannelFactory.cc)

    Clients ask for a channel with criteria, which become the channel's properties.  A channel
    with an InsName is called that, and can be found under that name; others get a unique id.
    Starting the thread of a channel is recorded in [f_started]; what the thread does is
    [run_undetached]. *)

From S2P Require Import Prelude Monad CxxMap Stream PersistNode PersistReplay PersistLog PersistLookup ChannelProps.
From S2P Require Import Corba ModelOrb Filter EventQueue Servant Orb Proxy ProxyPushConsumer SupplierAdmin ConsumerAdmin EventChannel.

Local Open Scope string_scope.
Local Open Scope Z_scope.
Local Open Scope list_scope.

Section criteria.
Context `{AO : AnyOps}.

(** [supports(k)] *)
Definition supports (k : Key) : bool :=
  match k with
  | [(id, kind)] => String.eqb id "EventChannel" && String.eqb kind "object interface"
  | _ => false
  end.

(** [extract(name,from)] *)
Fixpoint extract (name : string) (from : Criteria) : Criteria :=
  match from with
  | [] => []
  | (n, v) :: from' => if String.eqb n name then [(n, v)] else extract name from'
  end.

(** A numeric criterion that is ignored when it is zero. *)
Definition criterion_ulong (key : string) (criteria : Criteria) (value : Any) (result : PersistNode)
    : exn + PersistNode :=
  match any_ulong value with
  | None => inl (InvalidCriteria (extract key criteria))
  | Some v => inr (if 0 <? v then addattr_long key v result else result)
  end.

(** A string criterion that is ignored when it is empty. *)
Definition criterion_string (key : string) (criteria : Criteria) (value : Any) (result : PersistNode)
    : exn + PersistNode :=
  match any_string value with
  | None => inl (InvalidCriteria (extract key criteria))
  | Some s => inr (if str_empty s then result else addattr (key +:+ "=" +:+ s) result)
  end.

(** The body of the loop of [parseCriteria]. *)
Definition parse_criterion (criteria : Criteria) (c : string * Any) (result : PersistNode)
    : exn + PersistNode :=
  let (name, value) := c in
  if String.eqb name "PullRetryPeriod_ms" then
    match any_ulong value with
    | None => inl (InvalidCriteria (extract "PullRetryPeriod_ms" criteria))
    | Some v => if v <=? 0 then inl (CannotMeetCriteria (extract "PullRetryPeriod_ms" criteria))
                else inr (addattr_long "PullRetryPeriod_ms" v result)
    end
  else if String.eqb name "PullRetryPeriod" then
    if hasAttr "PullRetryPeriod_ms" result then inr result
    else match any_ulong value with
         | None => inl (InvalidCriteria (extract "PullRetryPeriod" criteria))
         | Some v => if v <=? 0 then inl (CannotMeetCriteria (extract "PullRetryPeriod" criteria))
                     else inr (addattr_long "PullRetryPeriod_ms" (u32 (v * 1000)) result)
         end
  else if String.eqb name "MaxQueueLength" then criterion_ulong "MaxQueueLength" criteria value result
  else if String.eqb name "MaxNumProxies" then criterion_ulong "MaxNumProxies" criteria value result
  else if String.eqb name "CyclePeriod_ns" then criterion_ulong "CyclePeriod_ns" criteria value result
  else if String.eqb name "InsName" then criterion_string "InsName" criteria value result
  else if String.eqb name "FilterId" then criterion_string "FilterId" criteria value result
  else inr result.   (* MaxEventsPerConsumer is obsolete; others are unknown *)

Fixpoint parse_loop (criteria l : Criteria) (result : PersistNode) : exn + PersistNode :=
  match l with
  | [] => inr result
  | c :: l' =>
      match parse_criterion criteria c result with
      | inl e => inl e
      | inr result' => parse_loop criteria l' result'
      end
  end.

(** [parseCriteria(criteria)] *)
Definition parseCriteria (criteria : Criteria) : exn + PersistNode :=
  parse_loop criteria criteria empty_node.
End criteria.

Section factory.
Context `{OO : OrbOps} `{PM : !PoaManagerOps}.

(** [_port], [_endPointNoListen], [_channels]; and the channels that exist, with those whose
    thread has been started. *)
Record EventChannelFactory_i := mkECF {
  f_port : Z;
  f_endPointNoListen : string;
  f_channels : EventChannelStore;
  f_objects : list (Z * EventChannel_i);
  f_started : list Z }.

Definition f_set_objects (o : list (Z * EventChannel_i)) (f : EventChannelFactory_i) : EventChannelFactory_i :=
  mkECF (f_port f) (f_endPointNoListen f) (f_channels f) o (f_started f).
Definition f_start (a : Z) (f : EventChannelFactory_i) : EventChannelFactory_i :=
  mkECF (f_port f) (f_endPointNoListen f) (f_channels f) (f_objects f) (f_started f ++ [a]).

(** [new EventChannel_i(&_channels)] at the address [a], then [activate] and the start of its
    thread.  The object exists while [activate] runs. *)
Definition run_new (a : Z) (m : Meth EventChannel_i unit) : Meth EventChannelFactory_i unit := λ s,
  let back (r : EventChannel_i * world) := (f_set_objects (map_put a r.1 (f_objects s.1)) s.1, r.2) in
  match m (new_EventChannel, s.2) with
  | Ret x r => Ret x (back r)
  | Throw e r => Throw e (back r)
  | Exited c r => Exited c (back r)
  | Aborted r => Aborted (back r)
  end.

Definition activate_channel (e : env) (a : Z) (channelName : string) (node : PersistNode)
    : Meth EventChannelFactory_i unit :=
  _ ← run_new a (ec_activate e a channelName (Some node)); upd (f_start a).

(** The loop of the constructor; [envs] are the addresses of the channels, with what each needs. *)
Fixpoint create_channels (envs : list (Z * env)) (l : list (string * PersistNode))
    : Meth EventChannelFactory_i unit :=
  match l, envs with
  | [], _ => mret tt
  | (channelName, node) :: l', (a, e) :: envs' =>
      _ ← activate_channel e a channelName node; create_channels envs' l'
  | _ :: _, [] => abort  (* out of memory *)
  end.

(** [EventChannelFactory_i(node)]; [this_f] is its address. *)
Definition new_factory_members (node : PersistNode) : EventChannelFactory_i :=
  mkECF (u32 (attrLong "port" 11169 node)) (attrString "endPointNoListen" "" node) [] [] [].

Definition new_EventChannelFactory (this_f : Z) (envs : list (Z * env)) (node : PersistNode)
    : Meth EventChannelFactory_i unit :=
  _ ← create_channels envs (_child node);
  onW (activateObjectWithId INSPOA this_f "omniEvents").

(** The destruction of a channel that is held in an [auto_ptr]. *)
Definition delete_channel (e : env) (a : Z) : Meth EventChannelFactory_i unit := λ s,
  match map_find a (f_objects s.1) with
  | None => Ret tt s
  | Some c =>
      match ec_delete e (c, s.2) with
      | Ret x r => Ret x (f_set_objects (map_erase a (f_objects s.1)) s.1, r.2)
      | Throw ex r => Throw ex (s.1, r.2)
      | Exited cd r => Exited cd (s.1, r.2)
      | Aborted r => Aborted (s.1, r.2)
      end
  end.

(** [create_object(k,criteria)]; the channel is made at [a]. *)
Definition create_object (mypid : Z) (e : env) (a : Z) (k : Key) (criteria : Criteria)
    : Meth EventChannelFactory_i Object :=
  if negb (supports k) then throw (NoFactory k)
  else
    match parseCriteria criteria with
    | inl ex => throw ex
    | inr criteriaNode =>
        channelId ← (if hasAttr "InsName" criteriaNode then mret (attrString "InsName" "" criteriaNode)
                     else onW (newUniqueId mypid));
        _ ← try_catch (activate_channel e a channelId criteriaNode)
              (λ ex, Some (
                 _ ← delete_channel e a;
                 match ex with
                 | ObjectAlreadyActive | AdapterAlreadyExists => throw (InvalidCriteria criteria)
                 | _ => throw ex
                 end));
        w ← theW;
        match id_to_reference channelId "EventChannel" (poas w) with
        | inr o => mret o
        | inl ex => throw ex
        end
    end.

(** [create_channel(channel_name)] *)
Definition create_channel (mypid : Z) (e : env) (a : Z) (channel_name : string)
    : Meth EventChannelFactory_i Object :=
  try_catch (create_object mypid e a [("EventChannel", "object interface")]
               [("InsName", any_of_string channel_name)])
    (λ ex, match ex with
           | InvalidCriteria ((n, _) :: _) =>
               Some (if strMatch n "InsName" then throw NameAlreadyUsed else throw UNKNOWN)
           | ex => if is_user_exception ex then Some (throw UNKNOWN) else None
           end).

(** [join_channel(channel_name)]; [get_channel] is the same code. *)
Definition join_channel (channel_name : string) : Meth EventChannelFactory_i Object :=
  w ← theW;
  match id_to_reference INSPOA channel_name (poas w) with
  | inr o => mret o
  | inl ObjectNotActive => throw EventChannelNotFound
  | inl ex => if is_user_exception ex then throw UNKNOWN else throw ex
  end.
Definition get_channel (channel_name : string) : Meth EventChannelFactory_i Object :=
  w ← theW;
  match id_to_reference INSPOA channel_name (poas w) with
  | inr o => mret o
  | inl ObjectNotActive => throw EventChannelNotFound
  | inl ex => if is_user_exception ex then throw UNKNOWN else throw ex
  end.

(** [output(os)] *)
Definition f_output (f : EventChannelFactory_i) : ostream_op := λ w,
  _ ← emit ("ecf port=" +:+ show_Z (f_port f));
  _ ← (if negb (str_empty (f_endPointNoListen f))
       then emit (" endPointNoListen=" +:+ f_endPointNoListen f) else mret tt);
  _ ← emit (" ;;" +:+ nl);
  store_output (f_objects f) (f_channels f) w.

(** [delete_all()] *)
Definition delete_all : Meth EventChannelFactory_i unit := λ s,
  zoom (λ s, (f_objects s.1, s.2)) (λ r s, (f_set_objects r.1 s.1, r.2)) (store_empty (f_channels s.1)) s.

(** [exists(channel_name)] *)
Definition f_exists (f : EventChannelFactory_i) (channel_name : string) : bool :=
  store_exists (f_objects f) (f_channels f) channel_name.

(** [~EventChannelFactory_i()] *)
Definition factory_destroy : Meth EventChannelFactory_i unit := mret tt.
End factory.

(** ** What the criteria become *)

Section criteria_lemmas.
Context `{AO : AnyOps}.

(** The specification of each value: a later criterion overrides an earlier one of the same name;
    [PullRetryPeriod] (in seconds) counts only as long as there is no value. *)
Definition step_num (key : string) (acc : option Z) (c : string * Any) : option Z :=
  if String.eqb c.1 key then
    match any_ulong c.2 with Some v => if 0 <? v then Some v else acc | None => acc end
  else acc.
Definition step_str (key : string) (acc : option string) (c : string * Any) : option string :=
  if String.eqb c.1 key then
    match any_string c.2 with Some s => if str_empty s then acc else Some s | None => acc end
  else acc.
Definition step_retry (acc : option Z) (c : string * Any) : option Z :=
  if String.eqb c.1 "PullRetryPeriod_ms" then any_ulong c.2
  else if String.eqb c.1 "PullRetryPeriod" then
    match acc, any_ulong c.2 with
    | None, Some v => Some (u32 (v * 1000))
    | _, _ => acc
    end
  else acc.

Record asked := mkAsked {
  a_retry : option Z; a_queue : option Z; a_proxies : option Z; a_cycle : option Z;
  a_ins : option string; a_filter : option string }.

Definition step_asked (a : asked) (c : string * Any) : asked :=
  mkAsked (step_retry (a_retry a) c) (step_num "MaxQueueLength" (a_queue a) c)
    (step_num "MaxNumProxies" (a_proxies a) c) (step_num "CyclePeriod_ns" (a_cycle a) c)
    (step_str "InsName" (a_ins a) c) (step_str "FilterId" (a_filter a) c).

Definition nothing_asked : asked := mkAsked None None None None None None.
Definition asked_for (criteria : Criteria) : asked := foldl step_asked nothing_asked criteria.

Definition num_text (v : option Z) : option string := (λ z, show_Z (i32 z)) <$> v.

Record holds_asked (n : PersistNode) (a : asked) : Prop := {
  h_retry : map_find "PullRetryPeriod_ms" (_attr n) = num_text (a_retry a);
  h_queue : map_find "MaxQueueLength" (_attr n) = num_text (a_queue a);
  h_proxies : map_find "MaxNumProxies" (_attr n) = num_text (a_proxies a);
  h_cycle : map_find "CyclePeriod_ns" (_attr n) = num_text (a_cycle a);
  h_ins : map_find "InsName" (_attr n) = a_ins a;
  h_filter : map_find "FilterId" (_attr n) = a_filter a;
  h_kind : map_find "FilterKind" (_attr n) = None }.

Lemma addattr_string key s n :
  str_forall (not_char "=") key = true →
  addattr (key +:+ "=" +:+ s) n = mkNode (_child n) (map_put key s (_attr n)).
Proof. intros Hk. unfold addattr. change (key +:+ "=" +:+ s) with (key +:+ String "=" s). by rewrite split_at_app. Qed.

Lemma holds_put n a k v a' :
  holds_asked n a →
  (k = "PullRetryPeriod_ms" ∧ (∃ z, v = show_Z (i32 z) ∧ a' = mkAsked (Some z) (a_queue a) (a_proxies a) (a_cycle a) (a_ins a) (a_filter a)) ∨
   k = "MaxQueueLength" ∧ (∃ z, v = show_Z (i32 z) ∧ a' = mkAsked (a_retry a) (Some z) (a_proxies a) (a_cycle a) (a_ins a) (a_filter a)) ∨
   k = "MaxNumProxies" ∧ (∃ z, v = show_Z (i32 z) ∧ a' = mkAsked (a_retry a) (a_queue a) (Some z) (a_cycle a) (a_ins a) (a_filter a)) ∨
   k = "CyclePeriod_ns" ∧ (∃ z, v = show_Z (i32 z) ∧ a' = mkAsked (a_retry a) (a_queue a) (a_proxies a) (Some z) (a_ins a) (a_filter a)) ∨
   k = "InsName" ∧ a' = mkAsked (a_retry a) (a_queue a) (a_proxies a) (a_cycle a) (Some v) (a_filter a) ∨
   k = "FilterId" ∧ a' = mkAsked (a_retry a) (a_queue a) (a_proxies a) (a_cycle a) (a_ins a) (Some v)) →
  holds_asked (mkNode (_child n) (map_put k v (_attr n))) a'.
Proof.
  intros [H1 H2 H3 H4 H5 H6 H7] Hk.
  destruct Hk as [(-> & z & -> & ->)|[(-> & z & -> & ->)|[(-> & z & -> & ->)|[(-> & z & -> & ->)|[(-> & ->)|(-> & ->)]]]]];
    constructor; cbn [_attr a_retry a_queue a_proxies a_cycle a_ins a_filter];
    first [rewrite map_find_put_eq; done | by rewrite map_find_put_ne].
Qed.

Lemma parse_criterion_spec criteria c result result' a :
  parse_criterion criteria c result = inr result' → holds_asked result a →
  holds_asked result' (step_asked a c).
Proof.
  intros E Ha. destruct c as [name value]. destruct a as [ar aq ap ac ai af].
  unfold parse_criterion, criterion_ulong, criterion_string in E.
  unfold step_asked, step_retry, step_num, step_str. cbn [fst snd a_retry a_queue a_proxies a_cycle a_ins a_filter].
  destruct (String.eqb_spec name "PullRetryPeriod_ms") as [->|N1]; cbn [String.eqb Ascii.eqb Bool.eqb].
  { destruct (any_ulong value) as [v|]; [|done]. destruct (v <=? 0); [done|]. injection E as <-.
    apply (holds_put _ _ _ _ _ Ha). left. eauto. }
  destruct (String.eqb_spec name "PullRetryPeriod") as [->|N2]; cbn [String.eqb Ascii.eqb Bool.eqb].
  { pose proof (h_retry _ _ Ha) as Hr. unfold hasAttr in E. rewrite Hr in E. cbn [a_retry] in E.
    destruct ar as [r|]; cbn [num_text fmap option_fmap option_map] in E; [by injection E as <-|].
    destruct (any_ulong value) as [v|]; [|done]. destruct (v <=? 0); [done|]. injection E as <-.
    apply (holds_put _ _ _ _ _ Ha). left. eauto. }
  destruct (String.eqb_spec name "MaxQueueLength") as [->|N3]; cbn [String.eqb Ascii.eqb Bool.eqb].
  { destruct (any_ulong value) as [v|]; [|done]. destruct (0 <? v); injection E as <-; [|done].
    apply (holds_put _ _ _ _ _ Ha). right; left. eauto. }
  destruct (String.eqb_spec name "MaxNumProxies") as [->|N4]; cbn [String.eqb Ascii.eqb Bool.eqb].
  { destruct (any_ulong value) as [v|]; [|done]. destruct (0 <? v); injection E as <-; [|done].
    apply (holds_put _ _ _ _ _ Ha). do 2 right; left. eauto. }
  destruct (String.eqb_spec name "CyclePeriod_ns") as [->|N5]; cbn [String.eqb Ascii.eqb Bool.eqb].
  { destruct (any_ulong value) as [v|]; [|done]. destruct (0 <? v); injection E as <-; [|done].
    apply (holds_put _ _ _ _ _ Ha). do 3 right; left. eauto. }
  destruct (String.eqb_spec name "InsName") as [->|N6]; cbn [String.eqb Ascii.eqb Bool.eqb].
  { destruct (any_string value) as [s|]; [|done]. destruct (str_empty s); injection E as <-; [done|].
    rewrite addattr_string by done. apply (holds_put _ _ _ _ _ Ha). do 4 right; left. eauto. }
  destruct (String.eqb_spec name "FilterId") as [->|N7]; cbn [String.eqb Ascii.eqb Bool.eqb].
  { destruct (any_string value) as [s|]; [|done]. destruct (str_empty s); injection E as <-; [done|].
    rewrite addattr_string by done. apply (holds_put _ _ _ _ _ Ha). do 5 right. eauto. }
  by injection E as <-.
Qed.

Lemma parse_loop_spec criteria l : ∀ result node a,
  parse_loop criteria l result = inr node → holds_asked result a →
  holds_asked node (foldl step_asked a l).
Proof.
  induction l as [|c l IH]; intros result node a E Ha; cbn [parse_loop foldl] in *; [by injection E as <-|].
  destruct (parse_criterion criteria c result) as [e|r] eqn:Ec; [done|].
  eapply IH; [done|]. by eapply parse_criterion_spec.
Qed.

(** Extracted numbers have 32 bits. *)
Definition ulong_range (criteria : Criteria) : Prop :=
  Forall (λ c, ∀ v, any_ulong c.2 = Some v → 0 ≤ v < 4294967296) criteria.
Definition in_range (o : option Z) : Prop := ∀ v, o = Some v → 0 ≤ v < 4294967296.

Lemma step_num_range key acc c : in_range (any_ulong c.2) → in_range acc → in_range (step_num key acc c).
Proof.
  intros Hr Ha. unfold step_num. destruct (String.eqb _ _); [|done].
  destruct (any_ulong c.2) as [v|] eqn:E; [|done]. destruct (0 <? v); [|done].
  intros v' [= <-]. by apply Hr.
Qed.

Lemma step_retry_range acc c : in_range (any_ulong c.2) → in_range acc → in_range (step_retry acc c).
Proof.
  intros Hr Ha. unfold step_retry. destruct (String.eqb _ _); [done|].
  destruct (String.eqb _ _); [|done]. destruct acc as [v|]; [done|].
  destruct (any_ulong c.2) as [v|]; [|done]. intros v' [= <-]. apply u32_range.
Qed.

Lemma asked_range l : ulong_range l → ∀ a,
  in_range (a_retry a) ∧ in_range (a_queue a) ∧ in_range (a_proxies a) →
  in_range (a_retry (foldl step_asked a l)) ∧ in_range (a_queue (foldl step_asked a l)) ∧
  in_range (a_proxies (foldl step_asked a l)).
Proof.
  induction 1 as [|c l Hr _ IH]; intros a (H1 & H2 & H3); [done|]. apply IH.
  split_and!; by (apply step_num_range || apply step_retry_range).
Qed.

Lemma atol_num v : atol (show_Z (i32 v)) = i32 v.
Proof. apply atol_show_i32. Qed.

(** The properties of a channel whose node holds what was asked for. *)
Definition properties_are (node : PersistNode) (a : asked) : Prop :=
  pullRetryPeriod_ms node = default 1000 (a_retry a) ∧
  maxQueueLength node = default 1023 (a_queue a) ∧
  maxNumProxies node = default 1024 (a_proxies a) ∧
  cyclePeriod_ns node = match a_cycle a with Some v => u64 (i32 v) | None => 100000000 end ∧
  map_find "InsName" (_attr node) = a_ins a ∧
  channel_filter node = FilterByRepositoryId <$> a_filter a.

Lemma holds_properties node a :
  in_range (a_retry a) → in_range (a_queue a) → in_range (a_proxies a) →
  holds_asked node a → properties_are node a.
Proof.
  intros Hr1 Hr2 Hr3 Ha. unfold properties_are.
  unfold pullRetryPeriod_ms, maxQueueLength, maxNumProxies, cyclePeriod_ns, attrLong, channel_filter, hasAttr, attrString.
  rewrite (h_retry _ _ Ha), (h_queue _ _ Ha), (h_proxies _ _ Ha), (h_cycle _ _ Ha), (h_filter _ _ Ha), (h_kind _ _ Ha).
  unfold num_text. split_and!.
  - destruct (a_retry a) as [v|]; [|done]. simpl. rewrite atol_num, u32_i32. by apply u32_id, Hr1.
  - destruct (a_queue a) as [v|]; [|done]. simpl. rewrite atol_num, u32_i32. by apply u32_id, Hr2.
  - destruct (a_proxies a) as [v|]; [|done]. simpl. rewrite atol_num, u32_i32. by apply u32_id, Hr3.
  - destruct (a_cycle a) as [v|]; [|done]. simpl. by rewrite atol_num.
  - apply Ha.
  - by destruct (a_filter a).
Qed.

Lemma parsed_properties criteria node :
  ulong_range criteria → parseCriteria criteria = inr node → properties_are node (asked_for criteria).
Proof.
  intros Hrange E.
  destruct (asked_range criteria Hrange nothing_asked) as (Hr1 & Hr2 & Hr3); [by split_and!|].
  apply holds_properties; [done..|]. apply (parse_loop_spec _ _ _ _ _ E). by constructor.
Qed.

(** Criteria become properties.  If the criteria are accepted, the new channel has exactly the
    values asked for: of several criteria of one name the last counts (for [PullRetryPeriod], in
    seconds, only as long as nothing was asked in milliseconds); zero and empty values are ignored,
    and defaults take their place.  Values that do not fit an [int] survive being printed with
    ["%i"], except that the cycle period then is a negative number converted to [unsigned long]. *)
Theorem criteria_kept criteria node :
  ulong_range criteria →
  parseCriteria criteria = inr node →
  let a := asked_for criteria in
  pullRetryPeriod_ms node = default 1000 (a_retry a) ∧
  maxQueueLength node = default 1023 (a_queue a) ∧
  maxNumProxies node = default 1024 (a_proxies a) ∧
  cyclePeriod_ns node = match a_cycle a with Some v => u64 (i32 v) | None => 100000000 end ∧
  map_find "InsName" (_attr node) = a_ins a ∧
  channel_filter node = FilterByRepositoryId <$> a_filter a.
Proof. intros Hrange E. by apply parsed_properties. Qed.

Definition retry_criterion (name : string) : bool :=
  existsb (String.eqb name) ["PullRetryPeriod_ms"; "PullRetryPeriod"].
Definition string_criterion (name : string) : bool := existsb (String.eqb name) ["InsName"; "FilterId"].
Definition known_criterion (name : string) : bool :=
  retry_criterion name || string_criterion name ||
  existsb (String.eqb name) ["MaxQueueLength"; "MaxNumProxies"; "CyclePeriod_ns"].

(** Why a criterion is refused, from the source's conditions: a name the factory knows, with a value
    of the wrong type, or with a retry period of zero.  [PullRetryPeriod] is only looked at as long
    as no retry period has been [asked] for. *)
Definition wrong_type (name : string) (value : Any) : bool :=
  if string_criterion name then bool_decide (any_string value = None)
  else bool_decide (any_ulong value = None).
Definition criterion_fault (asked : bool) (c : string * Any) : option (Criteria → exn) :=
  if negb (known_criterion c.1) || String.eqb c.1 "PullRetryPeriod" && asked then None
  else if wrong_type c.1 c.2 then Some InvalidCriteria
  else if retry_criterion c.1 && bool_decide (any_ulong c.2 = Some 0) then Some CannotMeetCriteria
  else None.

(** A retry period is among the criteria. *)
Definition retry_asked (l : Criteria) : bool := existsb (λ c, retry_criterion c.1) l.

(** Each criterion is acceptable after those before it. *)
Definition no_fault (l : Criteria) : Prop :=
  ∀ i c, l !! i = Some c → criterion_fault (retry_asked (take i l)) c = None.

Lemma has_put k n key v :
  hasAttr k (mkNode (_child n) (map_put key v (_attr n))) = String.eqb key k || hasAttr k n.
Proof.
  unfold hasAttr. cbn [_attr]. destruct (String.eqb_spec key k) as [->|Hne];
    [by rewrite map_find_put_eq|by rewrite map_find_put_ne].
Qed.

Lemma criterion_ulong_spec key criteria value result :
  String.eqb key "PullRetryPeriod_ms" = false →
  (any_ulong value = None ∧ criterion_ulong key criteria value result = inl (InvalidCriteria (extract key criteria))) ∨
  (any_ulong value ≠ None ∧ ∃ r, criterion_ulong key criteria value result = inr r ∧
     hasAttr "PullRetryPeriod_ms" r = hasAttr "PullRetryPeriod_ms" result).
Proof.
  intros Hk. unfold criterion_ulong. destruct (any_ulong value) as [v|]; [right|by left]. split; [done|].
  eexists. split; [done|]. destruct (0 <? v); [|done]. unfold addattr_long. rewrite has_put. by rewrite Hk.
Qed.

Lemma criterion_string_spec key criteria value result :
  str_forall (not_char "=") key = true → String.eqb key "PullRetryPeriod_ms" = false →
  (any_string value = None ∧ criterion_string key criteria value result = inl (InvalidCriteria (extract key criteria))) ∨
  (any_string value ≠ None ∧ ∃ r, criterion_string key criteria value result = inr r ∧
     hasAttr "PullRetryPeriod_ms" r = hasAttr "PullRetryPeriod_ms" result).
Proof.
  intros He Hk. unfold criterion_string. destruct (any_string value) as [v|]; [right|by left]. split; [done|].
  eexists. split; [done|]. destruct (str_empty v); [done|]. rewrite addattr_string by done. rewrite has_put. by rewrite Hk.
Qed.

Lemma parse_criterion_fault criteria c result :
  (∀ v, any_ulong c.2 = Some v → 0 ≤ v < 4294967296) →
  match criterion_fault (hasAttr "PullRetryPeriod_ms" result) c with
  | Some k => parse_criterion criteria c result = inl (k (extract c.1 criteria))
  | None => ∃ r, parse_criterion criteria c result = inr r ∧
      hasAttr "PullRetryPeriod_ms" r = hasAttr "PullRetryPeriod_ms" result || retry_criterion c.1
  end.
Proof.
  destruct c as [name value]. cbn [fst snd]. intros Hr.
  assert (Hzero : ∀ v, any_ulong value = Some v → (v <=? 0) = bool_decide (any_ulong value = Some 0)).
  { intros v Hv. specialize (Hr v Hv). rewrite Hv.
    destruct (Z.leb_spec v 0); symmetry; [apply bool_decide_eq_true_2; f_equal; lia|].
    apply bool_decide_eq_false_2. intros [= ->]. lia. }
  unfold parse_criterion, criterion_fault. cbn [fst snd].
  destruct (String.eqb_spec name "PullRetryPeriod_ms") as [->|N1].
  { cbn -[hasAttr addattr_long]. destruct (any_ulong value) as [v|]; cbn -[hasAttr addattr_long]; [|done].
    rewrite (Hzero v) by done. destruct (bool_decide _); [done|].
    eexists. split; [done|]. unfold addattr_long. by rewrite has_put, orb_true_r. }
  destruct (String.eqb_spec name "PullRetryPeriod") as [->|N2].
  { cbn -[hasAttr addattr_long]. destruct (hasAttr "PullRetryPeriod_ms" result) eqn:Eh; cbn -[hasAttr addattr_long]; [by exists result|].
    destruct (any_ulong value) as [v|]; cbn -[hasAttr addattr_long]; [|done].
    rewrite (Hzero v) by done. destruct (bool_decide _); [done|].
    eexists. split; [done|]. unfold addattr_long. by rewrite has_put. }
  repeat match goal with
  | |- context [if String.eqb name ?k then _ else _] => destruct (String.eqb_spec name k) as [->|?]
  end;
  [destruct (criterion_ulong_spec "MaxQueueLength" criteria value result) as [(Ev & ->)|(Ev & r & -> & Hh)]
  |destruct (criterion_ulong_spec "MaxNumProxies" criteria value result) as [(Ev & ->)|(Ev & r & -> & Hh)]
  |destruct (criterion_ulong_spec "CyclePeriod_ns" criteria value result) as [(Ev & ->)|(Ev & r & -> & Hh)]
  |destruct (criterion_string_spec "InsName" criteria value result) as [(Ev & ->)|(Ev & r & -> & Hh)]
  |destruct (criterion_string_spec "FilterId" criteria value result) as [(Ev & ->)|(Ev & r & -> & Hh)]|];
  try done; cbn -[hasAttr bool_decide];
  try (rewrite bool_decide_eq_true_2 by done; done);
  try (rewrite bool_decide_eq_false_2 by done; exists r; split; [done|]; by rewrite Hh, orb_false_r).
  unfold known_criterion, retry_criterion, string_criterion. cbn [existsb].
  repeat match goal with N : name ≠ ?k |- _ => rewrite (proj2 (String.eqb_neq name k) N); clear N end.
  exists result. split; [done|]. by rewrite orb_false_r.
Qed.

(** As long as there is no fault, the loop goes on. *)
Lemma parse_loop_no_fault criteria before rest : ∀ pre result,
  ulong_range before → hasAttr "PullRetryPeriod_ms" result = retry_asked pre →
  (∀ i c, before !! i = Some c → criterion_fault (retry_asked (pre ++ take i before)) c = None) →
  ∃ r, parse_loop criteria (before ++ rest) result = parse_loop criteria rest r ∧
    hasAttr "PullRetryPeriod_ms" r = retry_asked (pre ++ before).
Proof.
  induction before as [|c before IH]; intros pre result Hrange Hh Hok;
    [exists result; rewrite app_nil_r; done|]. inversion_clear Hrange as [|? ? Hc Hrange'].
  pose proof (parse_criterion_fault criteria c result Hc) as Hf.
  pose proof (Hok 0%nat c eq_refl) as H0. cbn [take] in H0. rewrite app_nil_r in H0. rewrite Hh, H0 in Hf.
  destruct Hf as (r & Er & Hr). cbn [app parse_loop]. rewrite Er.
  destruct (IH (pre ++ [c]) r) as (r' & E' & H'); [done| | |].
  - rewrite Hr. unfold retry_asked. rewrite existsb_app. cbn [existsb]. by rewrite orb_false_r.
  - intros i d Hd. pose proof (Hok (S i) d Hd) as H1. by rewrite <- (assoc_L (++)).
  - exists r'. split; [done|]. by rewrite <- (assoc_L (++)) in H'.
Qed.

Lemma criterion_fault_inv asked c k : criterion_fault asked c = Some k →
  k = InvalidCriteria ∧ wrong_type c.1 c.2 = true ∨
  k = CannotMeetCriteria ∧ retry_criterion c.1 = true ∧ any_ulong c.2 = Some 0.
Proof.
  unfold criterion_fault. destruct (_ || _); [done|]. destruct (wrong_type _ _); [intros [= <-]; by left|].
  destruct (retry_criterion _) eqn:E; [|done]. case_bool_decide as H0; [|done]. intros [= <-]. by right.
Qed.

(** What is refused has a fault. *)
Lemma parse_loop_refused criteria e l : ∀ result,
  ulong_range l → parse_loop criteria l result = inl e →
  ∃ c asked k, c ∈ l ∧ criterion_fault asked c = Some k ∧ e = k (extract c.1 criteria).
Proof.
  induction l as [|c l IH]; intros result Hrange E; [done|]. inversion_clear Hrange as [|? ? Hc Hrange'].
  cbn [parse_loop] in E. pose proof (parse_criterion_fault criteria c result Hc) as Hf.
  destruct (criterion_fault _ c) as [k|] eqn:Ek.
  - rewrite Hf in E. injection E as <-. exists c, (hasAttr "PullRetryPeriod_ms" result), k. split; [by left|done].
  - destruct Hf as (r & Er & _). rewrite Er in E. destruct (IH r Hrange' E) as (d & b & k & Hin & K).
    exists d, b, k. split; [by right|done].
Qed.

(** The first criterion of a name. *)
Definition first_of (name : string) (criteria : Criteria) : Criteria :=
  take 1 (filter (λ c : string * Any, c.1 = name) (criteria : list (string * Any))).

Lemma extract_first name criteria : extract name criteria = first_of name criteria.
Proof.
  unfold first_of. induction criteria as [|[n v] l IH]; [done|]. cbn [extract].
  destruct (String.eqb_spec n name) as [->|Hne];
    cbn [fst]; [by rewrite filter_cons_True|by rewrite filter_cons_False].
Qed.

(** C39: criteria refused.  Criteria without a fault are all accepted, and the properties are those
    asked for.  Otherwise the first criterion at fault decides: the exception is [InvalidCriteria]
    if its value has the wrong type, [CannotMeetCriteria] if it is a retry period of zero, and
    carries the first criterion of the same name. *)
Theorem criteria_refused criteria :
  ulong_range criteria →
  (no_fault criteria → ∃ node, parseCriteria criteria = inr node ∧ properties_are node (asked_for criteria)) ∧
  (∀ before c after k,
     criteria = before ++ c :: after → no_fault before → criterion_fault (retry_asked before) c = Some k →
     parseCriteria criteria = inl (k (first_of c.1 criteria))).
Proof.
  intros Hrange. split.
  - intros Hok. destruct (parse_loop_no_fault criteria criteria [] [] empty_node Hrange eq_refl Hok) as (r & E & _).
    rewrite app_nil_r in E. exists r. split; [exact E|]. by apply parsed_properties.
  - intros before c after k Heq Hok Hk. rewrite Heq in Hrange. apply Forall_app in Hrange as [Hb Hc%Forall_inv].
    destruct (parse_loop_no_fault criteria before (c :: after) [] empty_node Hb eq_refl Hok) as (r & E & Hr).
    unfold parseCriteria. rewrite Heq at 2. rewrite E. cbn [parse_loop].
    pose proof (parse_criterion_fault criteria c r Hc) as Hf. rewrite Hr in Hf. cbn [app] in Hf.
    rewrite Hk in Hf. by rewrite Hf, extract_first.
Qed.
End criteria_lemmas.

(** ** Restart, and names that are taken *)

Section factory_lemmas.
Context `{OL : OrbLaws} `{PM : !PoaManagerOps}.

(** A channel without proxies. *)
Definition idle (c : EventChannel_i) (name : string) (attrs : list (string * string)) : Prop :=
  ec_poa c = Some name ∧ ec_properties c = mkNode [] attrs ∧
  (∃ sa, ec_supplierAdmin c = Some sa ∧ _connections (sa_pushConsumer sa) = [] ∧ sa_pullConsumer sa = None) ∧
  (∃ ca, ec_consumerAdmin c = Some ca ∧ ca_pushSupplier ca = None ∧ ca_pullSupplier ca = None).

Lemma idle_output c name attrs w t :
  idle c name attrs → ec_output c w t = Ret tt (t +:+ log_text [Put ("ecf/" +:+ name) attrs]).
Proof.
  intros (Hp & Hn & (sa & Hsa & Hc & Hpl) & (ca & Hca & Hc1 & Hc2)). unfold ec_output.
  rewrite Hp, Hn, Hsa, Hca, channel_record. unfold sa_output, ca_output, pc_output. by rewrite Hc, Hpl, Hc1, Hc2.
Qed.

(** The channels of a store, in its order. *)
Definition described (objects : list (Z * EventChannel_i)) (st : EventChannelStore)
    (chs : list (string * list (string * string))) : Prop :=
  Forall2 (λ i d, ∃ c, map_find i.1 objects = Some c ∧ idle c d.1 d.2) st chs.

Definition channel_items (chs : list (string * list (string * string))) : list item :=
  map (λ d, Put ("ecf/" +:+ d.1) d.2) chs.

Lemma store_output_text objects st chs w t :
  described objects st chs → store_output objects st w t = Ret tt (t +:+ log_text (channel_items chs)).
Proof.
  intros Hd. unfold store_output. revert t.
  induction Hd as [|i d st chs (c & Hc & Hi) _ IH]; intros t; cbn [for_each channel_items map log_text foldr].
  - by rewrite str_app_nil_r.
  - assert (E : (match map_find i.1 objects with Some c => ec_output c w | None => abort end) t =
      Ret tt (t +:+ log_text [Put ("ecf/" +:+ d.1) d.2])) by (rewrite Hc; by apply idle_output).
    rewrite (bind_Ret _ _ _ _ _ E), IH. f_equal. cbn [log_text foldr]. unfold channel_items.
    by rewrite str_app_nil_r, str_app_assoc.
Qed.

Definition wf_channel (d : string * list (string * string)) : bool :=
  pc_text d.1 && map_sorted d.2 && forallb text_attr d.2.

Lemma ecf_comps name : pc_text name = true → comps ("ecf/" +:+ name) = ["ecf"; name].
Proof.
  unfold pc_text. intros; boolify. change ("ecf/" +:+ name) with ("ecf" +:+ String "/" name).
  rewrite comps_split, split_at_app by done. by rewrite comps_plain.
Qed.

Lemma wf_channel_item d : wf_channel d = true → text_item (Put ("ecf/" +:+ d.1) d.2) = true.
Proof.
  unfold wf_channel, pc_text. intros; boolify. cbn [text_item].
  rewrite !andb_true_iff. split; [split; [done|]|done].
  rewrite no_space_app. by match goal with H : no_space d.1 = true |- _ => rewrite H end.
Qed.

(** Replaying the records of channels puts them below the node of the factory. *)
Lemma replay_channels chs root :
  forallb wf_channel chs = true →
  attrs_at ["ecf"] (replay root (channel_items chs)) = attrs_at ["ecf"] root ∧
  children_at ["ecf"] (replay root (channel_items chs)) =
    foldl (λ m d, map_put d.1 (mkNode [] d.2) m) (children_at ["ecf"] root) chs.
Proof.
  revert root. induction chs as [|d chs IH]; intros root Hw; [done|].
  cbn [forallb channel_items map foldl] in Hw |- *. boolify. change (replay root (?i :: ?l)) with
    (replay (apply_item root i) l).
  destruct (IH (apply_item root (Put ("ecf/" +:+ d.1) d.2))) as [K1 K2]; [done|].
  unfold channel_items in *. rewrite K1, K2. cbn [apply_item].
  match goal with H : wf_channel d = true |- _ => unfold wf_channel in H end. boolify.
  rewrite ecf_comps by done. change (["ecf"; d.1]) with (["ecf"] ++ [d.1]).
  rewrite attrs_set, children_set, set_attrs_sorted by done. done.
Qed.

Lemma fold_put_find {V} (chs : list (string * V)) m :
  NoDup chs.*1 → ∀ n v, (n, v) ∈ chs →
  map_find n (foldl (λ m d, map_put d.1 d.2 m) m chs) = Some v.
Proof.
  revert m. induction chs as [|[k x] chs IH]; intros m Hn n v; [by rewrite elem_of_nil|].
  cbn [foldl fst snd]. inversion Hn as [|? ? Hk Hn']; subst.
  intros [[= -> ->]|Hin]%elem_of_cons; [|by apply IH].
  assert (Hother : ∀ (l : list (string * V)) m, k ∉ l.*1 → map_find k (foldl (λ m d, map_put d.1 d.2 m) m l) = map_find k m).
  { clear. induction l as [|[k2 x2] l IH]; intros m Hk; [done|]. cbn [foldl fst snd].
    apply not_elem_of_cons in Hk as [K1 K2]. rewrite IH by done. by rewrite map_find_put_ne. }
  rewrite Hother by done. by rewrite map_find_put_eq.
Qed.

Definition factory_attrs (f : EventChannelFactory_i) : list (string * string) :=
  if str_empty (f_endPointNoListen f) then [("port", show_Z (f_port f))]
  else [("port", show_Z (f_port f)); ("endPointNoListen", f_endPointNoListen f)].

Lemma factory_line f w t :
  f_output f w t = store_output (f_objects f) (f_channels f) w (t +:+ item_line (Put "ecf" (factory_attrs f))).
Proof.
  unfold f_output, emit, modify, mbind, M_bind, mret, M_ret, factory_attrs.
  destruct (str_empty (f_endPointNoListen f)); simpl; unfold attr_inline, attr_word; simpl;
    by rewrite !str_app_assoc.
Qed.

(** The records the factory writes: its own, then those of its channels. *)
Lemma factory_output_log f w t chs :
  is_log t [] → no_space (f_endPointNoListen f) = true →
  described (f_objects f) (f_channels f) chs → forallb wf_channel chs = true →
  ∃ t', f_output f w t = Ret tt t' ∧ is_log t' (Put "ecf" (factory_attrs f) :: channel_items chs).
Proof.
  intros Ht Hend Hd Hw. rewrite factory_line, (store_output_text _ _ chs) by done.
  assert (Hps : no_space (show_Z (f_port f)) = true) by apply show_Z_no_space.
  assert (Hf : text_item (Put "ecf" (factory_attrs f)) = true).
  { unfold factory_attrs. destruct (str_empty _); cbn [text_item forallb]; unfold text_attr; cbn [fst snd];
      rewrite Hps, ?Hend; done. }
  assert (Hci : forallb text_item (channel_items chs) = true).
  { clear -Hw. induction chs as [|d chs IH]; [done|]. cbn [forallb channel_items map] in *. boolify.
    rewrite wf_channel_item by done. by apply IH. }
  eexists. split; [done|]. apply (is_log_app _ [Put "ecf" (factory_attrs f)]); [|by apply is_log_text].
  by apply (is_log_app t []), is_log_line.
Qed.

(** The node of the factory, once the records of the channels are replayed. *)
Lemma factory_node f chs :
  forallb wf_channel chs = true →
  ∃ node, child "ecf" (replay empty_node (Put "ecf" (factory_attrs f) :: channel_items chs)) = Some node ∧
    map_find "port" (_attr node) = Some (show_Z (f_port f)) ∧
    map_find "endPointNoListen" (_attr node) =
      (if str_empty (f_endPointNoListen f) then None else Some (f_endPointNoListen f)) ∧
    _child node = foldl (λ m d, map_put d.1 (mkNode [] d.2) m) [] chs.
Proof.
  intros Hw. set (n0 := set_attrs (factory_attrs f) empty_node).
  change (replay empty_node (_ :: ?l)) with (replay (mkNode [("ecf", n0)] []) l).
  destruct (replay_channels chs (mkNode [("ecf", n0)] []) Hw) as [Ha Hc].
  assert (Hattr : map_find "port" (_attr n0) = Some (show_Z (f_port f)) ∧
    map_find "endPointNoListen" (_attr n0) = if str_empty (f_endPointNoListen f) then None else Some (f_endPointNoListen f)).
  { unfold n0, factory_attrs. by destruct (str_empty (f_endPointNoListen f)). }
  assert (Han : attrs_at ["ecf"] (mkNode [("ecf", n0)] []) = _attr n0) by done.
  assert (Hcn : children_at ["ecf"] (mkNode [("ecf", n0)] []) = []) by done.
  rewrite Han in Ha. rewrite Hcn in Hc. clear Han Hcn.
  set (R := replay _ _) in *. clearbody R n0.
  unfold attrs_at, children_at in Ha, Hc. simpl in Ha, Hc. unfold child.
  destruct (map_find "ecf" (_child R)) as [node|].
  - destruct Hattr as [Hp He]. exists node. by rewrite Ha, Hp, He.
  - exfalso. destruct Hattr as [Hp _]. by rewrite <- Ha in Hp.
Qed.

(** What the factory writes at a checkpoint, after any text without records, reads
    back as a database from which the constructor gets the same port and end point, and for each
    channel a node with the name and the properties it has. *)
Theorem factory_restored f w t chs :
  is_log t [] → 0 ≤ f_port f < 4294967296 → no_space (f_endPointNoListen f) = true →
  described (f_objects f) (f_channels f) chs → forallb wf_channel chs = true → NoDup chs.*1 →
  ∃ t' root node, f_output f w t = Ret tt t' ∧ parse t' = Some root ∧ child "ecf" root = Some node ∧
    f_port (new_factory_members node) = f_port f ∧
    f_endPointNoListen (new_factory_members node) = f_endPointNoListen f ∧
    ∀ name attrs, (name, attrs) ∈ chs → child name node = Some (mkNode [] attrs).
Proof.
  intros Ht Hport Hend Hd Hw Hn.
  destruct (factory_output_log f w t chs Ht Hend Hd Hw) as (t' & E & Hlog).
  destruct (factory_node f chs Hw) as (node & Hnode & Hp & He & Hc).
  exists t', (replay empty_node (Put "ecf" (factory_attrs f) :: channel_items chs)), node.
  split; [done|]. split; [by apply is_log_parse|]. split; [done|].
  unfold new_factory_members, attrLong, attrString. cbn [f_port f_endPointNoListen]. rewrite Hp, He.
  rewrite atol_show_Z by (unfold LONG_MIN, LONG_MAX; lia). rewrite u32_id by done.
  split; [done|]. split; [by destruct (f_endPointNoListen f)|].
  intros name attrs Hin. unfold child. rewrite Hc.
  assert (Hfold : ∀ m, foldl (λ m d, map_put d.1 (mkNode [] d.2) m) m chs =
    foldl (λ m d, map_put d.1 d.2 m) m (map_vals (mkNode []) chs)).
  { clear. unfold map_vals. induction chs as [|d chs IH]; intros m; [done|]. cbn [foldl map fst snd]. apply IH. }
  rewrite Hfold. apply fold_put_find.
  - by rewrite map_vals_fst.
  - unfold map_vals. apply list_elem_of_fmap. by exists (name, attrs).
Qed.

Lemma active_step poa servant oid w p :
  activate_object_with_id poa oid servant (poas w) = inr p →
  activateObjectWithId poa servant oid w = Ret tt (set_poas p w).
Proof. intros Hp. pose proof (activate_cases poa servant oid w) as Hc. by rewrite Hp in Hc. Qed.

Lemma active_taken poa servant oid w :
  activate_object_with_id poa oid servant (poas w) = inl ObjectAlreadyActive →
  activateObjectWithId poa servant oid w = Throw ObjectAlreadyActive w.
Proof. intros Hp. pose proof (activate_cases poa servant oid w) as Hc. by rewrite Hp in Hc. Qed.

(** What [create_channel] does once the criteria are read. *)
Lemma create_channel_criteria name :
  any_string (any_of_string name) = Some name → name ≠ "" →
  parseCriteria [("InsName", any_of_string name)] = inr (mkNode [] [("InsName", name)]).
Proof.
  intros Hs Hne. unfold parseCriteria, parse_loop, parse_criterion, criterion_string.
  cbn [String.eqb Ascii.eqb Bool.eqb]. rewrite Hs.
  assert (str_empty name = false) as -> by (by destruct name).
  by rewrite (addattr_string "InsName" name).
Qed.

(** If [activate] throws because a name is taken, the channel is deleted and the exception becomes
    [NameAlreadyUsed]. *)
Lemma create_channel_fails mypid e a name f w ex c w1 c' w2 :
  any_string (any_of_string name) = Some name → name ≠ "" → map_find a (f_objects f) = None →
  ec_activate e a name (Some (mkNode [] [("InsName", name)])) (new_EventChannel, w) = Throw ex (c, w1) →
  ex = ObjectAlreadyActive ∨ ex = AdapterAlreadyExists →
  ec_delete e (c, w1) = Ret tt (c', w2) →
  create_channel mypid e a name (f, w) = Throw NameAlreadyUsed (f, w2).
Proof.
  intros Hs Hne Hfresh E Hex Edel.
  assert (Hmatch : strMatch "InsName" "InsName" = true) by (by apply strMatch_spec).
  unfold create_channel, create_object. unfold try_catch at 1.
  cbn [supports String.eqb Ascii.eqb Bool.eqb andb negb].
  rewrite create_channel_criteria by done.
  unfold hasAttr, attrString. cbn [_attr map_find]. rewrite key_eqb_refl.
  unfold mbind at 1, M_bind at 1. unfold mret at 1, M_ret at 1.
  unfold mbind at 1, M_bind at 1. unfold try_catch, activate_channel, mbind at 1, M_bind at 1.
  unfold run_new. cbn [fst snd]. rewrite E. unfold mbind at 1, M_bind at 1. unfold delete_channel.
  cbn [fst snd f_objects f_set_objects]. rewrite map_find_put_eq, Edel. cbn [fst snd].
  rewrite map_erase_put by done. destruct f as [fp fe fc fo fs].
  cbn [f_set_objects f_port f_endPointNoListen f_channels f_started f_objects].
  destruct Hex as [-> | ->]; unfold throw; rewrite Hmatch; done.
Qed.

(** [activate] when only the name in the INS POA is taken: everything else has been done. *)
Lemma activate_name_taken e a name w p1 p2 p3 p4 p5 :
  name ≠ "" → create_POA name (poas w) = inr p1 →
  activate_object_with_id name "ConsumerAdmin" (e_ca e) p1 = inr p2 →
  create_POA (name +:+ ".ProxyPushConsumer") p2 = inr p3 →
  activate_object_with_id name "SupplierAdmin" (e_sa e) p3 = inr p4 →
  activate_object_with_id name "EventChannel" a p4 = inr p5 →
  activate_object_with_id INSPOA name (e_mapper e) p5 = inl ObjectAlreadyActive →
  ∃ c w1, ec_activate e a name (Some (mkNode [] [("InsName", name)])) (new_EventChannel, w) =
      Throw ObjectAlreadyActive (c, w1) ∧ ec_mapper c = None ∧ poas w1 = p5.
Proof.
  intros Hne K1 K2 K3 K4 K5 K6. set (node := mkNode [] [("InsName", name)]).
  destruct (new_ConsumerAdmin_ret name node (e_ca e) (set_poas p1 w) p2) as (q & _ & Eca); [done|done|].
  destruct (new_SupplierAdmin_ret name node (e_ca e) (e_sa e) (set_poas p2 (set_poas p1 w)) p3 p4) as (next & Esa);
    [done|done|].
  unfold ec_activate, createPoa, ec_add_ref, ec_remove_ref, setInsName, new_Mapper, poa_op.
  unfold mbind, M_bind, upd, modify, onW, zoom, self, gets, mret, M_ret, throw. cbn [fst snd]. rewrite K1.
  cbn [fst snd ec_properties ec_set_properties ec_set_pm ec_set_poa ec_set_name new_EventChannel _child _attr empty_node].
  change (mkNode [] (_attr node)) with node. rewrite Eca. cbn [fst snd].
  cbn [ec_properties ec_set_properties ec_set_pm ec_set_poa ec_set_name ec_set_ca]. rewrite Esa. cbn [fst snd].
  cbn [node child _child map_find fst snd].
  rewrite (active_step name a "EventChannel" _ p5) by done. cbn [fst snd].
  unfold attrString. cbn [ec_properties ec_set_properties ec_set_refCount ec_set_sa ec_set_ca ec_set_pm ec_set_poa ec_set_name _attr map_find node].
  rewrite key_eqb_refl. assert (str_empty name = false) as -> by (by destruct name). cbn [negb].
  rewrite (active_taken INSPOA (e_mapper e) name) by exact K6. eexists _, _. split; [reflexivity|].
  split; reflexivity.
Qed.

(** A name that is taken.  If another channel has the name, [create_channel] throws
    [NameAlreadyUsed] and leaves everything as it was.  If the name is taken only in the INS POA
    (such as [omniEvents], which is the factory's), it throws the same exception, and no channel is
    made; but the POA it has created for the channel stays, with the deleted channel active in
    it, so that the name is used up. *)
Theorem create_channel_name_taken mypid e a name f w :
  any_string (any_of_string name) = Some name → name ≠ "" → map_find a (f_objects f) = None →
  (create_POA name (poas w) = inl AdapterAlreadyExists →
   create_channel mypid e a name (f, w) = Throw NameAlreadyUsed (f, w)) ∧
  (∀ p1 p2 p3 p4 p5,
   create_POA name (poas w) = inr p1 →
   activate_object_with_id name "ConsumerAdmin" (e_ca e) p1 = inr p2 →
   create_POA (name +:+ ".ProxyPushConsumer") p2 = inr p3 →
   activate_object_with_id name "SupplierAdmin" (e_sa e) p3 = inr p4 →
   activate_object_with_id name "EventChannel" a p4 = inr p5 →
   activate_object_with_id INSPOA name (e_mapper e) p5 = inl ObjectAlreadyActive →
   ∃ w', create_channel mypid e a name (f, w) = Throw NameAlreadyUsed (f, w') ∧
     poas w' = p5 ∧ servant_to_id name a (poas w') = inr "EventChannel").
Proof.
  intros Hs Hne Hfresh. split.
  - intros Hp. apply (create_channel_fails mypid e a name f w AdapterAlreadyExists
      (ec_set_name name new_EventChannel) w (ec_set_name name new_EventChannel) w); try done; [|by right].
    unfold ec_activate, createPoa, poa_op, mbind, M_bind, upd, modify, onW, zoom. cbn [fst snd]. by rewrite Hp.
  - intros p1 p2 p3 p4 p5 K1 K2 K3 K4 K5 K6.
    destruct (activate_name_taken e a name w p1 p2 p3 p4 p5) as (c & w1 & E & Hc & Hp1); try done.
    assert (∃ c' w2, ec_delete e (c, w1) = Ret tt (c', w2) ∧ poas w2 = p5) as (c' & w2 & Edel & Hp2).
    { unfold ec_delete, mbind, M_bind, self, gets, mret, M_ret, onW, zoom, upd, modify, remove_ref. cbn [fst snd].
      rewrite Hc. destruct (ec_consumerAdmin c), (ec_supplierAdmin c); cbn [fst snd];
        eexists _, _; (split; [reflexivity|done]). }
    exists w2. split; [|rewrite Hp2; split; [done|by eapply activate_servant_to_id]].
    eapply create_channel_fails; [done|done|done|exact E|by left|exact Edel].
Qed.
End factory_lemmas.

(** ** Witnesses *)

Definition f_criteria : Criteria :=
  [("PullRetryPeriod", ev (AULong 2)); ("MaxQueueLength", ev (AULong 7)); ("MaxQueueLength", ev (AULong 9));
   ("MaxNumProxies", ev (AULong 0)); ("FilterId", ev (AString "IDL:a:1.0")); ("Colour", ev (AULong 3))].

Ltac ulong_list :=
  apply Forall_forall; intros c Hc;
  repeat (apply elem_of_cons in Hc as [->|Hc]; [intros v Hv; cbn in Hv; try discriminate Hv; injection Hv as <-; lia|]);
  apply elem_of_nil in Hc; destruct Hc.

Lemma f_criteria_range : ulong_range f_criteria.
Proof. ulong_list. Qed.

Lemma criteria_kept_witness :
  ulong_range f_criteria ∧
  ∃ node, parseCriteria f_criteria = inr node ∧ pullRetryPeriod_ms node = 2000 ∧
    maxQueueLength node = 9 ∧ maxNumProxies node = 1024.
Proof.
  split; [exact f_criteria_range|].
  destruct (parseCriteria f_criteria) as [e|node] eqn:E; [discriminate E|].
  destruct (criteria_kept f_criteria node f_criteria_range E) as (K1 & K2 & K3 & _).
  exists node. split; [reflexivity|]. split; [exact K1|]. split; [exact K2|exact K3].
Defined.

Lemma criteria_refused_witness :
  parseCriteria [("MaxQueueLength", ev (AULong 7)); ("PullRetryPeriod", ev (AULong 0)); ("InsName", ev (ABool true))] =
    inl (CannotMeetCriteria [("PullRetryPeriod", ev (AULong 0))]) ∧
  (∃ node, parseCriteria [("PullRetryPeriod_ms", ev (AULong 5)); ("PullRetryPeriod", ev (ABool true))] = inr node ∧
     pullRetryPeriod_ms node = 5).
Proof.
  split.
  - destruct (criteria_refused [("MaxQueueLength", ev (AULong 7)); ("PullRetryPeriod", ev (AULong 0));
      ("InsName", ev (ABool true))] ltac:(ulong_list)) as [_ K].
    apply (K [("MaxQueueLength", ev (AULong 7))] ("PullRetryPeriod", ev (AULong 0))
      [("InsName", ev (ABool true))] CannotMeetCriteria);
      [reflexivity| |reflexivity].
    intros [|[|i]] c Hc; [|discriminate Hc..]. injection Hc as <-. reflexivity.
  - destruct (criteria_refused [("PullRetryPeriod_ms", ev (AULong 5)); ("PullRetryPeriod", ev (ABool true))]
      ltac:(ulong_list)) as [K _].
    destruct K as (node & E & Hp & _).
    + intros [|[|i]] c Hc; [injection Hc as <-; reflexivity..|discriminate Hc].
    + exists node. split; [exact E|exact Hp].
Defined.

Definition f_sample : EventChannelFactory_i :=
  mkECF 11169 "giop:tcp:backup:" [(16, tt)] [(16, ec_sample)] [16].

Lemma factory_restored_witness :
  described (f_objects f_sample) (f_channels f_sample) [("chan", [("MaxQueueLength", "2")])] ∧
  ∃ t' root node, f_output f_sample model_world "" = Ret tt t' ∧ parse t' = Some root ∧
    child "ecf" root = Some node ∧ f_port (new_factory_members node) = 11169 ∧
    child "chan" node = Some (mkNode [] [("MaxQueueLength", "2")]).
Proof.
  assert (D : described (f_objects f_sample) (f_channels f_sample) [("chan", [("MaxQueueLength", "2")])]).
  { constructor; [|constructor]. exists ec_sample. split; [reflexivity|]. split; [reflexivity|].
    split; [reflexivity|]. split; eexists; split_and!; reflexivity. }
  split; [exact D|].
  destruct (factory_restored f_sample model_world "" [("chan", [("MaxQueueLength", "2")])])
    as (t' & root & node & K1 & K2 & K3 & K4 & _ & K5).
  - exact is_log_nil.
  - simpl. lia.
  - reflexivity.
  - exact D.
  - reflexivity.
  - apply NoDup_singleton.
  - exists t', root, node. split; [exact K1|]. split; [exact K2|]. split; [exact K3|]. split; [exact K4|].
    apply K5. left.
Defined.

(** The factory itself is active in the INS POA under the name [omniEvents]. *)
Definition f_world : world := set_poas (mkModelPoas [] [(INSPOA, 8, "omniEvents")]) model_world.

Definition f_env : env := mkEnv 32 48 0 0 0 64 [] [] [] [] (λ _, inr tt) (λ _ _, inr tt).

Lemma create_channel_name_taken_witness :
  map_find 96 (f_objects f_sample) = None ∧
  ∃ w', create_channel 77 f_env 96 "omniEvents" (f_sample, f_world) = Throw NameAlreadyUsed (f_sample, w') ∧
    servant_to_id "omniEvents" 96 (poas w') = inr "EventChannel".
Proof.
  split; [reflexivity|].
  destruct (create_channel_name_taken 77 f_env 96 "omniEvents" f_sample f_world) as [_ H];
    [reflexivity|discriminate|reflexivity|].
  destruct (H _ _ _ _ _ eq_refl eq_refl eq_refl eq_refl eq_refl eq_refl) as (w' & E & _ & Hid).
  exists w'. split; [exact E|exact Hid].
Defined.
