(* ===== verification/ChannelRecord.v ===== *)
(** * ChannelRecord: what a channel writes, and what is read back

    At a checkpoint a channel writes its properties and a record for each of its clients
    ([EventChannel_i::output] of src/EventChannel.cc, with the outputs of the two admins, of the
    managers and of the proxies).  [channel_spec] is what there is to be written; the database that
    is read has a node for each channel, and below it the nodes of the clients, by kind. *)

From S2P Require Import Prelude Monad CxxMap Stream PersistNode PersistReplay PersistLog PersistLookup.
From S2P Require Import Corba ModelOrb Servant Proxy ProxyPullConsumer ProxyPullSupplier ProxyPushConsumer ProxyPushSupplier.
From S2P Require Import ClientRecords ManagerRestore SupplierAdmin ConsumerAdmin EventChannel EventChannelFactory.

Local Open Scope string_scope.
Local Open Scope list_scope.

(** The kinds of clients, in the order in which they are written. *)
Inductive kind := PushCons | PullCons | PushSupp | PullSupp.
#[export] Instance kind_eq_dec : EqDecision kind.
Proof. solve_decision. Defined.

Definition kinds : list kind := [PushCons; PullCons; PushSupp; PullSupp].

Lemma kinds_all k : k ∈ kinds.
Proof. by apply (bool_decide_unpack _); destruct k. Qed.

Definition kind_name (k : kind) : string :=
  match k with PushCons => pc_name | PullCons => ppc_name | PushSupp => pps_name | PullSupp => pls_name end.
Definition kind_path (k : kind) : list string := comps (kind_name k).

Section channel_records.
Context `{OL : OrbLaws} `{PM : !PoaManagerOps}.

(** A channel: its name, its properties, and its clients. *)
Record channel_spec := mkSpec {
  cs_name : string;
  cs_attrs : list (string * string);
  cs_conns : kind → list (string * Client) }.

Definition spec_items (s : channel_spec) : list item :=
  Put ("ecf/" +:+ cs_name s) (cs_attrs s) ::
  concat (map (λ k, map (conn_item (kind_name k) (cs_name s)) (cs_conns s k)) kinds).

Record wf_spec (s : channel_spec) : Prop := {
  wf_head : wf_channel (cs_name s, cs_attrs s) = true;
  wf_ids k : NoDup (cs_conns s k).*1;
  wf_text k : Forall (λ d, pc_text d.1 = true) (cs_conns s k) }.

(** ** Writing *)

(** A computation appends the records [items] to any log. *)
Definition writes (m : M exn string unit) (items : list item) : Prop :=
  ∀ t l, is_log t l → ∃ t', m t = Ret tt t' ∧ is_log t' (l ++ items).

Lemma writes_ret : writes (mret tt) [].
Proof. intros t l Ht. exists t. by rewrite app_nil_r. Qed.

Lemma writes_emit text items : is_log text items → writes (emit text) items.
Proof. intros Hi t l Ht. eexists. split; [done|]. by apply is_log_app. Qed.

Lemma writes_bind m m' items items' :
  writes m items → writes m' items' → writes (_ ← m; m') (items ++ items').
Proof.
  intros Hm Hm' t l Ht. destruct (Hm t l Ht) as (t1 & E1 & H1). destruct (Hm' t1 _ H1) as (t2 & E2 & H2).
  exists t2. rewrite (bind_Ret _ _ _ _ _ E1). split; [done|]. by rewrite app_assoc.
Qed.

Lemma writes_try m h items : writes m items → writes (try_catch m h) items.
Proof. intros Hm t l Ht. destruct (Hm t l Ht) as (t' & E & H'). exists t'. by rewrite (try_catch_Ret _ _ _ _ _ E). Qed.

Lemma writes_each {A} (f : A → M exn string unit) (g : A → item) (l : list A) :
  Forall (λ x, writes (f x) [g x]) l → writes (for_each l f) (map g l).
Proof. induction 1 as [|x l Hx _ IH]; [apply writes_ret|]. exact (writes_bind _ _ [g x] _ Hx IH). Qed.

(** The connections of the servant of the pushing suppliers. *)
Definition conn_of (ch : string) (d : string * Client) : Connection :=
  mkConnection ch d.1 d.2.1 (object_to_string d.2.1) d.2.2.

Record pc_holds (ch : string) (p : ProxyPushConsumer_i) (conns : list (string * Client)) : Prop := {
  pch_name : pc_channelName p = ch;
  pch_sorted : map_sorted (_connections p) = true;
  pch_view : view p = map (λ d, (d.1, Some (conn_of ch d))) conns }.

Lemma conn_item_log kind ch d :
  no_space kind = true → pc_text ch = true → pc_text d.1 = true →
  is_log (item_line (conn_item kind ch d)) [conn_item kind ch d].
Proof.
  intros Hk Hch Hd. apply is_log_line.
  pose proof (conn_items_text kind ch [d] Hk Hch ltac:(by repeat constructor)) as Ht.
  cbn [map forallb] in Ht. by rewrite andb_true_r in Ht.
Qed.

Lemma pc_writes ch p w conns :
  pc_holds ch p conns → pc_text ch = true → Forall (λ d, pc_text d.1 = true) conns →
  writes (pc_output p w) (map (conn_item pc_name ch) conns).
Proof.
  intros [_ _ Hv] Hch. revert Hv. unfold view, pc_output. generalize (_connections p) as cs. intros cs.
  revert cs. induction conns as [|d conns IH]; intros [|[oid a] cs] Hv Ht; cbn [map map_vals] in Hv; try done.
  - apply writes_ret.
  - inversion Ht as [|? ? Hd Ht']; subst. cbn [fst snd] in Hv. injection Hv as -> Ha Hv.
    cbn [for_each map]. apply (writes_bind _ _ [_]); [|by apply IH]. cbn [snd]. rewrite Ha.
    intros t l Hl. eexists. rewrite c_output_line. split; [done|]. apply is_log_app; [done|].
    by apply (conn_item_log pc_name ch d).
Qed.

Lemma manager_writes `{PC : !ProxyClass T} `{PL : !ProxyLaws} ch m w conns :
  holds m w conns → pc_text ch = true → Forall (λ d, pc_text d.1 = true) conns →
  writes (output_manager ch m w) (map (conn_item rec_name ch) conns).
Proof.
  intros Hm Hch Ht t l Hl. eexists. split; [by apply output_conns|]. apply is_log_app; [done|].
  by apply is_log_lines, conn_items_text; [apply rec_name_text|..].
Qed.

(** A manager that may not have been needed yet. *)
Definition opt_holds `{PC : !ProxyClass T} `{PL : !ProxyLaws} (m : option (ProxyManager T)) (w : world)
    (conns : list (string * Client)) : Prop :=
  match m with Some m => holds m w conns | None => conns = [] end.

Lemma opt_manager_writes `{PC : !ProxyClass T} `{PL : !ProxyLaws} ch m w conns :
  opt_holds m w conns → pc_text ch = true → Forall (λ d, pc_text d.1 = true) conns →
  writes (match m with Some m => output_manager ch m w | None => mret tt end) (map (conn_item rec_name ch) conns).
Proof.
  destruct m as [m|]; cbn [opt_holds]; [apply manager_writes|]. intros -> _ _. apply writes_ret.
Qed.

Definition pps_writer : ProxyLaws (PC := pps_ProxyClass (λ _, inr tt)) := pps_ProxyLaws (λ _, inr tt) (λ _, I).

Record channel_holds (c : EventChannel_i) (w : world) (s : channel_spec) : Prop := {
  ch_poa : ec_poa c = Some (cs_name s);
  ch_props : ec_properties c = mkNode [] (cs_attrs s);
  ch_sa : ∃ sa, ec_supplierAdmin c = Some sa ∧ sa_poa sa = cs_name s ∧
    pc_holds (cs_name s) (sa_pushConsumer sa) (cs_conns s PushCons) ∧
    opt_holds (sa_pullConsumer sa) w (cs_conns s PullCons);
  ch_ca : ∃ ca, ec_consumerAdmin c = Some ca ∧ ca_poa ca = cs_name s ∧
    opt_holds (PL := pps_writer) (ca_pushSupplier ca) w (cs_conns s PushSupp) ∧
    opt_holds (ca_pullSupplier ca) w (cs_conns s PullSupp) }.

Lemma channel_writes c w s : channel_holds c w s → wf_spec s → writes (ec_output c w) (spec_items s).
Proof.
  intros [Hp Hn (sa & Esa & Hsa & Hpush & Hpull) (ca & Eca & Hca & Hpps & Hpls)] [Hw _ Ht].
  assert (Hch : pc_text (cs_name s) = true) by (unfold wf_channel in Hw; by boolify).
  unfold ec_output. rewrite Hp, Hn, Esa, Eca, channel_record. unfold spec_items, kinds.
  cbn [map concat]. rewrite app_nil_r. apply (writes_bind _ _ [_]).
  { apply writes_emit, is_log_text. cbn [forallb]. rewrite andb_true_r. by apply (wf_channel_item (_, _)). }
  rewrite app_assoc. apply writes_bind.
  - unfold sa_output. rewrite Hsa. apply writes_bind; [by apply writes_try, pc_writes|].
    by apply (opt_manager_writes (PL := ppc_ProxyLaws)).
  - unfold ca_output. rewrite Hca. apply writes_bind; [|by apply (opt_manager_writes (PL := pls_ProxyLaws))].
    pose proof (opt_manager_writes (PL := pps_writer) (cs_name s) (ca_pushSupplier ca) w _ Hpps Hch (Ht PushSupp)) as Hm.
    destruct (ca_pushSupplier ca); [by apply writes_try|done].
Qed.

(** ** Reading *)

(** The node of a channel in the database. *)
Definition channel_node (n : PersistNode) (s : channel_spec) : Prop :=
  _attr n = cs_attrs s ∧ ∀ k, children_at (kind_path k) n = nodes_of (cs_conns s k).

(** The records of the clients of other kinds. *)
Lemma kinds_diverge k k' : k ≠ k' → ∀ x y, diverge (kind_path k ++ x) (kind_path k' ++ y) = true.
Proof. by destruct k, k'. Qed.

Lemma conn_item_path k ch d :
  pc_text ch = true → pc_text d.1 = true →
  item_path (conn_item (kind_name k) ch d) = ["ecf"; ch] ++ kind_path k ++ [d.1].
Proof. intros Hch Hd. cbn [item_path conn_item]. rewrite conn_comps by done. unfold conn_path. by rewrite <- app_assoc. Qed.

Lemma diverge_app p x y : diverge (p ++ x) (p ++ y) = diverge x y.
Proof. induction p as [|h p IH]; [done|]. cbn [app diverge]. by rewrite decide_True. Qed.

Lemma other_kind k k' ch d :
  k ≠ k' → pc_text ch = true → pc_text d.1 = true →
  diverge (["ecf"; ch] ++ kind_path k) (item_path (conn_item (kind_name k') ch d)) = true.
Proof.
  intros Hk Hch Hd. rewrite conn_item_path, diverge_app by done.
  rewrite <- (app_nil_r (kind_path k)). by apply kinds_diverge.
Qed.

(** The records of the kinds [ks], replayed where a channel has no clients yet. *)
Lemma replay_kinds s ks : ∀ root,
  wf_spec s → wf_maps root = true → NoDup ks →
  (∀ k, k ∈ ks → children_at (["ecf"; cs_name s] ++ kind_path k) root = []) →
  let root' := replay root (concat (map (λ k, map (conn_item (kind_name k) (cs_name s)) (cs_conns s k)) ks)) in
  (∀ a, _attr <$> node_at ["ecf"; cs_name s] root = Some a → _attr <$> node_at ["ecf"; cs_name s] root' = Some a) ∧
  ∀ k, children_at (["ecf"; cs_name s] ++ kind_path k) root' =
    if decide (k ∈ ks) then nodes_of (cs_conns s k) else children_at (["ecf"; cs_name s] ++ kind_path k) root.
Proof.
  intros root Hs. assert (Hch : pc_text (cs_name s) = true).
  { destruct Hs as [Hw _ _]. unfold wf_channel in Hw. by boolify. }
  revert root. induction ks as [|k ks IH]; intros root Hw Hn Hnil.
  { split; [done|]. intros k. by rewrite decide_False by apply not_elem_of_nil. }
  apply NoDup_cons in Hn as [Hx Hn]. cbn [map concat]. rewrite replay_app.
  set (l := map (conn_item (kind_name k) (cs_name s)) (cs_conns s k)).
  assert (Hl : Forall (λ i, ∃ d, i = conn_item (kind_name k) (cs_name s) d ∧ pc_text d.1 = true) l).
  { apply Forall_map. eapply Forall_impl; [apply (wf_text _ Hs k)|]. intros d Hd. by exists d. }
  assert (Hother : ∀ k', k' ≠ k → node_at (["ecf"; cs_name s] ++ kind_path k') (replay root l) =
                                  node_at (["ecf"; cs_name s] ++ kind_path k') root).
  { intros k' Hk'. apply node_at_replay_other; [done|]. eapply Forall_impl; [exact Hl|].
    intros i (d & -> & Hd). by apply other_kind. }
  assert (Hattr : ∀ a, _attr <$> node_at ["ecf"; cs_name s] root = Some a →
    _attr <$> node_at ["ecf"; cs_name s] (replay root l) = Some a).
  { clear -Hl Hch. clearbody l. intros a. revert root. induction Hl as [|i l (d & -> & Hd) _ IH]; intros root Ha; [done|].
    change (replay root (?i :: l)) with (replay (apply_item root i) l). apply IH. cbn [apply_item conn_item].
    rewrite conn_comps by done. unfold conn_path. rewrite <- app_assoc. apply attr_kept; [by destruct (comps _)|done]. }
  destruct (IH (replay root l)) as [I1 I2]; [by apply wf_replay|done| |].
  { intros k' Hk'. unfold children_at. rewrite Hother by (intros ->; done). apply Hnil. by right. }
  split; [by intros a Ha; apply I1, Hattr|]. intros k'. rewrite I2. destruct (decide (k' = k)) as [->|Hne].
  - rewrite decide_False, decide_True by (done || by left). unfold l.
    change (["ecf"; cs_name s] ++ kind_path k) with (conn_path (kind_name k) (cs_name s)).
    rewrite replay_conns by (done || apply Hs).
    change (conn_path (kind_name k) (cs_name s)) with (["ecf"; cs_name s] ++ kind_path k).
    by rewrite Hnil by (by left).
  - unfold children_at at 1. rewrite Hother by done. fold (children_at (["ecf"; cs_name s] ++ kind_path k') root).
    destruct (decide (k' ∈ ks)) as [Hin|Hout].
    + by rewrite decide_True by (by right).
    + by rewrite decide_False by (by intros [?|?]%elem_of_cons).
Qed.

Lemma replay_spec s root :
  wf_spec s → wf_maps root = true →
  ∃ n, node_at ["ecf"; cs_name s] (replay root (spec_items s)) = Some n ∧ channel_node n s.
Proof.
  intros Hs Hw. pose proof Hs as [Hhead _ _]. unfold wf_channel in Hhead. cbn [fst snd] in Hhead. boolify.
  unfold spec_items. change (replay root (?i :: ?l)) with (replay (apply_item root i) l).
  set (root1 := apply_item root _).
  assert (Hn1 : node_at ["ecf"; cs_name s] root1 = Some (mkNode [] (cs_attrs s))).
  { unfold root1. cbn [apply_item]. rewrite ecf_comps, set_attrs_sorted by done. by rewrite node_at_set. }
  destruct (replay_kinds s kinds root1) as [Ha Hc]; try done.
  - by apply wf_apply_item.
  - by apply (bool_decide_unpack _).
  - intros k _. unfold children_at. rewrite node_at_app, Hn1. by destruct k.
  - specialize (Ha (cs_attrs s)). rewrite Hn1 in Ha. specialize (Ha eq_refl).
    set (root2 := replay root1 _) in *.
    destruct (node_at ["ecf"; cs_name s] root2) as [n|] eqn:En; [|done]. injection Ha as Ha.
    exists n. split; [done|]. split; [done|]. intros k. specialize (Hc k).
    rewrite decide_True in Hc by apply kinds_all. rewrite <- Hc.
    unfold children_at. by rewrite node_at_app, En.
Qed.

(** Every record of a channel is about a node at or below that of the channel. *)
Lemma spec_items_below s :
  wf_spec s → Forall (λ i, ∃ p a q, i = Put p a ∧ comps p = ["ecf"; cs_name s] ++ q) (spec_items s).
Proof.
  intros [Hw _ Ht]. unfold wf_channel in Hw. cbn [fst snd] in Hw. boolify. unfold spec_items. constructor.
  { eexists _, _, []. split; [done|]. by apply ecf_comps. }
  apply Forall_concat, Forall_map, Forall_forall. intros k _. apply Forall_map.
  eapply Forall_impl; [apply (Ht k)|]. intros d Hd. eexists _, _, (kind_path k ++ [d.1]). split; [done|].
  rewrite conn_comps by done. unfold conn_path. by rewrite <- app_assoc.
Qed.

(** What the records of some channels, replayed, do to the node of the factory. *)
Lemma replay_below name l root :
  Forall (λ i, ∃ p a q, i = Put p a ∧ comps p = ["ecf"; name] ++ q) l →
  (∀ a, _attr <$> node_at ["ecf"] root = Some a → _attr <$> node_at ["ecf"] (replay root l) = Some a) ∧
  ∀ j, is_Some (map_find j (children_at ["ecf"] (replay root l))) ↔
       (j = name ∧ l ≠ []) ∨ is_Some (map_find j (children_at ["ecf"] root)).
Proof.
  intros Hl. revert root. induction Hl as [|i l (p & a & q & -> & Hp) _ IH]; intros root.
  { split; [done|]. intros j. split; [by right|]. by intros [[_ ?]|?]. }
  change (replay root (?i :: l)) with (replay (apply_item root i) l). cbn [apply_item]. rewrite Hp.
  destruct (IH (set_path (["ecf"; name] ++ q) (set_attrs a empty_node) root)) as [I1 I2]. split.
  - intros a' Ha. apply I1. by apply (attr_kept ["ecf"] (name :: q)).
  - intros j. rewrite I2. change (["ecf"; name] ++ q) with (["ecf"] ++ name :: q). rewrite children_keys.
    assert (Put p a :: l ≠ []) by done. tauto.
Qed.

Definition db_items (specs : list channel_spec) : list item := concat (map spec_items specs).

Definition wf_specs (specs : list channel_spec) : Prop := Forall wf_spec specs ∧ NoDup (map cs_name specs).

Lemma replay_specs specs : ∀ root,
  wf_specs specs → wf_maps root = true →
  (∀ a, _attr <$> node_at ["ecf"] root = Some a → _attr <$> node_at ["ecf"] (replay root (db_items specs)) = Some a) ∧
  (∀ j, is_Some (map_find j (children_at ["ecf"] (replay root (db_items specs)))) ↔
        j ∈ map cs_name specs ∨ is_Some (map_find j (children_at ["ecf"] root))) ∧
  ∀ s, s ∈ specs → ∃ n, node_at ["ecf"; cs_name s] (replay root (db_items specs)) = Some n ∧ channel_node n s.
Proof.
  induction specs as [|s specs IH]; intros root [Hw Hn] Hr.
  { split; [done|]. split; [|by intros s ?%elem_of_nil]. intros j. split; [by right|].
    by intros [?%elem_of_nil|?]. }
  inversion Hw as [|? ? Hs Hw']; subst. cbn [map] in Hn. apply NoDup_cons in Hn as [Hx Hn].
  unfold db_items. cbn [map concat]. rewrite replay_app. fold (db_items specs).
  pose proof (spec_items_below s Hs) as Hb. destruct (replay_below (cs_name s) _ root Hb) as [B1 B2].
  destruct (IH (replay root (spec_items s))) as (I1 & I2 & I3); [done|by apply wf_replay|].
  split; [by intros a Ha; apply I1, B1|]. split.
  { intros j. rewrite I2, B2. cbn [map]. rewrite elem_of_cons.
    assert (spec_items s ≠ []) by done. tauto. }
  intros s' [->|Hin]%elem_of_cons; [|by apply I3].
  destruct (replay_spec s root Hs Hr) as (n & Hnode & Hc). exists n. split; [|done].
  rewrite node_at_replay_other; [done|by apply wf_replay|].
  apply Forall_concat, Forall_map, Forall_forall. intros s' Hs'.
  assert (Hne : cs_name s ≠ cs_name s').
  { intros E. apply Hx. rewrite E. by apply (list_elem_of_fmap_2 cs_name). }
  eapply Forall_impl; [apply (spec_items_below s'); by eapply Forall_forall|].
  intros i (p & a & q & -> & Hp). cbn [item_path]. rewrite Hp. cbn [app diverge].
  by rewrite decide_True, decide_False.
Qed.

(** ** The factory *)

(** The channels of the store, in its order. *)
Definition channels_hold (f : EventChannelFactory_i) (w : world) (specs : list channel_spec) : Prop :=
  Forall2 (λ i s, ∃ c, map_find i.1 (f_objects f) = Some c ∧ channel_holds c w s) (f_channels f) specs.

Definition factory_items (f : EventChannelFactory_i) (specs : list channel_spec) : list item :=
  Put "ecf" (factory_attrs f) :: db_items specs.

Lemma factory_writes f w specs :
  no_space (f_endPointNoListen f) = true → channels_hold f w specs → Forall wf_spec specs →
  writes (f_output f w) (factory_items f specs).
Proof.
  intros Hend Hd Hw t l Hl. rewrite factory_line.
  assert (Hps : no_space (show_Z (f_port f)) = true) by apply show_Z_no_space.
  assert (Hf : is_log (item_line (Put "ecf" (factory_attrs f))) [Put "ecf" (factory_attrs f)]).
  { apply is_log_line. unfold factory_attrs. destruct (str_empty _); cbn [text_item forallb]; unfold text_attr;
      cbn [fst snd]; rewrite Hps, ?Hend; done. }
  assert (Hst : writes (store_output (f_objects f) (f_channels f) w) (db_items specs)).
  { unfold store_output, db_items. unfold channels_hold in Hd. clear -Hd Hw.
    induction Hd as [|i s st specs (c & Hc & Hh) _ IH]; [apply writes_ret|].
    inversion Hw; subst. cbn [for_each map concat]. apply writes_bind; [|by apply IH].
    rewrite Hc. by apply channel_writes. }
  destruct (Hst _ _ (is_log_app _ _ _ _ Hl Hf)) as (t' & E & H'). exists t'. split; [done|].
  by rewrite <- app_assoc in H'.
Qed.

(** The database that is read back: the factory with its attributes, below it a node for each
    channel, and nothing else. *)
Lemma factory_database f specs :
  wf_specs specs →
  ∃ node srt, child "ecf" (replay empty_node (factory_items f specs)) = Some node ∧
    _attr node = _attr (set_attrs (factory_attrs f) empty_node) ∧ srt ≡ₚ specs ∧
    Forall2 (λ c s, c.1 = cs_name s ∧ channel_node c.2 s) (_child node) srt.
Proof.
  intros Hw. unfold factory_items. change (replay empty_node (?i :: ?l)) with (replay (apply_item empty_node i) l).
  set (root0 := apply_item empty_node _).
  assert (Hr0 : root0 = mkNode [("ecf", set_attrs (factory_attrs f) empty_node)] []) by done.
  assert (Hwf : wf_maps root0 = true) by by apply wf_apply_item.
  destruct (replay_specs specs root0 Hw Hwf) as (D1 & D2 & D3).
  specialize (D1 _ eq_refl). set (root := replay root0 (db_items specs)) in *.
  assert (Hroot : wf_maps root = true) by by apply wf_replay.
  destruct (node_at ["ecf"] root) as [node|] eqn:En; [|done]. injection D1 as D1.
  assert (Hc : child "ecf" root = Some node).
  { unfold child. cbn [node_at] in En. by destruct (map_find "ecf" (_child root)). }
  assert (Hat : ∀ k, node_at ["ecf"; k] root = map_find k (_child node)).
  { intros k. change ["ecf"; k] with (["ecf"] ++ [k]). rewrite node_at_app, En. cbn.
    by destruct (map_find k (_child node)). }
  assert (Hsorted : map_sorted (_child node) = true).
  { assert (Hwn : wf_maps node = true) by (eapply wf_maps_find; [exact Hroot|exact Hc]).
    rewrite wf_maps_unfold in Hwn. by boolify. }
  destruct Hw as [Hw Hn].
  destruct (map_permutation cs_name channel_node (_child node) specs) as (srt & Hp & Hf); try done.
  - intros k n Hk. assert (Hin : k ∈ map cs_name specs).
    { assert (Hs : is_Some (map_find k (children_at ["ecf"] root))) by (unfold children_at; rewrite En; by eexists).
      apply D2 in Hs as [?|[? Hs]]; [done|]. rewrite Hr0 in Hs. unfold children_at, factory_attrs in Hs. cbn in Hs.
      by destruct (str_empty _). }
    apply list_elem_of_fmap in Hin as (s & -> & Hin). exists s. split_and!; try done.
    destruct (D3 s Hin) as (n' & Hn' & Hch). rewrite Hat, Hk in Hn'. by injection Hn' as ->.
  - intros s Hs. destruct (D3 s Hs) as (n & Hnd & _). rewrite Hat in Hnd. by exists n.
  - by exists node, srt.
Qed.
End channel_records.
