(* ===== verification/ServerRestart.v ===== *)
(** * ServerRestart: a restarted server serves the clients it had

    At a checkpoint the factory writes its channels, with their clients; at the next start the
    database that is read is given to a new factory, whose constructor activates the channels,
    which reincarnate their proxies.  [server_restarted] composes all of that: the factory
    (src/EventChannelFactory.cc), the channels (src/EventChannel.cc), the two admins
    (src/SupplierAdmin.cc, src/ConsumerAdmin.cc), the managers (src/ProxyManager.cc), the four kinds
    of proxies, and the database.

    Activation is a sequence of calls to POAs.  [factory_cmds] lists them in their order, and the
    hypothesis about the ORB is that it accepts that list. *)

From S2P Require Import Prelude Monad CxxMap Stream PersistNode PersistReplay PersistLog PersistLookup ChannelProps.
From S2P Require Import Corba ModelOrb Filter EventQueue Servant Proxy ProxyPullConsumer ProxyPullSupplier ProxyPushConsumer ProxyPushSupplier.
From S2P Require Import ClientRecords ManagerRestore SupplierAdmin ConsumerAdmin EventChannel EventChannelFactory ChannelRecord.

Local Open Scope string_scope.
Local Open Scope list_scope.

(** ** Calls to POAs *)

Inductive poa_cmd := Create (poa : string) | Activate (poa oid : string) (servant : Z).

Section restart.
Context `{OL : OrbLaws} `{PM : !PoaManagerOps}.

Definition run_cmd (c : poa_cmd) (st : poa_state) : option poa_state :=
  match match c with Create p => create_POA p st | Activate p oid a => activate_object_with_id p oid a st end with
  | inr st' => Some st' | inl _ => None
  end.

Fixpoint run_cmds (l : list poa_cmd) (st : poa_state) : option poa_state :=
  match l with [] => Some st | c :: l' => run_cmd c st ≫= run_cmds l' end.

Lemma run_cmds_app l1 l2 st : run_cmds (l1 ++ l2) st = run_cmds l1 st ≫= run_cmds l2.
Proof. revert st. induction l1 as [|c l1 IH]; intros st; [done|]. cbn. destruct (run_cmd c st); [apply IH|done]. Qed.

Lemma run_cmds_split l1 l2 st st' :
  run_cmds (l1 ++ l2) st = Some st' → ∃ st1, run_cmds l1 st = Some st1 ∧ run_cmds l2 st1 = Some st'.
Proof. rewrite run_cmds_app. destruct (run_cmds l1 st) as [st1|]; [|done]. by exists st1. Qed.

Lemma run_cmds_cons c l st st' :
  run_cmds (c :: l) st = Some st' → ∃ st1, run_cmd c st = Some st1 ∧ run_cmds l st1 = Some st'.
Proof. cbn. destruct (run_cmd c st) as [st1|]; [|done]. by exists st1. Qed.

(** What is active stays active. *)
Definition poa_le (st st' : poa_state) : Prop :=
  ∀ p a oid, servant_to_id p a st = inr oid → servant_to_id p a st' = inr oid.

Lemma run_cmd_le c st st' : run_cmd c st = Some st' → poa_le st st'.
Proof.
  unfold run_cmd. destruct c as [p|p oid a].
  - destruct (create_POA p st) as [|st1] eqn:E; [done|]. intros [= <-] q b i. by apply (create_keeps p).
  - destruct (activate_object_with_id p oid a st) as [|st1] eqn:E; [done|]. intros [= <-] q b i Hi.
    assert ((q, b) ≠ (p, a)).
    { intros [= -> ->]. by eapply activate_unique. }
    by rewrite (activate_other _ _ _ _ _ _ _ E).
Qed.

Lemma run_cmds_le l st st' : run_cmds l st = Some st' → poa_le st st'.
Proof.
  revert st. induction l as [|c l IH]; intros st; [by intros [= ->] p a oid|].
  intros (st1 & E1 & E2)%run_cmds_cons. intros p a oid Hi. by eapply IH, run_cmd_le.
Qed.

Lemma run_create p st st' : run_cmd (Create p) st = Some st' → create_POA p st = inr st'.
Proof. unfold run_cmd. destruct (create_POA p st); congruence. Qed.
Lemma run_activate p oid a st st' :
  run_cmd (Activate p oid a) st = Some st' → activate_object_with_id p oid a st = inr st'.
Proof. unfold run_cmd. destruct (activate_object_with_id p oid a st); congruence. Qed.

(** ** The calls of an activation *)

(** A manager: its POA, itself, and the proxies of the nodes [l]; nothing if there are none. *)
Definition manager_cmds (poa name : string) (mgr : Z) (addrs : list Z) (l : list (string * PersistNode))
    : list poa_cmd :=
  match l with
  | [] => []
  | _ => Create (poa +:+ "." +:+ name) :: Activate poa (name +:+ "Manager") mgr ::
         map (λ i, Activate (poa +:+ "." +:+ name) i.1 i.2) (zip l.*1 addrs)
  end.

(** A channel, given its node in the database. *)
Definition channel_cmds (e : env) (this_ec : Z) (name : string) (node : PersistNode) : list poa_cmd :=
  [Create name; Activate name "ConsumerAdmin" (e_ca e);
   Create (name +:+ ".ProxyPushConsumer"); Activate name "SupplierAdmin" (e_sa e)] ++
  manager_cmds name "ProxyPullConsumer" (e_sa_mgr e) (e_pullcons e) (children_at (kind_path PullCons) node) ++
  manager_cmds name "ProxyPushSupplier" (e_push_mgr e) (e_pushsupp e) (children_at (kind_path PushSupp) node) ++
  manager_cmds name "ProxyPullSupplier" (e_pull_mgr e) (e_pullsupp e) (children_at (kind_path PullSupp) node) ++
  Activate name "EventChannel" this_ec ::
  (if str_empty (attrString "InsName" "" node) then []
   else [Activate INSPOA (attrString "InsName" "" node) (e_mapper e)]).

(** The factory: the channels in the order of their names, then the factory itself. *)
Definition factory_cmds (this_f : Z) (envs : list (Z * env)) (node : PersistNode) : list poa_cmd :=
  concat (zip_with (λ c ae, channel_cmds ae.2 ae.1 c.1 c.2) (_child node) envs) ++
  [Activate INSPOA "omniEvents" this_f].

Lemma run_proxies p l st : run_cmds (map (λ i, Activate p i.1 i.2) l) st = activate_all p l st.
Proof.
  revert st. induction l as [|[oid a] l IH]; intros st; [done|]. cbn. unfold run_cmd.
  destruct (activate_object_with_id p oid a st); [done|]. apply IH.
Qed.

(** ** Restoring the parts of a channel *)

Lemma nodes_of_nil (conns : list (string * Client)) : NoDup conns.*1 → nodes_of conns = [] → conns = [].
Proof.
  intros Hn E. destruct (nodes_sorted conns Hn) as (srt & Es & _ & Hp). rewrite E in Es.
  destruct srt; [|done]. by apply Permutation_nil_l in Hp.
Qed.

Lemma nodes_of_sorted (conns : list (string * Client)) :
  map_sorted conns = true → nodes_of conns = map as_node conns.
Proof.
  intros Hs. unfold nodes_of.
  assert (E : ∀ m, foldl (λ l d, map_put d.1 (ref_node d.2) l) m conns =
              foldl (λ l d, map_put d.1 d.2 l) m (map_vals ref_node conns)).
  { clear. unfold map_vals. induction conns as [|d conns IH]; intros m; [done|]. cbn [foldl map fst snd]. apply IH. }
  rewrite E, (map_put_all []) by (cbn [app]; by rewrite map_vals_sorted). done.
Qed.

(** A manager that serves goes on serving. *)
Definition opt_serves `{PC : !ProxyClass T} `{PL : !ProxyLaws} (m : option (ProxyManager T)) (w : world)
    (conns : list (string * Client)) : Prop :=
  match m with Some m => serves m w conns | None => conns = [] end.

Lemma opt_serves_le `{PC : !ProxyClass T} `{PL : !ProxyLaws} (m : option (ProxyManager T)) w w' conns :
  poa_le (poas w) (poas w') → opt_serves m w conns → opt_serves m w' conns.
Proof.
  intros Hle. destruct m as [m|]; [|done]. intros (srt & Hp & Hall). exists srt. split; [done|].
  eapply Forall2_impl; [exact Hall|]. intros s d [Hc Hid]. split; [done|]. by apply Hle.
Qed.

Lemma activate_manager_ret poa name mgr l w st :
  run_cmds (Create (poa +:+ "." +:+ name) :: Activate poa (name +:+ "Manager") mgr :: l) (poas w) = Some st →
  ∃ st1, activate poa name mgr w = Ret (poa +:+ "." +:+ name) (set_poas st1 w) ∧ run_cmds l st1 = Some st.
Proof.
  intros (st0 & E0 & (st1 & E1 & E2)%run_cmds_cons)%run_cmds_cons. exists st1. split; [|done].
  apply run_create in E0. apply run_activate in E1. unfold activate. rewrite E0.
  by rewrite (bind_Ret _ _ _ _ _ (active_step _ _ _ (set_poas st0 w) _ E1)).
Qed.

(** The constructor of a manager followed by [reincarnate]. *)
Lemma manager_restores `{PC : !ProxyClass T} `{PL : !ProxyLaws} n ch inc poa name mgr addrs conns w st :
  incarnates n inc → NoDup conns.*1 → Forall recordable conns → (length conns ≤ n)%nat →
  NoDup addrs → length addrs = length conns → nodes_of conns ≠ [] →
  run_cmds (manager_cmds poa name mgr addrs (nodes_of conns)) (poas w) = Some st →
  ∃ st1, activate poa name mgr w = Ret (poa +:+ "." +:+ name) (set_poas st1 w) ∧
    ∃ m' w', reincarnate ch inc addrs (nodes_of conns)
        (mkProxyManager (poa +:+ "." +:+ name) [], set_poas st1 w) = Ret tt (m', w') ∧
      poas w' = st ∧ serves m' w' conns.
Proof.
  intros Hinc Hn Hr Hroom Hna Hlen Hne Hst.
  assert (Em : manager_cmds poa name mgr addrs (nodes_of conns) =
    Create (poa +:+ "." +:+ name) :: Activate poa (name +:+ "Manager") mgr ::
      map (λ i, Activate (poa +:+ "." +:+ name) i.1 i.2) (zip (nodes_of conns).*1 addrs)).
  { by destruct (nodes_of conns). }
  rewrite Em in Hst. apply activate_manager_ret in Hst as (st1 & E1 & E2). rewrite run_proxies in E2.
  exists st1. split; [done|].
  destruct (reincarnate_serves n ch inc addrs conns (poa +:+ "." +:+ name) (set_poas st1 w) st)
    as (m' & w' & E & _ & Hp & Hs); try done. by exists m', w'.
Qed.

(** The grandchildren of a node, as the two admins look them up. *)
Lemma children_two a k n :
  children_at [a; k] n =
    match child a n with
    | Some m => match child_with_children k m with Some c => _child c | None => [] end
    | None => []
    end.
Proof.
  unfold children_at, child_with_children, child. cbn [node_at].
  destruct (map_find a (_child n)) as [m|]; [|done]. destruct (map_find k (_child m)) as [c|]; [|done].
  by destruct (_child c) eqn:E.
Qed.

Lemma child_with_children_some k m c : child_with_children k m = Some c → _child c ≠ [].
Proof. unfold child_with_children. destruct (child k m) as [c'|]; [|done]. destruct (_child c') eqn:E; [done|]. intros [= <-]. by rewrite E. Qed.

Lemma pc_restores remote addrs ch conns w :
  remote_ok remote → map_sorted conns = true → Forall (λ d, pc_text d.1 = true) conns →
  NoDup addrs → (length conns ≤ length addrs)%nat →
  ∃ p' w', pc_reincarnate remote addrs (nodes_of conns) (new_ProxyPushConsumer ch, w) = Ret tt (p', w') ∧
    pc_holds ch p' conns ∧ poas w' = poas w.
Proof.
  intros Hr Hs Ht Hn Hlen. rewrite nodes_of_sorted by done.
  set (cs := map (λ d, (d.1, conn_of ch d)) conns).
  assert (E : map as_node conns = map_vals c_node cs) by (unfold cs, map_vals; by rewrite map_map).
  assert (Ev : map_vals Some cs = map (λ d, (d.1, Some (conn_of ch d))) conns) by (unfold cs, map_vals; by rewrite map_map).
  assert (Hsv : map_sorted (map_vals Some cs) = true).
  { rewrite map_vals_sorted. rewrite <- (map_vals_sorted c_node), <- E.
    exact (eq_trans (map_vals_sorted ref_node conns) Hs). }
  rewrite E. destruct (reincarnate_all remote ch cs addrs (new_ProxyPushConsumer ch) w) as (p' & w' & Hp & Hv & Hc & Hs' & Hw);
    try done.
  - unfold cs. apply Forall_map. eapply Forall_impl; [exact Ht|]. intros d Hd. by split_and!.
  - unfold cs. by rewrite length_map.
  - exists p', w'. split; [done|]. split; [|done]. split; [done|done|]. by rewrite Hv, Ev.
Qed.

(** What a channel needs from outside to be restored: enough addresses, remote proxies that answer or
    fail as usual, and room for its clients. *)
Record env_ok (e : env) (s : channel_spec) : Prop := {
  eo_pushcons : NoDup (e_pushcons e) ∧ (length (cs_conns s PushCons) ≤ length (e_pushcons e))%nat;
  eo_pullcons : NoDup (e_pullcons e) ∧ length (e_pullcons e) = length (cs_conns s PullCons);
  eo_pushsupp : NoDup (e_pushsupp e) ∧ length (e_pushsupp e) = length (cs_conns s PushSupp);
  eo_pullsupp : NoDup (e_pullsupp e) ∧ length (e_pullsupp e) = length (cs_conns s PullSupp);
  eo_supplier : remote_ok (e_connect_supplier e);
  eo_consumer : answers (e_connect_consumer e);
  eo_queue : (0 < maxQueueLength (mkNode [] (cs_attrs s)))%Z;
  eo_room : (length (cs_conns s PullSupp) ≤ Z.to_nat (maxNumProxies (mkNode [] (cs_attrs s))))%nat }.

(** The clients a channel can have a record of. *)
Record spec_ok (s : channel_spec) : Prop := {
  so_wf : wf_spec s;
  so_sorted : map_sorted (cs_conns s PushCons) = true;
  so_pullcons : Forall (recordable (PL := ppc_ProxyLaws)) (cs_conns s PullCons);
  so_pullsupp : Forall (recordable (PL := pls_ProxyLaws)) (cs_conns s PullSupp) }.

(** A part that is skipped when there are no nodes. *)
Lemma kids_none node s a k kd :
  channel_node node s → wf_spec s → kind_path kd = [a; k] →
  match child a node with
  | Some m => child_with_children k m = None
  | None => True
  end → cs_conns s kd = [] ∧ children_at (kind_path kd) node = [].
Proof.
  intros [_ Hk] Hw Hkd Hc. assert (E : children_at (kind_path kd) node = []).
  { rewrite Hkd, children_two. destruct (child a node) as [m|]; [by rewrite Hc|done]. }
  split; [|done]. apply nodes_of_nil; [apply Hw|]. by rewrite <- Hk.
Qed.

Lemma kids_some node s a k kd m c :
  channel_node node s → kind_path kd = [a; k] → child a node = Some m → child_with_children k m = Some c →
  _child c = nodes_of (cs_conns s kd) ∧ nodes_of (cs_conns s kd) ≠ [].
Proof.
  intros [_ Hk] Hkd Ha Hc. assert (E : _child c = nodes_of (cs_conns s kd)).
  { by rewrite <- Hk, Hkd, children_two, Ha, Hc. }
  split; [done|]. rewrite <- E. by eapply child_with_children_some.
Qed.

Lemma sa_restores e s node props next w st :
  channel_node node s → spec_ok s → env_ok e s →
  run_cmds (manager_cmds (cs_name s) "ProxyPullConsumer" (e_sa_mgr e) (e_pullcons e)
              (children_at (kind_path PullCons) node)) (poas w) = Some st →
  yields (match child "SupplierAdmin" node with
          | Some n => sa_reincarnate (e_connect_supplier e) (e_sa_mgr e) (e_pushcons e) (e_pullcons e) n
          | None => mret tt
          end) (mkSA (cs_name s) props (new_ProxyPushConsumer (cs_name s)) None [] next, w)
    (λ _ r, poas r.2 = st ∧ sa_poa r.1 = cs_name s ∧
            pc_holds (cs_name s) (sa_pushConsumer r.1) (cs_conns s PushCons) ∧
            opt_serves (sa_pullConsumer r.1) r.2 (cs_conns s PullCons)).
Proof.
  intros Hnode [Hw Hsort Hrec _] He Hst. set (name := cs_name s) in *.
  assert (Hpush : ∀ n, child "SupplierAdmin" node = Some n →
    yields (match child_with_children "ProxyPushConsumer" n with
            | Some n => on_push (pc_reincarnate (e_connect_supplier e) (e_pushcons e) (_child n))
            | None => mret tt end)
      (mkSA name props (new_ProxyPushConsumer name) None [] next, w)
      (λ _ r, ∃ p, r.1 = mkSA name props p None [] next ∧ poas r.2 = poas w ∧ pc_holds name p (cs_conns s PushCons))).
  { intros n Hc. destruct (child_with_children "ProxyPushConsumer" n) as [m|] eqn:Em.
    - destruct (kids_some node s _ _ PushCons n m Hnode eq_refl Hc Em) as [-> _].
      destruct (pc_restores (e_connect_supplier e) (e_pushcons e) name (cs_conns s PushCons) w) as (p & w' & E & Hp & Hw');
        try apply He; try done; [apply Hw|].
      unfold on_push. apply yields_zoom. apply yields_Ret. eexists _, _. split; [exact E|]. by exists p.
    - assert (Hnil : cs_conns s PushCons = []).
      { apply (kids_none node s "SupplierAdmin" "ProxyPushConsumer" PushCons Hnode Hw eq_refl). by rewrite Hc. }
      rewrite Hnil. by exists (new_ProxyPushConsumer name). }
  destruct (child "SupplierAdmin" node) as [n|] eqn:Ea.
  2:{ destruct (kids_none node s "SupplierAdmin" "ProxyPushConsumer" PushCons Hnode Hw eq_refl) as [-> _]; [by rewrite Ea|].
      destruct (kids_none node s "SupplierAdmin" "ProxyPullConsumer" PullCons Hnode Hw eq_refl) as [-> K]; [by rewrite Ea|].
      rewrite K in Hst. cbn in Hst. injection Hst as <-. by apply yields_ret. }
  unfold sa_reincarnate. apply yields_bind. eapply yields_mono; [by apply Hpush|].
  intros _ [sa w1] (p & Esa & Hw1 & Hp). cbn [fst snd] in *. subst sa.
  destruct (child_with_children "ProxyPullConsumer" n) as [m|] eqn:Em.
  2:{ destruct (kids_none node s "SupplierAdmin" "ProxyPullConsumer" PullCons Hnode Hw eq_refl) as [-> K]; [by rewrite Ea|].
      rewrite K in Hst. cbn in Hst. injection Hst as <-. by apply yields_ret. }
  destruct (kids_some node s _ _ PullCons n m Hnode eq_refl Ea Em) as [-> Hne].
  rewrite (proj2 Hnode), <- Hw1 in Hst.
  destruct (manager_restores (PL := ppc_ProxyLaws) (length (cs_conns s PullCons)) name ppc_incarnate name
              "ProxyPullConsumer" (e_sa_mgr e) (e_pullcons e) (cs_conns s PullCons) w1 st)
    as (st1 & E1 & m' & w' & E2 & Hp' & Hs'); try apply He; try done; [apply ppc_incarnates|apply Hw|].
  apply yields_Ret. exists tt. eexists. split.
  - unfold need_pullConsumer, new_ProxyPullConsumerManager, on_pull, self, gets, onW, zoom, upd, modify, mbind, M_bind, mret, M_ret.
    cbn [fst snd sa_pullConsumer sa_poa]. rewrite E1. cbn [fst snd sa_pullConsumer sa_set_pull sa_poa]. rewrite E2. done.
  - by split_and!.
Qed.

Lemma pps_recordable conns : Forall (recordable (PL := pps_writer)) conns.
Proof.
  apply Forall_forall. intros [oid [o b]] _. by exists (mkPPS None (Some o) (object_to_string o) b (mkReader 0)).
Qed.

(** The managers of the consumers, after those of the suppliers. *)
Lemma ca_push_restores e s node ca w st :
  channel_node node s → spec_ok s → env_ok e s → ca_poa ca = cs_name s → ca_pushSupplier ca = None →
  run_cmds (manager_cmds (cs_name s) "ProxyPushSupplier" (e_push_mgr e) (e_pushsupp e)
              (children_at (kind_path PushSupp) node)) (poas w) = Some st →
  ∀ n, child "ConsumerAdmin" node = Some n →
  yields (match child_with_children "ProxyPushSupplier" n with
          | Some n =>
              s ← self;
              m ← onW (new_ProxyPushSupplierManager (ca_poa s) (e_push_mgr e));
              _ ← upd (ca_set_push (Some m));
              on_push_manager (reincarnate (PC := pps_ProxyClass (e_connect_consumer e)) (ca_poa s)
                (pps_incarnate (ca_queue s)) (e_pushsupp e) (_child n))
          | None => mret tt
          end) (ca, w)
    (λ _ r, poas r.2 = st ∧ ∃ m, r.1 = ca_set_push m ca ∧ opt_serves (PL := pps_writer) m r.2 (cs_conns s PushSupp)).
Proof.
  intros Hnode [Hw _ _ _] He Hpoa Hnone Hst n Ha.
  destruct (child_with_children "ProxyPushSupplier" n) as [m|] eqn:Em.
  2:{ destruct (kids_none node s "ConsumerAdmin" "ProxyPushSupplier" PushSupp Hnode Hw eq_refl) as [-> K]; [by rewrite Ha|].
      rewrite K in Hst. cbn in Hst. injection Hst as <-. apply yields_ret. split; [done|]. exists None.
      split; [|done]. cbn [fst]. unfold ca_set_push. rewrite <- Hnone. by destruct ca. }
  destruct (kids_some node s _ _ PushSupp n m Hnode eq_refl Ha Em) as [-> Hne].
  rewrite (proj2 Hnode) in Hst.
  destruct (manager_restores (PL := pps_ProxyLaws (e_connect_consumer e) (eo_consumer _ _ He))
              (length (cs_conns s PushSupp)) (cs_name s) (pps_incarnate (ca_queue ca)) (cs_name s)
              "ProxyPushSupplier" (e_push_mgr e) (e_pushsupp e) (cs_conns s PushSupp) w st)
    as (st1 & E1 & m' & w' & E2 & Hp' & Hs'); try apply He; try done;
    [apply pps_incarnates|apply Hw|apply pps_recordable|].
  apply yields_Ret. exists tt. eexists. split.
  - unfold new_ProxyPushSupplierManager, on_push_manager, self, gets, onW, zoom, upd, modify, mbind, M_bind, mret, M_ret.
    cbn [fst snd]. rewrite Hpoa, E1. cbn [fst snd ca_pushSupplier ca_set_push]. rewrite E2. done.
  - split; [done|]. by exists (Some m').
Qed.

Lemma ca_pull_restores e s node ca w st :
  channel_node node s → spec_ok s → env_ok e s → ca_poa ca = cs_name s → ca_pullSupplier ca = None →
  maxNumProxies (ca_properties ca) = maxNumProxies (mkNode [] (cs_attrs s)) →
  run_cmds (manager_cmds (cs_name s) "ProxyPullSupplier" (e_pull_mgr e) (e_pullsupp e)
              (children_at (kind_path PullSupp) node)) (poas w) = Some st →
  ∀ n, child "ConsumerAdmin" node = Some n →
  yields (match child_with_children "ProxyPullSupplier" n with
          | Some n =>
              s ← self;
              m ← onW (new_ProxyPullSupplierManager (ca_poa s) (e_pull_mgr e));
              _ ← upd (ca_set_pull (Some m));
              on_pull_manager (reincarnate (ca_poa s)
                (pls_incarnate (ca_poa s) (maxNumProxies (ca_properties s)) (ca_queue s)) (e_pullsupp e) (_child n))
          | None => mret tt
          end) (ca, w)
    (λ _ r, poas r.2 = st ∧ ∃ m, r.1 = ca_set_pull m ca ∧ opt_serves m r.2 (cs_conns s PullSupp)).
Proof.
  intros Hnode [Hw _ _ Hrec] He Hpoa Hnone Hmax Hst n Ha.
  destruct (child_with_children "ProxyPullSupplier" n) as [m|] eqn:Em.
  2:{ destruct (kids_none node s "ConsumerAdmin" "ProxyPullSupplier" PullSupp Hnode Hw eq_refl) as [-> K]; [by rewrite Ha|].
      rewrite K in Hst. cbn in Hst. injection Hst as <-. apply yields_ret. split; [done|]. exists None.
      split; [|done]. cbn [fst]. unfold ca_set_pull. rewrite <- Hnone. by destruct ca. }
  destruct (kids_some node s _ _ PullSupp n m Hnode eq_refl Ha Em) as [-> Hne].
  rewrite (proj2 Hnode) in Hst.
  destruct (manager_restores (PL := pls_ProxyLaws) (Z.to_nat (maxNumProxies (ca_properties ca)))
              (cs_name s) (pls_incarnate (cs_name s) (maxNumProxies (ca_properties ca)) (ca_queue ca)) (cs_name s)
              "ProxyPullSupplier" (e_pull_mgr e) (e_pullsupp e) (cs_conns s PullSupp) w st)
    as (st1 & E1 & m' & w' & E2 & Hp' & Hs'); try apply He; try done;
    [apply pls_incarnates|apply Hw|rewrite Hmax; apply He|].
  apply yields_Ret. exists tt. eexists. split.
  - unfold new_ProxyPullSupplierManager, on_pull_manager, self, gets, onW, zoom, upd, modify, mbind, M_bind, mret, M_ret.
    cbn [fst snd]. rewrite Hpoa, E1. cbn [fst snd ca_pullSupplier ca_set_pull]. rewrite E2. done.
  - split; [done|]. by exists (Some m').
Qed.

Lemma ca_restores e s node ca w st :
  channel_node node s → spec_ok s → env_ok e s → ca_poa ca = cs_name s →
  ca_pushSupplier ca = None → ca_pullSupplier ca = None →
  maxNumProxies (ca_properties ca) = maxNumProxies (mkNode [] (cs_attrs s)) →
  run_cmds (manager_cmds (cs_name s) "ProxyPushSupplier" (e_push_mgr e) (e_pushsupp e)
              (children_at (kind_path PushSupp) node) ++
            manager_cmds (cs_name s) "ProxyPullSupplier" (e_pull_mgr e) (e_pullsupp e)
              (children_at (kind_path PullSupp) node)) (poas w) = Some st →
  yields (match child "ConsumerAdmin" node with
          | Some n => ca_reincarnate (e_connect_consumer e) (e_push_mgr e) (e_pull_mgr e) (e_pushsupp e) (e_pullsupp e) n
          | None => mret tt
          end) (ca, w)
    (λ _ r, poas r.2 = st ∧ ca_poa r.1 = cs_name s ∧
            opt_serves (PL := pps_writer) (ca_pushSupplier r.1) r.2 (cs_conns s PushSupp) ∧
            opt_serves (ca_pullSupplier r.1) r.2 (cs_conns s PullSupp)).
Proof.
  intros Hnode Hok He Hpoa Hn1 Hn2 Hmax Hst. pose proof (so_wf _ Hok) as Hw.
  apply run_cmds_split in Hst as (st1 & Hst1 & Hst2).
  destruct (child "ConsumerAdmin" node) as [n|] eqn:Ea.
  2:{ destruct (kids_none node s "ConsumerAdmin" "ProxyPushSupplier" PushSupp Hnode Hw eq_refl) as [-> K]; [by rewrite Ea|].
      rewrite K in Hst1. cbn in Hst1. injection Hst1 as <-.
      destruct (kids_none node s "ConsumerAdmin" "ProxyPullSupplier" PullSupp Hnode Hw eq_refl) as [-> K2]; [by rewrite Ea|].
      rewrite K2 in Hst2. cbn in Hst2. injection Hst2 as <-. apply yields_ret. cbn [fst snd].
      by rewrite Hn1, Hn2. }
  unfold ca_reincarnate. apply yields_bind.
  eapply yields_mono; [by apply (ca_push_restores e s node ca w st1)|].
  intros _ [ca1 w1] (Hw1 & m1 & E1 & Hs1). cbn [fst snd] in Hw1, E1, Hs1. subst ca1.
  eapply yields_mono; [apply (ca_pull_restores e s node (ca_set_push m1 ca) w1 st); try done; by rewrite Hw1|].
  intros _ [ca2 w2] (Hw2 & m2 & E2 & Hs2). cbn [fst snd] in *. subst ca2. split_and!; try done.
  eapply opt_serves_le; [|exact Hs1]. rewrite Hw1, Hw2. by eapply run_cmds_le.
Qed.

(** ** Restoring a channel *)

Record channel_serves (c : EventChannel_i) (w : world) (s : channel_spec) : Prop := {
  sv_poa : ec_poa c = Some (cs_name s);
  sv_props : ec_properties c = mkNode [] (cs_attrs s);
  sv_sa : ∃ sa, ec_supplierAdmin c = Some sa ∧ sa_poa sa = cs_name s ∧
    pc_holds (cs_name s) (sa_pushConsumer sa) (cs_conns s PushCons) ∧
    opt_serves (sa_pullConsumer sa) w (cs_conns s PullCons);
  sv_ca : ∃ ca, ec_consumerAdmin c = Some ca ∧ ca_poa ca = cs_name s ∧
    opt_serves (PL := pps_writer) (ca_pushSupplier ca) w (cs_conns s PushSupp) ∧
    opt_serves (ca_pullSupplier ca) w (cs_conns s PullSupp) }.

Lemma channel_serves_le c w w' s : poa_le (poas w) (poas w') → channel_serves c w s → channel_serves c w' s.
Proof.
  intros Hle [H1 H2 (sa & E1 & H3 & H4 & H5) (ca & E2 & H6 & H7 & H8)].
  split; [done|done|exists sa|exists ca]; split_and!; try done; by eapply opt_serves_le.
Qed.

(** Steps of [ec_activate]. *)
Lemma yields_upd {T} (f : T → T) (t : T) (w : world) Q : Q tt (f t, w) → yields (upd f) (t, w) Q.
Proof. done. Qed.
Lemma yields_self {T} (t : T) (w : world) Q : Q t (t, w) → yields self (t, w) Q.
Proof. done. Qed.
Lemma yields_onW {T A} (m : M exn world A) (t : T) w Q :
  yields m w (λ a w', Q a (t, w')) → yields (onW m) (t, w) Q.
Proof. unfold onW. intros Hm. by apply yields_zoom. Qed.

Lemma yields_sa (o : option PersistNode) f c a w Q :
  ec_supplierAdmin c = Some a →
  yields (match o with Some n => f n | None => mret tt end) (a, w) (λ x r, Q x (ec_set_sa (Some r.1) c, r.2)) →
  yields (match o with Some n => on_sa tt (f n) | None => mret tt end) (c, w) Q.
Proof.
  intros Ha. destruct o as [n|].
  - intros Hm. unfold on_sa, yields. cbn [fst]. rewrite Ha. by apply yields_zoom.
  - unfold yields, mret, M_ret. cbn [fst snd]. unfold ec_set_sa. rewrite <- Ha. by destruct c.
Qed.
Lemma yields_ca (o : option PersistNode) f c a w Q :
  ec_consumerAdmin c = Some a →
  yields (match o with Some n => f n | None => mret tt end) (a, w) (λ x r, Q x (ec_set_ca (Some r.1) c, r.2)) →
  yields (match o with Some n => on_ca tt (f n) | None => mret tt end) (c, w) Q.
Proof.
  intros Ha. destruct o as [n|].
  - intros Hm. unfold on_ca, yields. cbn [fst]. rewrite Ha. by apply yields_zoom.
  - unfold yields, mret, M_ret. cbn [fst snd]. unfold ec_set_ca. rewrite <- Ha. by destruct c.
Qed.

Lemma yields_activate poa this oid (w : world) st (Q : unit → world → Prop) :
  run_cmd (Activate poa oid this) (poas w) = Some st → Q tt (set_poas st w) →
  yields (activateObjectWithId poa this oid) w Q.
Proof. intros E HQ. apply run_activate in E. unfold yields. by rewrite (active_step _ _ _ _ _ E). Qed.

Lemma yields_createPoa name c (w : world) st (Q : unit → EventChannel_i * world → Prop) :
  run_cmd (Create name) (poas w) = Some st → Q tt (ec_set_pm pm_initial (ec_set_poa (Some name) c), set_poas st w) →
  yields (createPoa name) (c, w) Q.
Proof.
  intros E HQ. unfold createPoa. apply yields_bind, yields_onW. unfold yields at 1, poa_op.
  rewrite (run_create _ _ _ E). by apply yields_bind, yields_upd, yields_upd.
Qed.

Lemma yields_new_ca name props this (w : world) st (Q : ConsumerAdmin_i → world → Prop) :
  (0 < maxQueueLength props)%Z → run_cmd (Activate name "ConsumerAdmin" this) (poas w) = Some st →
  (∀ q, Q (mkCA name props q ∅ None None) (set_poas st w)) → yields (new_ConsumerAdmin name props this) w Q.
Proof.
  intros Hq E HQ. destruct (new_ConsumerAdmin_ret name props this w st) as (q & _ & Eca); [done|by apply run_activate|].
  unfold yields. rewrite Eca. apply HQ.
Qed.

Lemma yields_new_sa name props ca this (w : world) st st' (Q : SupplierAdmin_i → world → Prop) :
  run_cmd (Create (name +:+ ".ProxyPushConsumer")) (poas w) = Some st →
  run_cmd (Activate name "SupplierAdmin" this) st = Some st' →
  (∀ next w', poas w' = st' → Q (mkSA name props (new_ProxyPushConsumer name) None [] next) w') →
  yields (new_SupplierAdmin name props ca this) w Q.
Proof.
  intros E1 E2 HQ.
  destruct (new_SupplierAdmin_ret name props ca this w st st') as (next & E); [by apply run_create|by apply run_activate|].
  unfold yields. rewrite E. by apply HQ.
Qed.

(** The object is registered under its INS name, when it has one. *)
Lemma yields_setInsName a v c (w : world) st (Q : unit → EventChannel_i * world → Prop) :
  ec_mapper c = None → run_cmds (if str_empty v then [] else [Activate INSPOA v a]) (poas w) = Some st →
  (∀ m w', poas w' = st → Q tt (ec_set_mapper m c, w')) → yields (setInsName a v) (c, w) Q.
Proof.
  intros Hm Hst HQ. unfold setInsName. destruct (str_empty v); cbn [negb].
  - injection Hst as <-. apply yields_bind, yields_ret, yields_bind. apply yields_self. rewrite Hm.
    apply yields_bind, yields_ret, yields_upd. by apply HQ.
  - apply run_cmds_cons in Hst as (st1 & E & [= <-]). apply yields_bind, yields_bind, yields_onW.
    eapply yields_activate; [exact E|]. apply yields_ret, yields_bind. apply yields_self. rewrite Hm.
    apply yields_bind, yields_ret, yields_upd. by apply HQ.
Qed.

Lemma channel_restores e this_ec s node w st :
  channel_node node s → spec_ok s → env_ok e s →
  run_cmds (channel_cmds e this_ec (cs_name s) node) (poas w) = Some st →
  yields (ec_activate e this_ec (cs_name s) (Some node)) (new_EventChannel, w)
    (λ _ r, poas r.2 = st ∧ channel_serves r.1 r.2 s).
Proof.
  intros Hnode Hok He Hst. set (name := cs_name s) in *.
  unfold channel_cmds in Hst. apply run_cmds_split in Hst as (st1 & Hst1 & Hst).
  apply run_cmds_split in Hst as (st2 & Hst2 & Hst). rewrite app_assoc in Hst.
  apply run_cmds_split in Hst as (st3 & Hst3 & Hst4).
  apply run_cmds_cons in Hst1 as (sa1 & Ha1 & Hst1). apply run_cmds_cons in Hst1 as (sa2 & Ha2 & Hst1).
  apply run_cmds_cons in Hst1 as (sa3 & Ha3 & Hst1). apply run_cmds_cons in Hst1 as (sa4 & Ha4 & [= <-]).
  apply run_cmds_cons in Hst4 as (sb1 & Hb1 & Hst4).
  unfold ec_activate. apply yields_bind, yields_upd, yields_bind. eapply yields_createPoa; [exact Ha1|].
  apply yields_bind, yields_upd, yields_bind, yields_self. cbn [fst snd]. set (c0 := ec_set_properties _ _).
  assert (Hprops : ec_properties c0 = mkNode [] (cs_attrs s)) by (unfold c0; cbn; by rewrite (proj1 Hnode)).
  (* the admins *)
  apply yields_bind, yields_onW. eapply yields_new_ca; [rewrite Hprops; apply He|exact Ha2|intros q].
  apply yields_bind, yields_upd, yields_bind, yields_onW.
  eapply yields_new_sa; [exact Ha3|exact Ha4|intros next w1 Hw1]. apply yields_bind, yields_upd.
  set (ca0 := mkCA _ _ _ _ _ _). set (sa0 := mkSA _ _ _ _ _ _).
  (* the clients *)
  apply yields_bind, yields_bind, (yields_sa _ _ _ sa0); [done|].
  eapply yields_mono; [apply (sa_restores e s node _ _ w1 st2); by rewrite ?Hw1|].
  intros _ [sa1' w2] (Hw2 & Hsap & Hpush & Hpull). cbn [fst snd] in *.
  apply (yields_ca _ _ _ ca0); [done|]. eapply yields_mono.
  { apply (ca_restores e s node ca0 w2 st3); try done; [by unfold ca0; cbn [ca_properties]; rewrite Hprops|by rewrite Hw2]. }
  intros _ [ca1 w3] (Hw3 & Hcap & Hpps & Hpls). cbn [fst snd] in *.
  (* the object itself *)
  apply yields_bind, yields_onW. eapply yields_activate; [by rewrite Hw3|].
  apply yields_bind, yields_upd, yields_bind. unfold ec_remove_ref.
  apply yields_bind, yields_upd, yields_bind, yields_self, yields_ret, yields_bind, yields_self. cbn [fst snd].
  eapply yields_setInsName; [done|exact Hst4|]. intros m w4 Hw4. split; [done|].
  assert (Hle : poa_le (poas w3) (poas w4)).
  { rewrite Hw3, Hw4. intros p a i Hi. eapply run_cmds_le; [exact Hst4|]. by eapply run_cmd_le. }
  split; [done|by rewrite <- Hprops|exists sa1'|exists ca1]; split_and!; try done; try by eapply opt_serves_le.
  eapply opt_serves_le; [|exact Hpull]. intros p a i Hi. apply Hle. rewrite Hw3.
  eapply run_cmds_le; [exact Hst3|]. by rewrite <- Hw2.
Qed.

(** ** Restoring the factory *)

(** A channel of the new factory, at the address and with the environment it was given. *)
Definition object_serves (f : EventChannelFactory_i) (w : world) (ae : Z * env) (s : channel_spec) : Prop :=
  ∃ c, map_find ae.1 (f_objects f) = Some c ∧ channel_serves c w s.

Lemma activate_channel_restores a e s node f w st :
  channel_node node s → spec_ok s → env_ok e s →
  run_cmds (channel_cmds e a (cs_name s) node) (poas w) = Some st →
  ∃ c w', activate_channel e a (cs_name s) node (f, w) =
      Ret tt (f_start a (f_set_objects (map_put a c (f_objects f)) f), w') ∧
    poas w' = st ∧ channel_serves c w' s.
Proof.
  intros Hn Hs He Hst. destruct (proj1 (yields_Ret _ _ _) (channel_restores e a s node w st Hn Hs He Hst))
    as ([] & [c w'] & E & Hp & Hc). exists c, w'. split; [|done].
  unfold activate_channel, run_new. unfold mbind, M_bind. cbn [fst snd]. by rewrite E.
Qed.

Lemma create_restores l specs envs : ∀ f w st,
  Forall2 (λ c s, c.1 = cs_name s ∧ channel_node c.2 s) l specs → Forall spec_ok specs →
  Forall2 (λ ae s, env_ok ae.2 s) envs specs → NoDup envs.*1 →
  run_cmds (concat (zip_with (λ c ae, channel_cmds ae.2 ae.1 c.1 c.2) l envs)) (poas w) = Some st →
  ∃ f' w', create_channels envs l (f, w) = Ret tt (f', w') ∧ poas w' = st ∧
    f_port f' = f_port f ∧ f_endPointNoListen f' = f_endPointNoListen f ∧
    f_started f' = f_started f ++ envs.*1 ∧
    (∀ a, a ∉ envs.*1 → map_find a (f_objects f') = map_find a (f_objects f)) ∧
    Forall2 (object_serves f' w') envs specs.
Proof.
  revert specs envs. induction l as [|[name node] l IH]; intros specs envs f w st Hl Hok He Hn Hst.
  { inversion Hl; subst. inversion He; subst. cbn in Hst. injection Hst as <-. exists f, w.
    rewrite app_nil_r. by split_and!. }
  inversion Hl as [|? s ? specs' [Hnm Hnode] Hl']; subst. inversion He as [|[a e] ? envs' ? He1 He']; subst.
  inversion Hok as [|? ? Hs Hok']; subst. cbn [fst snd] in *. subst name.
  cbn [fmap list_fmap fst] in Hn. apply NoDup_cons in Hn as [Hx Hn].
  cbn [zip_with concat fst snd] in Hst. apply run_cmds_split in Hst as (st1 & Hst1 & Hst2).
  destruct (activate_channel_restores a e s node f w st1 Hnode Hs He1 Hst1) as (c & w1 & E1 & Hw1 & Hc).
  set (f1 := f_start a _) in E1.
  destruct (IH specs' envs' f1 w1 st Hl' Hok' He' Hn) as (f' & w' & E & Hw' & P1 & P2 & P3 & P4 & P5); [by rewrite Hw1|].
  exists f', w'. cbn [create_channels]. rewrite (bind_Ret _ _ _ _ _ E1). split_and!; try done.
  - rewrite P3. cbn. by rewrite <- app_assoc.
  - intros b Hb. cbn [fmap list_fmap fst] in Hb. apply not_elem_of_cons in Hb as [Hb1 Hb2].
    rewrite P4 by done. unfold f1. cbn [f_objects f_start f_set_objects]. by rewrite map_find_put_ne.
  - constructor; [|done]. exists c. cbn [fst]. rewrite P4 by done. unfold f1.
    cbn [f_objects f_start f_set_objects]. rewrite map_find_put_eq. split; [done|].
    eapply channel_serves_le; [|exact Hc]. rewrite Hw1, Hw'. by eapply run_cmds_le.
Qed.

(** What the constructor reads in the node of the factory. *)
Lemma factory_port f node d :
  _attr node = _attr (set_attrs (factory_attrs f) empty_node) → (0 ≤ f_port f < 4294967296)%Z →
  attrLong "port" d node = f_port f.
Proof.
  intros Ha Hp. unfold attrLong. rewrite Ha.
  assert (map_find "port" (_attr (set_attrs (factory_attrs f) empty_node)) = Some (show_Z (f_port f))) as ->.
  { unfold factory_attrs. by destruct (str_empty _). }
  by rewrite atol_show_Z by (unfold LONG_MIN, LONG_MAX; lia).
Qed.

Lemma factory_endPoint f node :
  _attr node = _attr (set_attrs (factory_attrs f) empty_node) →
  attrString "endPointNoListen" "" node = f_endPointNoListen f.
Proof. intros Ha. unfold attrString. rewrite Ha. unfold factory_attrs. by destruct (f_endPointNoListen f). Qed.

(** A new factory, given the node of one before. *)
Lemma new_factory_restores f node srt this_f envs w st :
  (0 ≤ f_port f < 4294967296)%Z → _attr node = _attr (set_attrs (factory_attrs f) empty_node) →
  Forall2 (λ c s, c.1 = cs_name s ∧ channel_node c.2 s) (_child node) srt → Forall spec_ok srt →
  Forall2 (λ ae s, env_ok ae.2 s) envs srt → NoDup envs.*1 →
  run_cmds (factory_cmds this_f envs node) (poas w) = Some st →
  ∃ f' w', new_EventChannelFactory this_f envs node (new_factory_members node, w) = Ret tt (f', w') ∧
    poas w' = st ∧ f_port f' = f_port f ∧ f_endPointNoListen f' = f_endPointNoListen f ∧ f_started f' = envs.*1 ∧
    Forall2 (object_serves f' w') envs srt.
Proof.
  intros Hport Hattr Hkids Hok He Hna Hst. unfold factory_cmds in Hst. apply run_cmds_split in Hst as (st1 & Hst1 & Hst2).
  apply run_cmds_cons in Hst2 as (st2 & Hst2 & [= <-]).
  destruct (create_restores _ srt envs (new_factory_members node) w st1 Hkids Hok He Hna Hst1)
    as (f' & w1 & E1 & Hw1 & P1 & P2 & P3 & _ & P5).
  exists f', (set_poas st2 w1). split_and!; [|done|..].
  - unfold new_EventChannelFactory. rewrite (bind_Ret _ _ _ _ _ E1). unfold onW, zoom. cbn [fst snd].
    rewrite (active_step INSPOA this_f "omniEvents" w1 st2); [done|]. rewrite Hw1. by apply run_activate.
  - rewrite P1. unfold new_factory_members. cbn [f_port]. rewrite (factory_port f) by done. by apply u32_id.
  - rewrite P2. by apply factory_endPoint.
  - by rewrite P3.
  - eapply Forall2_impl; [exact P5|]. intros ae s (c & Hc & Hs). exists c. split; [done|].
    eapply channel_serves_le; [|exact Hs]. cbn [poas set_poas]. rewrite Hw1. by eapply run_cmd_le.
Qed.

Lemma spec_ok_wf specs : Forall spec_ok specs → NoDup (map cs_name specs) → wf_specs specs.
Proof. intros Hok Hn. split; [eapply Forall_impl; [exact Hok|]; by intros s [? _ _ _]|done]. Qed.

(** C4: a restarted server serves the clients it had.  Let the channels of a factory have the
    clients [specs], in all four kinds of proxies.  What the factory writes at a checkpoint parses,
    and the constructor of a new factory, given the database that is read and an ORB that accepts
    the calls, returns; it has the same port and end point and the same channels, all started, with
    the same properties; and each channel has exactly the same clients, under the same object ids,
    known or not as proxies of other channels. *)
Theorem server_restarted f w t0 specs :
  is_log t0 [] → (0 ≤ f_port f < 4294967296)%Z → no_space (f_endPointNoListen f) = true →
  channels_hold f w specs → Forall spec_ok specs → NoDup (map cs_name specs) →
  ∃ t root node srt, f_output f w t0 = Ret tt t ∧ parse t = Some root ∧ child "ecf" root = Some node ∧
    srt ≡ₚ specs ∧ (_child node).*1 = map cs_name srt ∧
  ∀ this_f envs w2 st,
    Forall2 (λ ae s, env_ok ae.2 s) envs srt → NoDup envs.*1 →
    run_cmds (factory_cmds this_f envs node) (poas w2) = Some st →
    ∃ f' w', new_EventChannelFactory this_f envs node (new_factory_members node, w2) = Ret tt (f', w') ∧
      f_port f' = f_port f ∧ f_endPointNoListen f' = f_endPointNoListen f ∧ f_started f' = envs.*1 ∧
      Forall2 (object_serves f' w') envs srt.
Proof.
  intros Ht Hport Hend Hf Hok Hn. pose proof (spec_ok_wf specs Hok Hn) as Hw.
  destruct (factory_writes f w specs Hend Hf (proj1 Hw) t0 [] Ht) as (t & E & Hlog).
  destruct (factory_database f specs Hw) as (node & srt & Hnode & Hattr & Hperm & Hkids).
  exists t, (replay empty_node (factory_items f specs)), node, srt.
  split; [done|]. split; [by apply is_log_parse|]. split; [done|]. split; [done|]. split.
  { clear -Hkids. induction Hkids as [|c s l srt (E & _) _ IH]; [done|]. cbn. by rewrite E, IH. }
  intros this_f envs w2 st He Hna Hst.
  destruct (new_factory_restores f node srt this_f envs w2 st) as (f' & w' & E1 & _ & K); [by try rewrite Hperm..|].
  by exists f', w'.
Qed.
End restart.

(** ** Witness: a channel with a client of each kind *)

Definition r_spec : channel_spec :=
  mkSpec "chan" [("MaxQueueLength", "2")] (λ k,
    match k with
    | PushCons => [("1.2.3", (obj 9, true))]
    | PullCons => [("7.2.3", (obj 10, false))]
    | PushSupp => [("2.2.3", (obj 11, false))]
    | PullSupp => [("3.2.3", (obj 12, false))]
    end).

Definition r_channel : EventChannel_i :=
  mkEC
    (Some (mkSA "chan" (mkNode [] [("MaxQueueLength", "2")])
      (mkPPCon [("1.2.3", 96%Z)] [(96%Z, mkConnection "chan" "1.2.3" (obj 9) "IOR:9" true)] "chan"
         "chan.ProxyPushConsumer" false)
      (Some (mkProxyManager "chan.ProxyPullConsumer" [(64%Z, mkPPC None (Some (obj 10)) Pull 0)])) [] (0%Z, 0%Z)))
    (Some (mkCA "chan" (mkNode [] [("MaxQueueLength", "2")]) pps_queue ∅
      (Some (mkProxyManager "chan.ProxyPushSupplier" [(65%Z, mkPPS None (Some (obj 11)) "IOR:b" false (mkReader 0))]))
      (Some (mkProxyManager "chan.ProxyPullSupplier" [(66%Z, mkPLS (Some (obj 12)) true 0 (mkReader 0))]))))
    (Some "chan") pm_initial false (mkNode [] [("MaxQueueLength", "2")]) None 1 "chan".

Definition r_world : world :=
  set_poas (mkModelPoas [] [("chan.ProxyPullConsumer", 64%Z, "7.2.3"); ("chan.ProxyPushSupplier", 65%Z, "2.2.3");
    ("chan.ProxyPullSupplier", 66%Z, "3.2.3")]) model_world.

Definition r_factory : EventChannelFactory_i := mkECF 11169 "" [(16%Z, tt)] [(16%Z, r_channel)] [16%Z].

Definition r_env : env :=
  mkEnv 32 33 34 35 36 37 [40%Z] [41%Z] [42%Z] [43%Z] (λ _, inl TRANSIENT) (λ _ _, inl COMM_FAILURE).

Lemma r_holds : channels_hold r_factory r_world [r_spec].
Proof.
  constructor; [|constructor]. exists r_channel. split; [reflexivity|]. split; [reflexivity|reflexivity| |].
  - eexists. split; [reflexivity|]. split; [reflexivity|]. split; [split; reflexivity|].
    constructor; [|constructor]. repeat split; reflexivity.
  - eexists. split; [reflexivity|]. split; [reflexivity|]. split; (constructor; [|constructor]); repeat split; reflexivity.
Qed.

Lemma r_spec_ok : spec_ok r_spec.
Proof.
  split.
  - split; [reflexivity| |]; intros []; try apply NoDup_singleton; repeat constructor.
  - reflexivity.
  - constructor; [|constructor]. exists (mkPPC None (Some (obj 10)) Pull 0). split; reflexivity.
  - constructor; [|constructor]. exists (mkPLS (Some (obj 12)) true 0 (mkReader 0)). split; reflexivity.
Qed.

Lemma r_env_ok : env_ok r_env r_spec.
Proof.
  split; try (split; [apply NoDup_singleton|cbn; lia]).
  - intros o s. reflexivity.
  - intros o. reflexivity.
  - vm_compute. reflexivity.
  - vm_compute. lia.
Qed.

Lemma server_restarted_witness :
  channels_hold r_factory r_world [r_spec] ∧
  ∃ t root node f' w',
    f_output r_factory r_world "" = Ret tt t ∧ parse t = Some root ∧ child "ecf" root = Some node ∧
    new_EventChannelFactory 8 [(16%Z, r_env)] node (new_factory_members node, model_world) = Ret tt (f', w') ∧
    f_port f' = 11169%Z ∧ object_serves f' w' (16%Z, r_env) r_spec.
Proof.
  split; [exact r_holds|].
  destruct (server_restarted r_factory r_world "" [r_spec]) as (t & root & node & srt & Ht & Hp & Hn & Hperm & Hk & K).
  - exact is_log_nil.
  - cbn. lia.
  - reflexivity.
  - exact r_holds.
  - constructor; [exact r_spec_ok|constructor].
  - apply NoDup_singleton.
  - apply Permutation_singleton_r in Hperm as ->.
    assert (Hnode : child "ecf" (match f_output r_factory r_world "" with
        | Ret _ t => default empty_node (parse t) | _ => empty_node end) = Some node) by (by rewrite Ht, Hp).
    assert (Hst : ∃ st, run_cmds (factory_cmds 8 [(16%Z, r_env)] node) (poas model_world) = Some st).
    { vm_compute in Hnode. injection Hnode as <-. eexists. vm_compute. reflexivity. }
    destruct Hst as (st & Hst).
    destruct (K 8%Z [(16%Z, r_env)] model_world st) as (f' & w' & E & P1 & _ & _ & P4).
    + constructor; [exact r_env_ok|constructor].
    + apply NoDup_singleton.
    + exact Hst.
    + exists t, root, node, f', w'. inversion P4. split_and!; assumption.
Defined.
