(* ===== verification/Disk.v ===== *)
(** * Disk: the directory of the log files

    The POSIX calls the persistency code makes: a name designates a file, two names may designate
    the same one ([link]), [unlink] removes a name, and [ofstream::open] truncates or appends.
    Every call may fail for reasons of its own ([faults]), and a write may stop anywhere.

    [past] holds the disk after every change: a process that dies leaves one of these behind. *)

From S2P Require Import Prelude Monad Stream.

Local Open Scope string_scope.
Local Open Scope list_scope.

(** [names] is the directory; [files] the contents by file. *)
Record disk := mkDisk { names : gmap string N; files : gmap N string }.

(** What becomes of a call: it is carried out, or fails; a write that fails has let [written]
    characters through. *)
Inductive fault := Fine | Broken (written : nat).

Definition is_fine (x : fault) : bool := match x with Fine => true | _ => false end.

Record storage := mkStorage { fs : disk; past : list disk; faults : list fault }.

Definition text (d : disk) (name : string) : option string :=
  match names d !! name with Some i => files d !! i | None => None end.

Definition bind_name (n : string) (i : N) (d : disk) : disk := mkDisk (<[n := i]> (names d)) (files d).
Definition drop_name (n : string) (d : disk) : disk := mkDisk (delete n (names d)) (files d).
Definition set_file (i : N) (t : string) (d : disk) : disk := mkDisk (names d) (<[i := t]> (files d)).
Definition file (i : N) (d : disk) : string := default "" (files d !! i).

Section calls.
Context {E : Type}.
Definition S_ : Type → Type := M E storage.

Definition next_fault : S_ fault := λ s,
  match faults s with
  | [] => Ret Fine s
  | x :: l => Ret x (mkStorage (fs s) (past s) l)
  end.

(** The disk changes. *)
Definition settle (d : disk) : S_ unit := modify (λ s, mkStorage d (d :: past s) (faults s)).

(** [stat(name,&sb)==0] *)
Definition fileExists (name : string) : S_ bool :=
  gets (λ s, match names (fs s) !! name with Some _ => true | None => false end).

(** [unlink(name)==0] *)
Definition unlink (name : string) : S_ bool :=
  x ← next_fault;
  d ← gets fs;
  match x, names d !! name with
  | Fine, Some _ => _ ← settle (drop_name name d); mret true
  | _, _ => mret false
  end.

(** [link(old,new)==0]: the new name must not exist. *)
Definition link (old new : string) : S_ bool :=
  x ← next_fault;
  d ← gets fs;
  match x, names d !! old, names d !! new with
  | Fine, Some i, None => _ ← settle (bind_name new i d); mret true
  | _, _, _ => mret false
  end.

(** [open(name, ios::out|ios::trunc)] and [open(name, ios::out|ios::app)]: the file, if the
    call succeeds; it is created if it does not exist. *)
Definition create_file (name : string) : S_ (option N) :=
  d ← gets fs;
  let i := fresh (dom (files d)) in
  _ ← settle (bind_name name i (set_file i "" d)); mret (Some i).

Definition open_trunc (name : string) : S_ (option N) :=
  x ← next_fault;
  d ← gets fs;
  match x, names d !! name with
  | Fine, Some i => _ ← settle (set_file i "" d); mret (Some i)
  | Fine, None => create_file name
  | Broken _, _ => mret None
  end.

Definition open_append (name : string) : S_ (option N) :=
  x ← next_fault;
  d ← gets fs;
  match x, names d !! name with
  | Fine, Some i => mret (Some i)
  | Fine, None => create_file name
  | Broken _, _ => mret None
  end.

(** The characters reach the end of the file one after the other. *)
Fixpoint write_chars (i : N) (s : string) : S_ unit :=
  match s with
  | "" => mret tt
  | String c s' =>
      d ← gets fs; _ ← settle (set_file i (file i d +:+ String c "") d); write_chars i s'
  end.

(** [os<<s<<flush]: whether the stream is good afterwards. *)
Definition write (i : N) (s : string) : S_ bool :=
  x ← next_fault;
  match x with
  | Fine => _ ← write_chars i s; mret true
  | Broken n => _ ← write_chars i (String.substring 0 n s); mret false
  end.

(** [close()]: whether the stream is good afterwards. *)
Definition close : S_ bool := x ← next_fault; mret (is_fine x).
End calls.

(** ** Reasoning about crashes

    [crash I P m Q T]: started on a disk with [P], [m] leaves [I] true of every disk it
    produces; if it returns, [Q] of the final disk; if it throws, [T]. *)

Section crash.
Context {E : Type}.
Implicit Types I P T : disk → Prop.

Definition crash {A} I P (m : @S_ E A) (Q : A → disk → Prop) T : Prop :=
  ∀ s, P (fs s) → Forall I (past s) →
    Forall I (past (final (m s))) ∧
    match m s with Ret a s' => Q a (fs s') | Throw _ s' => T (fs s') | _ => True end.

Lemma crash_ret {A} I P (a : A) (Q : A → disk → Prop) T : (∀ d, P d → Q a d) → crash I P (mret a) Q T.
Proof. intros HQ s HP HI. split; [done|]. simpl. by apply HQ. Qed.

Lemma crash_bind {A B} I P (m : @S_ E A) Q (f : A → @S_ E B) R T :
  crash I P m Q T → (∀ a, crash I (Q a) (f a) R T) → crash I P (x ← m; f x) R T.
Proof.
  intros Hm Hf s HP HI. unfold mbind, M_bind. destruct (Hm s HP HI) as [K1 K2].
  destruct (m s) as [a s'|?|?|?]; simpl in *; [by apply Hf|done..].
Qed.

(** The current disk, as a hypothesis. *)
Lemma crash_disk {A} I P (f : disk → @S_ E A) Q T :
  (∀ d, P d → crash I (λ d', d' = d) (f d) Q T) → crash I P (d ← gets fs; f d) Q T.
Proof.
  intros Hf s HP HI. unfold gets, mbind, M_bind. by apply (Hf (fs s) HP s).
Qed.

Lemma crash_known {A} I P (m : @S_ E A) Q T :
  (∀ d, P d → crash I (λ d', d' = d) m Q T) → crash I P m Q T.
Proof. intros Hm s HP HI. by apply (Hm (fs s) HP s). Qed.

Lemma crash_fault {A} I P (f : fault → @S_ E A) Q T :
  (∀ x, crash I P (f x) Q T) → crash I P (x ← next_fault; f x) Q T.
Proof.
  intros Hf s HP HI. unfold next_fault, mbind, M_bind. destruct (faults s); by apply Hf.
Qed.

Lemma crash_settle {A} I (d d' : disk) (k : @S_ E A) Q T :
  I d' → crash I (λ e, e = d') k Q T → crash I (λ e, e = d) (_ ← settle d'; k) Q T.
Proof.
  intros HI Hf s HP HF. unfold settle, modify, mbind, M_bind. apply Hf; [done|].
  simpl. by constructor.
Qed.

Lemma crash_throw {A} I P (e : E) (Q : A → disk → Prop) T : (∀ d, P d → T d) → crash I P (throw e) Q T.
Proof. intros HT s HP HI. split; [done|]. by apply HT. Qed.
Lemma crash_exit {A} I P (c : Z) (Q : A → disk → Prop) T : crash I P (exit c) Q T.
Proof. by intros s HP HI. Qed.
Lemma crash_abort {A} I P (Q : A → disk → Prop) T : crash I P abort Q T.
Proof. by intros s HP HI. Qed.

Lemma crash_catch {A} I P (m : @S_ E A) (h : E → option (@S_ E A)) Q T T' :
  crash I P m Q T → (∀ d, T d → T' d) →
  (∀ e k, h e = Some k → crash I T k Q T') → crash I P (try_catch m h) Q T'.
Proof.
  intros Hm HT Hh s HP HI. unfold try_catch. destruct (Hm s HP HI) as [K1 K2].
  destruct (m s) as [a s'|e s'|?|?]; simpl in *; [done| |done..].
  destruct (h e) as [k|] eqn:Ek; [by eapply Hh|]. simpl. split; [done|by apply HT].
Qed.

(** The calls.  In each, the disk is known. *)
Lemma crash_unlink I (d : disk) n (Q : bool → disk → Prop) T :
  (∀ i, names d !! n = Some i → I (drop_name n d) ∧ Q true (drop_name n d)) → Q false d →
  crash I (λ e, e = d) (unlink n) Q T.
Proof.
  intros Hok Hno. apply crash_fault. intros x. apply crash_disk. intros d0 ->.
  destruct x; [|by apply crash_ret; intros ? ->].
  destruct (names d !! n) as [i|]; [|by apply crash_ret; intros ? ->].
  destruct (Hok i eq_refl). apply crash_settle; [done|]. by apply crash_ret; intros ? ->.
Qed.

Lemma crash_link I (d : disk) old new (Q : bool → disk → Prop) T :
  (∀ i, names d !! old = Some i → names d !! new = None →
    I (bind_name new i d) ∧ Q true (bind_name new i d)) → Q false d →
  crash I (λ e, e = d) (link old new) Q T.
Proof.
  intros Hok Hno. apply crash_fault. intros x. apply crash_disk. intros d0 ->.
  destruct x; [|by apply crash_ret; intros ? ->].
  destruct (names d !! old) as [i|]; [|by apply crash_ret; intros ? ->].
  destruct (names d !! new) as [j|]; [by apply crash_ret; intros ? ->|].
  destruct (Hok i eq_refl eq_refl). apply crash_settle; [done|]. by apply crash_ret; intros ? ->.
Qed.

Lemma crash_open_append I (d : disk) n (Q : option N → disk → Prop) T :
  (∀ i, names d !! n = Some i → Q (Some i) d) → Q None d → is_Some (names d !! n) →
  crash I (λ e, e = d) (open_append n) Q T.
Proof.
  intros Hok Hno [i Hi]. apply crash_fault. intros x. apply crash_disk. intros d0 ->. rewrite Hi.
  destruct x; apply crash_ret; intros ? ->; eauto.
Qed.

Definition emptied (n : string) (d : disk) : N * disk :=
  match names d !! n with
  | Some i => (i, set_file i "" d)
  | None => let i := fresh (dom (files d)) in (i, bind_name n i (set_file i "" d))
  end.

Lemma crash_open_trunc I (d : disk) n (Q : option N → disk → Prop) T :
  I (emptied n d).2 → Q (Some (emptied n d).1) (emptied n d).2 → Q None d →
  crash I (λ e, e = d) (open_trunc n) Q T.
Proof.
  unfold emptied. intros HI Hok Hno. apply crash_fault. intros x. apply crash_disk. intros d0 ->.
  destruct x; [|by apply crash_ret; intros ? ->].
  destruct (names d !! n) as [i|].
  - apply crash_settle; [done|]. by apply crash_ret; intros ? ->.
  - unfold create_file. apply crash_disk. intros d0 ->. apply crash_settle; [done|].
    by apply crash_ret; intros ? ->.
Qed.

Lemma set_file_twice i t t' d : set_file i t' (set_file i t d) = set_file i t' d.
Proof. unfold set_file. simpl. by rewrite insert_insert_eq. Qed.
Lemma file_set_file i t d : file i (set_file i t d) = t.
Proof. unfold file, set_file. simpl. by rewrite lookup_insert_eq. Qed.

(** Whatever is written to a file, the invariant must hold with any contents of that file. *)
Lemma crash_write_chars I (d : disk) i s (Q : unit → disk → Prop) T :
  (∀ t, I (set_file i t d)) → is_Some (files d !! i) → Q tt (set_file i (file i d +:+ s) d) →
  crash I (λ e, e = d) (write_chars i s) Q T.
Proof.
  revert d. induction s as [|c s IH]; intros d HI [u Hu] HQ; cbn [write_chars].
  - apply crash_ret. intros ? ->. rewrite str_app_nil_r in HQ. unfold file in HQ. rewrite Hu in HQ.
    simpl in HQ. unfold set_file in HQ. rewrite insert_id in HQ by done. by destruct d.
  - apply crash_disk. intros d0 ->. apply crash_settle; [by apply HI|].
    apply IH.
    + intros t. by rewrite set_file_twice.
    + unfold set_file. simpl. rewrite lookup_insert_eq. by eexists.
    + by rewrite file_set_file, set_file_twice, str_app_assoc.
Qed.

Lemma crash_write I (d : disk) i s (Q : bool → disk → Prop) T :
  (∀ t, I (set_file i t d)) → is_Some (files d !! i) → Q true (set_file i (file i d +:+ s) d) →
  (∀ t, Q false (set_file i t d)) →
  crash I (λ e, e = d) (write i s) Q T.
Proof.
  intros HI Hf Hok Hno. apply crash_fault. intros [|n].
  - apply (crash_bind _ _ _ (λ _ d', d' = set_file i (file i d +:+ s) d)); [by apply crash_write_chars|].
    intros _. by apply crash_ret; intros ? ->.
  - apply (crash_bind _ _ _ (λ _ d', ∃ t, d' = set_file i t d)).
    + apply crash_write_chars; [done..|]. by eexists.
    + intros _. apply crash_ret. by intros ? (t & ->).
Qed.

Lemma crash_close I P (Q : bool → disk → Prop) T : (∀ b d, P d → Q b d) → crash I P close Q T.
Proof. intros HQ. apply crash_fault. intros x. apply crash_ret. by apply HQ. Qed.
End crash.

(** ** Reasoning without faults

    [runs P m Q]: without faults, [m] returns, and [Q] holds of the disk. *)

Section completes.
Context {E : Type}.

Definition runs {A} (P : disk → Prop) (m : @S_ E A) (Q : A → disk → Prop) : Prop :=
  ∀ s, faults s = [] → P (fs s) → ∃ a s', m s = Ret a s' ∧ faults s' = [] ∧ Q a (fs s').

Lemma runs_ret {A} (P : disk → Prop) (a : A) (Q : A → disk → Prop) : (∀ d, P d → Q a d) → runs P (mret a) Q.
Proof. intros HQ s Hf HP. exists a, s. by split_and!; [..|apply HQ]. Qed.

Lemma runs_bind {A B} P (m : @S_ E A) Q (f : A → @S_ E B) R :
  runs P m Q → (∀ a, runs (Q a) (f a) R) → runs P (x ← m; f x) R.
Proof.
  intros Hm Hk s Hf HP. destruct (Hm s Hf HP) as (a & s' & Em & Hf' & HQ).
  rewrite (bind_Ret _ _ _ _ _ Em). by apply Hk.
Qed.

Lemma next_fine (s : storage) : faults s = [] → next_fault (E := E) s = Ret Fine s.
Proof. unfold next_fault. by intros ->. Qed.

Ltac fine Hf := rewrite (bind_Ret _ _ _ _ _ (next_fine _ Hf)); unfold gets, mbind, M_bind.

Lemma runs_unlink (P : disk → Prop) n (Q : bool → disk → Prop) :
  (∀ d, P d → match names d !! n with Some _ => Q true (drop_name n d) | None => Q false d end) →
  runs P (unlink n) Q.
Proof.
  intros HQ s Hf HP. specialize (HQ _ HP). unfold unlink. fine Hf.
  destruct (names (fs s) !! n); unfold create_file, gets, settle, modify, mbind, M_bind;
    eexists _, _; (split; [reflexivity|split; [exact Hf|exact HQ]]).
Qed.

Lemma runs_link (P : disk → Prop) old new (Q : bool → disk → Prop) :
  (∀ d, P d → ∃ i, names d !! old = Some i ∧ names d !! new = None ∧ Q true (bind_name new i d)) →
  runs P (link old new) Q.
Proof.
  intros HQ s Hf HP. destruct (HQ _ HP) as (i & K1 & K2 & K3). unfold link. fine Hf.
  rewrite K1, K2. eexists _, _. split_and!; [reflexivity|done|exact K3].
Qed.

Lemma runs_open_append (P : disk → Prop) n (Q : option N → disk → Prop) :
  (∀ d, P d → ∃ i, names d !! n = Some i ∧ Q (Some i) d) → runs P (open_append n) Q.
Proof.
  intros HQ s Hf HP. destruct (HQ _ HP) as (i & K1 & K2). unfold open_append. fine Hf.
  rewrite K1. eexists _, _. split_and!; [reflexivity|done|exact K2].
Qed.

Lemma runs_open_trunc (P : disk → Prop) n (Q : option N → disk → Prop) :
  (∀ d, P d → Q (Some (emptied n d).1) (emptied n d).2) → runs P (open_trunc n) Q.
Proof.
  intros HQ s Hf HP. specialize (HQ _ HP). unfold emptied in HQ. unfold open_trunc. fine Hf.
  destruct (names (fs s) !! n); unfold create_file, gets, settle, modify, mbind, M_bind;
    eexists _, _; (split; [reflexivity|split; [exact Hf|exact HQ]]).
Qed.

Lemma runs_write_chars t : ∀ s i,
  faults s = [] → is_Some (files (fs s) !! i) →
  ∃ s', write_chars (E := E) i t s = Ret tt s' ∧ faults s' = [] ∧
    fs s' = set_file i (file i (fs s) +:+ t) (fs s).
Proof.
  induction t as [|c t IH]; intros s i Hf [u Hu]; cbn [write_chars].
  - exists s. split_and!; [done|done|]. rewrite str_app_nil_r. unfold set_file, file. rewrite Hu. simpl.
    rewrite insert_id by done. by destruct (fs s).
  - unfold gets, settle, modify, mbind, M_bind.
    set (d := set_file i (file i (fs s) +:+ String c "") (fs s)).
    destruct (IH (mkStorage d (d :: past s) (faults s)) i Hf) as (s' & Em & K1 & K2).
    { unfold d, set_file. simpl. rewrite lookup_insert_eq. by eexists. }
    exists s'. split_and!; [done..|]. rewrite K2. cbn [fs]. unfold d.
    by rewrite set_file_twice, file_set_file, str_app_assoc.
Qed.

Lemma runs_write (P : disk → Prop) i t (Q : bool → disk → Prop) :
  (∀ d, P d → is_Some (files d !! i) ∧ Q true (set_file i (file i d +:+ t) d)) → runs P (write i t) Q.
Proof.
  intros HQ s Hf HP. destruct (HQ _ HP) as [K1 K2]. unfold write. fine Hf.
  destruct (runs_write_chars t s i Hf K1) as (s' & Em & K3 & K4). rewrite Em.
  eexists _, _. split_and!; [reflexivity|done|]. by rewrite K4.
Qed.

Lemma runs_close P : runs P close (λ b d, b = true ∧ P d).
Proof. intros s Hf HP. exists true, s. unfold close. by rewrite (bind_Ret _ _ _ _ _ (next_fine _ Hf)). Qed.
End completes.

(** ** The past only grows *)

Section grows.
Context {E : Type}.

Definition grows {A} (m : @S_ E A) : Prop := ∀ s d, d ∈ past s → d ∈ past (final (m s)).

Lemma grows_ret {A} (a : A) : grows (mret a).
Proof. by intros s d. Qed.
Lemma grows_throw {A} (e : E) : grows (A := A) (throw e).
Proof. by intros s d. Qed.
Lemma grows_exit {A} c : grows (A := A) (exit c).
Proof. by intros s d. Qed.
Lemma grows_abort {A} : grows (A := A) abort.
Proof. by intros s d. Qed.
Lemma grows_gets {A} (f : storage → A) : grows (gets f).
Proof. by intros s d. Qed.
Lemma grows_settle d : grows (settle d).
Proof. intros s e He. simpl. by right. Qed.
Lemma grows_fault : grows next_fault.
Proof. intros s d Hd. unfold next_fault. by destruct (faults s). Qed.

Lemma grows_bind {A B} (m : @S_ E A) (f : A → @S_ E B) : grows m → (∀ a, grows (f a)) → grows (x ← m; f x).
Proof.
  intros Hm Hf s d Hd. apply (Hm s) in Hd. unfold mbind, M_bind.
  destruct (m s) as [a s'|?|?|?]; simpl in *; [by apply Hf|done..].
Qed.

Lemma grows_catch {A} (m : @S_ E A) h : grows m → (∀ e k, h e = Some k → grows k) → grows (try_catch m h).
Proof.
  intros Hm Hh s d Hd. apply (Hm s) in Hd. unfold try_catch.
  destruct (m s) as [a s'|e s'|?|?]; simpl in *; [done| |done..].
  destruct (h e) eqn:Eh; [by eapply Hh|done].
Qed.

(** A disk the first part produces stays in the past. *)
Lemma adds_bind {A B} d (m : @S_ E A) (f : A → @S_ E B) s :
  d ∈ past (final (m s)) → (∀ a, grows (f a)) → d ∈ past (final ((x ← m; f x) s)).
Proof.
  intros Hm Hf. unfold mbind, M_bind. destruct (m s) as [a s'|?|?|?]; simpl in *; [by apply Hf|done..].
Qed.

Lemma adds_catch {A} d (m : @S_ E A) h s :
  d ∈ past (final (m s)) → (∀ e k, h e = Some k → grows k) → d ∈ past (final (try_catch m h s)).
Proof.
  intros Hm Hh. unfold try_catch. destruct (m s) as [a s'|e s'|?|?]; simpl in *; [done| |done..].
  destruct (h e) eqn:Eh; [by eapply Hh|done].
Qed.

Lemma open_trunc_adds n i s :
  faults s = [] → names (fs s) !! n = Some i →
  set_file i "" (fs s) ∈ past (final (open_trunc (E := E) n s)).
Proof.
  intros Hf Hn. unfold open_trunc, next_fault, gets, mbind, M_bind. rewrite Hf, Hn. simpl. by left.
Qed.
End grows.

Create HintDb grows.
#[export] Hint Resolve grows_ret grows_throw grows_exit grows_abort grows_gets grows_settle grows_fault : grows.

(** Split a computation into its calls. *)
Ltac grow :=
  repeat first
    [ solve [eauto with grows]
    | apply grows_bind; [|intros ?]
    | match goal with |- grows (match ?x with _ => _ end) => destruct x end ].

Section grows_calls.
Context {E : Type}.

Lemma grows_unlink n : grows (E := E) (unlink n).
Proof. unfold unlink. grow. Qed.
Lemma grows_link a b : grows (E := E) (link a b).
Proof. unfold link. grow. Qed.
Lemma grows_open_append n : grows (E := E) (open_append n).
Proof. unfold open_append, create_file. grow. Qed.
Lemma grows_open_trunc n : grows (E := E) (open_trunc n).
Proof. unfold open_trunc, create_file. grow. Qed.
Lemma grows_write_chars i s : grows (E := E) (write_chars i s).
Proof. induction s; simpl; grow. Qed.
Lemma grows_write i s : grows (E := E) (write i s).
Proof. unfold write. pose proof (grows_write_chars i). grow. Qed.
Lemma grows_close : grows (E := E) close.
Proof. unfold close. grow. Qed.

(** Calls that are carried out. *)
Lemma unlink_fine n (s : storage) l i :
  faults s = Fine :: l → names (fs s) !! n = Some i →
  unlink (E := E) n s = Ret true (mkStorage (drop_name n (fs s)) (drop_name n (fs s) :: past s) l).
Proof. intros Hf Hn. unfold unlink, next_fault, gets, mbind, M_bind. rewrite Hf. simpl. by rewrite Hn. Qed.

Lemma unlink_absent n (s : storage) l :
  faults s = Fine :: l → names (fs s) !! n = None →
  unlink (E := E) n s = Ret false (mkStorage (fs s) (past s) l).
Proof. intros Hf Hn. unfold unlink, next_fault, gets, mbind, M_bind. rewrite Hf. simpl. by rewrite Hn. Qed.

Lemma link_fine a b (s : storage) l i :
  faults s = Fine :: l → names (fs s) !! a = Some i → names (fs s) !! b = None →
  link (E := E) a b s = Ret true (mkStorage (bind_name b i (fs s)) (bind_name b i (fs s) :: past s) l).
Proof. intros Hf Ha Hb. unfold link, next_fault, gets, mbind, M_bind. rewrite Hf. simpl. by rewrite Ha, Hb. Qed.

Lemma unlink_broken n (s : storage) k l :
  faults s = Broken k :: l → unlink (E := E) n s = Ret false (mkStorage (fs s) (past s) l).
Proof. intros Hf. unfold unlink, next_fault, gets, mbind, M_bind. by rewrite Hf. Qed.
End grows_calls.
#[export] Hint Resolve grows_unlink grows_link grows_open_append grows_open_trunc grows_write grows_close : grows.
