(* ===== verification/OmniEventsLog.v ===== *)
(** * omniEventsLog: the log files and the checkpoint (src/omniEventsLog.h, src/omniEventsLog.cc)

    The database is the active file.  State changes are appended to it; from time to time a
    checkpoint writes a snapshot of all channels to another file and puts that in the place of
    the active one, keeping the old one as backup.

    A checkpoint has two phases.  [prepare] writes the snapshot, and [commit] moves the names:
    the backup is removed, then linked to the active file, the active name is removed and linked
    to the snapshot, and the name of the snapshot is removed.  The lock is held all the time, so
    no record is appended meanwhile.

    The build modelled is Unix with [ofstream::open]. *)

From S2P Require Import Prelude Monad CxxMap Stream PersistNode PersistReplay PersistLog PersistLookup ChannelProps.
From S2P Require Import Corba ModelOrb Disk EventChannel EventChannelFactory ClientRecords ManagerRestore ChannelRecord ServerRestart.

Local Open Scope string_scope.
Local Open Scope Z_scope.
Local Open Scope list_scope.

(** [firstCheckPoint] is a static variable of [checkpoint]; [l_good] is the state of
    [_logstream]. *)
Record omniEventsLog := mkLog {
  _activeFilename : string;
  _backupFilename : string;
  _checkpointFilename : string;
  l_logstream : option N;
  l_good : bool;
  _checkpointNeeded : bool;
  _lock : bool;
  firstCheckPoint : bool }.

Definition l_set_stream (o : option N) (l : omniEventsLog) : omniEventsLog :=
  mkLog (_activeFilename l) (_backupFilename l) (_checkpointFilename l) o true (_checkpointNeeded l)
    (_lock l) (firstCheckPoint l).
Definition l_set_good (g : bool) (l : omniEventsLog) : omniEventsLog :=
  mkLog (_activeFilename l) (_backupFilename l) (_checkpointFilename l) (l_logstream l) g
    (_checkpointNeeded l) (_lock l) (firstCheckPoint l).
Definition l_set_needed (b : bool) (l : omniEventsLog) : omniEventsLog :=
  mkLog (_activeFilename l) (_backupFilename l) (_checkpointFilename l) (l_logstream l) (l_good l) b
    (_lock l) (firstCheckPoint l).
Definition l_set_lock (b : bool) (l : omniEventsLog) : omniEventsLog :=
  mkLog (_activeFilename l) (_backupFilename l) (_checkpointFilename l) (l_logstream l) (l_good l)
    (_checkpointNeeded l) b (firstCheckPoint l).
Definition l_set_first (b : bool) (l : omniEventsLog) : omniEventsLog :=
  mkLog (_activeFilename l) (_backupFilename l) (_checkpointFilename l) (l_logstream l) (l_good l)
    (_checkpointNeeded l) (_lock l) b.

(** ** Time stamps *)

(** [class timestamp]: the 24 characters of [str] that are compared, [""] at first. *)
Definition timestamp : Type := string.
Definition new_timestamp : timestamp := "".

(** [t()]; [p] is what [ctime] gives. *)
Definition timestamp_t (p : string) (str : timestamp) : string * timestamp :=
  let p24 := String.substring 0 24 p in
  if String.eqb p24 str then ("", str) else ("[" +:+ p24 +:+ "]  ", p24).

Fixpoint timestamps (ps : list string) (str : timestamp) : list string :=
  match ps with
  | [] => []
  | p :: ps' => let r := timestamp_t p str in r.1 :: timestamps ps' r.2
  end.

(** A stamp is printed when the second is not that of the line before, and shows it. *)
Lemma timestamps_spec ps p q i str :
  ps !! i = Some p → ps !! S i = Some q →
  timestamps ps str !! S i =
    Some (if String.eqb (String.substring 0 24 q) (String.substring 0 24 p) then "" else "[" +:+ String.substring 0 24 q +:+ "]  ").
Proof.
  revert i str. induction ps as [|p0 ps IH]; intros [|i] str Hp Hq; try done.
  - injection Hp as ->. destruct ps as [|q0 ps]; [done|]. injection Hq as ->.
    change (timestamps (p :: q :: ps) str !! 1%nat) with (Some (timestamp_t q (timestamp_t p str).2).1). f_equal.
    assert ((timestamp_t p str).2 = String.substring 0 24 p) as ->.
    { unfold timestamp_t. by destruct (String.eqb_spec (String.substring 0 24 p) str). }
    unfold timestamp_t. by destruct (String.eqb (String.substring 0 24 q) (String.substring 0 24 p)).
  - cbn [timestamps]. by apply IH.
Qed.

(** ** The pause between checkpoints *)

Definition OMNIEVENTS_LOG_CHECKPOINT_PERIOD : Z := 15 * 60.

(** Whether [sscanf(s,"%d",...)] finds a number. *)
Definition scans_int (s : string) : bool :=
  let digit s := match s with String c _ => is_digit_of 10 c | "" => false end in
  match skip_ws s with
  | String c s' => if ceqb c "-" || ceqb c "+" then digit s' else is_digit_of 10 c
  | "" => false
  end.

(** [idle_time_btw_chkpt], from $OMNIEVENTS_ITBC. *)
Definition idle_time_btw_chkpt (itbc : option string) : Z :=
  match itbc with
  | Some s => if scans_int s then i32 (atol s) else OMNIEVENTS_LOG_CHECKPOINT_PERIOD
  | None => OMNIEVENTS_LOG_CHECKPOINT_PERIOD
  end.

Lemma scans_show_N n : scans_int (show_N 10 n) = true.
Proof.
  destruct (show_N_spec 10 n ltac:(done)) as (Hd & Hne & _). unfold scans_int.
  destruct (show_N 10 n) as [|c s]; [done|]. cbn in Hd. apply andb_true_iff in Hd as [Hc _]. cbn [skip_ws].
  rewrite (is_digit_not_space 10 c) by done. destruct (ceqb c "-") eqn:E1; [|destruct (ceqb c "+") eqn:E2; [|done]].
  - apply Ascii.eqb_eq in E1 as ->. done.
  - apply Ascii.eqb_eq in E2 as ->. done.
Qed.

(** A period that is set is taken as it is, zero and negative ones too. *)
Lemma idle_time_set z : -2147483648 ≤ z < 2147483648 → idle_time_btw_chkpt (Some (show_Z z)) = z.
Proof.
  intros Hz. unfold idle_time_btw_chkpt.
  assert (scans_int (show_Z z) = true) as ->.
  { destruct z as [|p|p]; [done|apply scans_show_N|].
    change (scans_int (show_Z (Z.neg p))) with (match show_N 10 (N.pos p) with String c _ => is_digit_of 10 c | "" => false end).
    destruct (show_N_spec 10 (N.pos p) ltac:(done)) as (Hd & Hne & _).
    destruct (show_N 10 (N.pos p)) as [|c s]; [done|]. by apply andb_true_iff in Hd as [Hc _]. }
  rewrite atol_show_Z by (unfold LONG_MIN, LONG_MAX; lia). by apply i32_id.
Qed.

(** ** The names of the files *)

Definition OMNIEVENTS_LOG_DEFAULT_LOCATION : string := "/var/lib/omniEvents".

(** The name of the host (src/gethostname.h).  The length of the buffer: [defined] is
    [MAXHOSTNAMELEN] of the system's headers, [computername] Win32's [MAX_COMPUTERNAME_LENGTH]. *)
Definition MAXHOSTNAMELEN (win32 : bool) (computername : Z) (defined : option Z) : Z :=
  if win32 then computername
  else match defined with None => 256 | Some n => if n <? 64 then 256 else n end.

(** [gethostname(hostname,len)] where the system has none: the name, or [None] for -1; [uname] gives
    [un.nodename], [GetComputerName] the name if it fits. *)
Definition gethostname (win32 : bool) (maxlen : Z) (uname : option string) (GetComputerName : Z → option string)
    (len : Z) : option string :=
  if len <? 1 then None
  else
    let len := if maxlen <? len then maxlen else len in
    if win32 then GetComputerName len
    else match uname with
         | Some nodename => if Z.of_nat (String.length nodename) <? len then Some nodename else None
         | None => None
         end.

(** [setFilename(filename,logdir,sep,logname,hostname,ext)] *)
Definition setFilename (logdir sep logname hostname ext : string) : string :=
  logdir +:+ sep +:+ logname +:+ hostname +:+ ext.

Fixpoint ends_with_slash (s : string) : bool :=
  match s with "" => false | String c "" => ceqb c "/" | String _ s' => ends_with_slash s' end.

(** [initializeFileNames(logdir)]: the three names, or [None] if the program exits.  [env] is
    the environment variable, [hostname] what [gethostname] gives. *)
Definition initializeFileNames (logdir env hostname : option string) : option (string * string * string) :=
  let dir := match logdir with
             | Some s => s
             | None => default OMNIEVENTS_LOG_DEFAULT_LOCATION env
             end in
  match hostname with
  | None => None
  | Some h =>
      if negb (head_is "/" dir) then None
      else
        let sep := if ends_with_slash dir then "" else "/" in
        let name := setFilename dir sep "omnievents-" h in
        Some (name ".log", name ".bak", name ".ckp")
  end.

(** [omniEventsLog(logdir)]: the log does not have a stream or a factory yet. *)
Definition new_omniEventsLog (logdir env hostname : option string) : option omniEventsLog :=
  match initializeFileNames logdir env hostname with
  | Some (a, b, c) => Some (mkLog a b c None true true false true)
  | None => None
  end.

Section log.
Context `{OO : OrbOps} `{PM : !PoaManagerOps}.

(** [class IOError {}], and the CORBA exceptions that pass through. *)
Inductive log_exn := IOError | CorbaError (e : exn).

Definition LMeth (A : Type) : Type := M log_exn (omniEventsLog * storage) A.
Definition onDisk {A} (m : @S_ log_exn A) : LMeth A := zoom snd (λ d s, (s.1, d)) m.
Definition theLog : LMeth omniEventsLog := gets fst.
Definition updLog (f : omniEventsLog → omniEventsLog) : LMeth unit := modify (λ s, (f s.1, s.2)).

(** ** Starting *)

(** [bootstrap(port,endPointNoListen)] *)
Definition bootstrap (port : Z) (endPointNoListen : option string) : PersistNode :=
  let ecf := addattr_long "port" port empty_node in
  let ecf := match endPointNoListen with
             | Some s => if str_empty s then ecf else addattr ("endPointNoListen=" +:+ s) ecf
             | None => ecf
             end in
  update_at ["ecf"] (λ _, ecf) (addnode "ecf" empty_node).1.

(** [parse()]: whether the file can be read is up to the next fault. *)
Definition parse_log : LMeth PersistNode :=
  l ← theLog;
  x ← onDisk next_fault;
  d ← gets (λ s, fs s.2);
  match x, text d (_activeFilename l) with
  | Fine, Some t =>
      match parse t with
      | None => abort
      | Some initialState =>
          match child "ecf" initialState with
          | None => exit 1
          | Some ecf => if attrLong "port" (-1) ecf <=? 0 then exit 1 else mret initialState
          end
      end
  | _, _ => exit 1
  end.

(** [incarnateFactory(initialState)]: first the stream is opened; the result is the node of the
    factory.  If the file cannot be opened it is removed. *)
Definition open_logstream (initialState : PersistNode) : LMeth PersistNode :=
  l ← theLog;
  o ← onDisk (open_append (_activeFilename l));
  match o with
  | None => _ ← updLog (l_set_stream None); _ ← onDisk (unlink (_activeFilename l)); exit 1
  | Some i =>
      _ ← updLog (l_set_stream (Some i));
      match child "ecf" initialState with None => abort | Some ecf => mret ecf end
  end.

(** Then the factory is created, with the stream to write to. *)
Definition incarnateFactory (this_f : Z) (envs : list (Z * env)) (initialState : PersistNode)
    : M log_exn ((omniEventsLog * storage) * world) EventChannelFactory_i := λ s,
  match open_logstream initialState s.1 with
  | Ret ecf s1 =>
      let w := set_logstream (text (fs s1.2) (_activeFilename s1.1)) s.2 in
      match new_EventChannelFactory this_f envs ecf (new_factory_members ecf, w) with
      | Ret _ r => Ret r.1 (s1, r.2)
      | Throw e r => Throw (CorbaError e) (s1, r.2)
      | Exited c r => Exited c (s1, r.2)
      | Aborted r => Aborted (s1, r.2)
      end
  | Throw e s1 => Throw e (s1, s.2)
  | Exited c s1 => Exited c (s1, s.2)
  | Aborted s1 => Aborted (s1, s.2)
  end.

(** ** Writing *)

(** A record, as a [WriteLock] writes it: the lock is free. *)
Definition append_record (record : string) : LMeth unit :=
  l ← theLog;
  _ ← assert (negb (_lock l));
  _ ← match l_logstream l, l_good l with
      | Some i, true => good ← onDisk (write i record); updLog (l_set_good good)
      | _, _ => updLog (l_set_good false)
      end;
  updLog (l_set_needed true).

(** [output(os)] *)
Definition log_output (f : EventChannelFactory_i) (w : world) : M exn string unit :=
  _ ← f_output f w; emit nl.

(** ** The checkpoint *)

Definition write_snapshot (l : omniEventsLog) (f : EventChannelFactory_i) (w : world) : @S_ log_exn unit :=
  ckpf ← open_trunc (_checkpointFilename l);
  match ckpf with
  | None => throw IOError
  | Some i =>
      match log_output f w "" with
      | Ret _ t =>
          good ← write i t;
          closed ← close;
          if good && closed then mret tt else throw IOError
      | Throw e t => _ ← write i t; throw (CorbaError e)
      | Exited c _ => exit c
      | Aborted _ => abort
      end
  end.

(** Phase 1: whether the snapshot is written.  An I/O error abandons the checkpoint. *)
Definition prepare (l : omniEventsLog) (f : EventChannelFactory_i) (w : world) : @S_ log_exn bool :=
  try_catch (_ ← write_snapshot l f w; mret true)
    (λ e, match e with
          | IOError => Some (_ ← unlink (_checkpointFilename l); mret false)
          | CorbaError _ => None
          end).

Definition or_exit (ok : bool) : @S_ log_exn unit := if ok then mret tt else exit 1.

(** Phase 2: the names are moved, and the new active file opened. *)
Definition commit (l : omniEventsLog) : @S_ log_exn N :=
  _ ← unlink (_backupFilename l);
  ok ← link (_activeFilename l) (_backupFilename l);
  _ ← or_exit ok;
  ok ← unlink (_activeFilename l);
  _ ← or_exit ok;
  ok ← link (_checkpointFilename l) (_activeFilename l);
  _ ← or_exit ok;
  ok ← unlink (_checkpointFilename l);
  _ ← or_exit ok;
  o ← open_append (_activeFilename l);
  match o with Some i => mret i | None => exit 1 end.

(** One turn of the loop of [checkpoint], after the wait.  An exception of [output] leaves the
    loop, and the lock held. *)
Definition checkpoint_turn (f : EventChannelFactory_i) (w : world) : LMeth unit :=
  l ← theLog;
  _ ← updLog (l_set_lock true);
  if negb (firstCheckPoint l) && negb (_checkpointNeeded l) then updLog (l_set_lock false)
  else
    _ ← updLog (l_set_first false);
    written ← onDisk (prepare l f w);
    if (written : bool) then
      _ ← updLog (l_set_stream None);
      i ← onDisk (commit l);
      _ ← updLog (l_set_stream (Some i));
      _ ← updLog (l_set_needed false);
      updLog (l_set_lock false)
    else updLog (l_set_lock false).

(** The loop: in each turn, the records written during the wait, and the state of the factory
    afterwards. *)
Definition checkpoint (turns : list (list string * (EventChannelFactory_i * world))) : LMeth unit :=
  for_each turns (λ t, _ ← for_each t.1 append_record; checkpoint_turn t.2.1 t.2.2).
End log.
Arguments log_exn {_}.

(** ** What a crash leaves *)

Section crash_safety.
Context `{OO : OrbOps} `{PM : !PoaManagerOps}.

(** The three names are different. *)
Record distinct (l : omniEventsLog) : Prop := {
  d_ab : _activeFilename l ≠ _backupFilename l;
  d_ac : _activeFilename l ≠ _checkpointFilename l;
  d_bc : _backupFilename l ≠ _checkpointFilename l }.

(** The active file holds [old], and is not the file of the checkpoint. *)
Definition clean (l : omniEventsLog) (old : string) (d : disk) : Prop :=
  ∃ ia, names d !! _activeFilename l = Some ia ∧ files d !! ia = Some old ∧
    names d !! _checkpointFilename l ≠ Some ia.

(** The snapshot [t] is written, to a file of its own. *)
Definition ready (l : omniEventsLog) (old t : string) (d : disk) : Prop :=
  ∃ ia ic, names d !! _activeFilename l = Some ia ∧ files d !! ia = Some old ∧
    names d !! _checkpointFilename l = Some ic ∧ files d !! ic = Some t ∧ ia ≠ ic.

(** The snapshot is the active file, what was active is the backup. *)
Definition committed (l : omniEventsLog) (old t : string) (i : N) (d : disk) : Prop :=
  names d !! _activeFilename l = Some i ∧ files d !! i = Some t ∧
  text d (_backupFilename l) = Some old ∧ names d !! _checkpointFilename l = None.

Definition snapshot (f : EventChannelFactory_i) (w : world) : option string :=
  match log_output f w "" with Ret _ t => Some t | _ => None end.

(** No crash loses the database: the active file holds the old records or the whole snapshot,
    or there is no active file, the backup holds the old records and the checkpoint file the
    snapshot. *)
Definition recoverable (l : omniEventsLog) (old : string) (snap : option string) (d : disk) : Prop :=
  text d (_activeFilename l) = Some old ∨
  ∃ t, snap = Some t ∧
    (text d (_activeFilename l) = Some t ∨
     names d !! _activeFilename l = None ∧ text d (_backupFilename l) = Some old ∧
     text d (_checkpointFilename l) = Some t).

Lemma clean_text l old d : clean l old d → text d (_activeFilename l) = Some old.
Proof. intros (ia & K1 & K2 & _). unfold text. by rewrite K1. Qed.

Lemma ready_clean l old t d : ready l old t d → clean l old d.
Proof. intros (ia & ic & K1 & K2 & K3 & _ & K4). exists ia. split_and!; [done..|]. rewrite K3. congruence. Qed.

Lemma emptied_spec l old d : distinct l → clean l old d →
  ∀ t, ready l old t (set_file (emptied (_checkpointFilename l) d).1 t (emptied (_checkpointFilename l) d).2) ∧
       is_Some (files (emptied (_checkpointFilename l) d).2 !! (emptied (_checkpointFilename l) d).1) ∧
       file (emptied (_checkpointFilename l) d).1 (emptied (_checkpointFilename l) d).2 = "" ∧
       ready l old "" (emptied (_checkpointFilename l) d).2.
Proof.
  intros [_ Hac _] (ia & K1 & K2 & K3) t. unfold emptied, ready, file.
  destruct (names d !! _checkpointFilename l) as [ic|] eqn:Ec; simpl.
  - assert (ia ≠ ic) by congruence. rewrite !lookup_insert_eq. split_and!; [|by eexists|done|];
      exists ia, ic; rewrite !lookup_insert_eq, !lookup_insert_ne by done; done.
  - set (ic := fresh (dom (files d))).
    assert (ia ≠ ic).
    { intros ->. apply (is_fresh (dom (files d))). apply elem_of_dom. by eexists. }
    rewrite !lookup_insert_eq. split_and!; [|by eexists|done|]; exists ia, ic;
      rewrite !lookup_insert_eq, !lookup_insert_ne by done; done.
Qed.

Lemma write_snapshot_crash l f w old : distinct l →
  crash (λ d, text d (_activeFilename l) = Some old) (clean l old) (write_snapshot l f w)
    (λ _ d, ∃ t, snapshot f w = Some t ∧ ready l old t d) (clean l old).
Proof.
  intros Hl. apply crash_known. intros d Hd. pose proof (emptied_spec l old d Hl Hd) as He.
  unfold write_snapshot. apply (crash_bind _ _ _ (λ o d', match o with
    | None => d' = d
    | Some i => i = (emptied (_checkpointFilename l) d).1 ∧ d' = (emptied (_checkpointFilename l) d).2 end)).
  { apply crash_open_trunc; [|done..]. apply clean_text, (ready_clean _ _ "").
    by apply (He ""). }
  intros [i|]; [|by apply crash_throw; intros ? ->]. apply crash_known. intros d' [-> ->].
  assert (Hw : ∀ t, crash (λ d, text d (_activeFilename l) = Some old)
     (λ e, e = (emptied (_checkpointFilename l) d).2) (write (E := log_exn) (emptied (_checkpointFilename l) d).1 t)
     (λ b d', if b then ready l old t d' else clean l old d') (clean l old)).
  { intros t. destruct (He t) as (K1 & K2 & K3 & _). apply crash_write; [|done| |].
    - intros u. eapply clean_text, ready_clean, He.
    - by rewrite K3.
    - intros u. eapply ready_clean, He. }
  unfold snapshot. destruct (log_output f w "") as [[] t|e t|c t|t]; [| |by apply crash_exit|by apply crash_abort].
  - apply (crash_bind _ _ _ _ _ _ _ (Hw t)). intros good.
    apply (crash_bind _ _ _ (λ closed d', if good then ready l old t d' else clean l old d')).
    { by apply crash_close. }
    intros closed. destruct good, closed; simpl; try (apply crash_throw; eauto using ready_clean; fail).
    apply crash_ret. eauto.
  - apply (crash_bind _ _ _ _ _ _ _ (Hw t)). intros good. apply crash_throw. intros d' Hd'.
    destruct good; [by eapply ready_clean|done].
Qed.

Lemma prepare_crash l f w old : distinct l →
  crash (λ d, text d (_activeFilename l) = Some old) (clean l old) (prepare l f w)
    (λ ok d, if ok then ∃ t, snapshot f w = Some t ∧ ready l old t d else clean l old d) (clean l old).
Proof.
  intros Hl. pose proof (d_ac l Hl) as Hac. unfold prepare.
  eapply (crash_catch _ _ _ _ _ (clean l old)); [|done|].
  { eapply crash_bind; [by apply write_snapshot_crash|]. intros []. by apply crash_ret. }
  intros [|e] k [= <-]. apply (crash_bind _ _ _ (λ _, clean l old)).
  - apply crash_known. intros d Hd. apply crash_unlink; [|done]. intros ic Hic.
    assert (clean l old (drop_name (_checkpointFilename l) d)); [|by split; [apply clean_text|]].
    destruct Hd as (ia & K1 & K2 & K3). exists ia. simpl.
    by rewrite lookup_delete_eq, lookup_delete_ne by done.
  - intros _. by apply crash_ret.
Qed.

Lemma or_exit_crash I P (b : bool) (Q : disk → Prop) T :
  (b = true → ∀ d, P d → Q d) → crash I P (or_exit b) (λ _, Q) T.
Proof. intros HQ. destruct b; [apply crash_ret; by apply HQ|apply crash_exit]. Qed.

(** The stages of [commit]: the old file has both names, then only that of the backup, then the
    snapshot has both names. *)
Definition stage1 (l : omniEventsLog) (old t : string) (d : disk) : Prop :=
  ready l old t d ∧ names d !! _backupFilename l = names d !! _activeFilename l.
Definition stage2 (l : omniEventsLog) (old t : string) (d : disk) : Prop :=
  names d !! _activeFilename l = None ∧ text d (_backupFilename l) = Some old ∧
  text d (_checkpointFilename l) = Some t ∧ names d !! _backupFilename l ≠ names d !! _checkpointFilename l.
Definition stage3 (l : omniEventsLog) (old t : string) (d : disk) : Prop :=
  ∃ ic, names d !! _activeFilename l = Some ic ∧ names d !! _checkpointFilename l = Some ic ∧
    files d !! ic = Some t ∧ text d (_backupFilename l) = Some old ∧ names d !! _backupFilename l ≠ Some ic.

Section stages.
Variables (l : omniEventsLog) (old t : string).
Hypothesis Hl : distinct l.

Lemma stage_unlink_backup d i : ready l old t d →
  names d !! _backupFilename l = Some i → ready l old t (drop_name (_backupFilename l) d).
Proof.
  destruct Hl as [Hab _ Hbc]. intros (ia & ic & K1 & K2 & K3 & K4 & K5) _. exists ia, ic. simpl.
  by rewrite !lookup_delete_ne by done.
Qed.

Lemma stage_link_backup d i : ready l old t d → names d !! _activeFilename l = Some i →
  stage1 l old t (bind_name (_backupFilename l) i d).
Proof.
  destruct Hl as [Hab Hac Hbc]. intros (ia & ic & K1 & K2 & K3 & K4 & K5) K6. simplify_eq. split.
  - exists ia, ic. simpl. by rewrite !lookup_insert_ne by done.
  - simpl. by rewrite lookup_insert_eq, lookup_insert_ne, K1 by done.
Qed.

Lemma stage_unlink_active d : stage1 l old t d → stage2 l old t (drop_name (_activeFilename l) d).
Proof.
  destruct Hl as [Hab Hac Hbc]. unfold stage2, text. intros ((ia & ic & K1 & K2 & K3 & K4 & K5) & K6). simpl.
  rewrite lookup_delete_eq, !lookup_delete_ne, K3, K6, K1 by done. split_and!; [done..|]. congruence.
Qed.

Lemma stage_link_active d i : stage2 l old t d → names d !! _checkpointFilename l = Some i →
  stage3 l old t (bind_name (_activeFilename l) i d).
Proof.
  destruct Hl as [Hab Hac Hbc]. unfold stage2, text. intros (K1 & K2 & K3 & K5) K4. rewrite K4 in K3, K5.
  exists i. unfold text. simpl. by rewrite lookup_insert_eq, !lookup_insert_ne by done.
Qed.

Lemma stage_unlink_checkpoint d : stage3 l old t d →
  ∃ i, committed l old t i (drop_name (_checkpointFilename l) d).
Proof.
  destruct Hl as [Hab Hac Hbc]. unfold committed, text. intros (ic & K1 & K2 & K3 & K4 & _). exists ic. simpl.
  by rewrite lookup_delete_eq, !lookup_delete_ne by done.
Qed.

Lemma ready_recoverable d : ready l old t d → recoverable l old (Some t) d.
Proof. intros K. left. by eapply clean_text, ready_clean. Qed.
Lemma stage2_recoverable d : stage2 l old t d → recoverable l old (Some t) d.
Proof. intros (K1 & K2 & K3 & _). right. exists t. split; [done|by right]. Qed.
Lemma stage3_recoverable d : stage3 l old t d → recoverable l old (Some t) d.
Proof. intros (ic & K1 & _ & K3 & _). right. exists t. split; [done|left]. unfold text. by rewrite K1. Qed.
Lemma committed_recoverable d i : committed l old t i d → recoverable l old (Some t) d.
Proof. intros (K1 & K3 & _). right. exists t. split; [done|left]. unfold text. by rewrite K1. Qed.

Ltac exit_or P := eapply (crash_bind _ _ _ (λ _, P)); [apply or_exit_crash; intros -> ? K; by apply K|intros _].

Lemma commit_crash T :
  crash (recoverable l old (Some t)) (ready l old t) (commit l) (λ i, committed l old t i) T.
Proof.
  unfold commit. apply (crash_bind _ _ _ (λ _, ready l old t)).
  { apply crash_known. intros d Hd. apply crash_unlink; [|done]. intros i Hi.
    pose proof (stage_unlink_backup d i Hd Hi) as K. split; [by apply ready_recoverable|done]. }
  intros _. apply (crash_bind _ _ _ (λ ok d, ok = true → stage1 l old t d)).
  { apply crash_known. intros d Hd. apply crash_link; [|done]. intros i Hi _.
    pose proof (stage_link_backup d i Hd Hi) as K. split; [apply ready_recoverable, K|done]. }
  intros ok. exit_or (stage1 l old t).
  apply (crash_bind _ _ _ (λ ok d, ok = true → stage2 l old t d)).
  { apply crash_known. intros d Hd. apply crash_unlink; [|done]. intros i Hi.
    pose proof (stage_unlink_active d Hd) as K. split; [by apply stage2_recoverable|done]. }
  intros ok2. exit_or (stage2 l old t).
  apply (crash_bind _ _ _ (λ ok d, ok = true → stage3 l old t d)).
  { apply crash_known. intros d Hd. apply crash_link; [|done]. intros i Hi _.
    pose proof (stage_link_active d i Hd Hi) as K. split; [by apply stage3_recoverable|done]. }
  intros ok3. exit_or (stage3 l old t).
  apply (crash_bind _ _ _ (λ ok d, ok = true → ∃ i, committed l old t i d)).
  { apply crash_known. intros d Hd. apply crash_unlink; [|done]. intros i Hi.
    pose proof (stage_unlink_checkpoint d Hd) as K. split; [|done].
    destruct K as (j & K). by eapply committed_recoverable. }
  intros ok4. exit_or (λ d, ∃ i, committed l old t i d).
  apply (crash_bind _ _ _ (λ o d, match o with Some i => committed l old t i d | None => True end)).
  { apply crash_known. intros d (i & Hi). apply crash_open_append; [|done|].
    - intros j Hj. destruct Hi as (K1 & K2). by simplify_eq.
    - destruct Hi as (K1 & _). by eexists. }
  intros [i|]; [by apply crash_ret|apply crash_exit].
Qed.
End stages.
End crash_safety.

(** ** A checkpoint without faults *)

Section checkpoint.
Context `{OO : OrbOps} `{PM : !PoaManagerOps}.

Lemma prepare_runs l f w old t : distinct l → snapshot f w = Some t →
  runs (clean l old) (prepare l f w) (λ ok d, ok = true ∧ ready l old t d).
Proof.
  intros Hl Ht s Hf Hc. unfold prepare, try_catch.
  assert (Hw : runs (clean l old) (write_snapshot l f w) (λ _, ready l old t)); [|].
  { unfold write_snapshot.
    apply (runs_bind _ _ (λ o d, ∃ i, o = Some i ∧ is_Some (files d !! i) ∧ file i d = "" ∧
      ∀ u, ready l old u (set_file i u d))).
    { apply runs_open_trunc. intros d Hd. eexists. split; [done|].
      destruct (emptied_spec l old d Hl Hd "") as (_ & K2 & K3 & _). split_and!; [done..|].
      intros u. apply (emptied_spec l old d Hl Hd u). }
    intros o s1 Hf1 (i & -> & K1 & K2 & K3). unfold snapshot in Ht.
    destruct (log_output f w "") as [[] u|?|?|?]; simplify_eq. revert s1 Hf1 K1 K2 K3.
    assert (Hr : runs (λ d, is_Some (files d !! i) ∧ file i d = "" ∧ ∀ u, ready l old u (set_file i u d))
      (good ← write i t; closed ← close; if good && closed then mret tt else throw IOError)
      (λ _, ready l old t)).
    { apply (runs_bind _ _ (λ b d, b = true ∧ ready l old t d)).
      { apply runs_write. intros d (K1 & K2 & K3). split; [done|]. rewrite K2. by split. }
      intros good. eapply runs_bind; [apply runs_close|]. intros closed s2 Hf2 (-> & -> & Hr).
      by eexists _, _. }
    intros. by apply Hr. }
  destruct (Hw s Hf Hc) as ([] & s' & E & Hf' & HQ). rewrite (bind_Ret _ _ _ _ _ E).
  by eexists _, _.
Qed.

Lemma or_exit_runs b (P : disk → Prop) : runs (λ d, b = true ∧ P d) (or_exit (H := H) b) (λ _, P).
Proof. intros s Hf [-> HP]. by exists tt, s. Qed.

Lemma commit_runs l old t : distinct l → runs (ready l old t) (commit l) (committed l old t).
Proof.
  intros Hl. unfold commit.
  apply (runs_bind _ _ (λ _ d, ready l old t d ∧ names d !! _backupFilename l = None)).
  { apply runs_unlink. intros d Hd. destruct (names d !! _backupFilename l) eqn:E; [|done].
    split; [by eapply stage_unlink_backup|]. simpl. by rewrite lookup_delete_eq. }
  intros ?. apply (runs_bind _ _ (λ ok d, ok = true ∧ stage1 l old t d)).
  { apply runs_link. intros d (Hd & Hb). pose proof Hd as (ia & _ & K1 & _). exists ia.
    split_and!; [done..|]. by apply stage_link_backup. }
  intros ok1. eapply runs_bind; [apply or_exit_runs|]. intros ?.
  apply (runs_bind _ _ (λ ok d, ok = true ∧ stage2 l old t d)).
  { apply runs_unlink. intros d Hd. pose proof Hd as ((ia & ic & -> & _) & _).
    split; [done|]. by apply stage_unlink_active. }
  intros ok2. eapply runs_bind; [apply or_exit_runs|]. intros ?.
  apply (runs_bind _ _ (λ ok d, ok = true ∧ stage3 l old t d)).
  { apply runs_link. intros d Hd. pose proof Hd as (K1 & K2 & K3 & _). unfold text in K3.
    destruct (names d !! _checkpointFilename l) as [ic|] eqn:E; [|done]. exists ic. split_and!; [done..|].
    by apply stage_link_active. }
  intros ok3. eapply runs_bind; [apply or_exit_runs|]. intros ?.
  apply (runs_bind _ _ (λ ok d, ok = true ∧ ∃ i, committed l old t i d)).
  { apply runs_unlink. intros d Hd. pose proof Hd as (ic & _ & -> & _). split; [done|].
    by apply stage_unlink_checkpoint. }
  intros ok4. eapply runs_bind; [apply or_exit_runs|]. intros ?.
  apply (runs_bind _ _ (λ o d, ∃ i, o = Some i ∧ committed l old t i d)).
  { apply runs_open_append. intros d (i & K). pose proof K as (K1 & _). by exists i; eauto. }
  intros o s Hf (i & -> & K). by exists i, s.
Qed.

Definition done_log (i : N) (l : omniEventsLog) : omniEventsLog :=
  mkLog (_activeFilename l) (_backupFilename l) (_checkpointFilename l) (Some i) true false false false.

Lemma turn_runs f w l s old t :
  distinct l → clean l old (fs s) → faults s = [] → firstCheckPoint l || _checkpointNeeded l = true →
  snapshot f w = Some t →
  ∃ i s', checkpoint_turn f w (l, s) = Ret tt (done_log i l, s') ∧ faults s' = [] ∧ committed l old t i (fs s').
Proof.
  intros Hl Hc Hf Hn Ht. destruct (prepare_runs l f w old t Hl Ht s Hf Hc) as (ok & s1 & E1 & Hf1 & -> & Hr).
  destruct (commit_runs l old t Hl s1 Hf1 Hr) as (i & s2 & E2 & Hf2 & Hcm).
  exists i, s2. split_and!; [|done..]. unfold checkpoint_turn, theLog, updLog, onDisk, zoom, gets, modify, mbind, M_bind.
  cbn [fst snd]. rewrite <- negb_orb, Hn. cbn [fst snd negb]. rewrite E1. cbn [fst snd]. by rewrite E2.
Qed.

(** Records go to the end of the active file. *)
Lemma append_record_ret l s i t r :
  l_logstream l = Some i → l_good l = true → _lock l = false → faults s = [] → files (fs s) !! i = Some t →
  ∃ s', append_record r (l, s) = Ret tt (l_set_needed true l, s') ∧ faults s' = [] ∧
    fs s' = set_file i (t +:+ r) (fs s).
Proof.
  intros Hs Hg Hk Hf Ht. destruct (runs_write_chars (E := log_exn) r s i Hf) as (s' & E & K1 & K2); [by eexists|].
  unfold file in K2. rewrite Ht in K2.
  assert (Ew : write (E := log_exn) i r s = Ret true s').
  { unfold write. etrans; [apply (bind_Ret _ _ _ _ _ (next_fine _ Hf))|]. by etrans; [apply (bind_Ret _ _ _ _ _ E)|]. }
  exists s'. split_and!; [|done..]. unfold append_record, theLog, updLog, onDisk, zoom, gets, modify, assert, mbind, M_bind.
  cbn [fst snd]. rewrite Hk, Hs, Hg. cbn [negb fst snd]. rewrite Ew. cbn [fst snd].
  destruct l; simpl in *. by subst.
Qed.

Lemma append_records_ret rs : ∀ l s i t,
  l_logstream l = Some i → l_good l = true → _lock l = false → faults s = [] → files (fs s) !! i = Some t →
  ∃ l' s', for_each rs append_record (l, s) = Ret tt (l', s') ∧ l_logstream l' = Some i ∧
    _activeFilename l' = _activeFilename l ∧ faults s' = [] ∧
    fs s' = set_file i (t +:+ foldr String.append "" rs) (fs s).
Proof.
  induction rs as [|r rs IH]; intros l s i t Hs Hg Hk Hf Ht; cbn [for_each foldr].
  - exists l, s. split_and!; [done..|]. rewrite str_app_nil_r. unfold set_file. rewrite insert_id by done. by destruct (fs s).
  - destruct (append_record_ret l s i t r Hs Hg Hk Hf Ht) as (s1 & E1 & Hf1 & K1). rewrite (bind_Ret _ _ _ _ _ E1).
    destruct (IH (l_set_needed true l) s1 i (t +:+ r)) as (l' & s' & E & K2 & K3 & K4 & K5); [done..| |].
    { rewrite K1. simpl. by rewrite lookup_insert_eq. }
    exists l', s'. split_and!; [done..|]. by rewrite K5, K1, set_file_twice, str_app_assoc.
Qed.
End checkpoint.

(** The names the constructor computes are different. *)
Lemma filenames_distinct logdir env hostname l :
  new_omniEventsLog logdir env hostname = Some l → distinct l.
Proof.
  unfold new_omniEventsLog, initializeFileNames. destruct hostname as [h|]; [|done].
  destruct (negb _); [done|]. intros [= <-]. unfold setFilename.
  split; simpl; intros K; repeat apply (inj (String.append _)) in K; done.
Qed.

(** With its NUL the name fits in the buffer; a name that fits is not refused. *)
Lemma gethostname_fits win32 maxlen uname GetComputerName len h :
  (∀ n s, GetComputerName n = Some s → Z.of_nat (String.length s) < n) →
  gethostname win32 maxlen uname GetComputerName len = Some h →
  Z.of_nat (String.length h) + 1 ≤ len ∧ Z.of_nat (String.length h) + 1 ≤ maxlen.
Proof.
  intros Hg. unfold gethostname. case_match eqn:El; [done|]. destruct (Z.ltb_spec maxlen len); destruct win32.
  1,3: intros K%Hg; lia.
  all: destruct uname as [n|]; [|done]; case_match eqn:En; intros [= <-]; lia.
Qed.

Lemma gethostname_unix n maxlen getname : 1 ≤ maxlen →
  gethostname false maxlen (Some n) getname maxlen =
    if Z.of_nat (String.length n) <? maxlen then Some n else None.
Proof. intros H. unfold gethostname. rewrite (proj2 (Z.ltb_ge maxlen 1)), Z.ltb_irrefl by lia. done. Qed.

(** A host whose name fills the buffer: the server does not start. *)
Lemma long_hostname logdir env n maxlen getname : 1 ≤ maxlen → maxlen ≤ Z.of_nat (String.length n) →
  initializeFileNames logdir env (gethostname false maxlen (Some n) getname maxlen) = None.
Proof. intros H1 H2. rewrite gethostname_unix, (proj2 (Z.ltb_ge _ _)) by lia. done. Qed.

(** ** Properties *)

Section properties.
Context `{OL : OrbLaws} `{PM : !PoaManagerOps}.

(** C2: a checkpoint is safe against crashes.  Whatever calls fail and wherever writes stop,
    every disk a checkpoint leaves behind, at the end of every system call and after every
    character, has the database: all the old records or the whole snapshot under the active
    name, or the old records under the backup name and the snapshot under that of the checkpoint.
    A checkpoint that returns releases the lock; it is committed, and no longer needed, or the
    active file and its stream are as before and the checkpoint is still needed.  An exception
    of [output] leaves the database, and the lock held. *)
Theorem checkpoint_crash_safe f w l s old :
  distinct l → clean l old (fs s) → past s = [] →
  Forall (recoverable l old (snapshot f w)) (past (final (checkpoint_turn f w (l, s))).2) ∧
  match checkpoint_turn f w (l, s) with
  | Ret _ (l', s') =>
      _lock l' = false ∧
      ((∃ t i, snapshot f w = Some t ∧ committed l old t i (fs s') ∧ l' = done_log i l) ∨
       (clean l old (fs s') ∧ l_logstream l' = l_logstream l ∧ l_good l' = l_good l ∧
        _checkpointNeeded l' = _checkpointNeeded l))
  | Throw _ (l', s') => _lock l' = true ∧ clean l old (fs s')
  | _ => True
  end.
Proof.
  intros Hl Hc Hp.
  unfold checkpoint_turn, theLog, updLog, onDisk, zoom, gets, modify, mbind, M_bind. cbn [fst snd].
  destruct (negb (firstCheckPoint l) && negb (_checkpointNeeded l)).
  { cbn [final fst snd]. rewrite Hp. split; [constructor|]. split; [done|]. by right. }
  cbn [fst snd].
  destruct (prepare_crash l f w old Hl s Hc) as [K1 K2]; [rewrite Hp; constructor|].
  assert (K3 : Forall (recoverable l old (snapshot f w)) (past (final (prepare l f w s)))).
  { eapply Forall_impl; [exact K1|]. intros d Hd. by left. }
  destruct (prepare l f w s) as [[] s1|e s1|c s1|s1]; cbn [final fst snd] in *; [| |by split..].
  - destruct K2 as (t & Ht & Hr). rewrite Ht in *.
    destruct (commit_crash l old t Hl (λ _, False) s1 Hr K3) as [K4 K5].
    destruct (commit l s1) as [i s2|e s2|c s2|s2]; cbn [final fst snd] in *; [|by destruct K5|by split..].
    split; [done|]. split; [done|]. left. by exists t, i.
  - split; [done|]. split; [done|]. by right.
Qed.

Lemma or_exit_ok {A} (k : @S_ log_exn A) s : (_ ← or_exit true; k) s = k s.
Proof. done. Qed.

(** If the last [unlink] fails, the program exits with the active file also named as checkpoint. *)
Lemma commit_interrupted l s old t :
  distinct l → ready l old t (fs s) → faults s = [Fine; Fine; Fine; Fine; Broken 0] →
  ∃ s', commit l s = Exited 1 s' ∧ stage3 l old t (fs s').
Proof.
  intros Hl Hr Hf.
  assert (Hu : ∃ s1 b, unlink (E := log_exn) (_backupFilename l) s = Ret b s1 ∧ faults s1 = [Fine; Fine; Fine; Broken 0] ∧
    ready l old t (fs s1) ∧ names (fs s1) !! _backupFilename l = None).
  { destruct (names (fs s) !! _backupFilename l) as [i|] eqn:Eb.
    - eexists _, _. split; [by eapply unlink_fine|]. split_and!; [done|by eapply stage_unlink_backup|].
      simpl. by rewrite lookup_delete_eq.
    - eexists _, _. split; [by eapply unlink_absent|]. done. }
  destruct Hu as (s1 & b1 & E1 & Hf1 & Hr1 & Hb). pose proof Hr1 as (ia & ic & Ka & _ & Kc & _).
  pose proof (stage_link_backup l old t Hl _ _ Hr1 Ka) as Hr2.
  pose proof (stage_unlink_active l old t Hl _ Hr2) as Hr3.
  assert (Kc3 : names (drop_name (_activeFilename l) (bind_name (_backupFilename l) ia (fs s1))) !! _checkpointFilename l = Some ic).
  { destruct Hl. simpl. by rewrite lookup_delete_ne, lookup_insert_ne by done. }
  pose proof (stage_link_active l old t Hl _ _ Hr3 Kc3) as Hr4.
  unfold commit. rewrite (bind_Ret _ _ _ _ _ E1).
  rewrite (bind_Ret _ _ _ _ _ (link_fine _ _ _ _ _ Hf1 Ka Hb)), or_exit_ok.
  assert (Ka2 : names (bind_name (_backupFilename l) ia (fs s1)) !! _activeFilename l = Some ia).
  { destruct Hl. simpl. by rewrite lookup_insert_ne by done. }
  rewrite (bind_Ret _ _ _ _ _ (unlink_fine _ (mkStorage _ _ _) _ _ eq_refl Ka2)), or_exit_ok.
  rewrite (bind_Ret _ _ _ _ _ (link_fine _ _ (mkStorage _ _ _) _ _ eq_refl Kc3 (proj1 Hr3))), or_exit_ok.
  rewrite (bind_Ret _ _ _ _ _ (unlink_broken _ (mkStorage _ _ _) _ _ eq_refl)).
  eexists. split; [reflexivity|done].
Qed.

Lemma grows_snapshot_text f w i : grows (match log_output f w "" with
      | Ret _ t => good ← write i t; closed ← close; if good && closed then mret tt else throw IOError
      | Throw e t => _ ← write i t; throw (CorbaError e)
      | Exited c _ => exit c
      | Aborted _ => abort
      end).
Proof. grow. Qed.
#[local] Hint Resolve grows_snapshot_text : grows.

Lemma grows_commit l : grows (commit l).
Proof. unfold commit, or_exit. grow. Qed.

(** C40: two crashes lose the database.  The program can exit, or be killed, when the active file
    is also named as checkpoint.  The first checkpoint of the next process truncates that file:
    if this process dies now, the active file is empty, no file has the records of the active
    file before, and the program does not start on what is left. *)
Theorem interrupted_commit_loses f w l s old t s0 :
  distinct l → ready l old t (fs s0) → faults s0 = [Fine; Fine; Fine; Fine; Broken 0] →
  firstCheckPoint l || _checkpointNeeded l = true →
  ∃ s1, commit l s0 = Exited 1 s1 ∧
    (fs s = fs s1 → faults s = [] →
     ∃ d, d ∈ past (final (checkpoint_turn f w (l, s))).2 ∧
       text d (_activeFilename l) = Some "" ∧ text d (_checkpointFilename l) = Some "" ∧
       text d (_backupFilename l) = text (fs s1) (_backupFilename l) ∧
       ∀ p, parse_log (l, mkStorage d p []) = Exited 1 (l, mkStorage d p [])).
Proof.
  intros Hl Hr Hf0 Hn. destruct (commit_interrupted l s0 old t Hl Hr Hf0) as (s1 & E & (ic & Ka & Kc & Ki & _ & Kb)).
  exists s1. split; [done|]. intros Hs Hf. exists (set_file ic "" (fs s)).
  assert (Hbi : text (set_file ic "" (fs s1)) (_backupFilename l) = text (fs s1) (_backupFilename l)).
  { unfold text, set_file. cbn [names files]. destruct (names (fs s1) !! _backupFilename l) as [ib|]; [|done].
    rewrite lookup_insert_ne by congruence. done. }
  split; [|split_and!].
  - assert (Hp : set_file ic "" (fs s) ∈ past (final (prepare l f w s))).
    { unfold prepare, write_snapshot. apply adds_catch; [|intros [|e] k [= <-]; grow].
      apply adds_bind; [|grow]. apply adds_bind; [|intros [i|]; grow].
      apply open_trunc_adds; [done|]. by rewrite Hs. }
    unfold checkpoint_turn, theLog, updLog, onDisk, zoom, gets, modify, mbind, M_bind. cbn [fst snd].
    rewrite <- negb_orb, Hn. cbn [fst snd negb].
    destruct (prepare l f w s) as [[] s2|?|?|?]; cbn [final fst snd] in *; [|done..].
    apply (grows_commit l) in Hp. by destruct (commit l s2).
  - rewrite Hs. unfold text. simpl. by rewrite Ka, lookup_insert_eq.
  - rewrite Hs. unfold text. simpl. by rewrite Kc, lookup_insert_eq.
  - by rewrite Hs.
  - intros p. unfold parse_log, theLog, onDisk, zoom, next_fault, gets, mbind, M_bind. cbn [fst snd faults fs].
    unfold text. rewrite Hs. simpl. rewrite Ka, lookup_insert_eq. done.
Qed.

(** The record is below the node of the factory. *)
Definition below_ecf (i : item) : bool :=
  match item_path i with h :: _ :: _ => String.eqb h "ecf" | _ => false end.

Lemma below_ecf_attrs i root node :
  below_ecf i = true → child "ecf" root = Some node →
  ∃ node', child "ecf" (apply_item root i) = Some node' ∧ _attr node' = _attr node.
Proof.
  unfold below_ecf, child. intros Hb Hn. destruct i as [p attrs|p]; cbn [item_path apply_item] in *;
    destruct (comps p) as [|h [|h2 q]]; try done; apply String.eqb_eq in Hb as ->.
  - rewrite set_path_cons by done. cbn [_child]. rewrite map_find_put_eq, Hn. eexists. split; [done|].
    simpl. by destruct q.
  - rewrite del_path_cons by done. rewrite Hn. cbn [_child]. rewrite map_find_put_eq. eexists.
    split; [done|]. simpl. by destruct (map_find h2 (_child node)).
Qed.

Lemma below_ecf_replay recs root node :
  forallb below_ecf recs = true → child "ecf" root = Some node →
  ∃ node', child "ecf" (replay root recs) = Some node' ∧ _attr node' = _attr node.
Proof.
  revert root node. induction recs as [|i recs IH]; intros root node Hb Hn; [by exists node|].
  cbn [forallb] in Hb. boolify. destruct (below_ecf_attrs i root node) as (n1 & K1 & K2); [done..|].
  destruct (IH _ n1 ltac:(done) K1) as (n2 & K3 & K4). exists n2. split; [done|]. by rewrite K4.
Qed.

(** C3: a checkpoint and a restart.  Without faults a checkpoint that is due completes, the lock
    is free and the stream is that of the new active file.  Records written afterwards follow
    the snapshot; a new process that reads the file finds exactly the channels of the factory
    with all of their clients, with the records applied in order. *)
Theorem checkpoint_restart f w l s old specs recs :
  distinct l → clean l old (fs s) → faults s = [] → firstCheckPoint l || _checkpointNeeded l = true →
  0 < f_port f < 4294967296 → no_space (f_endPointNoListen f) = true →
  channels_hold f w specs → wf_specs specs →
  forallb text_item recs = true → forallb below_ecf recs = true →
  ∃ l' s', (_ ← checkpoint_turn f w; for_each (map item_line recs) append_record) (l, s) = Ret tt (l', s') ∧
    ∀ l2 p, _activeFilename l2 = _activeFilename l →
      parse_log (l2, mkStorage (fs s') p []) =
        Ret (replay empty_node (factory_items f specs ++ recs)) (l2, mkStorage (fs s') p []).
Proof.
  intros Hl Hc Hf Hn Hport Hend Hd Hw Ht Hb.
  destruct (factory_writes f w specs Hend Hd (proj1 Hw) "" [] is_log_nil) as (t & E & Hlog). cbn [app] in Hlog.
  assert (Hs : snapshot f w = Some (t +:+ nl)).
  { unfold snapshot, log_output. by rewrite (bind_Ret _ _ _ _ _ E). }
  destruct (turn_runs f w l s old (t +:+ nl) Hl Hc Hf Hn Hs) as (i & s1 & E1 & Hf1 & (K1 & K2 & _)).
  destruct (append_records_ret (map item_line recs) (done_log i l) s1 i (t +:+ nl))
    as (l' & s' & E2 & _ & _ & _ & K3); [done..|].
  exists l', s'. split; [by rewrite (bind_Ret _ _ _ _ _ E1)|]. intros l2 p Ha.
  assert (Htext : text (fs s') (_activeFilename l2) =
    Some ((t +:+ nl) +:+ foldr String.append "" (map item_line recs))).
  { unfold text. rewrite Ha, K3. simpl. rewrite K1. by rewrite lookup_insert_eq. }
  assert (Hlog2 : is_log ((t +:+ nl) +:+ foldr String.append "" (map item_line recs)) (factory_items f specs ++ recs)).
  { apply is_log_app; [|by apply is_log_lines].
    rewrite <- (app_nil_r (factory_items f specs)). apply is_log_app; [done|apply is_log_nl]. }
  destruct (factory_database f specs Hw) as (node & _ & Hnode & Hattr & _).
  destruct (below_ecf_replay recs _ node Hb Hnode) as (node' & Hnode' & Ha').
  rewrite <- replay_app in Hnode'.
  unfold parse_log, theLog, onDisk, zoom, next_fault, gets, mbind, M_bind. cbn [fst snd faults fs].
  rewrite Htext, (is_log_parse _ _ Hlog2), Hnode', (factory_port f) by (rewrite ?Ha'; done || lia).
  destruct (Z.leb_spec (f_port f) 0); [lia|done].
Qed.
End properties.

(** ** Witnesses *)

Definition w_log : omniEventsLog :=
  mkLog "/var/lib/omniEvents/omnievents-h.log" "/var/lib/omniEvents/omnievents-h.bak"
    "/var/lib/omniEvents/omnievents-h.ckp" (Some 1%N) true true false true.

Lemma w_log_new : new_omniEventsLog None None (Some "h") = Some (l_set_stream None w_log).
Proof. reflexivity. Qed.

Lemma w_log_distinct : distinct w_log.
Proof.
  destruct (filenames_distinct _ _ _ _ w_log_new) as [K1 K2 K3]. by split.
Qed.

(** The active file holds the record of the factory; there is a backup. *)
Definition w_disk : disk :=
  mkDisk (list_to_map [(_activeFilename w_log, 1%N); (_backupFilename w_log, 2%N)])
         (list_to_map [(1%N, "ecf port=11169 ;;"); (2%N, "")]).

Lemma w_clean : clean w_log "ecf port=11169 ;;" w_disk.
Proof. exists 1%N. split; [reflexivity|]. split; [reflexivity|]. vm_compute. discriminate. Qed.

Definition w_storage : storage := mkStorage w_disk [] [Fine; Broken 3].

Lemma checkpoint_crash_safe_witness :
  distinct w_log ∧ clean w_log "ecf port=11169 ;;" w_disk ∧
  Forall (recoverable w_log "ecf port=11169 ;;" (snapshot f_sample model_world))
    (past (final (checkpoint_turn f_sample model_world (w_log, mkStorage w_disk [] [Fine; Broken 3]))).2).
Proof.
  split; [exact w_log_distinct|]. split; [exact w_clean|].
  destruct (checkpoint_crash_safe f_sample model_world w_log w_storage
    "ecf port=11169 ;;" w_log_distinct w_clean eq_refl) as [K _]. exact K.
Defined.

Definition w_records : list item :=
  [Put "ecf/chan/ProxyPushSupplier/7" [("IOR", "IOR:00")]; Del "ecf/other"].

Lemma checkpoint_restart_witness :
  channels_hold r_factory r_world [r_spec] ∧
  ∃ l' s', (_ ← checkpoint_turn r_factory r_world; for_each (map item_line w_records) append_record)
      (w_log, mkStorage w_disk [] []) = Ret tt (l', s') ∧
    parse_log (w_log, mkStorage (fs s') [] []) =
      Ret (replay empty_node (factory_items r_factory [r_spec] ++ w_records)) (w_log, mkStorage (fs s') [] []).
Proof.
  split; [exact r_holds|].
  destruct (checkpoint_restart r_factory r_world w_log (mkStorage w_disk [] []) "ecf port=11169 ;;"
    [r_spec] w_records w_log_distinct w_clean eq_refl eq_refl)
    as (l' & s' & E & Hp).
  - split; reflexivity.
  - reflexivity.
  - exact r_holds.
  - split; [constructor; [exact (so_wf _ r_spec_ok)|constructor]|apply NoDup_singleton].
  - reflexivity.
  - reflexivity.
  - exists l', s'. split; [exact E|]. apply Hp. reflexivity.
Defined.

Definition w_ready : disk :=
  mkDisk (list_to_map [(_activeFilename w_log, 1%N); (_checkpointFilename w_log, 3%N)])
         (list_to_map [(1%N, "ecf port=11169 ;;"); (3%N, "ecf port=11169 ;; ecf/c ;;")]).

Lemma interrupted_commit_loses_witness :
  ∃ s1, commit w_log (mkStorage w_ready [] [Fine; Fine; Fine; Fine; Broken 0]) = Exited 1 s1 ∧
    ∃ d, d ∈ past (final (checkpoint_turn f_sample model_world (w_log, mkStorage (fs s1) [] []))).2 ∧
      text d (_activeFilename w_log) = Some "".
Proof.
  destruct (interrupted_commit_loses f_sample model_world w_log) with
    (s0 := mkStorage w_ready [] [Fine; Fine; Fine; Fine; Broken 0]) (old := "ecf port=11169 ;;")
    (t := "ecf port=11169 ;; ecf/c ;;") (s := mkStorage (fs
      (final (commit w_log (mkStorage w_ready [] [Fine; Fine; Fine; Fine; Broken 0])))) [] [])
    as (s1 & E & Hd).
  - exact w_log_distinct.
  - exists 1%N, 3%N. split_and!; [reflexivity..|discriminate].
  - reflexivity.
  - reflexivity.
  - exists s1. split; [exact E|]. rewrite E in Hd. destruct (Hd eq_refl eq_refl) as (d & K1 & K2 & _).
    exists d. split; [exact K1|exact K2].
Defined.
