(* ===== verification/Getopt.v ===== *)
(** * getopt: command line options (src/getopt.h, src/getopt.cc)

    The program's own [getopt], for systems without one.  It keeps its place in two static
    variables: [optind], the index of the next argument, and [letP], a pointer into the argument
    that is being read, [NULL] between arguments.

    [args] is the reference: what a command line means, without any state.  [getopt_loop] calls
    [getopt] until it returns [EOF] or ['?'], as the callers do. *)

From S2P Require Import Prelude Stream.

Local Open Scope string_scope.
Local Open Scope list_scope.

Record getopt_state := mkGetopt { optind : nat; letP : option string; optarg : option string }.

(** [optind=1], [letP=NULL]. *)
Definition getopt_init : getopt_state := mkGetopt 1 None None.

Inductive getopt_result := GEof | GError | GOption (ch : char).

Definition SW : char := "-"%char.

(** [strchr(optionS,ch)]: what follows the letter. *)
Fixpoint strchr (s : string) (ch : char) : option string :=
  match s with
  | "" => None
  | String c s' => if ceqb c ch then Some s' else strchr s' ch
  end.

(** The option [ch] with [optionS]: whether it is one, and whether it has a parameter. *)
Definition option_kind (optionS : string) (ch : char) : option bool :=
  if ceqb ch ":" then None
  else match strchr optionS ch with Some rest => Some (head_is ":" rest) | None => None end.

Definition gopEOF (i : nat) : getopt_result * getopt_state := (GEof, mkGetopt i None None).
Definition gopError (i : nat) (p : option string) : getopt_result * getopt_state :=
  (GError, mkGetopt i p None).

(** The letter at [letP], in the argument [i]. *)
Definition getopt_letter (argv : list string) (optionS : string) (i : nat) (p : string)
    : getopt_result * getopt_state :=
  match p with
  | "" => gopEOF (S i)
  | String ch p =>
      match option_kind optionS ch with
      | None => gopError i (Some p)
      | Some true =>
          if str_empty p then
            match argv !! S i with
            | None => gopError (S i) (Some p)
            | Some a => (GOption ch, mkGetopt (S (S i)) None (Some a))
            end
          else (GOption ch, mkGetopt (S i) None (Some p))
      | Some false =>
          if str_empty p then (GOption ch, mkGetopt (S i) None None)
          else (GOption ch, mkGetopt i (Some p) None)
      end
  end.

(** [getopt(argc,argv,optionS)]; [argv !! i] is [None] for [argc<=i]. *)
Definition getopt (argv : list string) (optionS : string) (st : getopt_state)
    : getopt_result * getopt_state :=
  let i := optind st in
  match argv !! i, letP st with
  | None, _ => gopEOF i
  | Some _, Some p => getopt_letter argv optionS i p
  | Some (String c p), None =>
      if negb (ceqb c SW) then gopEOF i
      else if head_is SW p then gopEOF (S i)
      else getopt_letter argv optionS i p
  | Some "", None => gopEOF i
  end.

(** [while((c=getopt(argc,argv,optionS))!=EOF)]: the options in order, how the loop ended, and
    the final state.  [None] if [fuel] is exhausted. *)
Fixpoint getopt_loop (fuel : nat) (argv : list string) (optionS : string) (st : getopt_state)
    : option (list (char * option string) * getopt_result * getopt_state) :=
  match fuel with
  | O => None
  | S f =>
      match getopt argv optionS st with
      | (GOption ch, st') =>
          match getopt_loop f argv optionS st' with
          | Some (l, e, st2) => Some ((ch, optarg st') :: l, e, st2)
          | None => None
          end
      | (e, st') => Some ([], e, st')
      end
  end.

(** ** The reference *)

(** [Operands l]: the arguments that are left; [Bad]: an unknown option, or a parameter that is
    missing. *)
Inductive ending := Operands (l : list string) | Bad.

Definition with_option (o : char * option string) (r : list (char * option string) * ending) :=
  (o :: r.1, r.2).

(** An argument is a group of letters after a dash; [-] and [--] end the options.  The parameter
    of an option is the rest of its group, or the next argument. *)
Fixpoint args (optionS : string) (l : list string) : list (char * option string) * ending :=
  match l with
  | [] => ([], Operands [])
  | a :: rest =>
      let letters := fix letters (p : string) :=
        match p with
        | "" => args optionS rest
        | String ch p' =>
            match option_kind optionS ch with
            | None => ([], Bad)
            | Some false => with_option (ch, None) (letters p')
            | Some true =>
                if str_empty p' then
                  match rest with
                  | [] => ([], Bad)
                  | x :: rest' => with_option (ch, Some x) (args optionS rest')
                  end
                else with_option (ch, Some p') (args optionS rest)
            end
        end in
      match a with
      | String c p =>
          if negb (ceqb c SW) then ([], Operands l)
          else if head_is SW p || str_empty p then ([], Operands rest)
          else letters p
      | "" => ([], Operands l)
      end
  end.

(** The letters of a group, as a function of its own. *)
Fixpoint letters (optionS : string) (rest : list string) (p : string) : list (char * option string) * ending :=
  match p with
  | "" => args optionS rest
  | String ch p' =>
      match option_kind optionS ch with
      | None => ([], Bad)
      | Some false => with_option (ch, None) (letters optionS rest p')
      | Some true =>
          if str_empty p' then
            match rest with
            | [] => ([], Bad)
            | x :: rest' => with_option (ch, Some x) (args optionS rest')
            end
          else with_option (ch, Some p') (args optionS rest)
      end
  end.

Lemma args_group optionS c p rest :
  ceqb c SW = true → head_is SW p || str_empty p = false →
  args optionS (String c p :: rest) = letters optionS rest p.
Proof.
  intros Hc Hp. cbn [args]. rewrite Hc, Hp. cbn [negb].
  clear Hp. induction p as [|ch p IH]; [done|]. cbn [letters].
  destruct (option_kind optionS ch) as [[]|]; [done| |done]. by rewrite IH.
Qed.

(** ** The loop computes the reference *)

(** The loop has the options of [r]; it ended as [r] says. *)
Definition agrees (argv : list string) (o : option (list (char * option string) * getopt_result * getopt_state))
    (r : list (char * option string) * ending) : Prop :=
  ∃ e st, o = Some (r.1, e, st) ∧
    match r.2 with Operands l => e = GEof ∧ drop (optind st) argv = l | Bad => e = GError end.

Lemma agrees_option argv optionS f st ch st' r :
  getopt argv optionS st = (GOption ch, st') →
  agrees argv (getopt_loop f argv optionS st') r →
  agrees argv (getopt_loop (S f) argv optionS st) (with_option (ch, optarg st') r).
Proof.
  intros E (e & st2 & Hl & Hr). exists e, st2. cbn [getopt_loop]. rewrite E, Hl. by split.
Qed.

Lemma agrees_end argv optionS f st e st' x :
  getopt argv optionS st = (e, st') →
  match x with Operands l => e = GEof ∧ drop (optind st') argv = l | Bad => e = GError end →
  agrees argv (getopt_loop (S f) argv optionS st) ([], x).
Proof.
  intros E Hx. exists e, st'. cbn [getopt_loop]. rewrite E.
  destruct x; [destruct Hx as [-> Hd]|subst e]; done.
Qed.

Definition total (l : list string) : nat := foldr (λ a n, S (String.length a + n)) 0 l.

Lemma drop_cons_lookup {A} i (l : list A) a rest :
  drop i l = a :: rest → l !! i = Some a ∧ drop (S i) l = rest.
Proof.
  intros Hd. split.
  - rewrite <- (Nat.add_0_r i), <- lookup_drop, Hd. done.
  - change (S i) with (1 + i)%nat. rewrite Nat.add_comm, <- drop_drop, Hd. done.
Qed.

Lemma drop_nil_lookup {A} i (l : list A) : drop i l = [] → l !! i = None.
Proof. intros Hd. by rewrite <- (Nat.add_0_r i), <- lookup_drop, Hd. Qed.

Lemma loop_agrees fuel argv optionS :
  (∀ i o l, drop i argv = l → total l < fuel →
     agrees argv (getopt_loop fuel argv optionS (mkGetopt i None o)) (args optionS l)) ∧
  (∀ i o a p rest, drop i argv = a :: rest → p ≠ "" → String.length p + total rest < fuel →
     agrees argv (getopt_loop fuel argv optionS (mkGetopt i (Some p) o)) (letters optionS rest p)).
Proof.
  induction fuel as [|f [IH1 IH2]]; [split; intros; lia|].
  assert (Hletters : ∀ i st a p rest, drop i argv = a :: rest → p ≠ "" → String.length p + total rest < S f →
    getopt argv optionS st = getopt_letter argv optionS i p →
    agrees argv (getopt_loop (S f) argv optionS st) (letters optionS rest p)).
  { intros i st a p rest Hd Hp Hf E. destruct (drop_cons_lookup _ _ _ _ Hd) as [Ha Hr].
    destruct p as [|ch p]; [done|]. cbn [letters]. cbn [getopt_letter] in E. cbn [String.length] in Hf.
    destruct (option_kind optionS ch) as [[]|]; [| |by eapply agrees_end].
    - destruct (str_empty p) eqn:Ep.
      + destruct rest as [|x rest'].
        * rewrite (drop_nil_lookup _ _ Hr) in E. by eapply agrees_end.
        * destruct (drop_cons_lookup _ _ _ _ Hr) as [Hx Hr']. rewrite Hx in E.
          apply (agrees_option _ _ _ _ _ _ _ E). apply IH1; [done|]. simpl in Hf. lia.
      + apply (agrees_option _ _ _ _ _ _ _ E). apply IH1; [done|]. lia.
    - destruct (str_empty p) eqn:Ep.
      + apply (agrees_option _ _ _ _ _ _ _ E). destruct p; [|done]. apply IH1; [done|]. lia.
      + apply (agrees_option _ _ _ _ _ _ _ E). eapply IH2; [done|by destruct p|]. lia. }
  split; [|intros i o a p rest Hd Hp Hf; apply (Hletters i _ a p rest Hd Hp Hf);
    unfold getopt; cbn [optind letP]; rewrite (proj1 (drop_cons_lookup _ _ _ _ Hd)); by destruct a].
  intros i o l Hd Hf. destruct l as [|a rest].
  { eapply agrees_end; [unfold getopt; simpl; by rewrite (drop_nil_lookup _ _ Hd)|done]. }
  destruct (drop_cons_lookup _ _ _ _ Hd) as [Ha Hr]. destruct a as [|c p].
  { eapply agrees_end; [unfold getopt; simpl; by rewrite Ha|done]. }
  destruct (ceqb c SW) eqn:Ec.
  2: { cbn [args]. rewrite Ec. eapply agrees_end; [unfold getopt; simpl; by rewrite Ha, Ec|done]. }
  destruct (head_is SW p || str_empty p) eqn:Ep.
  - cbn [args]. rewrite Ec, Ep. apply (agrees_end _ _ _ _ GEof (mkGetopt (S i) None None)); [|done].
    unfold getopt. simpl. rewrite Ha, Ec. destruct p as [|d p]; [done|]. simpl in Ep |- *.
    rewrite orb_false_r in Ep. by rewrite Ep.
  - rewrite args_group by done. apply orb_false_iff in Ep as [Ep1 Ep2].
    eapply Hletters; [exact Hd|by destruct p|cbn [total foldr String.length] in Hf; unfold total; lia|].
    unfold getopt. simpl. by rewrite Ha, Ec, Ep1.
Qed.

(** C23: reading a command line.  For every command line and option string, [getopt] called until
    it ends gives exactly the options of the reference, in order and with their parameters; it
    ends with [EOF] and [optind] at the first operand, or with ['?'] where the reference finds
    the first error.  One call per character of the command line is enough. *)
Theorem getopt_reference command l optionS :
  ∃ e st, getopt_loop (S (total l)) (command :: l) optionS getopt_init = Some ((args optionS l).1, e, st) ∧
    match (args optionS l).2 with
    | Operands rest => e = GEof ∧ drop (optind st) (command :: l) = rest
    | Bad => e = GError
    end.
Proof.
  destruct (loop_agrees (S (total l)) (command :: l) optionS) as [K _].
  apply (K 1%nat None l eq_refl). lia.
Qed.

Example getopt_sample :
  args "O:a:p:l:P:N:dft:vVh" ["-fp"; "7"; "-l/tmp"; "--"; "x"] =
    ([("f"%char, None); ("p"%char, Some "7"); ("l"%char, Some "/tmp")], Operands ["x"]).
Proof. reflexivity. Qed.
