(* ===== verification/Startup.v ===== *)
(** * Startup: the options, and the choice between a cold and a warm start (src/main.cc)

    [main] reads the options, then the database if there is one, and checks the options against
    it; a server that finds only a backup refuses to start. *)

From S2P Require Import Prelude Monad CxxMap Stream PersistNode PersistReplay PersistLog PersistLookup ChannelProps.
From S2P Require Import Corba ModelOrb Disk EventChannel EventChannelFactory OmniEventsLog Getopt.

Local Open Scope string_scope.
Local Open Scope Z_scope.
Local Open Scope list_scope.

(** ** Options *)

(** The variables of [main], and what it tells the [Daemon]. *)
Record options := mkOptions {
  o_endPointNoListen : option string;
  o_port : Z;
  o_logDir : option string;
  o_factoryName : string;
  o_verbose : bool;
  o_pidfile : option string;
  o_foreground : bool;
  o_tracefile : option string }.

Definition default_options : options := mkOptions None 0 None "EventChannelFactory" false None false None.

(** One turn of the [switch]; [inl] is the status of [::exit].  [usage] exits with 0. *)
Definition process_option (o : options) (c : char) (optarg : option string) : Z + options :=
  let arg := default "" optarg in
  match o with
  | mkOptions a p l n v pf fg tr =>
      if ceqb c "O" then inr o
      else if ceqb c "a" then inr (mkOptions (Some arg) p l n v pf fg tr)
      else if ceqb c "p" then
        let port := i32 (atol arg) in
        if port <=? 0 then inl 0 else inr (mkOptions a port l n v pf fg tr)
      else if ceqb c "l" then inr (mkOptions a p (Some arg) n v pf fg tr)
      else if ceqb c "P" then inr (mkOptions a p l n v (Some arg) fg tr)
      else if ceqb c "N" then inr (mkOptions a p l arg v pf fg tr)
      else if ceqb c "d" then inr (mkOptions a p l n v pf true tr)
      else if ceqb c "f" then inr (mkOptions a p l n v pf true tr)
      else if ceqb c "t" then inr (mkOptions a p l n v pf fg (Some arg))
      else if ceqb c "v" then inr (mkOptions a p l n true pf fg tr)
      else inl 0
  end.

Fixpoint process_options (o : options) (l : list (char * option string)) : Z + options :=
  match l with
  | [] => inr o
  | (c, arg) :: l' =>
      match process_option o c arg with inl s => inl s | inr o' => process_options o' l' end
  end.

(** The loop over [getopt]: an error is an option ['?'], which is not known. *)
Definition read_options (argv : list string) : option (Z + options) :=
  match getopt_loop (S (total (tail argv))) argv "O:a:p:l:P:N:dft:vVh" getopt_init with
  | None => None
  | Some (l, e, _) =>
      match process_options default_options l with
      | inl s => Some (inl s)
      | inr o => Some (match e with GError => inl 0 | _ => inr o end)
      end
  end.

(** ** The arguments of omniORB 3 (src/omniEvents.cc)

    That ORB has no table of options: its port is given on a command line of its own. *)

(** [for(i=i; ...; i++) newArgv[i+off]=argv[i]], [n] times. *)
Fixpoint copy_args (i n off : nat) (argv : list string) (newArgv : list (option string)) : list (option string) :=
  match n with
  | O => newArgv
  | S n' => copy_args (S i) n' off argv (<[(i + off)%nat := argv !! i]> newArgv)
  end.

(** [insertArgs(argc,argv,idx,nargs)]: the new array; [None] is a place that was not written. *)
Definition insertArgs (argv : list string) (idx nargs : nat) : list (option string) :=
  let newArgv := replicate (length argv + nargs) None in
  let newArgv := copy_args 0 idx 0 argv newArgv in
  copy_args idx (length argv - idx) nargs argv newArgv.

(** The command line for [ORB_init]. *)
Definition orb3_args (argv : list string) (port : Z) : list (option string) :=
  let argv := insertArgs argv 1 2 in
  <[2%nat := Some (show_Z port)]> (<[1%nat := Some "-ORBpoa_iiop_port"]> argv).

Lemma copy_args_lookup argv off n : ∀ i new j,
  (i + n ≤ length argv)%nat → (length argv + off ≤ length new)%nat →
  copy_args i n off argv new !! j =
    if decide (i + off ≤ j < i + off + n)%nat then Some (argv !! (j - off)%nat) else new !! j.
Proof.
  induction n as [|n IH]; intros i new j Hi Hl; cbn [copy_args].
  - by rewrite decide_False by lia.
  - rewrite IH by (rewrite ?length_insert; lia). destruct (decide (j = i + off)%nat) as [->|Hne].
    + rewrite decide_False, decide_True, list_lookup_insert_eq by lia. by rewrite Nat.add_sub.
    + rewrite list_lookup_insert_ne by done. repeat case_decide; try done; lia.
Qed.

Lemma copy_args_length argv off n : ∀ i new, length (copy_args i n off argv new) = length new.
Proof. induction n as [|n IH]; intros i new; cbn; [done|]. by rewrite IH, length_insert. Qed.

(** The arguments are kept in order around the gap; nothing terminates the new array. *)
Lemma insertArgs_spec argv idx nargs : (idx ≤ length argv)%nat →
  insertArgs argv idx nargs = map Some (take idx argv) ++ replicate nargs None ++ map Some (drop idx argv).
Proof.
  intros Hi. apply list_eq. intros j. unfold insertArgs.
  rewrite copy_args_lookup by (rewrite ?copy_args_length, ?length_replicate; lia).
  rewrite copy_args_lookup by (rewrite ?length_replicate; lia).
  assert (Hm : ∀ l (k : nat), map Some l !! k = Some <$> (l !! k : option string)) by (intros; apply list_lookup_fmap).
  destruct (decide (j < idx)%nat) as [Hj|Hj].
  - rewrite decide_False, decide_True by lia. rewrite lookup_app_l by (rewrite length_map, length_take; lia).
    rewrite Hm, lookup_take_lt, !Nat.sub_0_r by lia. destruct (lookup_lt_is_Some_2 argv j) as [s ->]; [lia|done].
  - rewrite lookup_app_r by (rewrite length_map, length_take; lia). rewrite length_map, length_take, Nat.min_l by lia.
    destruct (decide (j < idx + nargs)%nat) as [Hk|Hk].
    + rewrite !decide_False by lia. rewrite lookup_app_l by (rewrite length_replicate; lia).
      by rewrite !lookup_replicate_2 by lia.
    + rewrite lookup_app_r by (rewrite length_replicate; lia). rewrite length_replicate, Hm, lookup_drop.
      replace (idx + (j - idx - nargs))%nat with (j - nargs)%nat by lia. case_decide as D.
      * destruct (lookup_lt_is_Some_2 argv (j - nargs)) as [s ->]; [lia|done].
      * rewrite decide_False by lia. rewrite (lookup_ge_None_2 argv) by lia. apply lookup_ge_None_2.
        rewrite length_replicate. lia.
Qed.

Lemma orb3_args_spec prog args port :
  orb3_args (prog :: args) port = map Some (prog :: "-ORBpoa_iiop_port" :: show_Z port :: args).
Proof. unfold orb3_args. rewrite insertArgs_spec by (cbn; lia). cbn [take drop map replicate app]. done. Qed.

Section startup.
Context `{AO : AnyOps}.

(** ** The database *)

Definition log_exists (name : string) : LMeth bool := onDisk (fileExists name).

(** The options conflict with what the file says. *)
Definition port_conflict (o : options) (ecf : PersistNode) : bool :=
  negb (o_port o =? 0) && negb (o_port o =? attrLong "port" 0 ecf).
Definition endpoint_conflict (o : options) (ecf : PersistNode) : bool :=
  match o_endPointNoListen o with
  | Some s => negb (String.eqb s (attrString "endPointNoListen" "" ecf))
  | None => false
  end.

(** From the construction of the log to the initial state. *)
Definition load_state (o : options) : LMeth PersistNode :=
  l ← theLog;
  active ← log_exists (_activeFilename l);
  if (active : bool) then
    initialState ← parse_log;
    match child "ecf" initialState with
    | None => abort
    | Some ecf =>
        if port_conflict o ecf then exit 1
        else if endpoint_conflict o ecf then exit 1
        else mret initialState
    end
  else
    backup ← log_exists (_backupFilename l);
    if (backup : bool) then exit 1
    else mret (bootstrap (if o_port o =? 0 then 11169 else o_port o) (o_endPointNoListen o)).

(** The options of the ORB: the end points. *)
Definition orb_end_points (o : options) (initialState : PersistNode) : option (list (string * string)) :=
  match child "ecf" initialState with
  | None => None
  | Some ecf =>
      let port := i32 (attrLong "port" (o_port o) ecf) in
      let endPoint2 := attrString "endPointNoListen" "" ecf in
      let endPoint := "giop:::" +:+ show_Z port in
      Some (if str_empty endPoint2 then [("endPoint", endPoint)]
            else [("endPoint", endPoint); ("endPointNoListen", endPoint2)])
  end.

(** ** What starts *)

Lemma bootstrap_node port ep :
  ∃ ecf, child "ecf" (bootstrap port ep) = Some ecf ∧
    attrLong "port" 0 ecf = i32 port ∧ attrString "endPointNoListen" "" ecf = default "" ep.
Proof.
  unfold bootstrap, child. eexists. split; [reflexivity|].
  assert (Ha : atol (show_Z (i32 port)) = i32 port).
  { apply atol_show_Z. pose proof (i32_range port). unfold LONG_MIN, LONG_MAX. lia. }
  destruct ep as [[|c s]|]; cbn [str_empty]; [by split| |by split].
  unfold attrLong, attrString, addattr.
  replace (split_at "=" ("endPointNoListen=" +:+ String c s)) with ("endPointNoListen", Some (String c s)) by done.
  cbn [_attr _child]. split; [by rewrite map_find_put_ne|by rewrite map_find_put_eq].
Qed.

(** What the server serves from this state, and where it listens. *)
Definition serves (root : PersistNode) (port : Z) (endPoint : string) : Prop :=
  ∃ ecf, child "ecf" root = Some ecf ∧ attrLong "port" 0 ecf = port ∧
    attrString "endPointNoListen" "" ecf = endPoint.

Definition opt_port (o : options) : Z := if o_port o =? 0 then 11169 else o_port o.

(** A file whose factory has a port. *)
Lemma load_state_file o l d p t root ecf :
  text d (_activeFilename l) = Some t → parse t = Some root → child "ecf" root = Some ecf →
  let s := (l, mkStorage d p []) in
  load_state o s =
    if (attrLong "port" (-1) ecf <=? 0) || port_conflict o ecf || endpoint_conflict o ecf then Exited 1 s
    else Ret root s.
Proof.
  intros Et Hroot Ec s.
  assert (Hn : is_Some (names d !! _activeFilename l)).
  { unfold text in Et. destruct (names d !! _activeFilename l); [by eexists|done]. }
  destruct Hn as [i Hi].
  unfold load_state, log_exists, fileExists, parse_log, theLog, onDisk, zoom, next_fault, gets, mbind, M_bind.
  unfold s. cbn [fst snd fs faults]. rewrite Hi. cbn [fst snd fs faults]. rewrite Et, Hroot, Ec.
  destruct (attrLong "port" (-1) ecf <=? 0); [done|]. cbn [orb]. unfold mret, M_ret. rewrite Ec.
  destruct (port_conflict o ecf); [done|]. by destruct (endpoint_conflict o ecf).
Qed.

(** C14: cold and warm start.  Without faults, [main] up to the construction of the factory
    (1) refuses a file that is not a database, or one whose port or end point differs from the
    options given; otherwise it starts with what the file holds;
    (2) refuses a directory with a backup and no active file;
    (3) otherwise starts with no channels and the options given, 11169 being the default port.
    In no case does it change the disk. *)
Theorem load_state_spec o l d p :
  0 ≤ o_port o < 2147483648 →
  let s := (l, mkStorage d p []) in
  match text d (_activeFilename l), names d !! _activeFilename l, names d !! _backupFilename l with
  | Some t, _, _ =>
      ∃ root, parse t = Some root ∧
      match child "ecf" root with
      | None => load_state o s = Exited 1 s
      | Some ecf =>
          if (attrLong "port" (-1) ecf <=? 0) || port_conflict o ecf || endpoint_conflict o ecf
          then load_state o s = Exited 1 s
          else load_state o s = Ret root s ∧
               (o_port o ≠ 0 → attrLong "port" 0 ecf = o_port o) ∧
               (∀ e, o_endPointNoListen o = Some e → attrString "endPointNoListen" "" ecf = e)
      end
  | None, None, Some _ => load_state o s = Exited 1 s
  | None, None, None =>
      ∃ root, load_state o s = Ret root s ∧ serves root (opt_port o) (default "" (o_endPointNoListen o)) ∧
        ∀ ecf, child "ecf" root = Some ecf → _child ecf = []
  | None, Some _, _ => True
  end.
Proof.
  intros Hp s.
  destruct (text d (_activeFilename l)) as [t|] eqn:Et.
  - pose proof (parse_run_words t) as Hroot. set (root := run _ _) in Hroot. exists root. split; [done|]. clearbody root.
    destruct (child "ecf" root) as [ecf|] eqn:Ec.
    + unfold s. rewrite (load_state_file o l d p t root ecf Et Hroot Ec).
      destruct (attrLong "port" (-1) ecf <=? 0) eqn:Eport; [done|]. cbn [orb].
      destruct (port_conflict o ecf) eqn:E1; [done|]. cbn [orb].
      destruct (endpoint_conflict o ecf) eqn:E2; [done|]. split; [done|].
      unfold port_conflict, endpoint_conflict in E1, E2. split.
      * intros Hz. apply andb_false_iff in E1 as [E1|E1]; boolify; [done|]. lia.
      * intros e He. rewrite He in E2. boolify. apply String.eqb_eq in E2. by subst.
    + unfold load_state, log_exists, fileExists, parse_log, theLog, onDisk, zoom, next_fault, gets, mbind, M_bind, s.
      cbn [fst snd fs faults]. pose proof Et as Et'. unfold text in Et'.
      destruct (names d !! _activeFilename l); [|done]. cbn [fst snd fs faults]. by rewrite Et, Hroot, Ec.
  - destruct (names d !! _activeFilename l) as [i|] eqn:Ei; [done|].
    unfold load_state, log_exists, fileExists, theLog, onDisk, zoom, gets, mbind, M_bind, s.
    cbn [fst snd fs]. rewrite Ei. cbn [fst snd fs].
    destruct (names d !! _backupFilename l); [done|].
    eexists. split; [done|]. split.
    + destruct (bootstrap_node (opt_port o) (o_endPointNoListen o)) as (ecf & K1 & K2 & K3).
      exists ecf. split; [done|]. split; [|done]. rewrite K2. apply i32_id. unfold opt_port.
      destruct (Z.eqb_spec (o_port o) 0); lia.
    + intros ecf. unfold bootstrap, child. cbn. intros [= <-].
      destruct (o_endPointNoListen o) as [[|? ?]|]; cbn [str_empty]; [done| |done].
      unfold addattr. by destruct (split_at _ _).
Qed.

(** If the active file exists and cannot be opened for writing, [incarnateFactory] removes it,
    whatever it holds. *)
Theorem open_failure_removes l d i root p :
  names d !! _activeFilename l = Some i →
  ∃ l' s', open_logstream root (l, mkStorage d p [Broken 0]) = Exited 1 (l', s') ∧
    names (fs s') !! _activeFilename l = None.
Proof.
  intros Hi. unfold open_logstream, theLog, updLog, onDisk, zoom, open_append, unlink, next_fault, gets, modify, mbind, M_bind.
  simpl. rewrite Hi. simpl. eexists _, _. split; [reflexivity|]. simpl. by rewrite lookup_delete_eq.
Qed.

(** A server that dies between its first start and its first checkpoint leaves a file no server
    starts from. *)
Theorem cold_start_crash o2 l d p p2 root l' s' :
  names d !! _activeFilename l = None →
  open_logstream root (l, mkStorage d p []) = Ret (default empty_node (child "ecf" root)) (l', s') →
  load_state o2 (l, mkStorage (fs s') p2 []) = Exited 1 (l, mkStorage (fs s') p2 []).
Proof.
  intros Ha. unfold open_logstream, theLog, updLog, onDisk, zoom, open_append, next_fault, gets, modify, mbind, M_bind.
  cbn [fst snd fs faults]. rewrite Ha. unfold create_file, gets, settle, modify, mbind, M_bind. cbn [fst snd fs faults mret M_ret].
  destruct (child "ecf" root) as [ecf|]; [|done]. cbn [fst snd]. intros [= <- <-].
  set (d1 := bind_name _ _ _).
  assert (Ht : names d1 !! _activeFilename l = Some (fresh (dom (files d))) ∧ text d1 (_activeFilename l) = Some "").
  { unfold d1, text. simpl. by rewrite !lookup_insert_eq. }
  clearbody d1. destruct Ht as [Hn Ht].
  unfold load_state, log_exists, fileExists, parse_log, theLog, onDisk, zoom, next_fault, gets, mbind, M_bind.
  cbn [fst snd fs faults]. rewrite Hn. cbn [fst snd fs faults]. rewrite Ht. done.
Qed.
End startup.

(** A warm start with matching options. *)
Definition start_disk : disk :=
  mkDisk (list_to_map [(_activeFilename w_log, 1%N)]) (list_to_map [(1%N, "ecf port=7000 ;;")]).

Lemma load_state_spec_witness :
  0 ≤ o_port (mkOptions None 7000 None "f" false None false None) < 2147483648 ∧
  ∃ root, load_state (mkOptions None 7000 None "f" false None false None) (w_log, mkStorage start_disk [] []) =
    Ret root (w_log, mkStorage start_disk [] []).
Proof.
  assert (H : 0 ≤ o_port (mkOptions None 7000 None "f" false None false None) < 2147483648) by (simpl; lia).
  split; [exact H|].
  pose proof (load_state_spec (mkOptions None 7000 None "f" false None false None) w_log start_disk [] H) as K.
  assert (Et : text start_disk (_activeFilename w_log) = Some "ecf port=7000 ;;") by reflexivity.
  cbv zeta in K. rewrite Et in K. destruct K as (root & Hp & K).
  assert (E : parse "ecf port=7000 ;;" = Some (mkNode [("ecf", mkNode [] [("port", "7000")])] [])) by reflexivity.
  rewrite E in Hp. injection Hp as <-. cbn in K. exists (mkNode [("ecf", mkNode [] [("port", "7000")])] []). exact (proj1 K).
Defined.
