(* ===== verification/Naming.v ===== *)
(** * naming: names of the Naming Service (src/naming.h, src/naming.cc)

    [str2name] reads a name written with [/] between components and [.] before a kind;
    [operator<<] writes one; [bindName2Object] binds an object under a name, creating the
    contexts on the way.  The Naming Service is not part of the program: it is a parameter. *)

From S2P Require Import Prelude Monad Stream Corba ModelOrb.

Local Open Scope string_scope.
Local Open Scope list_scope.

(** [CosNaming::NameComponent] and [CosNaming::Name]. *)
Record component := mkComponent { id : string; kind : string }.
Definition Name : Type := list component.

(** [operator<<(os,name)] *)
Definition print_component (c : component) : string :=
  "/" +:+ id c +:+ (if str_empty (kind c) then "" else "." +:+ kind c).
Definition print_name (n : Name) : string := foldr (λ c acc, print_component c +:+ acc) "" n.

Definition is_sep (c : char) : bool := ceqb c "/" || ceqb c ".".
Definition no_sep (s : string) : bool := str_forall (λ c, negb (is_sep c)) s.

(** [n.find_first_not_of("/.",pos)]: what is left of the text there. *)
Fixpoint skip_seps (s : string) : string :=
  match s with
  | "" => ""
  | String c s' => if is_sep c then skip_seps s' else s
  end.

(** [n.find_first_of("/.",pos)]: the piece before it, and what is left from there. *)
Fixpoint take_piece (s : string) : string * string :=
  match s with
  | "" => ("", "")
  | String c s' => if is_sep c then ("", s) else let (p, r) := take_piece s' in (String c p, r)
  end.

(** The kind of the last component. *)
Definition set_last_kind (k : string) (n : Name) : option Name :=
  match rev n with [] => None | c :: r => Some (rev r ++ [mkComponent (id c) k]) end.

(** [str2name(namestr)]: [None] when the kind of a component that does not exist is written, or
    when [fuel] is exhausted. *)
Fixpoint str2name_loop (fuel : nat) (last : char) (rest : string) (name : Name) : option Name :=
  match fuel with
  | O => None
  | S f =>
      match skip_seps rest with
      | "" => Some name
      | s =>
          let (piece, r) := take_piece s in
          match (if ceqb last "/" then Some (name ++ [mkComponent piece ""]) else set_last_kind piece name) with
          | None => None
          | Some name' =>
              match r with
              | "" => Some name'
              | String sep _ => str2name_loop f sep r name'
              end
          end
      end
  end.

Definition str2name (namestr : string) : option Name :=
  str2name_loop (S (String.length namestr)) "/" namestr [].

(** ** Reading back what was written *)

Definition wf_component (c : component) : bool :=
  negb (str_empty (id c)) && no_sep (id c) && no_sep (kind c).

Lemma take_piece_app p s :
  no_sep p = true → (s = "" ∨ ∃ c s', s = String c s' ∧ is_sep c = true) → take_piece (p +:+ s) = (p, s).
Proof.
  intros Hp Hs. induction p as [|c p IH]; str_simp.
  - destruct Hs as [->|(c & s' & -> & Hc)]; simpl; [done|]. by rewrite Hc.
  - unfold no_sep in *. simpl in Hp. boolify.
    match goal with H : is_sep c = false |- _ => rewrite H end. by rewrite IH.
Qed.

(** What follows a piece: nothing, or text that begins with a separator. *)
Definition sep_text (s : string) : Prop := s = "" ∨ ∃ c s', s = String c s' ∧ is_sep c = true.

(** One turn of the loop, at a separator. *)
Lemma loop_piece f last sep p s name :
  is_sep sep = true → no_sep p = true → p ≠ "" → sep_text s →
  str2name_loop (S f) last (String sep (p +:+ s)) name =
    match (if ceqb last "/" then Some (name ++ [mkComponent p ""]) else set_last_kind p name) with
    | None => None
    | Some name' => match s with "" => Some name' | String c _ => str2name_loop f c s name' end
    end.
Proof.
  intros Hsep Hp Hne Hs. cbn [str2name_loop skip_seps]. rewrite Hsep.
  pose proof (take_piece_app p s Hp Hs) as Ht. destruct p as [|c p]; [done|].
  unfold no_sep in Hp. simpl in Hp. boolify. rewrite str_app_cons in *. cbn [skip_seps].
  match goal with H : is_sep c = false |- _ => rewrite H end. by rewrite Ht.
Qed.

Lemma set_last_kind_snoc k n c : set_last_kind k (n ++ [c]) = Some (n ++ [mkComponent (id c) k]).
Proof. unfold set_last_kind. rewrite rev_app_distr. simpl. by rewrite rev_involutive. Qed.

(** What follows a piece of a printed name begins with a separator, or is empty. *)
Lemma print_name_sep n : sep_text (print_name n).
Proof. destruct n as [|c n]; [by left|]. right. by eexists _, _. Qed.

(** One component of a printed name: at most two turns of the loop. *)
Lemma loop_component c n f name :
  wf_component c = true →
  (n = [] → str2name_loop (S (S f)) "/" (print_name (c :: n)) name = Some (name ++ [c])) ∧
  (n ≠ [] → ∃ g, (f ≤ g)%nat ∧ str2name_loop (S (S f)) "/" (print_name (c :: n)) name =
     str2name_loop g "/" (print_name n) (name ++ [c])).
Proof.
  unfold wf_component. destruct c as [i k]. cbn [id kind]. intros Hw. boolify.
  assert (Hi : i ≠ "") by (by destruct i).
  assert (Ek : ∀ m, "." +:+ m = String "." m) by done.
  assert (Es : print_name (mkComponent i k :: n) = String "/" (i +:+ (if str_empty k then "" else "." +:+ k) +:+ print_name n)).
  { unfold print_name. cbn [foldr]. unfold print_component. cbn [id kind]. by rewrite !str_app_assoc. }
  assert (Ess : ceqb "/" "/" = true) by apply ceqb_refl.
  pose proof (print_name_sep n) as Hsep. rewrite Es. destruct (str_empty k) eqn:Ekk.
  - destruct k; [|done]. rewrite str_app_nil_l, loop_piece, Ess by done. split.
    + by intros ->.
    + intros Hn. exists (S f). split; [lia|]. by destruct n.
  - assert (Hk : k ≠ "") by (by destruct k). rewrite Ek, str_app_cons.
    rewrite loop_piece, Ess by (done || (right; by eexists _, _)).
    rewrite loop_piece by done. assert (ceqb "." "/" = false) as -> by done.
    rewrite set_last_kind_snoc. cbn [id]. split.
    + by intros ->.
    + intros Hn. exists f. split; [lia|]. by destruct n.
Qed.

Lemma loop_name n : ∀ f name,
  forallb wf_component n = true → n ≠ [] → (2 * length n ≤ f)%nat →
  str2name_loop f "/" (print_name n) name = Some (name ++ n).
Proof.
  induction n as [|c n IH]; intros f name Hw Hn Hf; [done|]. cbn [forallb length] in *. boolify.
  destruct f as [|[|f]]; [lia..|]. destruct (loop_component c n f name ltac:(done)) as [K1 K2].
  destruct (decide (n = [])) as [->|Hne]; [by rewrite K1|].
  destruct (K2 Hne) as (g & Hg & ->). rewrite IH; [by rewrite <- app_assoc|done|done|lia].
Qed.

(** A kind is only written once there is a component, and every turn takes a character: no text
    fails. *)
Lemma skip_seps_length s : (String.length (skip_seps s) ≤ String.length s)%nat.
Proof. induction s as [|c s IH]; simpl; [done|]. destruct (is_sep c); simpl; lia. Qed.

Lemma take_piece_length c s :
  is_sep c = false → (String.length (take_piece (String c s)).2 ≤ String.length s)%nat.
Proof.
  assert (H : ∀ t, (String.length (take_piece t).2 ≤ String.length t)%nat).
  { induction t as [|d t IH]; simpl; [done|]. destruct (is_sep d); [done|]. destruct (take_piece t). simpl in *. lia. }
  intros Hc. simpl. rewrite Hc. specialize (H s). by destruct (take_piece s).
Qed.

Lemma skip_seps_head s c s' : skip_seps s = String c s' → is_sep c = false.
Proof. induction s as [|d s IH]; simpl; [done|]. destruct (is_sep d) eqn:E; [exact IH|]. by intros [= <- _]. Qed.

Lemma str2name_loop_total f : ∀ last rest name,
  (String.length rest < f)%nat → last = "/"%char ∨ name ≠ [] → is_Some (str2name_loop f last rest name).
Proof.
  induction f as [|f IH]; intros last rest name Hf Hn; [lia|]. cbn [str2name_loop].
  pose proof (skip_seps_length rest). destruct (skip_seps rest) as [|c s] eqn:E; [done|].
  pose proof (skip_seps_head _ _ _ E) as Hc. pose proof (take_piece_length c s Hc).
  destruct (take_piece (String c s)) as [piece r]. cbn [snd String.length] in *.
  assert (Hname : ∃ name', (if ceqb last "/" then Some (name ++ [mkComponent piece ""]) else set_last_kind piece name)
                           = Some name' ∧ name' ≠ []).
  { destruct (ceqb last "/") eqn:El; [eexists; split; [done|]; by destruct name|].
    destruct Hn as [->|Hn]; [done|]. destruct (exists_last Hn) as (n0 & c0 & ->).
    rewrite set_last_kind_snoc. eexists. split; [done|]. by destruct n0. }
  destruct Hname as (name' & -> & Hn'). destruct r as [|sep r]; [done|].
  apply IH; [cbn [String.length] in *; lia|by right].
Qed.

Lemma str2name_total namestr : is_Some (str2name namestr).
Proof. apply str2name_loop_total; [lia|by left]. Qed.

Lemma print_name_length n : forallb wf_component n = true → (2 * length n ≤ String.length (print_name n))%nat.
Proof.
  induction n as [|c n IH]; intros Hw; [simpl; lia|]. cbn [forallb] in Hw. boolify. specialize (IH ltac:(done)).
  change (print_name (c :: n)) with (print_component c +:+ print_name n). rewrite str_length_app.
  assert (2 ≤ String.length (print_component c))%nat; [|simpl length; lia].
  match goal with H : wf_component c = true |- _ => unfold wf_component in H end. boolify.
  unfold print_component. destruct (id c); [done|]. rewrite !str_length_app. simpl. lia.
Qed.

(** Names.  A name whose identifiers are not empty, without [/] and [.] in them, reads back
    from its text; in particular the loop of [str2name] terminates and writes no kind of a
    component that does not exist. *)
Theorem str2name_print n :
  forallb wf_component n = true → str2name (print_name n) = Some n.
Proof.
  intros Hw. unfold str2name. destruct (decide (n = [])) as [->|Hn]; [done|].
  rewrite loop_name; [done..|]. pose proof (print_name_length n Hw). lia.
Qed.

Definition sample_name : Name := [mkComponent "omniEvents" "ctx"; mkComponent "EventChannelFactory" ""].

Lemma str2name_print_witness :
  forallb wf_component sample_name = true ∧
  str2name "/omniEvents.ctx/EventChannelFactory" = Some sample_name.
Proof. split; [reflexivity|]. exact (str2name_print sample_name eq_refl). Defined.

(** ** Binding *)

(** The Naming Service.  [narrow o] is [None] if the object is not a context. *)
Class NamingOps `{OO : OrbOps} := {
  context : Type;
  ns_state : Type;
  bind_new_context : context → component → M exn ns_state context;
  resolve : context → component → M exn ns_state Object;
  bind : context → component → Object → M exn ns_state unit;
  rebind : context → component → Object → M exn ns_state unit;
  narrow_context : Object → M exn ns_state (option context) }.

Definition AlreadyBound `{AnyOps} : exn := UserException "AlreadyBound".

Section binding.
Context `{NO : NamingOps}.

Definition is_already_bound (e : exn) : bool :=
  match e with UserException n => String.eqb n "AlreadyBound" | _ => false end.

(** One step down: a new context, or the one that is bound already. *)
Definition drill (namingContext : context) (c : component) : M exn ns_state (option context) :=
  try_catch (nc ← bind_new_context namingContext c; mret (Some nc))
    (λ e, if is_already_bound e then Some (obj2 ← resolve namingContext c; narrow_context obj2) else None).

Fixpoint drill_down (namingContext : context) (l : list component) : M exn ns_state (option context) :=
  match l with
  | [] => mret (Some namingContext)
  | c :: l' =>
      nc ← drill namingContext c;
      match nc with None => mret None | Some nc => drill_down nc l' end
  end.

(** The last step: what is bound already is overwritten. *)
Definition bind_last (nc : context) (n : component) (obj : Object) : M exn ns_state unit :=
  try_catch (bind nc n obj) (λ e, if is_already_bound e then Some (rebind nc n obj) else None).

(** [bindName2Object(namingContext,name,obj)].  The loop bound of an empty name is [ULONG_MAX],
    and its last component is not there. *)
Definition bindName2Object (namingContext : option context) (name : Name) (obj : Object) : M exn ns_state Z :=
  match namingContext with
  | None => mret 1%Z
  | Some nc =>
      try_catch
        (match rev name with
         | [] => abort
         | last :: front =>
             r ← drill_down nc (rev front);
             match r with
             | None => mret 2%Z
             | Some nc' =>
                 _ ← bind_last nc' last obj;
                 mret 0%Z
             end
         end)
        (λ _, Some (exit 1))
  end.

(** An exception never leaves it: the program exits. *)
Lemma bind_never_throws nc name obj s e s' : bindName2Object nc name obj s ≠ Throw e s'.
Proof.
  unfold bindName2Object. destruct nc as [nc|]; [|done]. unfold try_catch at 1. by destruct (match rev name with _ => _ end s).
Qed.
End binding.

(** ** What a registration does *)

(** The Naming Service as its specification has it: a context binds names to objects, among them
    other contexts; a new context is empty; a bound name raises [AlreadyBound]; [rebind] replaces
    an object, and refuses to replace a context. *)
Class NamingLaws `{NO : NamingOps} := {
  binding : ns_state → context → component → option Object;
  context_object : context → Object;
  as_context : Object → option context;
  as_context_object c : as_context (context_object c) = Some c;
  as_context_inv o c : as_context o = Some c → o = context_object c;
  narrow_law o s : narrow_context o s = Ret (as_context o) s;
  resolve_bound nc n s o : binding s nc n = Some o → resolve nc n s = Ret o s;
  new_context_bound nc n s o : binding s nc n = Some o → bind_new_context nc n s = Throw AlreadyBound s;
  new_context_free nc n s :
    binding s nc n = None → ∃ c s', bind_new_context nc n s = Ret c s' ∧
      binding s' nc n = Some (context_object c) ∧ (∀ m, binding s' c m = None) ∧
      ∀ nc' n' o, binding s nc' n' = Some o → binding s' nc' n' = Some o;
  bind_bound nc n obj s o : binding s nc n = Some o → bind nc n obj s = Throw AlreadyBound s;
  bind_free nc n obj s :
    binding s nc n = None → ∃ s', bind nc n obj s = Ret tt s' ∧ binding s' nc n = Some obj ∧
      ∀ nc' n', (nc', n') ≠ (nc, n) → binding s' nc' n' = binding s nc' n';
  rebind_object nc n obj s o :
    binding s nc n = Some o → as_context o = None →
    ∃ s', rebind nc n obj s = Ret tt s' ∧ binding s' nc n = Some obj ∧
      ∀ nc' n', (nc', n') ≠ (nc, n) → binding s' nc' n' = binding s nc' n';
  rebind_context nc n obj s o :
    binding s nc n = Some o → as_context o ≠ None → ∃ e, rebind nc n obj s = Throw e s }.

Section registration.
Context `{NL : NamingLaws}.

(** Where the contexts of a name lead: to a context, to a component that is not bound, or to one
    that is bound to an object. *)
Inductive follow (s : ns_state) : context → list component → option (option context) → Prop :=
| follow_nil nc : follow s nc [] (Some (Some nc))
| follow_missing nc n l : binding s nc n = None → follow s nc (n :: l) (Some None)
| follow_blocked nc n l o : binding s nc n = Some o → as_context o = None → follow s nc (n :: l) None
| follow_cons nc n l c r :
    binding s nc n = Some (context_object c) → follow s c l r → follow s nc (n :: l) r.

Definition keeps (s s' : ns_state) : Prop :=
  ∀ nc n o, binding s nc n = Some o → binding s' nc n = Some o.

Lemma keeps_refl s : keeps s s.
Proof. intros nc n o Ho. exact Ho. Qed.
Lemma keeps_trans s1 s2 s3 : keeps s1 s2 → keeps s2 s3 → keeps s1 s3.
Proof. unfold keeps. eauto. Qed.

Lemma follow_keeps s s' nc l c : keeps s s' → follow s nc l (Some (Some c)) → follow s' nc l (Some (Some c)).
Proof.
  intros K Hf. remember (Some (Some c)) as r eqn:Er. revert Er.
  induction Hf as [| | |nc n l c0 r E _ IH]; intros; simplify_eq; [constructor|].
  econstructor; [by apply K|by apply IH].
Qed.

(** Binding an object where no context is bound changes no way. *)
Lemma follow_other s s' c n nc l d :
  (∀ nc' n', (nc', n') ≠ (c, n) → binding s' nc' n' = binding s nc' n') →
  (binding s c n ≫= as_context) = None →
  follow s nc l (Some (Some d)) → follow s' nc l (Some (Some d)).
Proof.
  intros K Hn Hf. remember (Some (Some d)) as r eqn:Er. revert Er.
  induction Hf as [| | |nc m l c0 r E _ IH]; intros; simplify_eq; [constructor|].
  econstructor; [rewrite K; [done|]|by apply IH]. intros [= -> ->]. rewrite E in Hn. cbn in Hn.
  by rewrite as_context_object in Hn.
Qed.

(** A step down creates a context that is not there. *)
Lemma drill_free nc n s : binding s nc n = None →
  ∃ c s', drill nc n s = Ret (Some c) s' ∧ keeps s s' ∧ binding s' nc n = Some (context_object c) ∧
    ∀ m, binding s' c m = None.
Proof.
  intros (c & s' & E & H1 & H2 & H3)%new_context_free. exists c, s'.
  unfold drill, try_catch, mbind, M_bind. by rewrite E.
Qed.

Lemma drill_bound nc n s o : binding s nc n = Some o → drill nc n s = Ret (as_context o) s.
Proof.
  intros E. unfold drill, try_catch, mbind, M_bind. rewrite (new_context_bound _ _ _ _ E).
  unfold is_already_bound, AlreadyBound. rewrite String.eqb_refl. by rewrite (resolve_bound _ _ _ _ E), narrow_law.
Qed.

(** The way below an empty context is created. *)
Lemma drill_new l : ∀ nc s, (∀ m, binding s nc m = None) →
  ∃ c s', drill_down nc l s = Ret (Some c) s' ∧ keeps s s' ∧ follow s' nc l (Some (Some c)) ∧
    ∀ m, binding s' c m = None.
Proof.
  induction l as [|n l IH]; intros nc s He; [exists nc, s; split_and!; [done|apply keeps_refl|constructor|done]|].
  destruct (drill_free nc n s (He n)) as (c1 & s1 & E1 & K1 & B1 & F1).
  destruct (IH c1 s1 F1) as (c & s' & E & K & W & F). exists c, s'. cbn [drill_down].
  rewrite (bind_Ret _ _ _ _ _ E1). split_and!; try done; [by eapply keeps_trans|].
  econstructor; [by apply K|done].
Qed.

Lemma drill_down_spec nc l s r : follow s nc l r →
  match r with
  | None => ∃ s', drill_down nc l s = Ret None s' ∧ keeps s s'
  | Some o => ∃ c s', drill_down nc l s = Ret (Some c) s' ∧ keeps s s' ∧ follow s' nc l (Some (Some c)) ∧
      match o with Some c0 => c = c0 ∧ s' = s | None => ∀ m, binding s' c m = None end
  end.
Proof.
  induction 1 as [nc|nc n l E|nc n l o E Ho|nc n l c r E Hf IH].
  - exists nc, s. split_and!; [done|apply keeps_refl|constructor|done|done].
  - destruct (drill_free nc n s E) as (c1 & s1 & E1 & K1 & B1 & F1).
    destruct (drill_new l c1 s1 F1) as (c & s' & E' & K & W & F). exists c, s'. cbn [drill_down].
    rewrite (bind_Ret _ _ _ _ _ E1). split_and!; try done; [by eapply keeps_trans|].
    econstructor; [by apply K|done].
  - exists s. cbn [drill_down]. rewrite (bind_Ret _ _ _ _ _ (drill_bound _ _ _ _ E)), Ho. split; [done|apply keeps_refl].
  - assert (Es : drill nc n s = Ret (Some c) s) by by rewrite (drill_bound _ _ _ _ E), as_context_object.
    destruct r as [o|]; cbn [drill_down]; rewrite (bind_Ret _ _ _ _ _ Es); [|done].
    destruct IH as (c' & s' & E' & K & W & F). exists c', s'. split_and!; try done.
    econstructor; [by apply K|done].
Qed.

(** The last step replaces an object, and fails on a context. *)
Lemma bind_last_free nc n obj s : (binding s nc n ≫= as_context) = None →
  ∃ s', bind_last nc n obj s = Ret tt s' ∧ binding s' nc n = Some obj ∧
    ∀ nc' n', (nc', n') ≠ (nc, n) → binding s' nc' n' = binding s nc' n'.
Proof.
  intros Ho. unfold bind_last, try_catch. destruct (binding s nc n) as [o|] eqn:E; cbn in Ho.
  - rewrite (bind_bound _ _ _ _ _ E). unfold is_already_bound, AlreadyBound. rewrite String.eqb_refl.
    by apply (rebind_object _ _ _ _ _ E).
  - destruct (bind_free nc n obj s E) as (s' & -> & K). by exists s'.
Qed.

Lemma bind_last_context nc n obj s c :
  (binding s nc n ≫= as_context) = Some c → ∃ e, bind_last nc n obj s = Throw e s.
Proof.
  unfold bind_last, try_catch. destruct (binding s nc n) as [o|] eqn:E; cbn; [intros Ho|done].
  rewrite (bind_bound _ _ _ _ _ E). unfold is_already_bound, AlreadyBound. rewrite String.eqb_refl.
  apply (rebind_context _ _ _ _ _ E). congruence.
Qed.

Lemma bind_after_drill root front last obj s r s' : drill_down root front s = Ret r s' →
  bindName2Object (Some root) (front ++ [last]) obj s =
    match r with
    | None => Ret 2%Z s'
    | Some c => match bind_last c last obj s' with
                | Ret _ s2 => Ret 0%Z s2 | Throw _ s2 => Exited 1 s2
                | Exited n s2 => Exited n s2 | Aborted s2 => Aborted s2
                end
    end.
Proof.
  intros E. unfold bindName2Object. rewrite rev_app_distr. cbn [rev app]. rewrite rev_involutive.
  unfold try_catch, mbind, M_bind. rewrite E. destruct r as [c|]; [|done]. by destruct (bind_last c last obj s').
Qed.

(** The name leads to the object. *)
Lemma bind_returns root front last obj s o :
  follow s root front (Some o) → (o ≫= λ c, binding s c last) ≫= as_context = None →
  ∃ c s', bindName2Object (Some root) (front ++ [last]) obj s = Ret 0%Z s' ∧
    follow s' root front (Some (Some c)) ∧ binding s' c last = Some obj ∧
    ∀ nc n o', (nc, n) ≠ (c, last) → binding s nc n = Some o' → binding s' nc n = Some o'.
Proof.
  intros Hf Hn. destruct (drill_down_spec _ _ _ _ Hf) as (c & s' & E & K & W & F).
  assert (Hb : binding s' c last = o ≫= λ c, binding s c last).
  { destruct o as [c0|]; cbn; [by destruct F as [-> ->]|apply F]. }
  rewrite <- Hb in Hn. destruct (bind_last_free c last obj s' Hn) as (s2 & E2 & B & O).
  exists c, s2. rewrite (bind_after_drill _ _ _ _ _ _ _ E), E2. split_and!; try done; [by eapply follow_other|].
  intros nc n o' Hne Ho'. rewrite O by done. by apply K.
Qed.

(** C25: registration.  Let the contexts of a name lead somewhere from the root.  If a component is
    bound to an object that is not a context, [bindName2Object] returns 2 and unbinds nothing.  If
    the name itself is bound to a context, the program exits with 1.  Otherwise it returns 0, the
    contexts that were missing are there, the name leads to the object, and every other binding
    is as it was. *)
Theorem bind_registers root front last obj s r :
  follow s root front r →
  let m := bindName2Object (Some root) (front ++ [last]) obj s in
  match r with
  | None => ∃ s', m = Ret 2%Z s' ∧ keeps s s'
  | Some o =>
      let bound := o ≫= λ c, binding s c last in
      if decide (is_Some (bound ≫= as_context)) then m = Exited 1 s
      else ∃ c s', m = Ret 0%Z s' ∧ follow s' root front (Some (Some c)) ∧ binding s' c last = Some obj ∧
        ∀ nc n o', (nc, n) ≠ (c, last) → binding s nc n = Some o' → binding s' nc n = Some o'
  end.
Proof.
  intros Hf. cbv zeta. pose proof (drill_down_spec _ _ _ _ Hf) as K. destruct r as [o|].
  2:{ destruct K as (s' & E & K). exists s'. by rewrite (bind_after_drill _ _ _ _ _ _ _ E). }
  destruct (decide _) as [[cc Hcc]|Hn%eq_None_not_Some]; [|by eapply bind_returns].
  destruct K as (c & s' & E & K & W & F). rewrite (bind_after_drill _ _ _ _ _ _ _ E).
  destruct o as [c0|]; [|done]. destruct F as [-> ->].
  by destruct (bind_last_context c0 last obj s cc Hcc) as (e & ->).
Qed.
End registration.

(** ** A Naming Service

    References of contexts are odd, the root is 0, and a new context has a number of its own. *)
Definition model_ns : Type := list (N * component * Object).

#[export] Instance component_eq_dec : EqDecision component.
Proof. solve_decision. Defined.

Definition ns_at (nc : N) (n : component) (e : N * component * Object) : bool := bool_decide (e.1 = (nc, n)).
Definition ns_find (s : model_ns) (nc : N) (n : component) : option Object := snd <$> find (ns_at nc n) s.
Definition ns_new (s : model_ns) (nc : N) : N := N.succ (foldr (λ e, N.max e.1.1) nc s).
Definition ns_context (c : N) : Object := obj (2 * c + 1).
Definition ns_as_context (o : N) : option N := if N.odd o then Some (N.div2 o) else None.

#[export] Instance model_NamingOps : NamingOps := {
  context := N;
  ns_state := model_ns;
  bind_new_context nc n s :=
    match ns_find s nc n with
    | Some _ => Throw AlreadyBound s
    | None => let c := ns_new s nc in Ret c ((nc, n, ns_context c) :: s)
    end;
  resolve nc n s := match ns_find s nc n with Some o => Ret o s | None => Throw (UserException "NotFound") s end;
  bind nc n o s := match ns_find s nc n with Some _ => Throw AlreadyBound s | None => Ret tt ((nc, n, o) :: s) end;
  rebind nc n o s :=
    match ns_find s nc n ≫= ns_as_context with
    | Some _ => Throw (UserException "NotFound") s
    | None => Ret tt ((nc, n, o) :: s)
    end;
  narrow_context o s := Ret (ns_as_context o) s }.

Lemma ns_find_eq nc n o s : ns_find ((nc, n, o) :: s) nc n = Some o.
Proof. unfold ns_find, ns_at. cbn. by rewrite bool_decide_true. Qed.
Lemma ns_find_ne nc n o s nc' n' : (nc', n') ≠ (nc, n) → ns_find ((nc, n, o) :: s) nc' n' = ns_find s nc' n'.
Proof. intros Hne. unfold ns_find. cbn. unfold ns_at at 1. cbn. rewrite bool_decide_false; [done|]. congruence. Qed.

Lemma ns_new_above s nc e : e ∈ s → (e.1.1 < ns_new s nc)%N.
Proof.
  unfold ns_new. induction s as [|e' s IH]; [by rewrite elem_of_nil|]. cbn [foldr].
  intros [->|Hin]%elem_of_cons; [lia|]. specialize (IH Hin). lia.
Qed.
Lemma ns_new_root s nc : (nc < ns_new s nc)%N.
Proof. unfold ns_new. induction s as [|e' s IH]; cbn [foldr]; lia. Qed.

Lemma ns_find_new s nc m : ns_find s (ns_new s nc) m = None.
Proof.
  unfold ns_find. destruct (find _ s) as [e|] eqn:E; [|done]. apply find_some in E as [Hin He].
  apply bool_decide_eq_true in He. apply list_elem_of_In in Hin. pose proof (ns_new_above s nc e Hin) as Hlt.
  rewrite He in Hlt. cbn in Hlt. lia.
Qed.

Lemma ns_as_context_inv (o c : N) : ns_as_context o = Some c → o = ns_context c.
Proof.
  unfold ns_as_context, ns_context, obj. destruct (N.odd o) eqn:E; [|done]. intros [= <-].
  rewrite (N.div2_odd o) at 1. by rewrite E.
Qed.

#[refine, export] Instance model_NamingLaws : NamingLaws := {
  binding := ns_find; context_object := ns_context; as_context := ns_as_context }.
Proof.
  - intros c. unfold ns_as_context, ns_context, obj. rewrite N.odd_odd. by destruct c.
  - apply ns_as_context_inv.
  - done.
  - intros nc n s o. cbn. by intros ->.
  - intros nc n s o. cbn. by intros ->.
  - intros nc n s E. cbn. rewrite E. do 2 eexists. split; [done|]. split; [apply ns_find_eq|]. split.
    + intros m. rewrite ns_find_ne, ns_find_new; [done|]. pose proof (ns_new_root s nc). intros [=]. lia.
    + intros nc' n' o Ho. rewrite ns_find_ne; [done|]. congruence.
  - intros nc n o s o'. cbn. by intros ->.
  - intros nc n o s E. cbn. rewrite E. eexists. split; [done|]. split; [apply ns_find_eq|]. apply ns_find_ne.
  - intros nc n o s o' E Ho. cbn. rewrite E. cbn. rewrite Ho. eexists.
    split; [done|]. split; [apply ns_find_eq|]. apply ns_find_ne.
  - intros nc n o s o' E Ho. cbn. rewrite E. cbn. destruct (ns_as_context o'); [by eexists|done].
Defined.

(** A factory takes the place of the one before it, below a context that is there and one that is
    not. *)
Definition sample_ns : model_ns := [(0%N, mkComponent "apps" "ctx", ns_context 1)].

Lemma bind_registers_witness :
  follow sample_ns (0%N : context) [mkComponent "apps" "ctx"; mkComponent "events" ""] (Some None) ∧
  ∃ c s', bindName2Object (Some (0%N : context))
      [mkComponent "apps" "ctx"; mkComponent "events" ""; mkComponent "EventChannelFactory" ""] (obj 8) sample_ns = Ret 0%Z s' ∧
    binding s' c (mkComponent "EventChannelFactory" "") = Some (obj 8).
Proof.
  assert (Hf : follow sample_ns (0%N : context) [mkComponent "apps" "ctx"; mkComponent "events" ""] (Some None)).
  { apply (follow_cons (NL := model_NamingLaws) _ _ _ _ 1%N); [reflexivity|]. by apply follow_missing. }
  split; [exact Hf|].
  pose proof (bind_registers _ _ (mkComponent "EventChannelFactory" "") (obj 8) _ _ Hf) as K.
  cbn [mbind option_bind] in K. rewrite decide_False in K by (by intros [? ?]).
  destruct K as (c & s' & K1 & _ & K2 & _). by exists c, s'.
Defined.
