(* ===== verification/IteratorSupport.v ===== *)
(** * IteratorSupport: garbage collected servants (src/IteratorSupport.h, src/IteratorSupport.cc)

    A servant locator keeps a table of servants by object id.  A request takes a reference to its
    servant for as long as it runs; the request [destroy] takes the reference of the table
    instead.  A thread sweeps the table every second and drops the servants that were not used for
    their time to live.

    Reference counts decide when a servant is deleted, so they are the state that matters: [step]
    is what the ORB, the clients and the collector can do in any order, and the invariant counts
    the references. *)

From S2P Require Import Prelude.

Local Open Scope Z_scope.
Local Open Scope list_scope.

(** [GCServantLocator::ServantEntry] *)
Record ServantEntry := mkEntry {
  servant : Z;          (* its address *)
  ttl : Z;
  destroy_op : string;
  last_access : Z }.

Definition ObjectId : Type := N.
Definition ServantMap : Type := list (ObjectId * ServantEntry).

(** [activeMap_], and the reference counts of the servants that exist. *)
Record locator := mkLocator { activeMap : ServantMap; counts : gmap Z Z }.

Fixpoint map_lookup (oid : ObjectId) (m : ServantMap) : option ServantEntry :=
  match m with
  | [] => None
  | (k, e) :: m' => if (k =? oid)%N then Some e else map_lookup oid m'
  end.
Fixpoint map_remove (oid : ObjectId) (m : ServantMap) : ServantMap :=
  match m with
  | [] => []
  | (k, e) :: m' => if (k =? oid)%N then m' else (k, e) :: map_remove oid m'
  end.
Fixpoint map_update (oid : ObjectId) (e : ServantEntry) (m : ServantMap) : ServantMap :=
  match m with
  | [] => []
  | (k, x) :: m' => if (k =? oid)%N then (k, e) :: m' else (k, x) :: map_update oid e m'
  end.

(** [_add_ref()] and [_remove_ref()] of a servant that exists; the last reference deletes it.
    [None]: the servant was deleted before. *)
Definition servant_add_ref (a : Z) (c : gmap Z Z) : option (gmap Z Z) :=
  match c !! a with Some n => Some (<[a := n + 1]> c) | None => None end.
Definition servant_remove_ref (a : Z) (c : gmap Z Z) : option (gmap Z Z) :=
  match c !! a with
  | Some n => Some (if n =? 1 then delete a c else <[a := n - 1]> c)
  | None => None
  end.

(** [preinvoke(oid,_,operation,_)] at [now]: the servant, or [OBJECT_NOT_EXIST] ([inl tt]).
    [None] is the use of a deleted servant. *)
Definition preinvoke (oid : ObjectId) (operation : string) (now : Z) (s : locator)
    : option ((unit + Z) * locator) :=
  match map_lookup oid (activeMap s) with
  | None => Some (inl tt, s)
  | Some e =>
      if String.eqb (destroy_op e) operation
      then Some (inr (servant e), mkLocator (map_remove oid (activeMap s)) (counts s))
      else
        match servant_add_ref (servant e) (counts s) with
        | None => None
        | Some c =>
            Some (inr (servant e),
                  mkLocator (map_update oid (mkEntry (servant e) (ttl e) (destroy_op e) now) (activeMap s)) c)
        end
  end.

(** [postinvoke(_,_,_,_,the_servant)] *)
Definition postinvoke (the_servant : Z) (s : locator) : option locator :=
  match servant_remove_ref the_servant (counts s) with
  | None => None
  | Some c => Some (mkLocator (activeMap s) c)
  end.

(** [register_servant(oid,servant,ttl,destroy)] at [now]; [inl tt] is [ObjectAlreadyActive]. *)
Definition register_servant (oid : ObjectId) (a t : Z) (destroy : string) (now : Z) (s : locator)
    : option (unit + locator) :=
  match map_lookup oid (activeMap s) with
  | Some _ => Some (inl tt)
  | None =>
      match servant_add_ref a (counts s) with
      | None => None
      | Some c => Some (inr (mkLocator ((oid, mkEntry a t destroy now) :: activeMap s) c))
      end
  end.

(** [gc_sweep()]: [time oid] is the time that is read at the entry of [oid]. *)
Definition expired (now : Z) (e : ServantEntry) : bool := ttl e <? now - last_access e.

Fixpoint sweep_entries (time : ObjectId → Z) (m : ServantMap) (c : gmap Z Z) : option (ServantMap * gmap Z Z) :=
  match m with
  | [] => Some ([], c)
  | (oid, e) :: m' =>
      if expired (time oid) e then
        match servant_remove_ref (servant e) c with
        | None => None
        | Some c' => sweep_entries time m' c'
        end
      else
        match sweep_entries time m' c with
        | None => None
        | Some (r, c') => Some ((oid, e) :: r, c')
        end
  end.

Definition gc_sweep (time : ObjectId → Z) (s : locator) : option locator :=
  match sweep_entries time (activeMap s) (counts s) with
  | None => None
  | Some (m, c) => Some (mkLocator m c)
  end.

(** [~GCServantLocator()] *)
Fixpoint release_all (m : ServantMap) (c : gmap Z Z) : option (gmap Z Z) :=
  match m with
  | [] => Some c
  | (_, e) :: m' => match servant_remove_ref (servant e) c with None => None | Some c' => release_all m' c' end
  end.

(** ** The collector: class [GCThread]

    [contexts_] holds the addresses of the locators, each added by its constructor and released by
    its destructor; a locator that exists has its table in [tables]. *)
Definition addContext (context : Z) (contexts : list Z) : list Z := contexts ++ [context].
Definition releaseContext (context : Z) (contexts : list Z) : list Z :=
  List.filter (λ c, negb (c =? context)) contexts.

(** [GCThread::sweep()]: [None] is the use of a locator or of a servant that was deleted. *)
Fixpoint thread_sweep (time : Z → ObjectId → Z) (contexts : list Z) (tables : gmap Z ServantMap) (c : gmap Z Z)
    : option (gmap Z ServantMap * gmap Z Z) :=
  match contexts with
  | [] => Some (tables, c)
  | x :: contexts' =>
      match tables !! x with
      | None => None
      | Some m =>
          match sweep_entries (time x) m c with
          | None => None
          | Some (m', c') => thread_sweep time contexts' (<[x := m']> tables) c'
          end
      end
  end.

(** [GCServantLocator()] and [~GCServantLocator()], which drops the references of its table. *)
Definition new_locator (x : Z) (contexts : list Z) (tables : gmap Z ServantMap) : list Z * gmap Z ServantMap :=
  (addContext x contexts, <[x := []]> tables).
Definition delete_locator (x : Z) (contexts : list Z) (tables : gmap Z ServantMap) (c : gmap Z Z)
    : option (list Z * gmap Z ServantMap * gmap Z Z) :=
  match tables !! x with
  | None => None
  | Some m =>
      match release_all m c with
      | None => None
      | Some c' => Some (releaseContext x contexts, delete x tables, c')
      end
  end.

(** The collector only knows locators that exist. *)
Definition alive (contexts : list Z) (tables : gmap Z ServantMap) : Prop :=
  ∀ x, x ∈ contexts → is_Some (tables !! x).

Lemma new_locator_alive x contexts tables :
  alive contexts tables → alive (new_locator x contexts tables).1 (new_locator x contexts tables).2.
Proof.
  intros Ha y [Hy| ->%list_elem_of_singleton]%elem_of_app; cbn [snd new_locator]; apply lookup_insert_is_Some';
    [right; by apply Ha|by left].
Qed.

Lemma delete_locator_alive x contexts tables c contexts' tables' c' :
  alive contexts tables → delete_locator x contexts tables c = Some (contexts', tables', c') → alive contexts' tables'.
Proof.
  unfold delete_locator. intros Ha. destruct (tables !! x); [|done]. destruct (release_all _ c); [|done].
  intros [= <- <- <-] y Hy%list_elem_of_In%filter_In. destruct Hy as [Hy%list_elem_of_In Hne].
  rewrite lookup_delete_ne; [by apply Ha|]. intros ->. by rewrite Z.eqb_refl in Hne.
Qed.

Lemma thread_sweep_one time x m c tables :
  tables !! x = Some m →
  thread_sweep time [x] tables c =
    match gc_sweep (time x) (mkLocator m c) with
    | None => None
    | Some s => Some (<[x := activeMap s]> tables, counts s)
    end.
Proof. intros E. simpl. rewrite E. unfold gc_sweep. simpl. by destruct (sweep_entries _ m c) as [[]|]. Qed.

(** A new servant has one reference, that of its creator. *)
Definition new_servant (a : Z) (s : locator) : locator := mkLocator (activeMap s) (<[a := 1]> (counts s)).

(** [activateGCObject(poa,servant,ttl,destroy)]: the POA makes up the object id. *)
Definition activateGCObject (oid : ObjectId) (a t : Z) (destroy : string) (now : Z) (s : locator)
    : option (unit + locator) := register_servant oid a t destroy now s.

(** ** What can happen

    [refs]: the references that are not in the table, of requests that run and of creators. *)
Record system := mkSystem { sys : locator; refs : list Z }.

Inductive step : system → system → Prop :=
| step_create a s r :
    counts s !! a = None → step (mkSystem s r) (mkSystem (new_servant a s) (a :: r))
| step_register oid a t d now s s' r :
    a ∈ r → activateGCObject oid a t d now s = Some (inr s') → step (mkSystem s r) (mkSystem s' r)
| step_release a s s' r1 r2 :
    postinvoke a s = Some s' → step (mkSystem s (r1 ++ a :: r2)) (mkSystem s' (r1 ++ r2))
| step_invoke oid op now a s s' r :
    preinvoke oid op now s = Some (inr a, s') → step (mkSystem s r) (mkSystem s' (a :: r))
| step_sweep time s s' r :
    gc_sweep time s = Some s' → step (mkSystem s r) (mkSystem s' r).

Inductive reachable : system → Prop :=
| reach_start : reachable (mkSystem (mkLocator [] ∅) [])
| reach_step s s' : reachable s → step s s' → reachable s'.

(** ** The invariant *)

Definition in_table (a : Z) (m : ServantMap) : nat := length (List.filter (λ x, servant x.2 =? a) m).
Definition in_refs (a : Z) (r : list Z) : nat := length (List.filter (λ x, x =? a) r).

(** A servant exists as long as it has references, and its count is their number. *)
Definition counted (s : locator) (r : list Z) : Prop :=
  ∀ a, counts s !! a =
    (let n := (in_table a (activeMap s) + in_refs a r)%nat in
     if (n =? 0)%nat then None else Some (Z.of_nat n)).

Lemma counted_get s r a n :
  counted s r → (in_table a (activeMap s) + in_refs a r)%nat = S n → counts s !! a = Some (Z.of_nat (S n)).
Proof. intros Hc Hn. rewrite (Hc a). cbv zeta. by rewrite Hn. Qed.

Lemma counted_ext m m' r r' c :
  counted (mkLocator m c) r → (∀ b, in_table b m' + in_refs b r' = in_table b m + in_refs b r)%nat →
  counted (mkLocator m' c) r'.
Proof. intros Hc Hn b. cbn [counts activeMap]. cbv zeta. rewrite Hn. apply (Hc b). Qed.

(** The count changes as the references do. *)
Lemma counted_add m m' r r' a c :
  counted (mkLocator m c) r →
  (0 < in_table a m + in_refs a r)%nat →
  (∀ b, in_table b m' + in_refs b r' = (if Z.eqb b a then 1 else 0) + (in_table b m + in_refs b r))%nat →
  ∃ c', servant_add_ref a c = Some c' ∧ counted (mkLocator m' c') r'.
Proof.
  intros Hc Hp Hn. destruct (in_table a m + in_refs a r)%nat as [|n] eqn:E; [lia|].
  pose proof (counted_get _ _ _ _ Hc E) as Hg. cbn [counts] in Hg. unfold servant_add_ref. rewrite Hg.
  eexists. split; [done|]. intros b. cbn [counts activeMap]. cbv zeta. rewrite Hn.
  destruct (Z.eqb_spec b a) as [Hb|Hb]; [subst b|].
  - rewrite lookup_insert_eq, E. simpl. f_equal. lia.
  - rewrite lookup_insert_ne by done. apply (Hc b).
Qed.

Lemma counted_remove m m' r r' a c :
  counted (mkLocator m c) r →
  (∀ b, in_table b m + in_refs b r = (if Z.eqb b a then 1 else 0) + (in_table b m' + in_refs b r'))%nat →
  ∃ c', servant_remove_ref a c = Some c' ∧ counted (mkLocator m' c') r'.
Proof.
  intros Hc Hn. pose proof (Hn a) as Ha. rewrite Z.eqb_refl in Ha.
  pose proof (counted_get _ _ _ _ Hc Ha) as Hg. cbn [counts] in Hg. unfold servant_remove_ref. rewrite Hg.
  eexists. split; [done|]. intros b. cbn [counts activeMap]. cbv zeta. specialize (Hc b). specialize (Hn b).
  cbn [counts activeMap] in Hc. cbv zeta in Hc. rewrite Hn in Hc.
  destruct (Z.eqb_spec b a) as [Hb|Hb]; [subst b|].
  - destruct (in_table a m' + in_refs a r')%nat as [|n].
    + change (Z.of_nat 1 =? 1) with true. cbv iota. by rewrite lookup_delete_eq.
    + destruct (Z.eqb_spec (Z.of_nat (S (S n))) 1) as [E|_]; [lia|]. rewrite lookup_insert_eq.
      cbn [Nat.eqb]. f_equal. lia.
  - rewrite Nat.add_0_l in Hc. rewrite <- Hc.
    destruct (_ =? 1); [by rewrite lookup_delete_ne|by rewrite lookup_insert_ne].
Qed.

Lemma in_table_cons a oid e m : in_table a ((oid, e) :: m) = ((if Z.eqb a (servant e) then 1 else 0) + in_table a m)%nat.
Proof. unfold in_table. simpl. rewrite (Z.eqb_sym a). by destruct (servant e =? a). Qed.
Lemma in_refs_cons a b r : in_refs a (b :: r) = ((if Z.eqb a b then 1 else 0) + in_refs a r)%nat.
Proof. unfold in_refs. simpl. rewrite (Z.eqb_sym a). by destruct (b =? a). Qed.
Lemma in_refs_app a r1 r2 : in_refs a (r1 ++ r2) = (in_refs a r1 + in_refs a r2)%nat.
Proof. unfold in_refs. by rewrite List.filter_app, length_app. Qed.

Lemma in_refs_elem a r : a ∈ r → (0 < in_refs a r)%nat.
Proof.
  induction r as [|b r IH]; [by rewrite elem_of_nil|]. rewrite in_refs_cons.
  intros [->|Ha]%elem_of_cons; [rewrite Z.eqb_refl; lia|]. specialize (IH Ha). lia.
Qed.

Lemma in_table_remove oid e m a :
  map_lookup oid m = Some e →
  in_table a m = ((if Z.eqb a (servant e) then 1 else 0) + in_table a (map_remove oid m))%nat.
Proof.
  induction m as [|[k x] m IH]; [done|]. cbn [map_lookup map_remove]. rewrite in_table_cons.
  destruct (k =? oid)%N; [by intros [= ->]|]. intros He. rewrite in_table_cons, (IH He). lia.
Qed.

Lemma in_table_update oid e e' m a :
  map_lookup oid m = Some e → servant e' = servant e → in_table a (map_update oid e' m) = in_table a m.
Proof.
  intros He Hs. induction m as [|[k x] m IH]; [done|]. cbn [map_lookup map_update] in *.
  destruct (k =? oid)%N; rewrite !in_table_cons; [|by rewrite IH]. injection He as ->. by rewrite Hs.
Qed.

Lemma in_table_lookup oid e m : map_lookup oid m = Some e → (0 < in_table (servant e) m)%nat.
Proof. intros He. rewrite (in_table_remove _ _ _ _ He), Z.eqb_refl. lia. Qed.

(** The entries of [kept] are those of [m] in use; the others are released. *)
Definition kept (time : ObjectId → Z) (m : ServantMap) : ServantMap :=
  List.filter (λ x, negb (expired (time x.1) x.2)) m.

Lemma sweep_counted time m : ∀ c r m0,
  counted (mkLocator (m0 ++ m) c) r →
  ∃ c', sweep_entries time m c = Some (kept time m, c') ∧ counted (mkLocator (m0 ++ kept time m) c') r.
Proof.
  assert (Happ : ∀ a m1 m2, in_table a (m1 ++ m2) = (in_table a m1 + in_table a m2)%nat).
  { intros. unfold in_table. by rewrite List.filter_app, length_app. }
  induction m as [|[oid e] m IH]; intros c r m0 Hc; [by exists c|]. cbn [sweep_entries kept List.filter fst snd].
  destruct (expired (time oid) e); simpl.
  - destruct (counted_remove (m0 ++ (oid, e) :: m) (m0 ++ m) r r (servant e) c Hc) as (c1 & -> & Hc1).
    { intros b. rewrite !Happ, in_table_cons. lia. }
    by apply IH.
  - destruct (IH c r (m0 ++ [(oid, e)])) as (c' & -> & Hc'); [by rewrite <- app_assoc|].
    exists c'. split; [done|]. by rewrite <- app_assoc in Hc'.
Qed.

Lemma counted_reachable s : reachable s → counted (sys s) (refs s).
Proof.
  induction 1 as [|s s' _ IH Hs]; [by intros a|].
  destruct Hs as [a s r Ha|oid a t d now s s' r Ha Hr|a s s' r1 r2 Hp|oid op now a s s' r Hp|time s s' r Hg];
    cbn [sys refs] in *; destruct s as [m c].
  - intros b. cbn [counts activeMap new_servant]. cbv zeta. rewrite in_refs_cons.
    pose proof (IH a) as IHa. cbn [counts activeMap] in *. cbv zeta in IHa. rewrite Ha in IHa.
    destruct (in_table a m + in_refs a r)%nat eqn:E; [|done].
    destruct (Z.eqb_spec b a) as [Hb|Hb]; [subst b|].
    + rewrite lookup_insert_eq. replace (in_table a m + (1 + in_refs a r))%nat with 1%nat by lia. done.
    + rewrite lookup_insert_ne by done. apply (IH b).
  - unfold activateGCObject, register_servant in Hr. cbn [activeMap counts] in Hr.
    destruct (map_lookup oid m); [done|].
    destruct (counted_add m ((oid, mkEntry a t d now) :: m) r r a c IH) as (c' & E & Hc').
    { apply in_refs_elem in Ha. lia. }
    { intros b. rewrite in_table_cons. cbn [servant]. lia. }
    rewrite E in Hr. by injection Hr as <-.
  - unfold postinvoke in Hp. cbn [activeMap counts] in Hp.
    destruct (counted_remove m m (r1 ++ a :: r2) (r1 ++ r2) a c IH) as (c' & E & Hc').
    { intros b. rewrite !in_refs_app, in_refs_cons. lia. }
    rewrite E in Hp. by injection Hp as <-.
  - unfold preinvoke in Hp. cbn [activeMap counts] in Hp.
    destruct (map_lookup oid m) as [e|] eqn:He; [|done]. destruct (String.eqb _ _).
    + injection Hp as <- <-. apply (counted_ext _ _ _ _ _ IH).
      intros b. rewrite in_refs_cons, (in_table_remove _ _ _ b He). lia.
    + set (e' := mkEntry _ _ _ _) in Hp.
      destruct (counted_add m (map_update oid e' m) r (servant e :: r) (servant e) c IH) as (c' & E & Hc').
      { pose proof (in_table_lookup _ _ _ He). lia. }
      { intros b. rewrite in_refs_cons, (in_table_update _ e) by done. lia. }
      rewrite E in Hp. by injection Hp as <- <-.
  - unfold gc_sweep in Hg. cbn [activeMap counts] in Hg.
    destruct (sweep_counted time m c r [] IH) as (c' & E & Hc'). rewrite E in Hg. by injection Hg as <-.
Qed.

(** The object ids of the table are different. *)
Lemma map_lookup_none oid m : map_lookup oid m = None → oid ∉ m.*1.
Proof.
  induction m as [|[k x] m IH]; intros Hm; [apply not_elem_of_nil|]. cbn [map_lookup fmap list_fmap fst] in *.
  destruct (N.eqb_spec k oid); [done|]. apply not_elem_of_cons. split; [congruence|by apply IH].
Qed.

Lemma map_remove_sub oid m : (map_remove oid m).*1 ⊆ m.*1.
Proof.
  induction m as [|[k x] m IH]; [done|]. cbn [map_remove fmap list_fmap fst].
  destruct (k =? oid)%N; cbn [fmap list_fmap fst]; [by intros z Hz; right|by apply list_subseteq_skip].
Qed.

Lemma map_remove_nodup oid m : NoDup m.*1 → NoDup (map_remove oid m).*1.
Proof.
  induction m as [|[k x] m IH]; intros Hn; [done|]. cbn [map_remove fmap list_fmap fst] in *.
  apply NoDup_cons in Hn as [Hk Hn]. destruct (k =? oid)%N; [done|]. apply NoDup_cons. split; [|by apply IH].
  intros Hi. apply Hk. by eapply map_remove_sub.
Qed.

Lemma map_update_fst oid e m : (map_update oid e m).*1 = m.*1.
Proof.
  induction m as [|[k x] m IH]; [done|]. cbn [map_update fmap list_fmap fst].
  destruct (k =? oid)%N; cbn [fmap list_fmap fst]; [done|]. by f_equal.
Qed.

Lemma kept_fst time m : (kept time m).*1 ⊆ m.*1.
Proof.
  induction m as [|[k x] m IH]; [done|]. cbn [kept List.filter fst snd]. fold (kept time m).
  destruct (negb _); cbn [fmap list_fmap fst]; [by apply list_subseteq_skip|].
  intros z Hz. right. by apply IH.
Qed.

Lemma kept_nodup time m : NoDup m.*1 → NoDup (kept time m).*1.
Proof.
  induction m as [|[k x] m IH]; intros Hn; [done|]. cbn [kept List.filter fst snd]. fold (kept time m).
  cbn [fmap list_fmap fst] in Hn. apply NoDup_cons in Hn as [Hk Hn].
  destruct (negb _); [|by apply IH]. cbn [fmap list_fmap fst]. apply NoDup_cons. split; [|by apply IH].
  intros Hi. apply Hk. by eapply kept_fst.
Qed.

Lemma keys_reachable s : reachable s → NoDup (activeMap (sys s)).*1.
Proof.
  intros Hr. induction Hr as [|s s' Hr IH Hs]; [constructor|]. pose proof (counted_reachable _ Hr) as Hc. clear Hr.
  destruct Hs as [a s r Ha|oid a t d now s s' r Ha Hr|a s s' r1 r2 Hp|oid op now a s s' r Hp|time s s' r Hg];
    cbn [sys refs] in *; destruct s as [m c]; cbn [activeMap] in *.
  - done.
  - unfold activateGCObject, register_servant in Hr. cbn [activeMap counts] in Hr.
    destruct (map_lookup oid m) eqn:E; [done|]. destruct (servant_add_ref a c); [|done]. injection Hr as <-.
    cbn [activeMap fmap list_fmap fst]. apply NoDup_cons. split; [by apply map_lookup_none|done].
  - unfold postinvoke in Hp. destruct (servant_remove_ref _ _); [|done]. by injection Hp as <-.
  - unfold preinvoke in Hp. cbn [activeMap counts] in Hp. destruct (map_lookup oid m); [|done].
    destruct (String.eqb _ _); [injection Hp as <- <-; by apply map_remove_nodup|].
    destruct (servant_add_ref _ _); [|done]. injection Hp as <- <-. cbn [activeMap]. by rewrite map_update_fst.
  - unfold gc_sweep in Hg. cbn [activeMap counts] in Hg.
    destruct (sweep_counted time m c r [] Hc) as (c' & E & _). rewrite E in Hg. injection Hg as <-.
    by apply kept_nodup.
Qed.

Lemma kept_lookup time m oid :
  NoDup m.*1 →
  map_lookup oid (kept time m) =
    match map_lookup oid m with
    | Some e => if expired (time oid) e then None else Some e
    | None => None
    end.
Proof.
  induction m as [|[k x] m IH]; intros Hn; [done|]. cbn [kept List.filter fst snd]. fold (kept time m).
  cbn [fmap list_fmap fst] in Hn. apply NoDup_cons in Hn as [Hk Hn]. cbn [map_lookup].
  destruct (N.eqb_spec k oid) as [->|Hne].
  - destruct (expired (time oid) x); simpl; [|by rewrite N.eqb_refl].
    rewrite IH by done. destruct (map_lookup oid m) as [e|] eqn:E; [|done]. exfalso. apply Hk.
    clear -E. induction m as [|[k2 x2] m IH]; [done|]. cbn [map_lookup fmap list_fmap fst] in *.
    destruct (N.eqb_spec k2 oid); [subst; left|right; by apply IH].
  - destruct (negb _); simpl; [|by apply IH]. rewrite (proj2 (N.eqb_neq _ _) Hne). by apply IH.
Qed.

(** ** Properties *)

(** C13: reference counts.  Whatever the ORB, the clients and the collector do, in any order, the
    count of a servant is the number of its entries in the table and of the references that are
    held, and it exists as long as there are any.  So a request never gets a deleted servant, a
    reference that is held can be released, registered or dropped, and neither the collector nor
    the destructor of the locator releases a servant twice. *)
Theorem references_counted s :
  reachable s →
  counted (sys s) (refs s) ∧
  (∀ oid op now, preinvoke oid op now (sys s) ≠ None) ∧
  (∀ a, a ∈ refs s → postinvoke a (sys s) ≠ None ∧
     ∀ oid t d now, activateGCObject oid a t d now (sys s) ≠ None) ∧
  (∀ time, gc_sweep time (sys s) ≠ None) ∧
  release_all (activeMap (sys s)) (counts (sys s)) ≠ None.
Proof.
  intros Hr. pose proof (counted_reachable s Hr) as Hc. destruct s as [[m c] r]. cbn [sys refs activeMap counts] in *.
  split; [done|].
  assert (Hadd : ∀ a, (0 < in_table a m + in_refs a r)%nat → servant_add_ref a c ≠ None).
  { intros a Ha. destruct (counted_add m m r (a :: r) a c Hc Ha) as (c' & -> & _); [|done].
    intros b. rewrite in_refs_cons. lia. }
  split; [|split; [|split]].
  - intros oid op now. unfold preinvoke. cbn [activeMap counts].
    destruct (map_lookup oid m) as [e|] eqn:He; [|done]. destruct (String.eqb _ _); [done|].
    specialize (Hadd (servant e)). pose proof (in_table_lookup _ _ _ He).
    destruct (servant_add_ref _ _); [done|]. exfalso. by apply Hadd; [lia|].
  - intros a Ha. pose proof (in_refs_elem _ _ Ha) as Hp. split.
    + unfold postinvoke, servant_remove_ref. cbn [activeMap counts].
      destruct (in_table a m + in_refs a r)%nat as [|n] eqn:E; [lia|].
      pose proof (counted_get _ _ _ _ Hc E) as Hg. cbn [counts] in Hg. by rewrite Hg.
    + intros oid t d now. unfold activateGCObject, register_servant. cbn [activeMap counts].
      destruct (map_lookup oid m); [done|]. specialize (Hadd a). destruct (servant_add_ref a c); [done|].
      exfalso. by apply Hadd; [lia|].
  - intros time. unfold gc_sweep. cbn [activeMap counts].
    by destruct (sweep_counted time m c r [] Hc) as (c' & -> & _).
  - clear Hadd Hr. revert c Hc. induction m as [|[k e] m IH]; intros c Hc; [done|]. cbn [release_all].
    destruct (counted_remove ((k, e) :: m) m r r (servant e) c Hc) as (c' & -> & Hc'); [|by apply IH].
    intros b. rewrite in_table_cons. lia.
Qed.

(** C20: abandoned servants are collected.  A sweep at which the time since the last use of an
    entry is over its time to live removes the entry, and if nothing else refers to its servant
    the servant is deleted: requests for it then raise [OBJECT_NOT_EXIST].  Every other entry is
    kept, and its servant exists. *)
Theorem abandoned_collected s time oid e :
  reachable s → map_lookup oid (activeMap (sys s)) = Some e →
  time oid - last_access e > ttl e → in_table (servant e) (activeMap (sys s)) = 1%nat → servant e ∉ refs s →
  ∃ s', gc_sweep time (sys s) = Some s' ∧
    counts s' !! servant e = None ∧ (∀ op now, preinvoke oid op now s' = Some (inl tt, s')) ∧
    ∀ oid2 e2, map_lookup oid2 (activeMap (sys s)) = Some e2 → expired (time oid2) e2 = false →
      map_lookup oid2 (activeMap s') = Some e2 ∧ is_Some (counts s' !! servant e2).
Proof.
  intros Hr He Hold Hone Href. pose proof (counted_reachable s Hr) as Hc. pose proof (keys_reachable s Hr) as Hn.
  destruct s as [[m c] r]. cbn [sys refs activeMap counts] in *.
  destruct (sweep_counted time m c r [] Hc) as (c' & E & Hc'). cbn [app] in Hc'.
  assert (Hex : expired (time oid) e = true) by (unfold expired; lia).
  assert (Hk : map_lookup oid (kept time m) = None) by (by rewrite kept_lookup, He, Hex).
  exists (mkLocator (kept time m) c'). split; [unfold gc_sweep; cbn [activeMap counts]; by rewrite E|].
  cbn [activeMap counts]. split; [|split].
  - pose proof (Hc' (servant e)) as Hs. cbn [counts activeMap] in Hs. cbv zeta in Hs. rewrite Hs.
    assert (in_refs (servant e) r = 0%nat) as ->.
    { clear -Href. induction r as [|b r IH]; [done|]. apply not_elem_of_cons in Href as [Hb Hr].
      rewrite in_refs_cons. destruct (Z.eqb_spec (servant e) b); [done|]. by apply IH. }
    assert (in_table (servant e) (kept time m) = 0%nat) as ->; [|done].
    clear -He Hone Hex Hn. induction m as [|[k x] m IH]; [done|]. cbn [kept List.filter fst snd map_lookup] in *.
    fold (kept time m). rewrite in_table_cons in Hone. destruct (N.eqb_spec k oid) as [->|Hne].
    + injection He as ->. rewrite Hex. rewrite Z.eqb_refl in Hone. simpl.
      assert (Hz : in_table (servant e) m = 0%nat) by lia. clear -Hz.
      induction m as [|[k x] m IH]; [done|]. rewrite in_table_cons in Hz. cbn [kept List.filter fst snd]. fold (kept time m).
      destruct (negb _); [rewrite in_table_cons|]; rewrite ?IH; lia.
    + pose proof (in_table_lookup _ _ _ He). cbn [fmap list_fmap fst] in Hn. apply NoDup_cons in Hn as [_ Hn].
      destruct (Z.eqb_spec (servant e) (servant x)); [lia|].
      destruct (negb _); [rewrite in_table_cons; destruct (Z.eqb_spec (servant e) (servant x)); [done|]|]; by apply IH.
  - intros op now. unfold preinvoke. cbn [activeMap]. by rewrite Hk.
  - intros oid2 e2 He2 Hex2. assert (Hk2 : map_lookup oid2 (kept time m) = Some e2) by (by rewrite kept_lookup, He2, Hex2).
    split; [done|]. pose proof (Hc' (servant e2)) as Hs. cbn [counts activeMap] in Hs. cbv zeta in Hs. rewrite Hs.
    pose proof (in_table_lookup _ _ _ Hk2) as Hp. destruct (_ =? 0)%nat eqn:Ez; [|by eexists].
    apply Nat.eqb_eq in Ez. lia.
Qed.

(** An iterator that was registered, and that nobody uses. *)
Definition gc_sample : system :=
  mkSystem (mkLocator [(1%N, mkEntry 16 60 "destroy" 100)] {[16 := 1]}) [].

Lemma gc_sample_reachable : reachable gc_sample.
Proof.
  eapply reach_step; [eapply reach_step; [eapply reach_step; [apply reach_start|]|]|].
  - apply (step_create 16). reflexivity.
  - eapply (step_register 1%N 16 60 "destroy" 100); [left|reflexivity].
  - apply (step_release 16 _ _ [] []). reflexivity.
Qed.

Lemma references_counted_witness :
  reachable gc_sample ∧ counted (sys gc_sample) (refs gc_sample).
Proof. split; [exact gc_sample_reachable|]. exact (proj1 (references_counted gc_sample gc_sample_reachable)). Defined.

Lemma abandoned_collected_witness :
  reachable gc_sample ∧ ∃ s', gc_sweep (λ _, 161) (sys gc_sample) = Some s' ∧ counts s' !! 16 = None.
Proof.
  split; [exact gc_sample_reachable|].
  destruct (abandoned_collected gc_sample (λ _, 161) 1%N (mkEntry 16 60 "destroy" 100) gc_sample_reachable)
    as (s' & E & K & _); [reflexivity|reflexivity|reflexivity|apply not_elem_of_nil|].
  exists s'. split; [exact E|exact K].
Defined.
