(* ===== verification/GCThread.v ===== *)
(** * GCThread: the collector's thread (class GCThread of src/IteratorSupport.h, IteratorSupport.cc)

    One [GCThread] object exists at a time, made when it is needed; its thread sweeps the locators
    every second.  Locators add themselves when they are constructed and release themselves when
    they are deleted; [shutdown] ends the thread and deletes the object.  [instanceMutex_] protects
    the object, and is held by [shutdown] while it waits for the thread; [contextsMutex_] protects
    the list of locators, and is held by the thread for the whole of a sweep.

    What a sweep does with the table of a locator is [IteratorSupport.gc_sweep]; this file is about
    which locators and which objects the threads use, and when. *)

From S2P Require Import Prelude IteratorSupport.

Local Open Scope Z_scope.
Local Open Scope list_scope.

(** Where the thread of a [GCThread] is; it holds [contextsMutex_] while it sweeps. *)
Inductive collector_at :=
| Ready                        (* before [sweep()] *)
| Sweeping (todo : list Z)     (* in the loop *)
| Sleeping                     (* in [sleep(sleepTime_)], where it can be interrupted *)
| Finished.

Record GCThread := mkGC { contexts_ : list Z; thread_ : collector_at; interrupted : bool }.

(** [GCThread()] *)
Definition new_GCThread : GCThread := mkGC [] Ready false.

(** What a thread of the server is doing with the collector. *)
Inductive client :=
| Adding (x : Z)                  (* [GCServantLocator()], in [add(this)] *)
| AddingTo (x : Z) (i : Z)        (* it has the instance *)
| Releasing (x : Z)               (* [~GCServantLocator()], in [release(this)] *)
| ReleasingFrom (x : Z) (i : Z)
| Deleting (x : Z)                (* after the release: the table is given up *)
| Joining (i : Z).                (* [shutdown()], in [stop()] *)

(** [waiting]: [instanceMutex_] is held by a thread in [shutdown]. *)
Record gc_system := mkGcSystem {
  instance_ : option Z;
  objects : gmap Z GCThread;      (* the objects that exist, by their addresses *)
  waiting : bool;
  locators : gset Z;              (* the locators that exist *)
  threads : gmap Z client }.

(** [instance()], which makes an object at [fresh] if there is none; [None]: it blocks. *)
Definition instance (fresh : Z) (s : gc_system) : option (Z * gc_system) :=
  if waiting s then None
  else
    match instance_ s with
    | Some i => Some (i, s)
    | None =>
        Some (fresh, mkGcSystem (Some fresh) (<[fresh := new_GCThread]> (objects s)) (waiting s) (locators s) (threads s))
    end.

Definition set_thread (t : Z) (c : client) (s : gc_system) : gc_system :=
  mkGcSystem (instance_ s) (objects s) (waiting s) (locators s) (<[t := c]> (threads s)).
Definition end_thread (t : Z) (s : gc_system) : gc_system :=
  mkGcSystem (instance_ s) (objects s) (waiting s) (locators s) (delete t (threads s)).
Definition set_object (i : Z) (g : GCThread) (s : gc_system) : gc_system :=
  mkGcSystem (instance_ s) (<[i := g]> (objects s)) (waiting s) (locators s) (threads s).
Definition set_locators (l : gset Z) (s : gc_system) : gc_system :=
  mkGcSystem (instance_ s) (objects s) (waiting s) l (threads s).

(** [contextsMutex_] is free. *)
Definition mutex_free (g : GCThread) : bool := match thread_ g with Sweeping _ => false | _ => true end.

(** [addContext(x)] and [releaseContext(x)] of an object; [None]: they block. *)
Definition gc_add (x : Z) (g : GCThread) : option GCThread :=
  if mutex_free g then Some (mkGC (addContext x (contexts_ g)) (thread_ g) (interrupted g)) else None.
Definition gc_release (x : Z) (g : GCThread) : option GCThread :=
  if mutex_free g then Some (mkGC (releaseContext x (contexts_ g)) (thread_ g) (interrupted g)) else None.

(** The locator a thread works on. *)
Definition works_on (c : client) : option Z :=
  match c with
  | Adding x | AddingTo x _ | Releasing x | ReleasingFrom x _ | Deleting x => Some x
  | Joining _ => None
  end.
Definition busy (x : Z) (s : gc_system) : Prop := ∃ t c, threads s !! t = Some c ∧ works_on c = Some x.

(** [shutdown()], to the end of [interrupt()], and after [join()]. *)
Definition begin_shutdown (i : Z) (g : GCThread) (s : gc_system) : gc_system :=
  mkGcSystem (instance_ s) (<[i := mkGC (contexts_ g) (thread_ g) true]> (objects s)) true (locators s) (threads s).
Definition end_shutdown (i : Z) (s : gc_system) : gc_system :=
  mkGcSystem None (delete i (objects s)) false (locators s) (threads s).

(** The thread of an object: [run()]. *)
Inductive collector_step (s : gc_system) : gc_system → Prop :=
| collect_lock i g :
    objects s !! i = Some g → thread_ g = Ready →
    collector_step s (set_object i (mkGC (contexts_ g) (Sweeping (contexts_ g)) (interrupted g)) s)
| collect_next i g x todo :   (* [gc_sweep()] of [x] *)
    objects s !! i = Some g → thread_ g = Sweeping (x :: todo) → x ∈ locators s →
    collector_step s (set_object i (mkGC (contexts_ g) (Sweeping todo) (interrupted g)) s)
| collect_unlock i g :
    objects s !! i = Some g → thread_ g = Sweeping [] →
    collector_step s (set_object i (mkGC (contexts_ g) Sleeping (interrupted g)) s)
| collect_again i g :
    objects s !! i = Some g → thread_ g = Sleeping → interrupted g = false →
    collector_step s (set_object i (mkGC (contexts_ g) Ready (interrupted g)) s)
| collect_interrupted i g :
    objects s !! i = Some g → thread_ g = Sleeping → interrupted g = true →
    collector_step s (set_object i (mkGC (contexts_ g) Finished (interrupted g)) s).

(** The other threads.  A locator is deleted once, by one thread, after it was constructed. *)
Inductive client_step (s : gc_system) : gc_system → Prop :=
| client_new t x :
    threads s !! t = None → x ∉ locators s →
    client_step s (set_thread t (Adding x) (set_locators (locators s ∪ {[x]}) s))
| client_add_instance t x fresh i s' :
    threads s !! t = Some (Adding x) → objects s !! fresh = None → instance fresh s = Some (i, s') →
    client_step s (set_thread t (AddingTo x i) s')
| client_add t x i g g' :
    threads s !! t = Some (AddingTo x i) → objects s !! i = Some g → gc_add x g = Some g' →
    client_step s (end_thread t (set_object i g' s))
| client_delete t x :
    threads s !! t = None → x ∈ locators s → ¬ busy x s →
    client_step s (set_thread t (Releasing x) s)
| client_release_instance t x fresh i s' :
    threads s !! t = Some (Releasing x) → objects s !! fresh = None → instance fresh s = Some (i, s') →
    client_step s (set_thread t (ReleasingFrom x i) s')
| client_release t x i g g' :
    threads s !! t = Some (ReleasingFrom x i) → objects s !! i = Some g → gc_release x g = Some g' →
    client_step s (set_thread t (Deleting x) (set_object i g' s))
| client_deleted t x :
    threads s !! t = Some (Deleting x) →
    client_step s (end_thread t (set_locators (locators s ∖ {[x]}) s)).

Inductive shutdown_step (s : gc_system) : gc_system → Prop :=
| shutdown_begin t i g :
    threads s !! t = None → waiting s = false → instance_ s = Some i → objects s !! i = Some g →
    shutdown_step s (set_thread t (Joining i) (begin_shutdown i g s))
| shutdown_end t i g :
    threads s !! t = Some (Joining i) → objects s !! i = Some g → thread_ g = Finished →
    shutdown_step s (end_thread t (end_shutdown i s)).

(** [calls_shutdown]: whether any thread calls [shutdown()]; none of the program does. *)
Definition gc_step (calls_shutdown : bool) (s s' : gc_system) : Prop :=
  collector_step s s' ∨ client_step s s' ∨ (calls_shutdown = true ∧ shutdown_step s s').

Definition gc_start : gc_system := mkGcSystem None ∅ false ∅ ∅.

(** ** The invariant *)

Definition listed (x : Z) (s : gc_system) : Prop := ∃ i g, objects s !! i = Some g ∧ x ∈ contexts_ g.

Record gc_inv (s : gc_system) : Prop := {
  inv_instance i g : objects s !! i = Some g → instance_ s = Some i;
  inv_listed x : listed x s → x ∈ locators s ∧ ∀ t, threads s !! t ≠ Some (Deleting x);
  inv_todo i g todo : objects s !! i = Some g → thread_ g = Sweeping todo → todo ⊆ contexts_ g;
  inv_works t c x : threads s !! t = Some c → works_on c = Some x → x ∈ locators s;
  inv_alone t t' c c' x :
    threads s !! t = Some c → threads s !! t' = Some c' → works_on c = Some x → works_on c' = Some x → t = t';
  inv_joining t i : threads s !! t = Some (Joining i) →
    waiting s = true ∧ ∃ g, objects s !! i = Some g ∧ interrupted g = true;
  inv_waiters t t' i i' : threads s !! t = Some (Joining i) → threads s !! t' = Some (Joining i') → t = t' }.

(** A change of one object that keeps what the invariant says of it. *)
Lemma set_object_inv i g g' s :
  gc_inv s → objects s !! i = Some g → contexts_ g' ⊆ contexts_ g →
  (∀ todo, thread_ g' = Sweeping todo → todo ⊆ contexts_ g') → interrupted g' = interrupted g →
  gc_inv (set_object i g' s).
Proof.
  intros [I1 I2 I3 I4 I5 I6 I7] Hg Hc Ht Hi. split; try done.
  - intros j h. cbn. intros [[<- _]|[_ Hj]]%lookup_insert_Some; [by eapply I1|by eapply I1].
  - intros x (j & h & Hj & Hx). cbn in Hj. apply lookup_insert_Some in Hj as [[<- <-]|[_ Hj]]; apply I2; [exists i, g|by exists j, h].
    split; [done|by apply Hc].
  - intros j h todo Hj. cbn in Hj. apply lookup_insert_Some in Hj as [[<- <-]|[_ Hj]]; [apply Ht|by eapply I3].
  - intros t j K. destruct (I6 t j K) as (Hw & h & Hj & Hh). split; [done|].
    cbn. destruct (decide (i = j)) as [<-|Hne]; [|exists h; by rewrite lookup_insert_ne].
    exists g'. rewrite lookup_insert_eq. split; [done|]. rewrite Hi. congruence.
Qed.

Lemma collector_inv s s' : collector_step s s' → gc_inv s → gc_inv s'.
Proof.
  intros Hs HI. destruct Hs as [i g Hg Ht|i g x todo Hg Ht Hx|i g Hg Ht|i g Hg Ht Hi|i g Hg Ht Hi];
    apply (set_object_inv i g); try done; cbn.
  - by intros todo [= <-].
  - intros todo' [= <-] y Hy. eapply inv_todo; [done..|]. by right.
Qed.

Lemma end_thread_inv t s : gc_inv s → gc_inv (end_thread t s).
Proof.
  intros [I1 I2 I3 I4 I5 I6 I7]. split; try done; cbn.
  - intros x Hx. destruct (I2 x Hx) as [Hl Hn]. split; [done|]. intros t' [_ K]%lookup_delete_Some. by apply (Hn t').
  - intros t' c x [_ K]%lookup_delete_Some. by apply (I4 t').
  - intros t1 t2 c1 c2 x [_ K1]%lookup_delete_Some [_ K2]%lookup_delete_Some. by apply (I5 t1 t2 c1 c2 x).
  - intros t' i [_ K]%lookup_delete_Some. by apply (I6 t').
  - intros t1 t2 i1 i2 [_ K1]%lookup_delete_Some [_ K2]%lookup_delete_Some. by apply (I7 t1 t2 i1 i2).
Qed.

(** A thread goes on to work on [x], on which no other works. *)
Lemma set_thread_inv t c x s :
  gc_inv s → works_on c = Some x → x ∈ locators s →
  (∀ t' c', threads s !! t' = Some c' → works_on c' = Some x → t' = t) →
  (c = Deleting x → ¬ listed x s) → gc_inv (set_thread t c s).
Proof.
  intros [I1 I2 I3 I4 I5 I6 I7] Hw Hx Hu Hd. split; try done; cbn.
  - intros y Hy. destruct (I2 y Hy) as [Hl Hn]. split; [done|].
    intros t' [[_ ->]|[_ K]]%lookup_insert_Some; [|by apply (Hn t')]. injection Hw as ->. by apply Hd.
  - intros t' c' y [[_ <-]|[_ K]]%lookup_insert_Some; [|by apply (I4 t')]. rewrite Hw. by intros [= <-].
  - intros t1 t2 c1 c2 y [[<- <-]|[N1 K1]]%lookup_insert_Some [[<- <-]|[N2 K2]]%lookup_insert_Some W1 W2; [done|..].
    + symmetry. apply (Hu t2 c2); [done|congruence].
    + apply (Hu t1 c1); [done|congruence].
    + by apply (I5 t1 t2 c1 c2 y).
  - intros t' i [[_ ->]|[_ K]]%lookup_insert_Some; [done|by apply (I6 t')].
  - assert (Hj : ∀ i, c ≠ Joining i) by (by intros i ->).
    intros t1 t2 i1 i2 [[_ K1]|[_ K1]]%lookup_insert_Some [[_ K2]|[_ K2]]%lookup_insert_Some;
      [by destruct (Hj i1)|by destruct (Hj i1)|by destruct (Hj i2)|by apply (I7 t1 t2 i1 i2)].
Qed.

(** [instance()] may make an object, which has no locators. *)
Lemma instance_inv fresh s i s' :
  gc_inv s → objects s !! fresh = None → instance fresh s = Some (i, s') →
  gc_inv s' ∧ threads s' = threads s ∧ locators s' = locators s ∧ (∀ x, listed x s' → listed x s).
Proof.
  intros HI Hf. pose proof HI as [I1 I2 I3 I4 I5 I6 I7]. unfold instance. destruct (waiting s) eqn:Hw; [done|].
  destruct (instance_ s) as [j|] eqn:Hi; intros [= <- <-]; [done|].
  assert (He : ∀ j g, objects s !! j = Some g → False) by (intros j g K; specialize (I1 _ _ K); congruence).
  assert (Hl : ∀ x, ¬ listed x (mkGcSystem (Some fresh) (<[fresh := new_GCThread]> (objects s)) false (locators s) (threads s))).
  { intros x (j & g & K & Hx). cbn in K. apply lookup_insert_Some in K as [[_ <-]|[_ K]]; [by apply elem_of_nil in Hx|by apply (He j g)]. }
  split; [|split_and!; [done..|]; intros x K; by destruct (Hl x)].
  split; try done; cbn.
  - intros j g [[<- _]|[_ K]]%lookup_insert_Some; [done|by destruct (He j g)].
  - intros x K. by destruct (Hl x).
  - intros j g todo [[_ <-]|[_ K]]%lookup_insert_Some; [done|by destruct (He j g)].
  - intros t j K. by destruct (I6 t j K).
Qed.

Lemma set_locators_inv l s :
  gc_inv s → (∀ x, listed x s → x ∈ l) → (∀ t c x, threads s !! t = Some c → works_on c = Some x → x ∈ l) →
  gc_inv (set_locators l s).
Proof.
  intros [I1 I2 I3 I4 I5 I6 I7] Hl Ht. split; try done. intros x Hx. split; [by apply Hl|by apply I2].
Qed.

(** A locator joins the list of an object. *)
Lemma gc_add_inv t x i g g' s :
  gc_inv s → threads s !! t = Some (AddingTo x i) → objects s !! i = Some g → gc_add x g = Some g' →
  gc_inv (set_object i g' s).
Proof.
  intros [I1 I2 I3 I4 I5 I6 I7] Hc Hg. unfold gc_add, mutex_free. destruct (thread_ g) eqn:Hth; intros [= <-].
  all: split; try done; cbn.
  all: try by (intros j h [[<- _]|[_ Hj]]%lookup_insert_Some; by eapply I1).
  all: try by (intros j h todo [[_ <-]|[_ Hj]]%lookup_insert_Some; [done|by eapply I3]).
  all: try by (intros t' j K; destruct (I6 t' j K) as (Hw & h & Hj & Hh); split; [done|];
    destruct (decide (i = j)) as [<-|Hne]; [eexists; rewrite lookup_insert_eq; split; [done|]; cbn; congruence|
      exists h; by rewrite lookup_insert_ne]).
  all: intros y (j & h & K & Hy); cbn in K; apply lookup_insert_Some in K as [[<- <-]|[_ K]]; [|apply I2; by exists j, h].
  all: cbn in Hy; apply elem_of_app in Hy as [Hy| ->%list_elem_of_singleton]; [apply I2; by exists i, g|].
  all: split; [by eapply I4|intros t' K'; assert (t' = t) as ->; [by eapply I5|congruence]].
Qed.

(** What is released is in no list. *)
Lemma released_unlisted x i g g' s :
  gc_inv s → objects s !! i = Some g → gc_release x g = Some g' → ¬ listed x (set_object i g' s).
Proof.
  intros HI Hg. unfold gc_release. destruct (mutex_free g); intros [= <-] (j & h & K & Hx). cbn in K.
  apply lookup_insert_Some in K as [[_ <-]|[Hne K]].
  - cbn in Hx. apply list_elem_of_In, filter_In in Hx as [_ Hx]. by rewrite Z.eqb_refl in Hx.
  - pose proof (inv_instance s HI _ _ Hg). pose proof (inv_instance s HI _ _ K). congruence.
Qed.

Lemma gc_release_inv x i g g' s :
  gc_inv s → objects s !! i = Some g → gc_release x g = Some g' → gc_inv (set_object i g' s).
Proof.
  intros HI Hg E. unfold gc_release, mutex_free in E. destruct (thread_ g) eqn:Ht; try done; injection E as <-;
    (apply (set_object_inv i g); [done..| |by intros todo|done]);
    intros y Hy; cbn in Hy; apply list_elem_of_In, filter_In in Hy as [Hy _]; by apply list_elem_of_In.
Qed.

Lemma client_inv s s' : client_step s s' → gc_inv s → gc_inv s'.
Proof.
  intros Hs HI. destruct Hs as [t x Ht Hx|t x fresh i s' Ht Hf Hi|t x i g g' Ht Hg Ha|t x Ht Hx Hb
      |t x fresh i s' Ht Hf Hi|t x i g g' Ht Hg Ha|t x Ht].
  - apply (set_thread_inv _ _ x); try done; cbn.
    + apply set_locators_inv; [done|..].
      * intros y Hy. apply elem_of_union_l. by apply (inv_listed s HI).
      * intros t' c y Hc Hw. apply elem_of_union_l. by eapply (inv_works s HI).
    + set_solver.
    + intros t' c' Hc Hw. destruct Hx. by eapply (inv_works s HI).
  - destruct (instance_inv fresh s i s' HI Hf Hi) as (HI' & Et & El & Hl). apply (set_thread_inv _ _ x); try done.
    + rewrite El. by eapply (inv_works s HI).
    + intros t' c' Hc Hw. rewrite Et in Hc. by eapply (inv_alone s HI).
  - apply end_thread_inv. by eapply gc_add_inv.
  - apply (set_thread_inv _ _ x); try done. intros t' c' Hc Hw. destruct Hb. by exists t', c'.
  - destruct (instance_inv fresh s i s' HI Hf Hi) as (HI' & Et & El & Hl). apply (set_thread_inv _ _ x); try done.
    + rewrite El. by eapply (inv_works s HI).
    + intros t' c' Hc Hw. rewrite Et in Hc. by eapply (inv_alone s HI).
  - apply (set_thread_inv _ _ x); [by eapply gc_release_inv|done| | |].
    + by eapply (inv_works s HI).
    + intros t' c' Hc Hw. by eapply (inv_alone s HI).
    + intros _. by eapply released_unlisted.
  - assert (Hnl : ¬ listed x s) by (intros K; by apply (proj2 (inv_listed s HI x K) t)).
    pose proof (end_thread_inv t s HI) as HI'.
    change (end_thread t (set_locators (locators s ∖ {[x]}) s)) with (set_locators (locators s ∖ {[x]}) (end_thread t s)).
    apply set_locators_inv; [done|..].
    + intros y Hy. cbn. apply elem_of_difference. split; [by apply (inv_listed s HI)|].
      intros ->%elem_of_singleton. done.
    + intros t' c y Hc Hw. cbn in Hc |- *. apply lookup_delete_Some in Hc as [Hne Hc]. apply elem_of_difference. split; [by eapply (inv_works s HI)|].
      intros ->%elem_of_singleton. apply Hne. by eapply (inv_alone s HI).
Qed.

Lemma shutdown_inv s s' : shutdown_step s s' → gc_inv s → gc_inv s'.
Proof.
  intros Hs HI. pose proof HI as [I1 I2 I3 I4 I5 I6 I7]. destruct Hs as [t i g Ht Hw Hi Hg|t i g Ht Hg Hf].
  - assert (Hj : ∀ t' j, threads s !! t' ≠ Some (Joining j)) by (intros t' j K; destruct (I6 t' j K); congruence).
    split; cbn.
    + intros j h [[<- _]|[_ K]]%lookup_insert_Some; [done|by eapply I1].
    + intros x (j & h & K & Hx). cbn in K. destruct (I2 x) as [Hl Hn].
      { apply lookup_insert_Some in K as [[<- <-]|[_ K]]; [by exists i, g|by exists j, h]. }
      split; [done|]. intros t' [[_ K']|[_ K']]%lookup_insert_Some; [done|by apply (Hn t')].
    + intros j h todo [[<- <-]|[_ K]]%lookup_insert_Some; [by apply (I3 i g)|by apply (I3 j h)].
    + intros t' c x [[_ <-]|[_ K]]%lookup_insert_Some; [done|by apply (I4 t')].
    + intros t1 t2 c1 c2 x [[_ <-]|[_ K1]]%lookup_insert_Some [[_ <-]|[_ K2]]%lookup_insert_Some; try done.
      by apply (I5 t1 t2 c1 c2 x).
    + intros t' j [[_ [= <-]]|[_ K]]%lookup_insert_Some; [|by destruct (Hj t' j)].
      split; [done|]. eexists. by rewrite lookup_insert_eq.
    + intros t1 t2 i1 i2 [[<- _]|[_ K1]]%lookup_insert_Some [[<- _]|[_ K2]]%lookup_insert_Some;
        [done|by destruct (Hj t2 i2)|by destruct (Hj t1 i1)|by destruct (Hj t1 i1)].
  - assert (He : ∀ j h, delete i (objects s) !! j ≠ Some h).
    { intros j h [Hne K]%lookup_delete_Some. apply Hne. pose proof (I1 _ _ K). pose proof (I1 _ _ Hg). congruence. }
    split; cbn.
    + intros j h K. by destruct (He j h).
    + intros x (j & h & K & _). cbn in K. by destruct (He j h).
    + intros j h todo K. by destruct (He j h).
    + intros t' c x [_ K]%lookup_delete_Some. by apply (I4 t').
    + intros t1 t2 c1 c2 x [_ K1]%lookup_delete_Some [_ K2]%lookup_delete_Some. by apply (I5 t1 t2 c1 c2 x).
    + intros t' j [Hne K]%lookup_delete_Some. destruct Hne. by eapply I7.
    + intros t1 t2 i1 i2 [Hne K]%lookup_delete_Some. destruct Hne. by eapply I7.
Qed.

Lemma gc_start_inv : gc_inv gc_start.
Proof.
  split; try done.
  intros x (i & g & K & _). done.
Qed.

Lemma gc_reachable_inv b s : rtc (gc_step b) gc_start s → gc_inv s.
Proof.
  intros Hr. assert (K : ∀ s1 s2, rtc (gc_step b) s1 s2 → gc_inv s1 → gc_inv s2).
  { induction 1 as [|s1 s2 s3 [Hs|[Hs|[_ Hs]]] _ IH]; [done|..]; intros HI; apply IH.
    - by eapply collector_inv. - by eapply client_inv. - by eapply shutdown_inv. }
  apply (K _ _ Hr), gc_start_inv.
Qed.

(** ** What the threads can rely on *)

(** Without [shutdown], an object that a thread was given still exists. *)
Definition pointed (s : gc_system) : Prop :=
  (∀ i, instance_ s = Some i → is_Some (objects s !! i)) ∧
  (∀ t x i, threads s !! t = Some (AddingTo x i) ∨ threads s !! t = Some (ReleasingFrom x i) → is_Some (objects s !! i)).

Lemma set_object_pointed i g s : pointed s → pointed (set_object i g s).
Proof.
  intros [P1 P2]. split; cbn.
  - intros j Hj. apply lookup_insert_is_Some'. right. by apply P1.
  - intros t x j Hj. apply lookup_insert_is_Some'. right. by eapply P2.
Qed.
Lemma end_thread_pointed t s : pointed s → pointed (end_thread t s).
Proof. intros [P1 P2]. split; [done|]. cbn. intros t' x j [[_ K]%lookup_delete_Some|[_ K]%lookup_delete_Some]; eauto. Qed.
Lemma set_thread_pointed t c s :
  pointed s → (∀ x i, c = AddingTo x i ∨ c = ReleasingFrom x i → is_Some (objects s !! i)) → pointed (set_thread t c s).
Proof.
  intros [P1 P2] Hc. split; [done|]. cbn.
  intros t' x j [[[_ K]|[_ K]]%lookup_insert_Some|[[_ K]|[_ K]]%lookup_insert_Some]; eauto.
Qed.

Lemma instance_pointed fresh s i s' : pointed s → instance fresh s = Some (i, s') → pointed s' ∧ is_Some (objects s' !! i).
Proof.
  intros [P1 P2]. unfold instance. destruct (waiting s); [done|].
  destruct (instance_ s) as [j|] eqn:Hi; intros [= <- <-].
  - split; [|by apply P1]. split; [|done]. rewrite Hi. intros k [= <-]. by apply P1.
  - split; [|cbn; rewrite lookup_insert_eq; by eexists]. split; cbn.
    + intros k [= <-]. rewrite lookup_insert_eq. by eexists.
    + intros t x k Hk. apply lookup_insert_is_Some'. right. by eapply P2.
Qed.

Lemma gc_step_pointed s s' : gc_step false s s' → pointed s → pointed s'.
Proof.
  intros [Hs|[Hs|[? _]]] HP; [|destruct Hs as [t x Ht Hx|t x fresh i s' Ht Hf Hi|t x i g g' Ht Hg Ha|t x Ht Hx Hb
      |t x fresh i s' Ht Hf Hi|t x i g g' Ht Hg Ha|t x Ht]|done].
  - by destruct Hs; apply set_object_pointed.
  - apply set_thread_pointed; [done|]. by intros ? ? [?|?].
  - destruct (instance_pointed _ _ _ _ HP Hi) as [HP' Hi']. apply set_thread_pointed; [done|]. by intros ? ? [[= <- <-]|?].
  - by apply end_thread_pointed, set_object_pointed.
  - apply set_thread_pointed; [done|]. by intros ? ? [?|?].
  - destruct (instance_pointed _ _ _ _ HP Hi) as [HP' Hi']. apply set_thread_pointed; [done|]. by intros ? ? [?|[= <- <-]].
  - apply set_thread_pointed; [by apply set_object_pointed|]. by intros ? ? [?|?].
  - apply end_thread_pointed. by destruct HP.
Qed.

(** The thread of an object comes to the end of its sweep, whatever the others do. *)
Lemma sweep_ends i todo : ∀ g s,
  gc_inv s → objects s !! i = Some g → thread_ g = Sweeping todo →
  ∃ s', rtc collector_step s s' ∧ threads s' = threads s ∧ objects s' !! i = Some (mkGC (contexts_ g) Sleeping (interrupted g)).
Proof.
  induction todo as [|x todo IH]; intros g s HI Hg Ht.
  - eexists. split; [by eapply rtc_once, collect_unlock|]. cbn. by rewrite lookup_insert_eq.
  - assert (Hx : x ∈ locators s).
    { apply (inv_listed s HI x). exists i, g. split; [done|]. apply (inv_todo s HI i g (x :: todo) Hg Ht). by left. }
    pose proof (collect_next s i g x todo Hg Ht Hx) as Hs.
    destruct (IH (mkGC (contexts_ g) (Sweeping todo) (interrupted g)) (set_object i (mkGC (contexts_ g) (Sweeping todo) (interrupted g)) s))
      as (s' & Hr & Ht' & Hg'); [by eapply collector_inv|cbn; by rewrite lookup_insert_eq|done|].
    exists s'. split; [by eapply rtc_l|]. by rewrite Ht'.
Qed.

(** The thread of an object that was interrupted ends. *)
Lemma interrupted_ends i g s :
  gc_inv s → objects s !! i = Some g → interrupted g = true →
  ∃ s' g', rtc collector_step s s' ∧ threads s' = threads s ∧ objects s' !! i = Some g' ∧ thread_ g' = Finished.
Proof.
  intros HI Hg Hb.
  assert (Hsleep : ∀ s1, threads s1 = threads s → objects s1 !! i = Some (mkGC (contexts_ g) Sleeping (interrupted g)) →
    ∃ s' g', rtc collector_step s1 s' ∧ threads s' = threads s ∧ objects s' !! i = Some g' ∧ thread_ g' = Finished).
  { intros s1 Hts Hg1. eexists _, _. split; [by eapply rtc_once, collect_interrupted|].
    cbn. by rewrite lookup_insert_eq. }
  assert (Hsweep : ∀ s1 todo, threads s1 = threads s → gc_inv s1 →
    objects s1 !! i = Some (mkGC (contexts_ g) (Sweeping todo) (interrupted g)) →
    ∃ s' g', rtc collector_step s1 s' ∧ threads s' = threads s ∧ objects s' !! i = Some g' ∧ thread_ g' = Finished).
  { intros s1 todo Hts HI1 Hg1. destruct (sweep_ends i todo _ s1 HI1 Hg1 eq_refl) as (s2 & R2 & T2 & G2).
    destruct (Hsleep s2) as (s3 & g3 & R3 & K); [congruence|done|]. exists s3, g3. split; [by etransitivity|done]. }
  destruct g as [cs th b], th as [|todo| |]; cbn [contexts_ thread_ interrupted] in *.
  - pose proof (collect_lock s i _ Hg eq_refl) as Hs. cbn in Hs.
    destruct (Hsweep (set_object i (mkGC cs (Sweeping cs) b) s) cs eq_refl (collector_inv _ _ Hs HI)) as (s3 & g3 & R3 & K); [cbn; by rewrite lookup_insert_eq|].
    exists s3, g3. split; [by eapply rtc_l|done].
  - by apply (Hsweep s todo).
  - by apply Hsleep.
  - by exists s, (mkGC cs Finished b).
Qed.

(** C30: the collector.  Whatever the threads do, and in any order: the collector only sweeps
    locators that exist and that were not released, so that a destructor rightly gives up its table
    without a lock; a thread in [shutdown], which holds the lock that every new use of the collector
    needs, waits only for the collector, which ends without the others; a thread that waits for the
    list of locators waits only for the end of a sweep; and as long as no thread calls [shutdown],
    the object that [instance] returned is there when it is used. *)
Theorem collector_safe b s :
  rtc (gc_step b) gc_start s →
  (∀ i g x todo, objects s !! i = Some g → thread_ g = Sweeping (x :: todo) →
     x ∈ locators s ∧ ∀ t, threads s !! t ≠ Some (Deleting x)) ∧
  (∀ t i, threads s !! t = Some (Joining i) →
     ∃ s1 s2, rtc collector_step s s1 ∧ shutdown_step s1 s2 ∧ threads s2 = delete t (threads s) ∧
       waiting s2 = false ∧ objects s2 = ∅) ∧
  (∀ i g, objects s !! i = Some g → mutex_free g = false →
     ∃ s1 g1, rtc collector_step s s1 ∧ threads s1 = threads s ∧ objects s1 !! i = Some g1 ∧ mutex_free g1 = true) ∧
  (b = false → pointed s).
Proof.
  intros Hr. pose proof (gc_reachable_inv b s Hr) as HI. split_and!.
  - intros i g x todo Hg Ht. apply (inv_listed s HI). exists i, g. split; [done|].
    apply (inv_todo s HI i g (x :: todo) Hg Ht). by left.
  - intros t i Ht. destruct (inv_joining s HI t i Ht) as (_ & g & Hg & Hb).
    destruct (interrupted_ends i g s HI Hg Hb) as (s1 & g1 & R1 & T1 & G1 & F1).
    exists s1, (end_thread t (end_shutdown i s1)). rewrite <- T1 in Ht. split_and!; [done|by eapply shutdown_end| |done|].
    + cbn. by rewrite T1.
    + assert (HI1 : gc_inv s1) by (clear - HI R1; induction R1; [done|]; by eauto using collector_inv).
      cbn. apply map_eq. intros j. rewrite lookup_empty. apply eq_None_not_Some. intros [h [Hne K]%lookup_delete_Some].
      pose proof (inv_instance s1 HI1 _ _ K). pose proof (inv_instance s1 HI1 _ _ G1). congruence.
  - intros i g Hg Hf. unfold mutex_free in Hf. destruct (thread_ g) as [|todo| |] eqn:Ht; try done.
    destruct (sweep_ends i todo g s HI Hg Ht) as (s1 & R1 & T1 & G1). by eexists s1, _.
  - intros ->. clear HI. assert (K : ∀ s1 s2, rtc (gc_step false) s1 s2 → pointed s1 → pointed s2).
    { induction 1; eauto using gc_step_pointed. }
    apply (K _ _ Hr). split; [done|]. by intros t x i [?|?].
Qed.

(** Why [shutdown] must not meet other uses: a thread may be left with an object that was deleted. *)
Definition race1 : gc_system := set_thread 1 (Adding 1) (set_locators (∅ ∪ {[1]}) gc_start).
Definition race2 : gc_system :=
  set_thread 1 (AddingTo 1 7) (mkGcSystem (Some 7) (<[7 := new_GCThread]> ∅) false (locators race1) (threads race1)).
Definition race3 : gc_system := set_thread 2 (Joining 7) (begin_shutdown 7 new_GCThread race2).

Lemma race3_reachable : rtc (gc_step true) gc_start race3.
Proof.
  eapply rtc_l; [|eapply rtc_l; [|apply rtc_once]].
  - right. left. by apply (client_new gc_start 1 1).
  - right. left. by apply (client_add_instance race1 1 1 7 7).
  - right. right. split; [done|]. by apply (shutdown_begin race2 2 7 new_GCThread).
Qed.

Lemma shutdown_race : ∃ s, rtc (gc_step true) gc_start s ∧ ¬ pointed s.
Proof.
  pose proof race3_reachable as R. pose proof (gc_reachable_inv _ _ R) as HI.
  destruct (interrupted_ends 7 (mkGC [] Ready true) race3 HI eq_refl eq_refl) as (s2 & g & R2 & T2 & G2 & F2).
  exists (end_thread 2 (end_shutdown 7 s2)). split.
  - eapply rtc_r; [etransitivity; [exact R|eapply rtc_subrel; [|exact R2]; by left]|].
    right. right. split; [done|]. eapply shutdown_end; [|done..]. by rewrite T2.
  - intros [_ P]. destruct (P 1 1 7) as [h K]; [left; cbn; by rewrite T2|]. cbn in K. by rewrite lookup_delete_eq in K.
Qed.

(** ** Witness: a thread that waits for the collector *)

Lemma collector_safe_witness :
  ∃ s1 s2, rtc collector_step race3 s1 ∧ shutdown_step s1 s2 ∧ threads s2 = delete 2 (threads race3) ∧ objects s2 = ∅.
Proof.
  destruct (collector_safe true race3 race3_reachable) as (_ & K & _).
  destruct (K 2 7 eq_refl) as (s1 & s2 & R & S & T & _ & O). by exists s1, s2.
Defined.
