(* ===== verification/Iterator.v ===== *)
(** * Iterator: lists that are fetched in parts (src/Iterator.h, list_channels of
      src/EventChannelFactory.cc)

    A client gets the first items of a list, and an iterator for the others.  The iterator owns
    the list; it is a servant of the garbage collected POA ([IteratorSupport]). *)

From S2P Require Import Prelude Monad Corba ModelOrb EventChannel EventChannelFactory IteratorSupport.

Local Open Scope Z_scope.
Local Open Scope list_scope.

Section iterator.
Context {Item : Type} (new_item : Item).

(** [list_] and [offset_]; the offset is a [CORBA::ULong]. *)
Record Iterator := mkIterator { list_ : list Item; offset_ : Z }.

Definition len (l : list Item) : Z := Z.of_nat (length l).

(** [next_one(item)] *)
Definition next_one (it : Iterator) : (bool * Item) * Iterator :=
  if len (list_ it) <=? offset_ it then ((false, new_item), it)
  else ((true, default new_item (list_ it !! Z.to_nat (offset_ it))), mkIterator (list_ it) (u32 (offset_ it + 1))).

(** [next_n(how_many,bl)] *)
Definition next_n (how_many : Z) (it : Iterator) : (bool * list Item) * Iterator :=
  if len (list_ it) <=? offset_ it then ((false, []), it)
  else
    let how_many := Z.min how_many (u32 (len (list_ it) - offset_ it)) in
    ((true, take (Z.to_nat how_many) (drop (Z.to_nat (offset_ it)) (list_ it))),
     mkIterator (list_ it) (u32 (offset_ it + how_many))).

(** [Iterator::list(count,list,items)]: the first items, and the iterator unless there is nothing
    left. *)
Definition iterator_list (count : Z) (items : list Item) : list Item * option Iterator :=
  if len items <=? count then (items, None)
  else let (r, it) := next_n count (mkIterator items 0) in (r.2, Some it).

(** Its activation, at the address [a] with the object id [oid]: the iterator is created, put in
    the table for [ttl] seconds, and the reference of the creator released. *)
Definition activate_iterator (oid : ObjectId) (a ttl now : Z) (s : locator) : option (unit + locator) :=
  match activateGCObject oid a ttl "destroy" now (new_servant a s) with
  | Some (inr s1) => match postinvoke a s1 with Some s2 => Some (inr s2) | None => None end
  | r => r
  end.

(** A request of a client, and the items it brings. *)
Inductive ask := One | Many (how_many : Z).

Definition request (q : ask) (it : Iterator) : (bool * list Item) * Iterator :=
  match q with
  | One => let (r, it') := next_one it in ((r.1, if r.1 then [r.2] else []), it')
  | Many n => next_n n it
  end.

Fixpoint requests (l : list ask) (it : Iterator) : list (bool * list Item) * Iterator :=
  match l with
  | [] => ([], it)
  | q :: l' => let (r, it1) := request q it in let (rs, it2) := requests l' it1 in (r :: rs, it2)
  end.

(** ** What the client gets *)

Definition asked (q : ask) : Z := match q with One => 1 | Many n => n end.

Definition total_asked (l : list ask) : Z := foldr (λ q s, asked q + s) 0 l.

Lemma total_asked_cons q l : total_asked (q :: l) = asked q + total_asked l.
Proof. done. Qed.
Lemma total_asked_nonneg l : Forall (λ q, 0 ≤ asked q) l → 0 ≤ total_asked l.
Proof. induction 1; [done|]. rewrite total_asked_cons. lia. Qed.

(** The offset is in the list. *)
Definition wf_iter (it : Iterator) : Prop := 0 ≤ offset_ it ≤ len (list_ it) ∧ len (list_ it) < 4294967296.

Definition rest (it : Iterator) : list Item := drop (Z.to_nat (offset_ it)) (list_ it).

Lemma request_spec q it :
  wf_iter it → 0 ≤ asked q →
  let r := (request q it).1 in let it' := (request q it).2 in
  wf_iter it' ∧ list_ it' = list_ it ∧
  r.2 = take (Z.to_nat (asked q)) (rest it) ∧ rest it' = drop (Z.to_nat (asked q)) (rest it) ∧
  (r.1 = true ↔ rest it ≠ []).
Proof.
  destruct it as [l o]. intros [[Ho1 Ho2] Hl] Hq. unfold wf_iter, rest, len in *. cbn [list_ offset_] in *.
  assert (Hend : Z.of_nat (length l) ≤ o → drop (Z.to_nat o) l = []) by (intros; apply drop_ge; lia).
  assert (Hmore : o < Z.of_nat (length l) → drop (Z.to_nat o) l ≠ []).
  { intros Hlt E. apply (f_equal length) in E. rewrite length_drop in E. simpl in E. lia. }
  destruct q as [|n]; cbn [request asked next_one next_n list_ offset_] in *; unfold next_one, next_n, len; cbn [list_ offset_];
    destruct (Z.leb_spec (Z.of_nat (length l)) o) as [Hle|Hlt]; cbn [fst snd list_ offset_].
  - rewrite Hend by done. rewrite take_nil, drop_nil. by split_and!.
  - rewrite u32_id by lia. split_and!; [lia..|done| | |by split; [intros _; apply Hmore|]].
    + destruct (drop (Z.to_nat o) l) as [|x k] eqn:E; [by apply Hmore in Hlt|].
      rewrite <- (Nat.add_0_r (Z.to_nat o)), <- lookup_drop, E. done.
    + rewrite drop_drop. f_equal. lia.
  - rewrite Hend by done. rewrite take_nil, drop_nil. by split_and!.
  - rewrite (u32_id (_ - _)) by lia. rewrite u32_id by lia.
    assert (Htake : ∀ k : list Item, length k = Z.to_nat (Z.of_nat (length l) - o) →
      take (Z.to_nat (n `min` (Z.of_nat (length l) - o))) k = take (Z.to_nat n) k ∧
      drop (Z.to_nat (n `min` (Z.of_nat (length l) - o))) k = drop (Z.to_nat n) k).
    { intros k Hk. destruct (Z.min_spec n (Z.of_nat (length l) - o)) as [[_ ->]|[Hn ->]]; [done|].
      rewrite !take_ge, !drop_ge by lia. done. }
    destruct (Htake (drop (Z.to_nat o) l)) as [-> Hd]; [rewrite length_drop; lia|].
    split_and!; [lia..|done|done| |by split; [intros _; apply Hmore|]].
    rewrite <- Hd, drop_drop. f_equal. lia.
Qed.

Lemma requests_spec l : ∀ it,
  wf_iter it → Forall (λ q, 0 ≤ asked q) l →
  let n := Z.to_nat (total_asked l) in
  concat (requests l it).1.*2 = take n (rest it) ∧ rest (requests l it).2 = drop n (rest it) ∧
  wf_iter (requests l it).2.
Proof.
  induction l as [|q l IH]; intros it Hw Hl; cbn [requests].
  - cbn. by rewrite drop_0.
  - apply Forall_cons in Hl as [Hq Hl]. destruct (request_spec q it Hw Hq) as (K1 & _ & K3 & K4 & _).
    destruct (request q it) as [r it1]. cbn [fst snd] in *. specialize (IH it1 K1 Hl) as (I1 & I2 & I3).
    destruct (requests l it1) as [rs it2]. cbn [fst snd fmap list_fmap concat] in *.
    pose proof (total_asked_nonneg l Hl) as Hs.
    rewrite total_asked_cons, I1, I2, K3, K4, Z2Nat.inj_add by done. split_and!; [|by rewrite drop_drop|done].
    by rewrite take_take_drop.
Qed.

(** Fetching a list.  A client that asks for [count] items gets the first of them; then, with
    requests for one or several, always the next ones: together a prefix of the list, as long as
    it asked for, without gaps or repetitions.  A request answers [false], with no items, exactly
    when the list is exhausted; there is no iterator if the first answer had everything. *)
Theorem list_enumerates count items l :
  0 ≤ count → len items < 4294967296 → Forall (λ q, 0 ≤ asked q) l →
  match iterator_list count items with
  | (first, None) => first = items ∧ len items ≤ count
  | (first, Some it) =>
      let total := Z.to_nat (count + total_asked l) in
      first ++ concat (requests l it).1.*2 = take total items ∧
      ∀ q, 0 ≤ asked q → ((request q (requests l it).2).1.1 = true ↔ (total < length items)%nat)
  end.
Proof.
  intros Hc Hlen Hl. unfold iterator_list. destruct (Z.leb_spec (len items) count) as [Hle|Hlt]; [done|].
  assert (Hw : wf_iter (mkIterator items 0)) by (unfold wf_iter, len in *; cbn [list_ offset_]; lia).
  destruct (request_spec (Many count) (mkIterator items 0) Hw Hc) as (K1 & _ & K3 & K4 & _).
  cbn [request] in *. destruct (next_n count _) as [r it]. cbn [fst snd asked] in *.
  destruct (requests_spec l it K1 Hl) as (I1 & I2 & I3). cbv zeta.
  pose proof (total_asked_nonneg l Hl) as Hs.
  assert (E0 : rest (mkIterator items 0) = items) by done. rewrite E0 in *.
  rewrite Z2Nat.inj_add by done. rewrite I1, K3, K4. split.
  - by rewrite take_take_drop.
  - intros q Hq. destruct (request_spec q _ I3 Hq) as (_ & _ & _ & _ & K). rewrite K, I2, K4, drop_drop.
    split; intros H1.
    + destruct (decide (Z.to_nat count + Z.to_nat (total_asked l) < length items)%nat); [done|].
      exfalso. apply H1, drop_ge. lia.
    + intros E. apply (f_equal length) in E. rewrite length_drop in E. simpl in E. lia.
Qed.
End iterator.
Arguments Iterator : clear implicits.

(** [EventChannelFactory_i::list_channels(how_many,elist,eiter)] *)
Section list_channels.
Context `{OO : OrbOps} `{PM : !PoaManagerOps}.

Definition list_channels (how_many : Z) (f : EventChannelFactory_i)
    : list EventChannelInfo * option (Iterator EventChannelInfo) :=
  iterator_list how_many (store_list (f_objects f) (f_channels f)).
End list_channels.

Lemma list_enumerates_witness :
  Forall (λ q, 0 ≤ asked q) [One; Many 7] ∧
  match iterator_list 2 [10; 20; 30; 40; 50] with
  | (first, None) => False
  | (first, Some it) => first ++ concat (requests 0 [One; Many 7] it).1.*2 = [10; 20; 30; 40; 50]
  end.
Proof.
  assert (H : Forall (λ q, 0 ≤ asked q) [One; Many 7]).
  { constructor; [simpl; lia|]. constructor; [simpl; lia|constructor]. }
  split; [exact H|]. exact (proj1 (list_enumerates 0 2 [10; 20; 30; 40; 50] [One; Many 7] ltac:(lia) eq_refl H)).
Defined.
