(* ===== verification/Daemon.v ===== *)
(** * Daemon: running in the background (src/daemon.h, src/daemon_unix.h, src/daemon_unix.cc)

    The process forks; the parent waits on a pipe for the status it exits with, and the child goes
    on.  The exit handler removes the pidfile and tells the parent the status, unless
    [runningOk] told it before that all is well.

    The calls of the operating system take their results from [o_faults], call by call ([false]:
    the call fails); [fork] is modelled from the side of the child, with [waitForChild] for the
    parent. *)

From S2P Require Import Prelude Monad Stream.

Local Open Scope string_scope.
Local Open Scope Z_scope.
Local Open Scope list_scope.

(** [DaemonImpl]; the pipe is a part of [os]. *)
Record DaemonImpl := mkDaemon {
  _tracefile : option string;
  _foreground : bool;
  _pidfile : option string;
  _havePidfile : bool;
  _haveParent : bool;
  _haveSyslog : bool }.

(** [Daemon(argc,argv)] *)
Definition new_Daemon : DaemonImpl := mkDaemon None false None false false false.

Definition tracefile (val : string) (d : DaemonImpl) : DaemonImpl :=
  mkDaemon (Some val) (_foreground d) (_pidfile d) (_havePidfile d) (_haveParent d) (_haveSyslog d).
Definition foreground (val : bool) (d : DaemonImpl) : DaemonImpl :=
  mkDaemon (_tracefile d) val (_pidfile d) (_havePidfile d) (_haveParent d) (_haveSyslog d).
Definition pidfile (val : string) (d : DaemonImpl) : DaemonImpl :=
  mkDaemon (_tracefile d) (_foreground d)
    (Some (if head_is "/" val then val else "/var/run/" +:+ val)) (_havePidfile d) (_haveParent d) (_haveSyslog d).
Definition set_flags (file parent syslog : bool) (d : DaemonImpl) : DaemonImpl :=
  mkDaemon (_tracefile d) (_foreground d) (_pidfile d) file parent syslog.

(** What a name of a pidfile designates. *)
Inductive entry := Regular (contents : string) | NotRegular.

(** The answer of [kill(pid,0)]. *)
Inductive process_state := Running | NoProcess | KillFails.

Record os := mkOs {
  o_faults : list bool;
  o_files : gmap string entry;
  o_pid : Z;
  o_pipe : list Z;          (* the statuses written to the pipe *)
  o_handler : bool }.       (* the exit handler is registered *)

Definition D (A : Type) : Type := M Empty_set (DaemonImpl * os) A.

Section daemon.
Variable kill : Z → process_state.

(** Whether the next call succeeds. *)
Definition call : D bool := λ s,
  match o_faults s.2 with
  | [] => Ret true s
  | b :: l => Ret b (s.1, mkOs l (o_files s.2) (o_pid s.2) (o_pipe s.2) (o_handler s.2))
  end.
Definition updD (f : DaemonImpl → DaemonImpl) : D unit := modify (λ s, (f s.1, s.2)).
Definition set_files (f : gmap string entry → gmap string entry) : D unit :=
  modify (λ s, (s.1, mkOs (o_faults s.2) (f (o_files s.2)) (o_pid s.2) (o_pipe s.2) (o_handler s.2))).
Definition or_fail (ok : bool) : D unit := if ok then mret tt else exit (-1).

(** [notifyParent(status)] *)
Definition notifyParent (status : Z) : D unit :=
  modify (λ s, (s.1, mkOs (o_faults s.2) (o_files s.2) (o_pid s.2) (o_pipe s.2 ++ [status]) (o_handler s.2))).

(** [waitForChild()]: the status that comes through the pipe, or -1 when it is closed. *)
Definition waitForChild (pipe : list Z) : Z := match pipe with [] => -1 | status :: _ => status end.

(** [fork()], in the child. *)
Definition fork : D unit :=
  ok ← call; _ ← or_fail ok;        (* pipe *)
  ok ← call; _ ← or_fail ok;        (* fork *)
  _ ← updD (λ d, set_flags (_havePidfile d) true (_haveSyslog d) d);
  _ ← call;                         (* close: only reported *)
  ok ← call; or_fail ok.            (* setsid *)

(** [openFileFor(fd,filename,flags)]: [open], and [dup2] if that is another descriptor. *)
Definition openFileFor : D bool := ok ← call; if (ok : bool) then call else mret false.

(** [redirectStreamsTo(filename)] *)
Definition redirectStreamsTo : D unit :=
  ok ← openFileFor; _ ← or_fail ok;
  ok ← openFileFor; _ ← or_fail ok;
  ok ← openFileFor; or_fail ok.

(** [infile>>pidFromFile] *)
Definition read_pid (contents : string) : Z :=
  Z.max (-2147483648) (Z.min INT_MAX (atol contents)).

(** [checkPidfileOrShutdown()] *)
Definition checkPidfileOrShutdown : D unit :=
  d ← gets fst;
  match _pidfile d with
  | None => mret tt
  | Some name =>
      files ← gets (λ s, o_files s.2);
      ok ← call;                     (* stat, for a reason other than ENOENT *)
      _ ← or_fail ok;
      match files !! name with
      | Some NotRegular => exit (-1)
      | None => mret tt
      | Some (Regular contents) =>
          let pidFromFile := read_pid contents in
          if 0 <? pidFromFile then
            match kill pidFromFile with
            | Running => exit (-1)
            | KillFails => exit (-1)
            | NoProcess => mret tt
            end
          else mret tt
      end
  end.

(** [writePidfile()]: streams do not throw, so a file that cannot be opened is not noticed. *)
Definition writePidfile : D unit :=
  d ← gets fst;
  match _pidfile d with
  | None => mret tt
  | Some name =>
      ok ← call;
      pid ← gets (λ s, o_pid s.2);
      _ ← (if (ok : bool) then set_files (<[name := Regular (show_Z pid +:+ nl)]>) else mret tt);
      updD (λ d, set_flags true (_haveParent d) (_haveSyslog d) d)
  end.

(** [daemonize()] *)
Definition daemonize : D unit :=
  ok ← call; _ ← or_fail ok;         (* on_exit *)
  _ ← modify (λ s, (s.1, mkOs (o_faults s.2) (o_files s.2) (o_pid s.2) (o_pipe s.2) true));
  d ← gets fst;
  _ ← (if _foreground d then mret tt else fork);
  _ ← checkPidfileOrShutdown;
  _ ← writePidfile;
  ok ← call; _ ← or_fail ok;         (* chdir *)
  match _tracefile d with
  | Some (String _ _) => redirectStreamsTo
  | _ => updD (λ d, set_flags (_havePidfile d) (_haveParent d) true d)
  end.

(** [runningOk()] *)
Definition runningOk : D unit :=
  d ← gets fst;
  _ ← (if _haveParent d
       then _ ← updD (λ d, set_flags (_havePidfile d) false (_haveSyslog d) d); notifyParent 0
       else mret tt);
  if _haveSyslog d then redirectStreamsTo else mret tt.

(** [shutdown(status)] *)
Definition shutdown (status : Z) : D unit :=
  d ← gets fst;
  status ← match _havePidfile d, _pidfile d with
           | true, Some name =>
               files ← gets (λ s, o_files s.2);
               ok ← call;
               match (ok : bool), files !! name with
               | true, Some _ => _ ← set_files (delete name); mret status
               | _, _ => mret (-1)
               end
           | _, _ => mret status
           end;
  _ ← updD (set_flags false (_haveParent d) false);
  if _haveParent d
  then _ ← updD (set_flags false false false); notifyParent status
  else mret tt.

(** ** The life of the process

    [::exit(status)] runs the exit handler, [shutdown2] with [on_exit], [shutdown0] with
    [atexit]; the local variables of [main] stay.  A [return] of [main] destroys its [Daemon]
    first. *)

Variable have_on_exit : bool.

Definition at_exit (status : Z) : D unit :=
  s ← gets snd;
  if o_handler s then shutdown (if have_on_exit then status else 0) else mret tt.

(** What [main] does after [daemonize]. *)
Inductive main_end :=
| ExitEarly (status : Z)      (* ::exit before runningOk *)
| ReturnEarly (status : Z)    (* return before runningOk, after an exception *)
| Serves (status : Z).        (* runningOk, then the end *)

Definition finish (e : main_end) : D unit :=
  match e with
  | ExitEarly n => exit n
  | ReturnEarly n => _ ← shutdown 0; exit n
  | Serves n => _ ← runningOk; _ ← shutdown 0; exit n
  end.

(** The process, to its end. *)
Definition run (e : main_end) (s : DaemonImpl * os) : DaemonImpl * os :=
  match (_ ← daemonize; finish e) s with
  | Ret _ s' => s'
  | Exited n s' => final (at_exit n s')
  | Throw _ s' | Aborted s' => s'
  end.
End daemon.

(** ** What the parent is told *)

(** [spec P m Q X]: from a state with [P], [m] returns with [Q] or exits with [X]. *)
Definition spec {A} (P : DaemonImpl * os → Prop) (m : D A) (Q : A → DaemonImpl * os → Prop)
    (X : Z → DaemonImpl * os → Prop) : Prop :=
  ∀ s, P s → match m s with Ret a s' => Q a s' | Exited c s' => X c s' | _ => False end.

Lemma spec_ret {A} P (a : A) (Q : A → DaemonImpl * os → Prop) X : (∀ s, P s → Q a s) → spec P (mret a) Q X.
Proof. intros HQ s HP. by apply HQ. Qed.

Lemma spec_bind {A B} P (m : D A) Q (f : A → D B) R X :
  spec P m Q X → (∀ a, spec (Q a) (f a) R X) → spec P (x ← m; f x) R X.
Proof.
  intros Hm Hf s HP. specialize (Hm s HP). unfold mbind, M_bind.
  destruct (m s); [by apply Hf|done..].
Qed.

Lemma spec_gets {A B} P (g : DaemonImpl * os → A) (f : A → D B) R X :
  (∀ a, spec (λ s, P s ∧ g s = a) (f a) R X) → spec P (x ← gets g; f x) R X.
Proof. intros Hf s HP. by apply (Hf (g s)). Qed.

Lemma spec_pre {A} (P P' : DaemonImpl * os → Prop) (m : D A) Q X :
  (∀ s, P s → P' s) → spec P' m Q X → spec P m Q X.
Proof. intros HP Hm s K. by apply Hm, HP. Qed.

(** The pipe, whether there is a parent to tell, and whether the exit handler is registered. *)
Definition told (pipe : list Z) (parent handler : bool) (s : DaemonImpl * os) : Prop :=
  o_pipe s.2 = pipe ∧ _haveParent s.1 = parent ∧ o_handler s.2 = handler.

(** Computations that tell the parent nothing: they can exit with -1. *)
Definition silent {A} (m : D A) : Prop :=
  ∀ p b h, spec (told p b h) m (λ _, told p b h) (λ c s, c = -1 ∧ told p b h s).

Lemma silent_ret {A} (a : A) : silent (mret a).
Proof. intros p b h. by apply spec_ret. Qed.
Lemma silent_bind {A B} (m : D A) (f : A → D B) : silent m → (∀ a, silent (f a)) → silent (x ← m; f x).
Proof. intros Hm Hf p b h. eapply spec_bind; [apply Hm|intros a; apply Hf]. Qed.
Lemma silent_gets {A} (g : DaemonImpl * os → A) : silent (gets g).
Proof. by intros p b h s Hs. Qed.
Lemma silent_call : silent call.
Proof. intros p b h s Hs. unfold call. by destruct (o_faults s.2). Qed.
Lemma silent_exit {A} : silent (A := A) (exit (-1)).
Proof. by intros p b h s Hs. Qed.
Lemma silent_files f : silent (set_files f).
Proof. by intros p b h s Hs. Qed.
Lemma silent_fail ok : silent (or_fail ok).
Proof. destruct ok; [apply silent_ret|apply silent_exit]. Qed.
Lemma silent_upd f : (∀ d, _haveParent (f d) = _haveParent d) → silent (updD f).
Proof. intros Hf p b h s (K1 & K2 & K3). split_and!; [done| |done]. simpl. by rewrite Hf. Qed.

Create HintDb silent.
#[local] Hint Resolve silent_ret silent_gets silent_call silent_exit silent_files silent_fail : silent.

Ltac silence :=
  repeat first
    [ solve [eauto with silent]
    | apply silent_bind; [|intros ?]
    | match goal with
      | |- silent (match ?x with _ => _ end) => destruct x
      | |- silent (updD _) => apply silent_upd; by intros []
      end ].

Section parent.
Variable kill : Z → process_state.

Lemma silent_redirect : silent redirectStreamsTo.
Proof. unfold redirectStreamsTo, openFileFor. silence. Qed.
Lemma silent_check : silent (checkPidfileOrShutdown kill).
Proof. unfold checkPidfileOrShutdown. silence. Qed.
Lemma silent_write : silent writePidfile.
Proof. unfold writePidfile. silence. Qed.
#[local] Hint Resolve silent_redirect silent_check silent_write : silent.

Lemma fork_spec h :
  spec (told [] false h) fork (λ _, told [] true h) (λ c s, c = -1 ∧ o_pipe s.2 = [] ∧ o_handler s.2 = h).
Proof.
  assert (Hx : ∀ A (m : D A) b Q, silent m → (∀ a s, told [] b h s → Q a s) →
    spec (told [] b h) m Q (λ c s, c = -1 ∧ o_pipe s.2 = [] ∧ o_handler s.2 = h)).
  { intros A m b Q Hm HQ s Hs. specialize (Hm [] b h s Hs). destruct (m s); [by apply HQ|done| |done].
    destruct Hm as (-> & K1 & _ & K2). done. }
  unfold fork.
  eapply spec_bind; [apply (Hx _ _ _ (λ _, told [] false h)); [apply silent_call|done]|intros ok].
  eapply spec_bind; [apply (Hx _ _ _ (λ _, told [] false h)); [apply silent_fail|done]|intros ?].
  eapply spec_bind; [apply (Hx _ _ _ (λ _, told [] false h)); [apply silent_call|done]|intros ok2].
  eapply spec_bind; [apply (Hx _ _ _ (λ _, told [] false h)); [apply silent_fail|done]|intros ?].
  apply (spec_bind _ _ (λ _, told [] true h)); [by intros s (K1 & _ & K3)|intros ?].
  apply Hx; [|done]. silence.
Qed.

Lemma daemonize_spec d0 :
  spec (λ s, told [] false false s ∧ s.1 = d0) (daemonize kill)
    (λ _, told [] (negb (_foreground d0)) true)
    (λ c s, c = -1 ∧ o_pipe s.2 = [] ∧ (_foreground d0 = true → _haveParent s.1 = false)).
Proof.
  unfold daemonize.
  assert (Hx : ∀ A (m : D A), silent m → spec (told [] (negb (_foreground d0)) true) m
      (λ _, told [] (negb (_foreground d0)) true)
      (λ c s, c = -1 ∧ o_pipe s.2 = [] ∧ (_foreground d0 = true → _haveParent s.1 = false))).
  { intros A m Hm s Hs. specialize (Hm _ _ _ s Hs). destruct (m s); [done|done| |done].
    destruct Hm as (-> & K1 & K2 & _). split_and!; [done..|]. rewrite K2. by intros ->. }
  apply (spec_bind _ _ (λ _ s, told [] false false s ∧ s.1 = d0)).
  { intros s [Hs <-]. unfold call. by destruct (o_faults s.2). }
  intros ok. apply (spec_bind _ _ (λ _ s, told [] false false s ∧ s.1 = d0)).
  { intros s [(K1 & K2 & K3) <-]. by destruct ok. }
  intros ?. apply (spec_bind _ _ (λ _ s, told [] false true s ∧ s.1 = d0)).
  { by intros s [(K1 & K2 & _) <-]. }
  intros ?. apply spec_gets. intros d. apply (spec_bind _ _ (λ _ s, told [] (negb (_foreground d0)) true s ∧ d = d0)).
  { intros s [[Hs K1] K2]. assert (d = d0) as -> by congruence. destruct (_foreground d0); [by split|].
    pose proof (fork_spec true s Hs) as K. destruct (fork s); [by split|done| |done].
    by destruct K as (-> & K & _). }
  intros ?. apply (spec_pre _ (told [] (negb (_foreground d0)) true)); [by intros s [? _]|].
  apply Hx. silence.
Qed.

(** The exit handler tells the status, or -1 if the pidfile could not be removed. *)
Lemma shutdown_spec status p b h :
  spec (told p b h) (shutdown status)
    (λ _ s, told (o_pipe s.2) false h s ∧ (if b then ∃ st, o_pipe s.2 = p ++ [st] ∧ (st = status ∨ st = -1) else o_pipe s.2 = p))
    (λ _ _, False).
Proof.
  unfold shutdown. apply spec_gets. intros d.
  apply (spec_bind _ _ (λ st s, (told p b h s ∧ (st = status ∨ st = -1)) ∧ _haveParent d = b)).
  { intros s [(K1 & K2 & K3) <-]. unfold told.
    assert (Hend : ∀ st s', o_pipe s'.2 = p → _haveParent s'.1 = b → o_handler s'.2 = h → st = status ∨ st = -1 →
      ((o_pipe s'.2 = p ∧ _haveParent s'.1 = b ∧ o_handler s'.2 = h) ∧ (st = status ∨ st = -1)) ∧ _haveParent s.1 = b).
    { intros. by split_and!. }
    destruct (_havePidfile s.1); [|by apply Hend; auto]. destruct (_pidfile s.1) as [name|]; [|by apply Hend; auto].
    unfold gets, call, mbind, M_bind. destruct (o_faults s.2) as [|[] l]; [| |by apply Hend; auto];
      destruct (o_files s.2 !! name); by apply Hend; auto. }
  intros st s [[(K1 & K2 & K3) Hst] K4]. unfold updD, notifyParent, modify, mbind, M_bind. rewrite K4.
  destruct b; (split; [by split_and!|]); [|exact K1]. exists st. cbn [snd o_pipe]. by rewrite K1.
Qed.

Lemma running_spec b :
  spec (told [] b true) runningOk
    (λ _, told (if b then [0] else []) false true) (λ c, told (if b then [0] else []) false true).
Proof.
  unfold runningOk. apply spec_gets. intros d.
  apply (spec_bind _ _ (λ _, told (if b then [0] else []) false true)).
  { intros s [(K1 & K2 & K3) <-]. rewrite K2. destruct b; simpl; [|by split_and!].
    unfold told. simpl. by rewrite K1. }
  intros ? s Hs. destruct (_haveSyslog d); [|done].
  pose proof (silent_redirect _ _ _ s Hs) as K. destruct (redirectStreamsTo s); [done|done| |done].
  by destruct K as [_ K].
Qed.
End parent.

(** ** The messages of the ORB *)

Inductive priority := LOG_INFO | LOG_ERR.

(** The loop of [log]: [None] if it ends before the prefix does, or what follows the prefix.
    A [:] in the prefix matches any character. *)
Fixpoint match_prefix (m p : string) {struct p} : option string :=
  match p with
  | "" => Some m
  | String q p' =>
      match m with
      | "" => None
      | String c m' => if ceqb c q || ceqb q ":" then match_prefix m' p' else None
      end
  end.

(** [log(message)]: what is sent to syslog. *)
Definition log (message : string) : priority * string :=
  match match_prefix message "omniEvents: " with
  | Some rest =>
      match String.get 10 message with
      | Some c => if ceqb c "!" then (LOG_ERR, rest) else if ceqb c ":" then (LOG_INFO, rest) else (LOG_INFO, message)
      | None => (LOG_INFO, message)
      end
  | None => (LOG_INFO, message)
  end.

Lemma log_error s : log ("omniEvents! " +:+ s) = (LOG_ERR, s).
Proof. unfold log. reflexivity. Qed.
Lemma log_info s : log ("omniEvents: " +:+ s) = (LOG_INFO, s).
Proof. unfold log. reflexivity. Qed.

(** ** Properties *)

Section properties.
Variable kill : Z → process_state.

Lemma exit_told n s p b :
  told p b true s →
  if b then ∃ st, o_pipe (final (at_exit true n s)).2 = p ++ [st] ∧ (st = n ∨ st = -1)
  else o_pipe (final (at_exit true n s)).2 = p.
Proof.
  intros Hs. unfold at_exit, gets, mbind, M_bind. rewrite (proj2 (proj2 Hs)).
  pose proof (shutdown_spec n p b true s Hs) as Ksh. destruct (shutdown n s); [|done..]. exact (proj2 Ksh).
Qed.

Lemma process_unfold e s :
  run kill true e s =
    match daemonize kill s with
    | Ret _ s1 =>
        match finish e s1 with
        | Ret _ s' => s'
        | Exited n s' => final (at_exit true n s')
        | Throw _ s' | Aborted s' => s'
        end
    | Exited n s' => final (at_exit true n s')
    | Throw _ s' | Aborted s' => s'
    end.
Proof. unfold run, mbind, M_bind. by destruct (daemonize kill s). Qed.

(** What the parent is told.  The parent of a server in the foreground is told nothing.  In
    the background, a failure of [daemonize] after the fork is reported as -1.  Later the parent
    is told exactly once: 0 if the server comes to [runningOk], whatever happens then; the status
    of [::exit] if it exits before; but 0 if [main] returns a failure before, for the destructor
    of [Daemon] reports success.  (-1 replaces a status if the pidfile cannot be removed.) *)
Theorem parent_told d o e :
  _haveParent d = false → o_pipe o = [] → o_handler o = false →
  let s' := run kill true e (d, o) in
  match daemonize kill (d, o) with
  | Ret _ _ =>
      if _foreground d then o_pipe s'.2 = []
      else ∃ status, o_pipe s'.2 = [status] ∧ waitForChild (o_pipe s'.2) = status ∧
        match e with
        | Serves _ => status = 0
        | ExitEarly n => status = n ∨ status = -1
        | ReturnEarly _ => status = 0 ∨ status = -1
        end
  | Exited n s1 =>
      n = -1 ∧ if _haveParent s1.1 then (o_handler s1.2 = true → o_pipe s'.2 = [-1]) else o_pipe s'.2 = []
  | _ => False
  end.
Proof.
  intros Hp Hpipe Hh s'. pose proof (daemonize_spec kill d (d, o) (conj (conj Hpipe (conj Hp Hh)) eq_refl)) as K.
  pose proof exit_told as Hexit. unfold s'. rewrite process_unfold. clear s'.
  destruct (daemonize kill (d, o)) as [[] s1|?|c s1|?]; [|done| |done].
  - destruct e as [n|n|n]; cbn [finish].
    + change (exit n s1) with (Exited (E := Empty_set) (A := unit) n s1). cbv iota. specialize (Hexit n s1 _ _ K).
      destruct (_foreground d); cbn [negb] in *; [done|]. destruct Hexit as (st & -> & Hst). exists st. by split_and!.
    + pose proof (shutdown_spec 0 _ _ _ s1 K) as Ksh. unfold mbind, M_bind.
      destruct (shutdown 0 s1) as [[] s2|?|?|?]; [|done..]. destruct Ksh as [Kt Kp]. cbv iota.
      change (exit n s2) with (Exited (E := Empty_set) (A := unit) n s2). cbv iota.
      specialize (Hexit n s2 _ _ Kt). rewrite Hexit.
      destruct (_foreground d); cbn [negb] in *; [done|]. destruct Kp as (st & -> & Hst). exists st. by split_and!.
    + pose proof (running_spec _ s1 K) as Kr. unfold mbind, M_bind.
      destruct (runningOk s1) as [[] s2|?|c s2|?]; [|done| |done]; cbv iota.
      * pose proof (shutdown_spec 0 _ _ _ s2 Kr) as Ksh.
        destruct (shutdown 0 s2) as [[] s3|?|?|?]; [|done..]. destruct Ksh as [Kt Kp]. cbv iota.
        change (exit n s3) with (Exited (E := Empty_set) (A := unit) n s3). cbv iota.
        specialize (Hexit n s3 _ _ Kt). rewrite Hexit, Kp.
        destruct (_foreground d); cbn [negb]; [done|]. by exists 0.
      * specialize (Hexit c s2 _ _ Kr). rewrite Hexit.
        destruct (_foreground d); cbn [negb]; [done|]. by exists 0.
  - destruct K as (-> & Kp & _). split; [done|]. unfold at_exit, gets, mbind, M_bind.
    destruct (o_handler s1.2) eqn:Eh.
    + pose proof (shutdown_spec (-1) [] (_haveParent s1.1) true s1 (conj Kp (conj eq_refl Eh))) as Ksh.
      destruct (shutdown (-1) s1) as [[] s2|?|?|?]; [|done..]. destruct Ksh as [_ Kq]. cbn [final].
      destruct (_haveParent s1.1); [|done]. intros _. destruct Kq as (st & -> & [-> | ->]); done.
    + cbn [final mret M_ret]. by destruct (_haveParent s1.1).
Qed.

(** Reading a pid back from the pidfile. *)
Lemma read_pid_show pid : 0 ≤ pid ≤ INT_MAX → read_pid (show_Z pid) = pid.
Proof.
  intros Hp. unfold read_pid, INT_MAX in *. rewrite atol_show_Z by (unfold LONG_MIN, LONG_MAX; lia). lia.
Qed.

(** The pidfile of a server that runs is not touched, and the second server exits. *)
Lemma running_server_kept d o name contents :
  _pidfile d = Some name → o_files o !! name = Some (Regular contents) → 0 < read_pid contents →
  kill (read_pid contents) = Running → ∃ s', checkPidfileOrShutdown kill (d, o) = Exited (-1) s' ∧ o_files s'.2 = o_files o.
Proof.
  intros Hn Hf Hp Hk. unfold checkPidfileOrShutdown, gets, call, mbind, M_bind. cbn [fst snd]. rewrite Hn. cbn [fst snd].
  assert (Hlt : (0 <? read_pid contents) = true) by lia.
  destruct (o_faults o) as [|[] l]; cbn [fst snd or_fail mret M_ret o_files]; rewrite ?Hf, ?Hlt, ?Hk;
    eexists; (split; [reflexivity|reflexivity]).
Qed.
End properties.

Definition sample_daemon : DaemonImpl := pidfile "omniEvents.pid" new_Daemon.
Definition sample_os : os := mkOs [] ∅ 4711 [] false.

(** The pidfile is there while the server runs, and removed at its end. *)
Example sample_pidfile :
  match daemonize (λ _, NoProcess) (sample_daemon, sample_os) with
  | Ret _ s => o_files s.2 !! "/var/run/omniEvents.pid" = Some (Regular ("4711" +:+ nl))
  | _ => False
  end ∧ o_files (run (λ _, NoProcess) true (Serves 0) (sample_daemon, sample_os)).2 = ∅.
Proof. split; reflexivity. Qed.

Lemma parent_told_witness :
  _haveParent sample_daemon = false ∧ o_pipe (run (λ _, NoProcess) true (ReturnEarly 1) (sample_daemon, sample_os)).2 = [0].
Proof.
  split; [reflexivity|].
  pose proof (parent_told (λ _, NoProcess) sample_daemon sample_os (ReturnEarly 1) eq_refl eq_refl eq_refl) as K.
  vm_compute in K. destruct K as (st & K1 & K2 & _). vm_compute. exact eq_refl.
Defined.
