(* ===== verification/Service.v ===== *)
(** * Service: running as a Windows service (src/daemon_windows.h, src/daemon_windows.cc)

    On Windows the [Daemon] of [main] hands its calls to a [Service], one object per process.  The
    first argument may ask it to install or remove the service, or to write or show the options the
    service starts with, which are kept in the registry.  As a service, [main] is called again by
    the service manager, and reports its state to it.

    The calls of Windows are the class [WinOps]; what they say of the registry is [RegistryLaws]. *)

From S2P Require Import Prelude Monad Stream.

Local Open Scope string_scope.
Local Open Scope Z_scope.
Local Open Scope list_scope.

(** [dwCurrentState] *)
Inductive service_state := SERVICE_START_PENDING | SERVICE_RUNNING | SERVICE_STOP_PENDING | SERVICE_STOPPED.
#[export] Instance service_state_eq_dec : EqDecision service_state.
Proof. solve_decision. Defined.

(** What a [SERVICE_STATUS] is set to; [dwServiceType] is always the same. *)
Record SERVICE_STATUS := mkStatus {
  dwCurrentState : service_state;
  dwControlsAccepted : bool;             (* stop and shutdown, or nothing *)
  dwWin32ExitCode : Z;
  dwServiceSpecificExitCode : Z;
  dwCheckPoint : Z;
  dwWaitHint : Z }.

(** [NO_ERROR] and [ERROR_SERVICE_SPECIFIC_ERROR] of winerror.h. *)
Definition NO_ERROR : Z := 0.
Definition ERROR_SERVICE_SPECIFIC_ERROR : Z := 1066.

(** Windows.  A handle that is [None], and [false], are failures.  [StartServiceCtrlDispatcher]
    returns when the service has stopped; meanwhile it calls [main]. *)
Class WinOps := {
  Win : Type;
  HKEY : Type;
  SC_HANDLE : Type;
  STATUS_HANDLE : Type;
  RegOpenKeyEx : string → bool → Win → option HKEY * Win;        (* to query, or to set *)
  RegCloseKey : HKEY → Win → bool * Win;
  RegSetValueEx : HKEY → string → string → Win → bool * Win;
  RegQueryValueEx : HKEY → string → Z → Win → option string * Win;
  GetModuleFileName : Win → option string * Win;
  OpenSCManager : Win → option SC_HANDLE * Win;
  CreateService : SC_HANDLE → string → string → Win → option SC_HANDLE * Win;
  OpenService : SC_HANDLE → string → Win → option SC_HANDLE * Win;
  DeleteService : SC_HANDLE → Win → bool * Win;
  CloseServiceHandle : SC_HANDLE → Win → bool * Win;
  RegisterServiceCtrlHandler : string → Win → option STATUS_HANDLE * Win;
  StartServiceCtrlDispatcher : string → Win → bool * Win;
  SetServiceStatus : STATUS_HANDLE → SERVICE_STATUS → Win → bool * Win;
  set_exit_handler : Win → bool * Win;                            (* atexit(shutdown0) *)
  print_line : string → Win → unit * Win }.                       (* cout *)

Section service.
Context `{WO : WinOps}.

(** [Service]; [_logstream] is [None] for [cerr], or the name of the file.  [_argv] is the argv
    that [main] goes on with. *)
Record Service := mkService {
  _tracefile : option string;
  _serviceRunning : bool;
  _callCount : Z;
  _parameters : option string;
  _logstream : option string;
  _serviceStatusHandle : option STATUS_HANDLE }.

Definition PACKAGE_NAME : string := "omniEvents".
Definition regSubKey : string := "SYSTEM\CurrentControlSet\Services\" +:+ PACKAGE_NAME.

(** [Service()] *)
Definition new_Service : Service := mkService None false 0 None None None.

Abbreviation W := (M Empty_set (Service * Win)).
Definition sys {A} (f : Win → A * Win) : W A := λ s, let r := f s.2 in Ret r.1 (s.1, r.2).
Definition updS (f : Service → Service) : W unit := modify (λ s, (f s.1, s.2)).

Definition set_callCount (n : Z) (s : Service) : Service :=
  mkService (_tracefile s) (_serviceRunning s) n (_parameters s) (_logstream s) (_serviceStatusHandle s).
Definition set_parameters (p : option string) (s : Service) : Service :=
  mkService (_tracefile s) (_serviceRunning s) (_callCount s) p (_logstream s) (_serviceStatusHandle s).
Definition set_running (b : bool) (s : Service) : Service :=
  mkService (_tracefile s) b (_callCount s) (_parameters s) (_logstream s) (_serviceStatusHandle s).
Definition set_logstream (l : option string) (s : Service) : Service :=
  mkService (_tracefile s) (_serviceRunning s) (_callCount s) (_parameters s) l (_serviceStatusHandle s).
Definition set_statusHandle (h : option STATUS_HANDLE) (s : Service) : Service :=
  mkService (_tracefile s) (_serviceRunning s) (_callCount s) (_parameters s) (_logstream s) h.

(** [tracefile(val)]; the other two options do not exist on Windows. *)
Definition tracefile (val : string) : W unit :=
  updS (λ s, mkService (Some val) (_serviceRunning s) (_callCount s) (_parameters s) (_logstream s) (_serviceStatusHandle s)).
Definition pidfile (val : string) : W unit := exit 1.
Definition foreground (val : bool) : W unit := exit 1.

(** ** The registry *)

(** [if(!h) { perror; exit(1); }] *)
Definition need {A} (m : W (option A)) : W A := r ← m; match r with None => exit 1 | Some a => mret a end.
Definition need_ok (m : W bool) : W unit := r ← m; if (r : bool) then mret tt else exit 1.

(** The destructor of a [RegistryKey], which only reports a failure; [::exit] does not run it. *)
Definition close_key (h : HKEY) : W unit := _ ← sys (RegCloseKey h); mret tt.

(** [queryValueStr(name)], with [maxlen] at its default. *)
Definition queryValueStr (h : HKEY) (name : string) : W (option string) := sys (RegQueryValueEx h name 2048).

Definition readParameters : W unit :=
  rkey ← need (sys (RegOpenKeyEx regSubKey false));
  p ← queryValueStr rkey "Parameters";
  _ ← updS (set_parameters p);
  match p with None => exit 1 | Some _ => close_key rkey end.

(** The arguments from the third on, with spaces between them. *)
Definition join_parameters (args : list string) : string :=
  fold_left (λ p a, (if str_empty p then p else p +:+ " ") +:+ a) args "".

Definition writeParameters (argv : list string) : W unit :=
  rkey ← need (sys (RegOpenKeyEx regSubKey true));
  _ ← need_ok (sys (RegSetValueEx rkey "Parameters" (join_parameters (drop 2 argv))));
  close_key rkey.

(** [strtok(s,"\t ")], until it returns null: the runs of other characters. *)
Definition is_sep (c : char) : bool := ceqb c "009" || ceqb c " ".
Fixpoint strtok (token s : string) : list string :=
  match s with
  | "" => if str_empty token then [] else [token]
  | String c s' =>
      if is_sep c then (if str_empty token then [] else [token]) ++ strtok "" s'
      else strtok (token +:+ String c "") s'
  end.

(** [setArgcArgv(argc,argv)]: the [argv] it leaves. *)
Definition setArgcArgv (argv : list string) : W (list string) :=
  _ ← readParameters;
  p ← gets (λ s, default "" (_parameters s.1));
  match strtok "" p with
  | [] => mret argv
  | args => match argv with [] => abort | argv0 :: rest => mret (argv0 :: args ++ rest) end
  end.

(** ** The service manager *)

Definition install (argv : list string) : W unit :=
  exe_file_name ← need (sys GetModuleFileName);
  scmanager ← need (sys OpenSCManager);
  service ← need (sys (CreateService scmanager PACKAGE_NAME (exe_file_name +:+ " service")));
  _ ← need_ok (sys (CloseServiceHandle service));
  _ ← need_ok (sys (CloseServiceHandle scmanager));
  _ ← writeParameters argv;
  rkey ← need (sys (RegOpenKeyEx regSubKey true));
  _ ← need_ok (sys (RegSetValueEx rkey "Description" "Asynchronous broadcast channels for CORBA applications."));
  close_key rkey.

Definition uninstall : W unit :=
  scmanager ← need (sys OpenSCManager);
  service ← need (sys (OpenService scmanager PACKAGE_NAME));
  _ ← need_ok (sys (DeleteService service));
  _ ← need_ok (sys (CloseServiceHandle service));
  need_ok (sys (CloseServiceHandle scmanager)).

(** Before the handle is registered it is null, and the call fails. *)
Definition setServiceStatus (currentState : service_state) (win32ExitCode serviceSpecificExitCode checkPoint waitHint : Z)
    : W bool :=
  s ← gets fst;
  match _serviceStatusHandle s with
  | None => mret false
  | Some h =>
      sys (SetServiceStatus h
        (mkStatus currentState (negb (bool_decide (currentState = SERVICE_START_PENDING)))
           (if serviceSpecificExitCode =? 0 then win32ExitCode else ERROR_SERVICE_SPECIFIC_ERROR)
           serviceSpecificExitCode checkPoint waitHint))
  end.

(** [start(argc,argv)]: the [argv] that [main] goes on with. *)
Definition start (argv : list string) : W (list string) :=
  _ ← updS (λ s, set_callCount (i32 (_callCount s + 1)) s);
  s ← gets fst;
  if 1 <? _callCount s then
    argv' ← setArgcArgv argv;
    h ← sys (RegisterServiceCtrlHandler PACKAGE_NAME);
    _ ← updS (set_statusHandle h);
    _ ← match h with None => exit 1 | Some _ => mret tt end;
    _ ← need_ok (setServiceStatus SERVICE_START_PENDING NO_ERROR 0 1 3000);
    _ ← updS (set_running true);
    mret argv'
  else
    match argv with
    | _ :: "service" :: _ => _ ← need_ok (sys (StartServiceCtrlDispatcher PACKAGE_NAME)); exit 0
    | _ :: "install" :: _ =>
        _ ← install argv; _ ← sys (print_line ("Service '" +:+ PACKAGE_NAME +:+ "' installed OK.")); exit 0
    | _ :: "uninstall" :: _ =>
        _ ← uninstall; _ ← sys (print_line ("Service '" +:+ PACKAGE_NAME +:+ "' removed.")); exit 0
    | _ :: "getoptions" :: _ =>
        _ ← readParameters; s ← gets fst; _ ← sys (print_line (default "" (_parameters s))); exit 0
    | _ :: "setoptions" :: _ => _ ← writeParameters argv; exit 0
    | _ :: "run" :: _ => setArgcArgv argv
    | _ => mret argv
    end.

(** [daemonize()] *)
Definition daemonize : W unit :=
  s ← gets fst;
  _ ← match _tracefile s with
      | Some (String c f) => updS (set_logstream (Some (String c f)))
      | _ => mret tt
      end;
  ok ← sys set_exit_handler;
  if (ok : bool) then mret tt else exit (-1).

(** [runningOk()] *)
Definition runningOk : W unit :=
  s ← gets fst;
  if _serviceRunning s then need_ok (setServiceStatus SERVICE_RUNNING NO_ERROR 0 0 0) else mret tt.

(** [shutdown()]; a failure is not noticed. *)
Definition shutdown : W unit :=
  _ ← updS (set_logstream None);
  s ← gets fst;
  if _serviceRunning s then
    _ ← setServiceStatus SERVICE_STOPPED NO_ERROR 0 0 0;
    updS (set_running false)
  else mret tt.

(** [ctrlHandler(controlCode)]: what it calls, and what it reports then. *)
Inductive control := ControlShutdown | ControlStop | Control128 | ControlOther.
Inductive control_call := Orb_shutdown | Orb_bumpTraceLevel.
Definition ctrl_call (controlCode : control) : option control_call :=
  match controlCode with
  | ControlShutdown | ControlStop => Some Orb_shutdown
  | Control128 => Some Orb_bumpTraceLevel
  | ControlOther => None
  end.
Definition ctrl_report (controlCode : control) : W unit :=
  match controlCode with
  | ControlShutdown | ControlStop => _ ← setServiceStatus SERVICE_STOP_PENDING NO_ERROR 0 1 6000; mret tt
  | _ => mret tt
  end.
Definition ctrlHandler (call : control_call → W unit) (controlCode : control) : W unit :=
  _ ← match ctrl_call controlCode with Some c => call c | None => mret tt end;
  ctrl_report controlCode.
End service.

(** ** The options in the registry *)

Class RegistryLaws `{WO : WinOps} := {
  registry : Win → string → string → option string;     (* the value of a name under a key *)
  has_key : Win → string → bool;
  key_of : HKEY → string;
  open_query k w : has_key w k = true →
    match RegOpenKeyEx k false w with
    | (Some h, w') => key_of h = k ∧ registry w' = registry w ∧ has_key w' = has_key w
    | _ => False
    end;
  open_set k w :
    match RegOpenKeyEx k true w with
    | (Some h, w') => key_of h = k ∧ has_key w k = true ∧ registry w' = registry w ∧ has_key w' = has_key w
    | _ => True
    end;
  set_value h n d w :
    match RegSetValueEx h n d w with
    | (true, w') => registry w' (key_of h) n = Some d ∧ has_key w' = has_key w ∧
                    ∀ k n', (k, n') ≠ (key_of h, n) → registry w' k n' = registry w k n'
    | _ => True
    end;
  query_value h n maxlen w d : registry w (key_of h) n = Some d →
    RegQueryValueEx h n maxlen w = (if Z.of_nat (String.length d) + 1 <=? maxlen then Some d else None, w);
  close_law h w : registry (RegCloseKey h w).2 = registry w ∧ has_key (RegCloseKey h w).2 = has_key w;
  print_law t w : registry (print_line t w).2 = registry w ∧ has_key (print_line t w).2 = has_key w }.

Lemma strtok_app a b : ∀ t, strtok t (a +:+ String " " b) = strtok t a ++ strtok "" b.
Proof.
  induction a as [|c a IH]; intros t; rewrite ?str_app_cons; cbn [strtok].
  - cbn. by destruct t.
  - destruct (is_sep c); [|apply IH]. rewrite IH. by rewrite app_assoc.
Qed.

(** What the tokens of the stored text are. *)
Definition tokens (args : list string) : list string := concat (map (strtok "") args).

Lemma strtok_fold args : ∀ p,
  strtok "" (fold_left (λ p a, (if str_empty p then p else p +:+ " ") +:+ a) args p) = strtok "" p ++ tokens args.
Proof.
  induction args as [|a args IH]; intros p; [by rewrite app_nil_r|]. cbn [fold_left]. rewrite IH.
  unfold tokens. cbn [map concat]. rewrite app_assoc. f_equal. destruct p as [|c p]; [done|]. cbn [str_empty].
  by rewrite <- strtok_app, str_app_assoc.
Qed.
Lemma strtok_join args : strtok "" (join_parameters args) = tokens args.
Proof. apply strtok_fold. Qed.

(** An argument without spaces and tabs is one token. *)
Definition plain (a : string) : bool := negb (str_empty a) && str_forall (λ c, negb (is_sep c)) a.

Lemma strtok_plain a : ∀ t, str_forall (λ c, negb (is_sep c)) a = true →
  strtok t a = if str_empty (t +:+ a) then [] else [t +:+ a].
Proof.
  induction a as [|c a IH]; intros t Ha; cbn [strtok].
  - by rewrite str_app_nil_r.
  - cbn [str_forall] in Ha. apply andb_true_iff in Ha as [Hc Ha]. apply negb_true_iff in Hc. rewrite Hc, IH by done.
    by rewrite str_app_assoc.
Qed.
Lemma tokens_plain args : forallb plain args = true → tokens args = args.
Proof.
  induction args as [|a args IH]; [done|]. cbn [forallb]. intros [Ha Hargs]%andb_true_iff.
  unfold tokens in *. cbn [map concat]. rewrite IH by done. unfold plain in Ha. apply andb_true_iff in Ha as [Hn Ha].
  apply negb_true_iff in Hn. by rewrite strtok_plain, str_app_nil_l, Hn.
Qed.

(** [ends m s Q]: [m] returns with [Q], or it has exited with 1. *)
Section ends.
Context `{WO : WinOps}.

Definition ends {A} (m : M Empty_set (Service * Win) A) (s : Service * Win) (Q : A → Service * Win → Prop) : Prop :=
  match m s with Ret a s' => Q a s' | Exited c _ => c = 1 | Throw e _ => match e with end | Aborted _ => False end.

Lemma ends_ret {A} (a : A) s (Q : A → Service * Win → Prop) : Q a s → ends (mret a) s Q.
Proof. done. Qed.
Lemma ends_bind {A B} (m : M Empty_set (Service * Win) A) (f : A → M Empty_set (Service * Win) B) s Q :
  ends m s (λ a s', ends (f a) s' Q) → ends (mbind f m) s Q.
Proof. unfold ends, mbind, M_bind. destruct (m s); done. Qed.
Lemma ends_mono {A} (m : M Empty_set (Service * Win) A) s (Q Q' : A → Service * Win → Prop) :
  ends m s Q → (∀ a s', Q a s' → Q' a s') → ends m s Q'.
Proof. unfold ends. destruct (m s); auto. Qed.
Lemma ends_need {A} (f : Win → option A * Win) s (Q : A → Service * Win → Prop) :
  (∀ a w', f s.2 = (Some a, w') → Q a (s.1, w')) → ends (need (sys f)) s Q.
Proof.
  intros HQ. unfold ends, need, sys. rewrite bind_cases. destruct (f s.2) as [[a|] w'] eqn:E; cbn; [by apply HQ|done].
Qed.
Lemma ends_need_ok (f : Win → bool * Win) s (Q : unit → Service * Win → Prop) :
  (∀ w', f s.2 = (true, w') → Q tt (s.1, w')) → ends (need_ok (sys f)) s Q.
Proof.
  intros HQ. unfold ends, need_ok, sys. rewrite bind_cases. destruct (f s.2) as [[] w'] eqn:E; cbn; [by apply HQ|done].
Qed.
Lemma ends_sys {A} (f : Win → A * Win) s (Q : A → Service * Win → Prop) :
  Q (f s.2).1 (s.1, (f s.2).2) → ends (sys f) s Q.
Proof. done. Qed.
End ends.

Section stored.
Context `{RL : RegistryLaws}.

Definition stored (args : list string) (w : Win) : Prop :=
  has_key w regSubKey = true ∧ registry w regSubKey "Parameters" = Some (join_parameters args).

Lemma close_key_ends h s (Q : unit → Service * Win → Prop) :
  (∀ w', registry w' = registry s.2 → has_key w' = has_key s.2 → Q tt (s.1, w')) → ends (close_key h) s Q.
Proof. intros HQ. apply ends_bind, ends_sys, ends_ret. destruct (close_law h s.2). by apply HQ. Qed.

Lemma open_set_ends k s (Q : HKEY → Service * Win → Prop) :
  (∀ h w', key_of h = k → has_key w' k = true → registry w' = registry s.2 → has_key w' = has_key s.2 → Q h (s.1, w')) →
  ends (need (sys (RegOpenKeyEx k true))) s Q.
Proof.
  intros HQ. apply ends_need. intros h w' E. pose proof (open_set k s.2) as K. rewrite E in K.
  destruct K as (Hk & Hh & Hr & Hs). apply HQ; [done| |done..]. by rewrite Hs.
Qed.
Lemma set_ends h n d s (Q : unit → Service * Win → Prop) :
  (∀ w', registry w' (key_of h) n = Some d → has_key w' = has_key s.2 →
     (∀ k n', (k, n') ≠ (key_of h, n) → registry w' k n' = registry s.2 k n') → Q tt (s.1, w')) →
  ends (need_ok (sys (RegSetValueEx h n d))) s Q.
Proof.
  intros HQ. apply ends_need_ok. intros w' E. pose proof (set_value h n d s.2) as K. rewrite E in K.
  destruct K as (? & ? & ?). by apply HQ.
Qed.

Lemma writeParameters_ends argv s :
  ends (writeParameters argv) s (λ _ s', s'.1 = s.1 ∧ stored (drop 2 argv) s'.2).
Proof.
  apply ends_bind, open_set_ends. intros h w1 Hk Hh Hr Hs. apply ends_bind, set_ends. cbn [fst snd].
  intros w2 Hv Hs2 _. apply close_key_ends. cbn [fst snd]. intros w3 Hr3 Hs3. split; [done|].
  rewrite Hk in Hv. split; [by rewrite Hs3, Hs2|by rewrite Hr3].
Qed.

(** The description is written beside the options. *)
Lemma install_ends argv s : ends (install argv) s (λ _ s', s'.1 = s.1 ∧ stored (drop 2 argv) s'.2).
Proof.
  apply ends_bind, ends_need. intros exe w1 _. apply ends_bind, ends_need. intros scm w2 _.
  apply ends_bind, ends_need. intros svc w3 _. apply ends_bind, ends_need_ok. intros w4 _.
  apply ends_bind, ends_need_ok. intros w5 _. apply ends_bind. eapply ends_mono; [apply writeParameters_ends|].
  intros _ [v w6] [Hv [Hh Hp]]. cbn [fst snd] in *. subst v. apply ends_bind, open_set_ends. intros h w7 Hk _ Hr7 Hs7.
  apply ends_bind, set_ends. cbn [fst snd] in *. intros w8 _ Hs8 Hr8. apply close_key_ends. cbn [fst snd].
  intros w9 Hr9 Hs9. split; [done|]. split; [by rewrite Hs9, Hs8, Hs7|].
  rewrite Hr9, Hr8, Hr7; [done|]. congruence.
Qed.

(** A start with the stored options. *)
Lemma setArgcArgv_stored argv0 rest args svc w :
  stored args w →
  (Z.of_nat (String.length (join_parameters args)) < 2048 →
     ∃ s', setArgcArgv (argv0 :: rest) (svc, w) = Ret (argv0 :: tokens args ++ rest) s') ∧
  (2048 ≤ Z.of_nat (String.length (join_parameters args)) →
     ∃ s', setArgcArgv (argv0 :: rest) (svc, w) = Exited 1 s').
Proof.
  intros [Hh Hp]. unfold setArgcArgv, readParameters.
  pose proof (open_query regSubKey w Hh) as K. destruct (RegOpenKeyEx regSubKey false w) as [[h|] w1] eqn:Eo; [|done].
  destruct K as (Hk & Hr & _). rewrite <- Hr, <- Hk in Hp.
  assert (need (sys (RegOpenKeyEx regSubKey false)) (svc, w) = Ret h (svc, w1)) as E1
    by (unfold need, sys; rewrite bind_cases; cbn [fst snd]; by rewrite Eo).
  assert (E2 : queryValueStr h "Parameters" (svc, w1) =
      Ret (if Z.of_nat (String.length (join_parameters args)) + 1 <=? 2048 then Some (join_parameters args) else None) (svc, w1))
    by (unfold queryValueStr, sys; cbn [fst snd]; by rewrite (query_value h "Parameters" 2048 w1 _ Hp)).
  rewrite bind_assoc, (bind_Ret _ _ _ _ _ E1), bind_assoc, (bind_Ret _ _ _ _ _ E2). split; intros Hl.
  - rewrite (proj2 (Z.leb_le _ _)) by lia. unfold close_key, sys, updS, modify, gets, mbind, M_bind. cbn -[strtok]. rewrite strtok_join.
    destruct (tokens args) as [|t ts]; eexists; reflexivity.
  - rewrite (proj2 (Z.leb_gt _ _)) by lia. cbn. eexists. reflexivity.
Qed.

(** The first start writes the options. *)
Definition writes_options (cmd : string) : Prop := cmd = "setoptions" ∨ cmd = "install".

Lemma start_stores argv0 cmd args svc w s' :
  writes_options cmd → _callCount svc = 0 → start (argv0 :: cmd :: args) (svc, w) = Exited 0 s' → stored args s'.2.
Proof.
  intros Hc Hn E. unfold start in E. rewrite (bind_Ret _ _ _ _ _ (eq_refl : updS _ (svc, w) = Ret tt _)) in E.
  rewrite (bind_Ret _ _ _ _ _ (eq_refl : gets fst _ = Ret _ _)) in E. cbn [fst] in E.
  unfold set_callCount in E at 1. cbn [_callCount] in E. rewrite Hn in E. change (1 <? i32 (0 + 1)) with false in E.
  destruct Hc as [-> | ->]; cbn [fst snd] in E; rewrite bind_cases in E.
  - pose proof (writeParameters_ends (argv0 :: "setoptions" :: args) (set_callCount (i32 (0 + 1)) svc, w)) as K.
    unfold ends in K. destruct (writeParameters _ _) as [[] s1| |n s1|]; try done; [injection E as <-; by destruct K|].
    by injection E as -> _.
  - pose proof (install_ends (argv0 :: "install" :: args) (set_callCount (i32 (0 + 1)) svc, w)) as K.
    unfold ends in K. destruct (install _ _) as [[] s1| |n s1|]; try done; [|by injection E as -> _].
    destruct K as [_ [Hh Hp]]. rewrite bind_cases in E. cbn -[print_line] in E. injection E as <-.
    destruct (print_law ("Service '" +:+ PACKAGE_NAME +:+ "' installed OK.") s1.2) as [Hr Hs]. 
    split; cbn [snd]; [by rewrite Hs|by rewrite Hr].
Qed.

(** C28: options are kept.  If [omniEvents setoptions OPTIONS] or [install OPTIONS] succeeds, then a
    later [omniEvents run ARGS] goes on with the command line OPTIONS run ARGS, and so does a
    service, with the arguments of the service manager after OPTIONS.  An option that has spaces
    or tabs comes back in pieces, and one that is empty is lost; all others come back as they were.
    Options of 2048 characters and more are written, but no start reads them. *)
Theorem options_kept argv0 cmd args svc w s' argv1 rest svc1 :
  writes_options cmd → _callCount svc = 0 → start (argv0 :: cmd :: args) (svc, w) = Exited 0 s' → _callCount svc1 = 0 →
  let size := Z.of_nat (String.length (join_parameters args)) in
  (size < 2048 →
     ∃ s1, start (argv1 :: "run" :: rest) (svc1, s'.2) = Ret (argv1 :: tokens args ++ "run" :: rest) s1) ∧
  (2048 ≤ size → ∃ s1, start (argv1 :: "run" :: rest) (svc1, s'.2) = Exited 1 s1) ∧
  (∀ svc2 argv' s2, _callCount svc2 = 1 → start (argv1 :: rest) (svc2, s'.2) = Ret argv' s2 →
     argv' = argv1 :: tokens args ++ rest) ∧
  (forallb plain args = true → tokens args = args).
Proof.
  intros Hc Hn E Hn1 size. pose proof (start_stores _ _ _ _ _ _ Hc Hn E) as St. split_and!.
  - intros Hl. destruct (setArgcArgv_stored argv1 ("run" :: rest) args (set_callCount 1 svc1) s'.2 St) as [K _].
    destruct (K Hl) as (s1 & E1). exists s1. unfold start. rewrite !bind_cases. cbn. by rewrite Hn1.
  - intros Hl. destruct (setArgcArgv_stored argv1 ("run" :: rest) args (set_callCount 1 svc1) s'.2 St) as [_ K].
    destruct (K Hl) as (s1 & E1). exists s1. unfold start. rewrite !bind_cases. cbn. by rewrite Hn1.
  - intros svc2 argv' s2 Hn2 E2. destruct (setArgcArgv_stored argv1 rest args (set_callCount 2 svc2) s'.2 St) as [K1 K2].
    unfold start in E2. rewrite (bind_Ret _ _ _ _ _ (eq_refl : updS _ (svc2, s'.2) = Ret tt _)) in E2.
    rewrite (bind_Ret _ _ _ _ _ (eq_refl : gets fst _ = Ret _ _)) in E2. cbn [fst snd] in E2.
    unfold set_callCount in E2 at 1. cbn [_callCount] in E2. rewrite Hn2 in E2.
    change (1 <? i32 (1 + 1)) with true in E2. change (i32 (1 + 1)) with 2 in E2. cbv iota in E2.
    destruct (Z.lt_ge_cases (Z.of_nat (String.length (join_parameters args))) 2048) as [Hl|Hl].
    + destruct (K1 Hl) as (s1 & E1). rewrite (bind_Ret _ _ _ _ _ E1) in E2. clear - E2.
      repeat (apply bind_inv in E2 as (? & ? & _ & E2)). by injection E2.
    + destruct (K2 Hl) as (s1 & E1). by rewrite bind_cases, E1 in E2.
  - apply tokens_plain.
Qed.
End stored.

(** ** What is reported to the service manager *)

(** [reports] is what the manager was told; it is told by nothing else. *)
Class StatusLaws `{WO : WinOps} := {
  reports : Win → list SERVICE_STATUS;
  status_law h st w : ∃ w', SetServiceStatus h st w = (true, w') ∧ reports w' = reports w ++ [st];
  open_quiet k b w : reports (RegOpenKeyEx k b w).2 = reports w;
  query_quiet h n l w : reports (RegQueryValueEx h n l w).2 = reports w;
  close_quiet h w : reports (RegCloseKey h w).2 = reports w;
  register_quiet n w : reports (RegisterServiceCtrlHandler n w).2 = reports w }.

Section status.
Context `{SL : StatusLaws}.

(** The thread that runs [main], after [start], and the thread of the manager, which may be in
    [ctrlHandler] between its call and its report. *)
Inductive main_at := Starting | Serving | Stopping.
Record running := mkRunning { r_main : main_at; r_control : bool; r_state : Service * Win }.

Definition states (w : Win) : list service_state := map dwCurrentState (reports w).

(** The manager sends a control to a service that runs and accepts it, one at a time. *)
Definition accepts (w : Win) : bool :=
  match last (reports w) with
  | Some st => dwControlsAccepted st && bool_decide (dwCurrentState st = SERVICE_RUNNING)
  | None => false
  end.

(** [main] reports that it runs, and stops, whether it was asked to or not; the destructor of
    [Daemon] and the exit handler both call [shutdown]. *)
Inductive step : running → running → Prop :=
| step_ok s st' : runningOk s = Ret tt st' → step (mkRunning Starting false s) (mkRunning Serving false st')
| step_control m s : accepts s.2 = true → step (mkRunning m false s) (mkRunning m true s)
| step_report m s st' : ctrl_report ControlStop s = Ret tt st' → step (mkRunning m true s) (mkRunning m false st')
| step_shutdown m c s st' : shutdown s = Ret tt st' → step (mkRunning m c s) (mkRunning Stopping c st').

(** What can have been reported, and whether [_serviceRunning] is set. *)
Definition allowed (m : main_at) (control : bool) : list (list service_state * bool) :=
  match m, control with
  | Starting, false => [([SERVICE_START_PENDING], true)]
  | Starting, true => []
  | Serving, true => [([SERVICE_START_PENDING; SERVICE_RUNNING], true)]
  | Serving, false =>
      [([SERVICE_START_PENDING; SERVICE_RUNNING], true);
       ([SERVICE_START_PENDING; SERVICE_RUNNING; SERVICE_STOP_PENDING], true)]
  | Stopping, true => [([SERVICE_START_PENDING; SERVICE_RUNNING; SERVICE_STOPPED], false)]
  | Stopping, false =>
      [([SERVICE_START_PENDING; SERVICE_STOPPED], false);
       ([SERVICE_START_PENDING; SERVICE_RUNNING; SERVICE_STOPPED], false);
       ([SERVICE_START_PENDING; SERVICE_RUNNING; SERVICE_STOP_PENDING; SERVICE_STOPPED], false);
       ([SERVICE_START_PENDING; SERVICE_RUNNING; SERVICE_STOPPED; SERVICE_STOP_PENDING], false)]
  end.

(** Controls are refused only while the service starts, and no error is ever reported. *)
Definition well_reported (st : SERVICE_STATUS) : Prop :=
  dwControlsAccepted st = negb (bool_decide (dwCurrentState st = SERVICE_START_PENDING)) ∧ dwWin32ExitCode st = NO_ERROR.

Definition consistent (r : running) : Prop :=
  is_Some (_serviceStatusHandle (r_state r).1) ∧ Forall well_reported (reports (r_state r).2) ∧
  In (states (r_state r).2, _serviceRunning (r_state r).1) (allowed (r_main r) (r_control r)).

(** The reports of the program, none of which has an error. *)
Lemma setServiceStatus_reports st c d s :
  is_Some (_serviceStatusHandle s.1) →
  ∃ w' r, setServiceStatus st NO_ERROR 0 c d s = Ret true (s.1, w') ∧ well_reported r ∧ dwCurrentState r = st ∧
    reports w' = reports s.2 ++ [r].
Proof.
  intros [h Hh]. unfold setServiceStatus, sys. rewrite bind_cases. cbn. rewrite Hh.
  match goal with |- context [SetServiceStatus h ?r s.2] => destruct (status_law h r s.2) as (w' & E & R); exists w', r end.
  by rewrite E.
Qed.

(** A report is added to what is consistent. *)
Lemma consistent_report m c m' c' svc w b st r w' :
  consistent (mkRunning m c (svc, w)) → well_reported r → dwCurrentState r = st → reports w' = reports w ++ [r] →
  In (states w ++ [st], b) (allowed m' c') →
  consistent (mkRunning m' c' (set_running b svc, w')).
Proof.
  intros (Hh & Hf & _) Hr <- Ew Hin. split_and!; [done| |]; cbn [r_state r_main r_control fst snd] in *.
  - rewrite Ew. apply Forall_app. split; [done|]. by apply Forall_singleton.
  - unfold states in *. rewrite Ew, map_app. exact Hin.
Qed.

Lemma set_running_same svc : set_running (_serviceRunning svc) svc = svc.
Proof. by destruct svc. Qed.

Lemma step_consistent r r' : step r r' → consistent r → consistent r'.
Proof.
  intros Hs Hc. pose proof Hc as (Hh & Hf & Hin). destruct Hs as [[svc w] st' E|m [svc w] Ha|m [svc w] st' E|m c [svc w] st' E];
    cbn [r_state r_main r_control fst snd] in *.
  - unfold runningOk in E. rewrite bind_cases in E. cbn [gets fst] in E. destruct Hin as [[=Hl Hr]|[]].
    rewrite <- Hr in E. unfold need_ok in E.
    destruct (setServiceStatus_reports SERVICE_RUNNING 0 0 (svc, w) Hh) as (w' & r & Es & Wr & Wst & Er).
    rewrite (bind_Ret _ _ _ _ _ Es) in E. injection E as <-. rewrite <- (set_running_same svc), <- Hr.
    eapply consistent_report; [done..|]. rewrite <- Hl. by left.
  - split_and!; [done..|]. unfold accepts in Ha. cbn [r_state r_main r_control fst snd] in *.
    assert (HL : last (states w) = Some SERVICE_RUNNING).
    { unfold states. rewrite fmap_last. destruct (last (reports w)) as [st|]; [|done]. cbn.
      apply andb_true_iff in Ha as [_ Ha]. apply bool_decide_eq_true in Ha. by rewrite Ha. }
    destruct m; cbn in Hin |- *; repeat (destruct Hin as [[=Hl Hr]|Hin]); try done; rewrite <- Hl in HL; try done. by left; rewrite <- Hl, <- Hr.
  - unfold ctrl_report in E.
    destruct (setServiceStatus_reports SERVICE_STOP_PENDING 1 6000 (svc, w) Hh) as (w' & r & Es & Wr & Wst & Er).
    rewrite (bind_Ret _ _ _ _ _ Es) in E. injection E as <-. rewrite <- (set_running_same svc).
    eapply consistent_report; [done..|]. destruct m; cbn in Hin |- *; [done|..];
      destruct Hin as [[=Hl Hr]|[]]; rewrite <- Hl, <- Hr; cbn; auto.
  - unfold shutdown in E. rewrite (bind_Ret _ _ _ _ _ (eq_refl : updS _ (svc, w) = Ret tt _)) in E.
    rewrite (bind_Ret _ _ _ _ _ (eq_refl : gets fst _ = Ret _ _)) in E. cbn [fst snd _serviceRunning set_logstream] in E.
    destruct (_serviceRunning svc) eqn:Hr.
    + destruct (setServiceStatus_reports SERVICE_STOPPED 0 0 (set_logstream None svc, w) Hh) as (w' & r & Es & Wr & Wst & Er).
      rewrite (bind_Ret _ _ _ _ _ Es) in E. injection E as <-.
      eapply (consistent_report m c Stopping c (set_logstream None svc) w false); [split_and!; [done..|cbn; by rewrite Hr]|done..|].
      destruct m, c; cbn in Hin |- *; repeat (destruct Hin as [[=Hl]|Hin]); try done; rewrite <- Hl; cbn; auto.
    + injection E as <-. split_and!; [done..|]. cbn [r_state r_main r_control fst snd _serviceRunning set_logstream]. rewrite Hr.
      destruct m, c; cbn in Hin |- *; repeat (destruct Hin as [[=Hl]|Hin]); try done; rewrite <- Hl; cbn; auto.
Qed.

(** As a service, [start] makes the first report. *)
Lemma setArgcArgv_quiet argv svc w argv' s :
  setArgcArgv argv (svc, w) = Ret argv' s → reports s.2 = reports w ∧ _serviceStatusHandle s.1 = _serviceStatusHandle svc.
Proof.
  unfold setArgcArgv, readParameters, need, queryValueStr, close_key, sys. intros E.
  apply bind_inv in E as ([] & s4 & E & E'). apply bind_inv in E as (h & s1 & E1 & E).
  apply bind_inv in E1 as (r & s2 & [= <- <-] & E1). cbn [fst snd] in E1.
  destruct (RegOpenKeyEx regSubKey false w).1 as [h'|]; [|done]. injection E1 as -> <-.
  apply bind_inv in E as (p & s3 & [= <- <-] & E). cbn [fst snd] in E.
  apply bind_inv in E as ([] & s5 & [= <-] & E). cbn [fst snd] in E. revert E.
  destruct (RegQueryValueEx _ _ _ _).1 as [p|]; [|done]. intros [= <-].
  assert (E : s = (set_parameters (Some p) svc,
      (RegCloseKey h (RegQueryValueEx h "Parameters" 2048 (RegOpenKeyEx regSubKey false w).2).2).2)).
  { apply bind_inv in E' as (q & s6 & [= <- <-] & E'). revert E'.
    destruct (strtok _ _); [by intros [= _ <-]|]. destruct argv; [done|by intros [= _ <-]]. }
  subst s. cbn. by rewrite close_quiet, query_quiet, open_quiet.
Qed.

Lemma start_consistent argv svc w argv' s :
  _callCount svc = 1 → reports w = [] → start argv (svc, w) = Ret argv' s → consistent (mkRunning Starting false s).
Proof.
  intros Hn Hw E. unfold start in E. rewrite (bind_Ret _ _ _ _ _ (eq_refl : updS _ (svc, w) = Ret tt _)) in E.
  rewrite (bind_Ret _ _ _ _ _ (eq_refl : gets fst _ = Ret _ _)) in E. cbn [fst snd] in E.
  unfold set_callCount in E at 1. cbn [_callCount] in E. rewrite Hn in E. change (1 <? i32 (1 + 1)) with true in E.
  cbv iota in E. apply bind_inv in E as (a & [v1 w1] & E1 & E). apply setArgcArgv_quiet in E1 as [Hr _]. cbn [snd] in Hr.
  apply bind_inv in E as (h & s2 & [= <- <-] & E). cbn [fst snd] in E.
  apply bind_inv in E as ([] & s3 & [= <-] & E). cbn [fst snd] in E. 
  pose proof (register_quiet PACKAGE_NAME w1) as Hq. destruct (RegisterServiceCtrlHandler PACKAGE_NAME w1) as [[h|] w2]; [|done].
  cbn [fst snd] in *. rewrite bind_ret in E. unfold need_ok in E.
  destruct (setServiceStatus_reports SERVICE_START_PENDING 1 3000 (set_statusHandle (Some h) v1, w2)) as (w' & r & Es & Wr & Wst & Er);
    [done|]. rewrite bind_assoc, (bind_Ret _ _ _ _ _ Es) in E. injection E as _ <-.
  assert (Hrep : reports w' = [r]) by (rewrite Er; cbn [snd]; by rewrite Hq, Hr, Hw).
  split_and!; [done| |]; cbn [r_state fst snd].
  - rewrite Hrep. by apply Forall_singleton.
  - unfold states. rewrite Hrep. cbn. rewrite Wst. by left.
Qed.

Lemma rtc_consistent r r' : rtc step r r' → consistent r → consistent r'.
Proof. induction 1 as [|r r1 r' Hs _ IH]; [done|]. intros Hc. by eapply IH, step_consistent. Qed.

(** A control whose report comes after [main] has stopped. *)
Lemma stop_overtaken s :
  consistent (mkRunning Starting false s) →
  ∃ r, rtc step (mkRunning Starting false s) r ∧ r_main r = Stopping ∧ r_control r = false ∧
    states (r_state r).2 = [SERVICE_START_PENDING; SERVICE_RUNNING; SERVICE_STOPPED; SERVICE_STOP_PENDING].
Proof.
  destruct s as [svc w]. intros (Hh & _ & [[= Hl Hr]|[]]). cbn [r_state fst snd] in *.
  destruct (setServiceStatus_reports SERVICE_RUNNING 0 0 (svc, w) Hh) as (w1 & r1 & E1 & [W1 _] & S1 & R1).
  destruct (setServiceStatus_reports SERVICE_STOPPED 0 0 (set_logstream None svc, w1) Hh) as (w2 & r2 & E2 & _ & S2 & R2).
  destruct (setServiceStatus_reports SERVICE_STOP_PENDING 1 6000 (set_running false (set_logstream None svc), w2) Hh)
    as (w3 & r3 & E3 & _ & S3 & R3). cbn [fst snd] in *.
  exists (mkRunning Stopping false (set_running false (set_logstream None svc), w3)). split_and!; [|done..|].
  - eapply rtc_l; [apply (step_ok _ (svc, w1))|eapply rtc_l; [apply step_control|
      eapply rtc_l; [apply (step_shutdown _ _ _ (set_running false (set_logstream None svc), w2))|apply rtc_once, step_report]]].
    + unfold runningOk, need_ok. rewrite bind_cases. cbn [gets fst]. by rewrite <- Hr, (bind_Ret _ _ _ _ _ E1).
    + unfold accepts. cbn [snd]. by rewrite R1, last_snoc, W1, S1.
    + unfold shutdown. rewrite (bind_Ret _ _ _ _ _ (eq_refl : updS _ (svc, w1) = Ret tt _)).
      rewrite (bind_Ret _ _ _ _ _ (eq_refl : gets fst _ = Ret _ _)). cbn [fst snd _serviceRunning set_logstream].
      by rewrite <- Hr, (bind_Ret _ _ _ _ _ E2).
    + unfold ctrl_report. by rewrite (bind_Ret _ _ _ _ _ E3).
  - cbn [r_state snd]. unfold states in *. by rewrite R3, R2, R1, !map_app, <- Hl, <- S1, <- S2, <- S3.
Qed.

(** C29: what a service reports.  Between [start] and the end of the process, whatever the threads do
    and however [main] ends, the manager is told in order that the service starts, runs, is stopping
    and has stopped, some of them left out; it is told once that the service has stopped, although
    both the destructor of [Daemon] and the exit handler see to it; and never of an error, although
    [main] may have failed.  One order is wrong: [ctrlHandler] asks the ORB to stop before it
    reports, so that [main] may have reported the end by then, and the last report is that the
    service is stopping. *)
Theorem status_reported argv svc w argv' s :
  _callCount svc = 1 → reports w = [] → start argv (svc, w) = Ret argv' s →
  (∀ r, rtc step (mkRunning Starting false s) r →
     (states (r_state r).2 `prefix_of` [SERVICE_START_PENDING; SERVICE_RUNNING; SERVICE_STOP_PENDING; SERVICE_STOPPED] ∨
      states (r_state r).2 `prefix_of` [SERVICE_START_PENDING; SERVICE_RUNNING; SERVICE_STOPPED; SERVICE_STOP_PENDING] ∨
      states (r_state r).2 `prefix_of` [SERVICE_START_PENDING; SERVICE_STOPPED]) ∧
     (r_main r = Stopping ↔ SERVICE_STOPPED ∈ states (r_state r).2) ∧
     Forall (λ st, dwWin32ExitCode st = NO_ERROR) (reports (r_state r).2)) ∧
  ∃ r, rtc step (mkRunning Starting false s) r ∧ r_main r = Stopping ∧ r_control r = false ∧
    states (r_state r).2 = [SERVICE_START_PENDING; SERVICE_RUNNING; SERVICE_STOPPED; SERVICE_STOP_PENDING].
Proof.
  intros Hn Hw E. pose proof (start_consistent _ _ _ _ _ Hn Hw E) as Hc. split; [|by apply stop_overtaken].
  intros r Hr. destruct (rtc_consistent _ _ Hr Hc) as (_ & Hf & Hin). split_and!.
  - destruct (r_main r), (r_control r); cbn in Hin; repeat (destruct Hin as [[= <- _]|Hin]); try done;
      first [by left; eexists|by right; left; eexists|by right; right; eexists].
  - destruct (r_main r), (r_control r); cbn in Hin; repeat (destruct Hin as [[= <- _]|Hin]); try done;
      rewrite <- (bool_decide_eq_true (SERVICE_STOPPED ∈ _)); split; done.
  - eapply Forall_impl; [done|]. by intros st [_ ?].
Qed.
End status.

(** ** Witness: a Windows where every call succeeds *)

Record windows := mkWindows { w_registry : list (string * string * string); w_reports : list SERVICE_STATUS }.

Fixpoint find_value (k n : string) (l : list (string * string * string)) : option string :=
  match l with
  | [] => None
  | (k', n', d) :: l' => if String.eqb k k' && String.eqb n n' then Some d else find_value k n l'
  end.

#[local] Instance windows_ops : WinOps := {|
  Win := windows; HKEY := string; SC_HANDLE := unit; STATUS_HANDLE := unit;
  RegOpenKeyEx k _ w := (Some k, w);
  RegCloseKey _ w := (true, w);
  RegSetValueEx h n d w := (true, mkWindows ((h, n, d) :: w_registry w) (w_reports w));
  RegQueryValueEx h n maxlen w :=
    (match find_value h n (w_registry w) with
     | Some d => if Z.of_nat (String.length d) + 1 <=? maxlen then Some d else None
     | None => None
     end, w);
  GetModuleFileName w := (Some "C:\omniEvents.exe", w);
  OpenSCManager w := (Some tt, w);
  CreateService _ _ _ w := (Some tt, w);
  OpenService _ _ w := (Some tt, w);
  DeleteService _ w := (true, w);
  CloseServiceHandle _ w := (true, w);
  RegisterServiceCtrlHandler _ w := (Some tt, w);
  StartServiceCtrlDispatcher _ w := (true, w);
  SetServiceStatus _ st w := (true, mkWindows (w_registry w) (w_reports w ++ [st]));
  set_exit_handler w := (true, w);
  print_line _ w := (tt, w) |}.

#[local] Instance windows_registry : RegistryLaws.
Proof.
  refine {| registry (w : Win) k n := find_value k n (w_registry w); has_key (_ : Win) _ := true; key_of (h : HKEY) := h |}.
  - done.
  - done.
  - intros h n d w. cbn. rewrite !String.eqb_refl. split_and!; [done..|]. intros k n' Hne.
    destruct (String.eqb_spec k h), (String.eqb_spec n' n); try done. by subst.
  - intros h n maxlen w d E. cbn in *. by rewrite E.
  - done.
  - done.
Defined.

#[local] Instance windows_status : StatusLaws.
Proof.
  refine {| reports (w : Win) := w_reports w |}; [|done..]. intros h st w. by eexists.
Defined.

Definition clean : windows := mkWindows [] [].
Definition argv_install : list string := ["omniEvents"; "install"; "-p"; "7777"; "-l"; "C:\my data"].
Definition installed : windows := match start argv_install (new_Service, clean) with Exited _ s => s.2 | _ => clean end.

Lemma options_kept_witness :
  start argv_install (new_Service, clean) = Exited 0 (set_callCount 1 new_Service, installed) ∧
  ∃ s1, start ["omniEvents"; "run"] (new_Service, installed) =
    Ret ["omniEvents"; "-p"; "7777"; "-l"; "C:\my"; "data"; "run"] s1.
Proof.
  assert (E : start argv_install (new_Service, clean) = Exited 0 (set_callCount 1 new_Service, installed)) by (vm_compute; reflexivity).
  split; [exact E|].
  destruct (options_kept (WO := windows_ops) (RL := windows_registry) "omniEvents" "install" ["-p"; "7777"; "-l"; "C:\my data"] new_Service clean
    (set_callCount 1 new_Service, installed) "omniEvents" [] new_Service)
    as (K & _); [by right|reflexivity|exact E|reflexivity|].
  destruct K as (s1 & E1); [by vm_compute|]. exists s1. exact E1.
Defined.

Lemma status_reported_witness :
  ∃ s r, start ["omniEvents"] (set_callCount 1 new_Service, installed) = Ret ["omniEvents"; "-p"; "7777"; "-l"; "C:\my"; "data"] s ∧
    rtc step (mkRunning Starting false s) r ∧
    states (r_state r).2 = [SERVICE_START_PENDING; SERVICE_RUNNING; SERVICE_STOPPED; SERVICE_STOP_PENDING].
Proof.
  assert (E : ∃ s, start ["omniEvents"] (set_callCount 1 new_Service, installed) =
    Ret ["omniEvents"; "-p"; "7777"; "-l"; "C:\my"; "data"] s) by (eexists; vm_compute; reflexivity).
  destruct E as (s & E).
  destruct (status_reported (WO := windows_ops) (SL := windows_status) ["omniEvents"] (set_callCount 1 new_Service) installed
    ["omniEvents"; "-p"; "7777"; "-l"; "C:\my"; "data"] s) as (_ & r & Hr & _ & _ & Hs);
    [reflexivity|reflexivity|exact E|]. exists s, r. split_and!; [exact E|exact Hr|exact Hs].
Defined.
