(* ===== verification/Main.v ===== *)
(** * Main: the server from its first line to its last ([main] and the signal handlers of
      src/main.cc, and the worker of src/omniEventsLog.cc)

    [main] reads the options, loads the state, goes into the background, starts the ORB, makes the
    factory with its channels, registers it in the Naming Service, tells the parent, and collects
    responses until a signal asks it to stop.  Each of these is a definition of another file, over
    the state of its own component; [process] is the state of all of them.

    What [main] calls outside the repository is a [system]: the command line of the ORB, its
    initialisation, its initial references. *)

From S2P Require Import Prelude Monad CxxMap Stream PersistNode PersistReplay PersistLog PersistLookup ChannelProps.
From S2P Require Import Corba ModelOrb Orb Disk EventChannel EventChannelFactory ClientRecords ManagerRestore ChannelRecord ServerRestart.
From S2P Require Import OmniEventsLog Getopt Startup Naming IteratorSupport Daemon.

Local Open Scope string_scope.
Local Open Scope Z_scope.
Local Open Scope list_scope.

(** What a signal does. *)
Inductive handler := HShutdown | HBumpTraceLevel | HIgnore.

Section main.
Context `{NO : NamingOps} `{PM : !PoaManagerOps}.

Record system := mkSystem {
  s_logdir : option string;                                   (* $OMNIEVENTS_LOGDIR *)
  s_hostname : option string;
  s_extractInitOptions : list string → option (list string);  (* [None]: it throws *)
  s_ORB_init : list string → list (string * string) → exn + unit;
  s_resolve : string → exn + option Object;                   (* resolve_initial_references *)
  s_context : Object → context;                               (* a reference that is a context *)
  s_activate : Object → exn + unit;                           (* the_POAManager()->activate() *)
  s_kill : Z → process_state;
  s_factory : Z;                                              (* addresses for the servants *)
  s_locator : Z;
  s_envs : list (Z * env);
  s_shutdown : exn + unit }.                                  (* _orb->shutdown(1), destroy() *)

Record process := mkProcess {
  p_daemon : DaemonImpl * os;
  p_log : option omniEventsLog;
  p_storage : storage;
  p_world : world;
  p_factory : option EventChannelFactory_i;
  p_names : ns_state;
  p_gc : list Z * gmap Z ServantMap;
  p_handlers : list (string * handler);
  p_traceLevel : Z;
  p_worker : bool }.

Definition set_daemon (d : DaemonImpl * os) (p : process) : process :=
  mkProcess d (p_log p) (p_storage p) (p_world p) (p_factory p) (p_names p) (p_gc p) (p_handlers p) (p_traceLevel p) (p_worker p).
Definition set_log (l : option omniEventsLog) (p : process) : process :=
  mkProcess (p_daemon p) l (p_storage p) (p_world p) (p_factory p) (p_names p) (p_gc p) (p_handlers p) (p_traceLevel p) (p_worker p).
Definition set_storage (s : storage) (p : process) : process :=
  mkProcess (p_daemon p) (p_log p) s (p_world p) (p_factory p) (p_names p) (p_gc p) (p_handlers p) (p_traceLevel p) (p_worker p).
Definition set_world (w : world) (p : process) : process :=
  mkProcess (p_daemon p) (p_log p) (p_storage p) w (p_factory p) (p_names p) (p_gc p) (p_handlers p) (p_traceLevel p) (p_worker p).
Definition set_factory (f : option EventChannelFactory_i) (p : process) : process :=
  mkProcess (p_daemon p) (p_log p) (p_storage p) (p_world p) f (p_names p) (p_gc p) (p_handlers p) (p_traceLevel p) (p_worker p).
Definition set_names (n : ns_state) (p : process) : process :=
  mkProcess (p_daemon p) (p_log p) (p_storage p) (p_world p) (p_factory p) n (p_gc p) (p_handlers p) (p_traceLevel p) (p_worker p).
Definition set_gc (g : list Z * gmap Z ServantMap) (p : process) : process :=
  mkProcess (p_daemon p) (p_log p) (p_storage p) (p_world p) (p_factory p) (p_names p) g (p_handlers p) (p_traceLevel p) (p_worker p).
Definition set_handlers (h : list (string * handler)) (p : process) : process :=
  mkProcess (p_daemon p) (p_log p) (p_storage p) (p_world p) (p_factory p) (p_names p) (p_gc p) h (p_traceLevel p) (p_worker p).
Definition set_traceLevel (t : Z) (p : process) : process :=
  mkProcess (p_daemon p) (p_log p) (p_storage p) (p_world p) (p_factory p) (p_names p) (p_gc p) (p_handlers p) t (p_worker p).
Definition set_worker (b : bool) (p : process) : process :=
  mkProcess (p_daemon p) (p_log p) (p_storage p) (p_world p) (p_factory p) (p_names p) (p_gc p) (p_handlers p) (p_traceLevel p) b.

Abbreviation Proc := (M exn process).

(** ** The components of the process *)

Definition onWorld {A} (m : M exn world A) : Proc A := zoom p_world set_world m.
Definition onNames {A} (m : M exn ns_state A) : Proc A := zoom p_names set_names m.

(** Nothing is thrown by the [Daemon]. *)
Definition onDaemon {A} (m : D A) : Proc A := λ p,
  match m (p_daemon p) with
  | Ret a d => Ret a (set_daemon d p)
  | Throw e _ => match e with end
  | Exited c d => Exited c (set_daemon d p)
  | Aborted d => Aborted (set_daemon d p)
  end.

(** The log; an [IOError] is not an exception [main] catches. *)
Definition onLogWorld {A} (m : M log_exn ((omniEventsLog * storage) * world) A) : Proc A := λ p,
  match p_log p with
  | None => Aborted p
  | Some l =>
      let set r := set_world r.2 (set_storage r.1.2 (set_log (Some r.1.1) p)) in
      match m ((l, p_storage p), p_world p) with
      | Ret a r => Ret a (set r)
      | Throw (CorbaError e) r => Throw e (set r)
      | Throw IOError r => Aborted (set r)
      | Exited c r => Exited c (set r)
      | Aborted r => Aborted (set r)
      end
  end.
Definition onLog {A} (m : LMeth A) : Proc A := onLogWorld (zoom fst (λ s t, (s, t.2)) m).

(** A call that returns nothing or throws. *)
Definition call_out (r : exn + unit) : Proc unit := λ p, match r with inl e => Throw e p | inr _ => Ret tt p end.

(** ** The beginning *)

Variable S : system.

(** The options that the [Daemon] is told. *)
Definition apply_options (o : options) (d : DaemonImpl) : DaemonImpl :=
  let d := match o_pidfile o with Some s => pidfile s d | None => d end in
  let d := if o_foreground o then foreground true d else d in
  match o_tracefile o with Some s => tracefile s d | None => d end.

(** [omniEventsLog logfile(logDir)]: [initializeFileNames] may exit. *)
Definition construct_log (o : options) : Proc unit :=
  match new_omniEventsLog (o_logDir o) (s_logdir S) (s_hostname S) with
  | None => exit 1
  | Some l => modify (set_log (Some l))
  end.

(** From the log to the end points. *)
Definition load (o : options) : Proc (PersistNode * list (string * string)) :=
  _ ← construct_log o;
  initialState ← onLog (load_state o);
  match orb_end_points o initialState with
  | None => abort
  | Some eps => mret (initialState, eps)
  end.

(** [createGCPOA(parent,name)]: the locator is known to the collector from its construction. *)
Definition createGCPOA (name : string) : Proc unit :=
  _ ← onWorld (poa_op (create_POA name));
  modify (λ p, set_gc (new_locator (s_locator S) (p_gc p).1 (p_gc p).2) p).

(** [_factory->_this()] *)
Definition factory_this : Proc Object := λ p,
  match id_to_reference INSPOA "omniEvents" (poas (p_world p)) with
  | inl e => Throw e p
  | inr o => Ret o p
  end.

Definition register_factory (refs : initial_refs) (factoryName : string) : Proc unit :=
  factory ← factory_this;
  match str2name factoryName with
  | None => abort
  | Some name =>
      _ ← onNames (bindName2Object (s_context S <$> _NameService refs) name factory); mret tt
  end.

Definition signals : list (string * handler) :=
  [("SIGINT", HShutdown); ("SIGTERM", HShutdown); ("SIGUSR1", HBumpTraceLevel); ("SIGPIPE", HIgnore)].

(** From [ORB_init] to the signals. *)
Definition bring_up (o : options) (args : list string) (initialState : PersistNode)
    (eps : list (string * string)) : Proc unit :=
  _ ← call_out (s_ORB_init S args eps);
  refs ← resolveInitialReferences (s_resolve S);
  _ ← call_out (s_activate S (_RootPOA refs));
  _ ← call_out (s_activate S (_omniINSPOA refs));
  f ← onLogWorld (incarnateFactory (s_factory S) (s_envs S) initialState);
  _ ← modify (set_factory (Some f));
  _ ← createGCPOA "Iterators";
  _ ← register_factory refs (o_factoryName o);
  modify (set_handlers signals).

(** From the options to [runningOk]. *)
Definition start (o : options) (args : list string) : Proc unit :=
  s ← load o;
  _ ← onDaemon (daemonize (s_kill S));
  _ ← bring_up o args s.1 s.2;
  onDaemon runningOk.

(** ** The end *)

(** [runWorker()]: the thread that checkpoints. *)
Definition runWorker : Proc unit :=
  f ← gets p_factory;
  _ ← assert (match f with Some _ => true | None => false end);
  modify (set_worker true).

(** [omniEventsLogWorker::run_undetached]: no exception leaves the thread; [turns] are those of
    the loop of [checkpoint]. *)
Definition worker (turns : list (list string * (EventChannelFactory_i * world))) : LMeth unit :=
  try_catch (checkpoint turns) (λ _, Some (mret tt)).

(** After [runningOk]; [rounds] is what [Orb::run] finds in its turns. *)
Definition serve_until_shutdown (rounds : list (list (request * option Z) * (request → option reply)))
    (callback : Z → request → reply → M exn world unit) : Proc Z :=
  _ ← runWorker;
  _ ← onWorld (Orb.run rounds callback);
  _ ← call_out (s_shutdown S);
  mret 0.

(** [~omniEventsLog()], if the log was constructed. *)
Definition destroy_log : Proc unit :=
  l ← gets p_log;
  f ← gets p_factory;
  match l with
  | None => mret tt
  | Some _ =>
      _ ← match f with Some _ => onWorld (remove_ref (s_factory S)) | None => mret tt end;
      modify (λ p, set_world (set_logstream None (p_world p)) (set_log None (set_factory None p)))
  end.

Section whole.
Variable rounds : list (list (request * option Z) * (request → option reply)).
Variable callback : Z → request → reply → M exn world unit.

(** [main(argc,argv)]: the status it returns.  The log goes with the block it is local to, before
    an exception is handled. *)
Definition main (argv : list string) : Proc Z :=
  match read_options (default argv (s_extractInitOptions S argv)) with
  | None => abort
  | Some (inl status) => exit status
  | Some (inr o) =>
      _ ← modify (λ p, set_daemon (apply_options o (p_daemon p).1, (p_daemon p).2) p);
      n ← try_catch (_ ← start o argv; n ← serve_until_shutdown rounds callback; _ ← destroy_log; mret n)
            (λ _, Some (_ ← destroy_log; mret 1));
      _ ← onDaemon (Daemon.shutdown 0);
      mret n
  end.

(** The process: the status it ends with, if it ends by itself, and its last state. *)
Definition ended (r : outcome exn process Z) : option Z * process :=
  match r with
  | Ret n p' | Exited n p' => (Some n, set_daemon (final (at_exit true n (p_daemon p'))) p')
  | Throw _ p' | Aborted p' => (None, p')
  end.
Definition program (argv : list string) (p : process) : option Z * process := ended (main argv p).
End whole.

(** ** Signals *)

(** [OmniEvents_Orb_bumpTraceLevel(signum)] *)
Definition OmniEvents_Orb_bumpTraceLevel : Proc unit :=
  modify (λ p, set_traceLevel (Z.rem (p_traceLevel p + 5) 45) p).

(** [OmniEvents_Orb_shutdown(signum)] *)
Definition OmniEvents_Orb_shutdown : Proc unit := onWorld Orb.shutdown.

(** A signal; one without a handler ends the process. *)
Definition deliver (signal : string) : Proc unit := λ p,
  match list_find (λ h, h.1 = signal) (p_handlers p) with
  | Some (_, (_, HShutdown)) => OmniEvents_Orb_shutdown p
  | Some (_, (_, HBumpTraceLevel)) => OmniEvents_Orb_bumpTraceLevel p
  | Some (_, (_, HIgnore)) => Ret tt p
  | None => Aborted p
  end.
End main.

(** ** What the start leaves to the [Daemon] *)

Section told.
Context `{NO : NamingOps} `{PM : !PoaManagerOps}.
Variable S : system.
Abbreviation Proc := (M exn process).

(** Computations that do not touch the [Daemon] and what the system knows of it. *)
Definition apart {A} (m : Proc A) : Prop := ∀ p, p_daemon (final (m p)) = p_daemon p.

Lemma apart_ret {A} (a : A) : apart (mret a).
Proof. done. Qed.
Lemma apart_bind {A B} (m : Proc A) (f : A → Proc B) : apart m → (∀ a, apart (f a)) → apart (x ← m; f x).
Proof.
  intros Hm Hf p. specialize (Hm p). unfold mbind, M_bind. destruct (m p); cbn [final] in *; try done.
  by rewrite Hf.
Qed.
Lemma apart_modify f : (∀ p, p_daemon (f p) = p_daemon p) → apart (modify f).
Proof. intros Hf p. apply Hf. Qed.
Lemma apart_gets {A} (f : process → A) : apart (gets f).
Proof. done. Qed.
Lemma apart_exit {A} c : apart (A := A) (exit c).
Proof. done. Qed.
Lemma apart_abort {A} : apart (A := A) abort.
Proof. done. Qed.
Lemma apart_assert b : apart (assert b).
Proof. intros p. by destruct b. Qed.
Lemma apart_world {A} (m : M exn world A) : apart (onWorld m).
Proof. intros p. unfold onWorld, zoom. by destruct (m (p_world p)). Qed.
Lemma apart_names {A} (m : M exn ns_state A) : apart (onNames m).
Proof. intros p. unfold onNames, zoom. by destruct (m (p_names p)). Qed.
Lemma apart_log_world {A} (m : M log_exn ((omniEventsLog * storage) * world) A) : apart (onLogWorld m).
Proof.
  intros p. unfold onLogWorld. destruct (p_log p) as [l|]; [|done]. by destruct (m _) as [| [|?] | |].
Qed.
Lemma apart_call_out r : apart (call_out r).
Proof. intros p. by destruct r. Qed.
Lemma apart_this : apart factory_this.
Proof. intros p. unfold factory_this. by destruct (id_to_reference _ _ _). Qed.
Lemma apart_resolve resolve : apart (resolveInitialReferences resolve).
Proof.
  unfold resolveInitialReferences, resolve_required.
  repeat (apply apart_bind; [intros p; by destruct (resolve _) as [|[]]|intros ?]). apply apart_ret.
Qed.

Create HintDb apart.
#[local] Hint Resolve apart_ret apart_gets apart_exit apart_abort apart_assert apart_world apart_names
  apart_log_world apart_call_out apart_this apart_resolve : apart.

Ltac set_apart :=
  repeat first
    [ solve [eauto with apart]
    | apply apart_bind; [|intros ?]
    | apply apart_modify; intros ?; reflexivity
    | match goal with |- apart (match ?x with _ => _ end) => destruct x end ].

Lemma apart_load o : apart (load S o).
Proof. unfold load, construct_log, onLog. set_apart. Qed.
Lemma apart_bring_up o args st eps : apart (bring_up S o args st eps).
Proof. unfold bring_up, createGCPOA, register_factory. set_apart. Qed.
Lemma apart_serve rounds callback : apart (serve_until_shutdown S rounds callback).
Proof. unfold serve_until_shutdown, runWorker. set_apart. Qed.
Lemma apart_destroy : apart (destroy_log S).
Proof. unfold destroy_log. set_apart. Qed.

(** Destroying the log returns. *)
Lemma destroy_returns p : ∃ p', destroy_log S p = Ret tt p' ∧ p_daemon p' = p_daemon p.
Proof.
  unfold destroy_log, gets, mbind, M_bind. destruct (p_log p); [|by eexists].
  by destruct (p_factory p); eexists.
Qed.

(** The end of the process: by [::exit], or by a return of [main]. *)
Lemma ended_exit n p pipe b h : told pipe b h (p_daemon p) → (b = true → h = true) →
  let r := ended (Exited n p) in
  r.1 = Some n ∧ if b then ∃ st, o_pipe (p_daemon r.2).2 = pipe ++ [st] ∧ (st = n ∨ st = -1)
                 else o_pipe (p_daemon r.2).2 = pipe.
Proof.
  intros Ht Hb. cbn [ended fst snd p_daemon set_daemon]. split; [done|]. destruct h.
  - by apply (exit_told n (p_daemon p) pipe b).
  - destruct b; [by specialize (Hb eq_refl)|]. unfold at_exit, gets, mbind, M_bind.
    destruct Ht as (K1 & _ & K3). by rewrite K3.
Qed.

Lemma ended_return n p pipe b h : told pipe b h (p_daemon p) → (b = true → h = true) →
  let r := ended ((_ ← onDaemon (Daemon.shutdown 0); mret n) p) in
  r.1 = Some n ∧ if b then ∃ st, o_pipe (p_daemon r.2).2 = pipe ++ [st] ∧ (st = 0 ∨ st = -1)
                 else o_pipe (p_daemon r.2).2 = pipe.
Proof.
  intros Ht Hb. unfold onDaemon, mbind, M_bind.
  pose proof (shutdown_spec 0 pipe b h (p_daemon p) Ht) as K.
  destruct (Daemon.shutdown 0 (p_daemon p)) as [[] d|e d|c d|d]; [|done..]. destruct K as [Kt Kp]. cbv zeta.
  destruct (ended_exit n (set_daemon d p) (o_pipe d.2) false h Kt ltac:(done)) as [_ E]. split; [done|].
  change (o_pipe (p_daemon (ended (Exited n (set_daemon d p))).2).2 = o_pipe d.2) in E.
  unfold mret, M_ret. cbn [ended] in *. rewrite E. by destruct b.
Qed.

(** [main] after the options. *)
Definition running (rounds : list (list (request * option Z) * (request → option reply)))
    (callback : Z → request → reply → M exn world unit) (o : options) (argv : list string) : Proc Z :=
  n ← try_catch (_ ← start S o argv; n ← serve_until_shutdown S rounds callback; _ ← destroy_log S; mret n)
        (λ _, Some (_ ← destroy_log S; mret 1));
  _ ← onDaemon (Daemon.shutdown 0);
  mret n.

(** How it ends, from what happened before the log is destroyed. *)
Definition closing (n : Z) (p : process) : outcome exn process Z :=
  (_ ← onDaemon (Daemon.shutdown 0); mret n) (final (destroy_log S p)).
Definition wrap (r : outcome exn process Z) : outcome exn process Z :=
  match r with
  | Ret n p => closing n p
  | Throw _ p => closing 1 p
  | Exited n p => Exited n p
  | Aborted p => Aborted p
  end.

Lemma running_cases rounds callback o argv p :
  running rounds callback o argv p = wrap ((_ ← start S o argv; serve_until_shutdown S rounds callback) p).
Proof.
  unfold running, wrap, closing, try_catch, mbind, M_bind. destruct (start S o argv p) as [[] p1|e p1|n p1|p1]; try done.
  - destruct (serve_until_shutdown S rounds callback p1) as [n p2|e p2|n p2|p2]; try done;
      destruct (destroy_returns p2) as (p3 & E & _); by rewrite E.
  - destruct (destroy_returns p1) as (p3 & E & _). by rewrite E.
Qed.

Lemma ended_closing n p pipe b h : told pipe b h (p_daemon p) → (b = true → h = true) →
  let r := ended (closing n p) in
  r.1 = Some n ∧ if b then ∃ st, o_pipe (p_daemon r.2).2 = pipe ++ [st] ∧ (st = 0 ∨ st = -1)
                 else o_pipe (p_daemon r.2).2 = pipe.
Proof.
  intros Ht Hb. unfold closing. destruct (destroy_returns p) as (p2 & -> & E). apply (ended_return _ _ _ _ h); [|done].
  cbn [final]. by rewrite E.
Qed.

(** What follows when the parent was told, or there is none. *)
Lemma wrap_told (m : Proc Z) p pipe h : apart m → told pipe false h (p_daemon p) →
  o_pipe (p_daemon (ended (wrap (m p))).2).2 = pipe.
Proof.
  intros Hm Ht. specialize (Hm p). destruct (m p) as [n p'|e p'|n p'|p']; cbn [final wrap] in *; rewrite <- Hm in Ht.
  - by apply (ended_closing n p' pipe false h).
  - by apply (ended_closing 1 p' pipe false h).
  - by apply (ended_exit n p' pipe false h).
  - apply Ht.
Qed.

Lemma apply_options_told o d os : told [] (_haveParent d) (o_handler os) (d, os) → told [] (_haveParent d) (o_handler os) (apply_options o d, os).
Proof.
  intros (K1 & K2 & K3). split_and!; try done. unfold apply_options.
  by destruct (o_pidfile o), (o_foreground o), (o_tracefile o).
Qed.
Lemma apply_options_foreground o d : _foreground (apply_options o d) = o_foreground o || _foreground d.
Proof. unfold apply_options. by destruct (o_pidfile o), (o_foreground o), (o_tracefile o). Qed.

Lemma onDaemon_cases {A} (m : D A) p :
  onDaemon m p = match m (p_daemon p) with
                 | Ret a d => Ret a (set_daemon d p)
                 | Throw e _ => match e with end
                 | Exited c d => Exited c (set_daemon d p)
                 | Aborted d => Aborted (set_daemon d p)
                 end.
Proof. done. Qed.

Lemma program_running rounds callback argv o p :
  read_options (default argv (s_extractInitOptions S argv)) = Some (inr o) →
  program S rounds callback argv p =
    ended (running rounds callback o argv (set_daemon (apply_options o (p_daemon p).1, (p_daemon p).2) p)).
Proof. intros E. unfold program, main. rewrite E. done. Qed.

Lemma bring_up_ret o args st eps p p' :
  bring_up S o args st eps p = Ret tt p' → (∃ f, p_factory p' = Some f) ∧ p_handlers p' = signals.
Proof.
  unfold bring_up. intros (? & p1 & _ & E)%bind_inv. apply bind_inv in E as (refs & p2 & _ & E).
  apply bind_inv in E as (? & p3 & _ & E). apply bind_inv in E as (? & p4 & _ & E).
  apply bind_inv in E as (f & p5 & _ & E). apply bind_inv in E as ([] & p6 & [= <-] & E).
  apply bind_inv in E as ([] & p7 & E7 & E). apply bind_inv in E as ([] & p8 & E8 & [= <-]). split; [|done].
  exists f. cbn [p_factory set_handlers].
  assert (K7 : p_factory p7 = Some f).
  { unfold createGCPOA in E7. apply bind_inv in E7 as ([] & q & Eq & [= <-]). unfold onWorld, zoom in Eq.
    destruct (poa_op _ _); [|done..]. by injection Eq as _ <-. }
  unfold register_factory in E8. apply bind_inv in E8 as (ob & q & Eq & E8). unfold factory_this in Eq.
  destruct (id_to_reference _ _ _); [done|]. injection Eq as <- <-. destruct (str2name _); [|done].
  apply bind_inv in E8 as (? & q & Eq & [= <-]). unfold onNames, zoom in Eq.
  destruct (bindName2Object _ _ _ _); [|done..]. by injection Eq as <- <-.
Qed.

(** From the return of [daemonize]. *)
Lemma started rounds callback o args st eps p b : told [] b true (p_daemon p) →
  let r := ended (wrap ((_ ← (_ ← bring_up S o args st eps; onDaemon runningOk);
                         serve_until_shutdown S rounds callback) p)) in
  let pipe := o_pipe (p_daemon r.2).2 in
  if negb b then pipe = [] else
  match bring_up S o args st eps p with
  | Ret _ p' => (∃ f, p_factory p' = Some f) ∧ p_handlers p' = signals ∧ pipe = [0]
  | Throw _ _ => r.1 = Some 1 ∧ (pipe = [0] ∨ pipe = [-1])
  | Exited n _ => r.1 = Some n ∧ (pipe = [n] ∨ pipe = [-1])
  | Aborted _ => r.1 = None ∧ pipe = [] ∧ waitForChild pipe = -1
  end.
Proof.
  intros Ht. rewrite bind_assoc, bind_cases. pose proof (apart_bring_up o args st eps p) as Ha.
  destruct (bring_up S o args st eps p) as [[] p1|e p1|n p1|p1] eqn:Eb; cbn [final] in Ha; rewrite <- Ha in Ht.
  - assert (Hpipe : o_pipe (p_daemon (ended (wrap ((_ ← onDaemon runningOk; serve_until_shutdown S rounds callback) p1))).2).2
      = if b then [0] else []).
    { unfold onDaemon, mbind, M_bind. pose proof (running_spec b (p_daemon p1) Ht) as K.
      destruct (runningOk (p_daemon p1)) as [[] d|?|n d|?]; [|done| |done].
      - apply (wrap_told _ _ _ true); [apply apart_serve|done].
      - by apply (ended_exit n (set_daemon d p1) _ false true). }
    destruct b; cbn [negb]; [|exact Hpipe].
    destruct (bring_up_ret _ _ _ _ _ _ Eb) as [K1 K2]. split_and!; [done|done|exact Hpipe].
  - destruct (ended_closing 1 p1 [] b true Ht ltac:(done)) as [K1 K2]. destruct b; cbn [negb]; [|exact K2].
    destruct K2 as (s & K2 & Hs). split; [exact K1|]. cbn [wrap]. rewrite K2. destruct Hs as [-> | ->]; auto.
  - destruct (ended_exit n p1 [] b true Ht ltac:(done)) as [K1 K2]. destruct b; cbn [negb]; [|exact K2].
    destruct K2 as (s & K2 & Hs). split; [exact K1|]. cbn [wrap]. rewrite K2. destruct Hs as [-> | ->]; auto.
  - cbn. destruct Ht as (K & _). rewrite K. by destruct b.
Qed.

(** C15: what the parent is told, whatever happens.  In the background the parent of a server is
    told 0 as soon as the factory is made, registered and the signals are handled, and nothing
    more; an [::exit] before that is reported with its status (or -1); but an exception before
    that makes [main] return 1 and the parent is told 0 all the same (or -1); a process that dies
    tells nothing.  In the foreground, and before the fork, nobody is told anything. *)
Theorem program_told rounds callback argv opts o p :
  read_options (default argv (s_extractInitOptions S argv)) = Some (inr opts) →
  p_daemon p = (new_Daemon, o) → o_pipe o = [] → o_handler o = false →
  let p1 := set_daemon (apply_options opts new_Daemon, o) p in
  let r := program S rounds callback argv p in
  let pipe := o_pipe (p_daemon r.2).2 in
  match load S opts p1 with
  | Ret s p2 =>
      match onDaemon (daemonize (s_kill S)) p2 with
      | Ret _ p3 =>
          if o_foreground opts then pipe = [] else
          match bring_up S opts argv s.1 s.2 p3 with
          | Ret _ p4 => (∃ f, p_factory p4 = Some f) ∧ p_handlers p4 = signals ∧ pipe = [0]
          | Throw _ _ => r.1 = Some 1 ∧ (pipe = [0] ∨ pipe = [-1])
          | Exited n _ => r.1 = Some n ∧ (pipe = [n] ∨ pipe = [-1])
          | Aborted _ => r.1 = None ∧ pipe = [] ∧ waitForChild pipe = -1
          end
      | _ => r.1 = Some (-1)
      end
  | Throw _ _ => r.1 = Some 1 ∧ pipe = []
  | Exited n _ => r.1 = Some n ∧ pipe = []
  | Aborted _ => r.1 = None ∧ pipe = []
  end.
Proof.
  intros Ho Hd Hpipe Hh p1 r pipe. subst r pipe. rewrite (program_running _ _ _ _ _ Ho), Hd. cbn [fst snd]. fold p1.
  assert (Ht : told [] false false (p_daemon p1)).
  { pose proof (apply_options_told opts new_Daemon o) as K. rewrite Hh in K. by apply K. }
  assert (Hfg : _foreground (p_daemon p1).1 = o_foreground opts).
  { unfold p1. cbn. rewrite apply_options_foreground. apply orb_false_r. }
  clearbody p1. rewrite running_cases. unfold start.
  rewrite bind_assoc, bind_cases. pose proof (apart_load opts p1) as Ha.
  destruct (load S opts p1) as [s p2|e p2|n p2|p2]; cbn [final] in Ha; rewrite <- Ha in Ht, Hfg; clear Ha.
  - rewrite <- Hfg, bind_assoc, bind_cases, (onDaemon_cases (daemonize (s_kill S))).
    pose proof (daemonize_spec (s_kill S) _ (p_daemon p2) (conj Ht eq_refl)) as K.
    destruct (daemonize (s_kill S) (p_daemon p2)) as [[] d|?|n d|?]; [|done| |done].
    2:{ destruct K as [-> _]. done. }
    pose proof (started rounds callback opts argv s.1 s.2 (set_daemon d p2) _ K) as R.
    rewrite negb_involutive in R. exact R.
  - by apply (ended_closing 1 p2 [] false false).
  - by apply (ended_exit n p2 [] false false).
  - split; [done|]. apply Ht.
Qed.
End told.

(** ** A start that succeeds *)

Section starts.
Context `{NL : NamingLaws} `{OLW : !OrbLaws} `{PM : !PoaManagerOps}.
Variable S : system.
Abbreviation Proc := (M exn process).

(** The ORB comes up with these end points and initial references. *)
Record accepts (args : list string) (eps : list (string * string)) (refs : initial_refs) : Prop := {
  ac_init : s_ORB_init S args eps = inr tt;
  ac_root : s_resolve S "RootPOA" = inr (Some (_RootPOA refs));
  ac_ins : s_resolve S "omniINSPOA" = inr (Some (_omniINSPOA refs));
  ac_names : s_resolve S "NameService" = inr (_NameService refs);
  ac_current : s_resolve S "POACurrent" = inr (Some (_POACurrent refs));
  ac_activate : s_activate S (_RootPOA refs) = inr tt;
  ac_activate_ins : s_activate S (_omniINSPOA refs) = inr tt }.

(** Nothing fails, and there is no other server's pidfile. *)
Definition healthy (s : DaemonImpl * os) : Prop :=
  o_faults s.2 = [] ∧ ∀ name, _pidfile s.1 = Some name → o_files s.2 !! name = None.

Lemma daemonize_runs s : healthy s → ∃ s', daemonize (s_kill S) s = Ret tt s' ∧ o_faults s'.2 = [].
Proof.
  destruct s as [[tr fg pf hp hpar hs] [flt files pid pipe hd]]. intros [Hf Hp]. cbn in Hf, Hp. subst flt.
  unfold daemonize, fork, checkPidfileOrShutdown, writePidfile, redirectStreamsTo, openFileFor, call, or_fail, updD,
    set_files, modify, gets, mbind, M_bind, mret, M_ret. cbn.
  destruct fg, pf as [name|]; cbn; try rewrite (Hp name eq_refl); cbn;
    destruct tr as [[|? ?]|]; cbn; eexists; split; reflexivity.
Qed.

Lemma running_runs s : o_faults s.2 = [] → ∃ s', runningOk s = Ret tt s'.
Proof.
  destruct s as [[tr fg pf hp hpar hs] [flt files pid pipe hd]]. intros Hf. cbn in Hf. subst flt.
  unfold runningOk, redirectStreamsTo, openFileFor, notifyParent, call, or_fail, updD, modify, gets, mbind, M_bind.
  destruct hpar, hs; cbn; by eexists.
Qed.

Lemma resolve_ret {T} (s : T) args eps refs :
  accepts args eps refs → resolveInitialReferences (s_resolve S) s = Ret refs s.
Proof.
  intros [_ K1 K2 K3 K4 _ _]. unfold resolveInitialReferences, resolve_required, mbind, M_bind, mret, M_ret.
  rewrite K1, K2, K3, K4. by destruct refs.
Qed.

(** The log is found and read. *)
Lemma load_ret o l d pd t root ecf p :
  new_omniEventsLog (o_logDir o) (s_logdir S) (s_hostname S) = Some l → p_storage p = mkStorage d pd [] →
  text d (_activeFilename l) = Some t → parse t = Some root → child "ecf" root = Some ecf →
  (attrLong "port" (-1) ecf <=? 0) = false → port_conflict o ecf = false → endpoint_conflict o ecf = false →
  ∃ eps, orb_end_points o root = Some eps ∧ load S o p = Ret (root, eps) (set_log (Some l) p).
Proof.
  intros Hl Hs Ht Hroot Hc K1 K2 K3.
  assert (He : is_Some (orb_end_points o root)) by (unfold orb_end_points; rewrite Hc; by eexists).
  destruct He as [eps He]. exists eps. split; [done|]. unfold load, construct_log. rewrite Hl.
  unfold modify, onLog, onLogWorld, zoom, mbind, M_bind. cbn [p_log set_log p_storage p_world fst snd]. rewrite Hs.
  rewrite (load_state_file o l d pd t root ecf Ht Hroot Hc), K1, K2, K3. cbn [orb fst snd]. rewrite He.
  destruct p; cbn in *; by subst.
Qed.

(** The stream is opened and the factory restored. *)
Lemma incarnate_ret f node srt root l d pd t w st :
  text d (_activeFilename l) = Some t → child "ecf" root = Some node →
  0 ≤ f_port f < 4294967296 → _attr node = _attr (set_attrs (factory_attrs f) empty_node) →
  Forall2 (λ c s, c.1 = cs_name s ∧ channel_node c.2 s) (_child node) srt → Forall spec_ok srt →
  Forall2 (λ ae s, env_ok ae.2 s) (s_envs S) srt → NoDup (s_envs S).*1 →
  run_cmds (factory_cmds (s_factory S) (s_envs S) node) (poas w) = Some st →
  ∃ i f' w', incarnateFactory (s_factory S) (s_envs S) root ((l, mkStorage d pd []), w) =
      Ret f' ((l_set_stream (Some i) l, mkStorage d pd []), w') ∧ names d !! _activeFilename l = Some i ∧
    poas w' = st ∧ f_port f' = f_port f ∧ f_endPointNoListen f' = f_endPointNoListen f ∧
    Forall2 (object_serves f' w') (s_envs S) srt.
Proof.
  intros Ht Hc Hport Hattr Hkids Hok He Hn Hst.
  assert (Hi : is_Some (names d !! _activeFilename l)).
  { unfold text in Ht. destruct (names d !! _activeFilename l); [by eexists|done]. }
  destruct Hi as [i Hi].
  destruct (new_factory_restores f node srt (s_factory S) (s_envs S) (set_logstream (Some t) w) st)
    as (f' & w' & E & Hw & P1 & P2 & _ & P4); try done.
  exists i, f', w'. split_and!; try done. unfold incarnateFactory.
  assert (Eo : open_logstream root (l, mkStorage d pd []) = Ret node (l_set_stream (Some i) l, mkStorage d pd [])).
  { unfold open_logstream, theLog, updLog, onDisk, zoom, open_append, next_fault, gets, modify, mbind, M_bind.
    cbn [fst snd fs faults]. rewrite Hi. cbn [fst snd mret M_ret]. by rewrite Hc. }
  cbn [fst snd]. rewrite Eo. cbn [fst snd fs]. change (_activeFilename (l_set_stream (Some i) l)) with (_activeFilename l).
  by rewrite Ht, E.
Qed.

(** The factory is registered. *)
Lemma register_ret refs factoryName ns front last r obj p :
  id_to_reference INSPOA "omniEvents" (poas (p_world p)) = inr obj → _NameService refs = Some ns →
  str2name factoryName = Some (front ++ [last]) → follow (p_names p) (s_context S ns) front (Some r) →
  (r ≫= λ c, binding (p_names p) c last) ≫= as_context = None →
  ∃ c n', register_factory S refs factoryName p = Ret tt (set_names n' p) ∧
    follow n' (s_context S ns) front (Some (Some c)) ∧ binding n' c last = Some obj.
Proof.
  intros Hobj Hns Hname Hf Hb. destruct (bind_returns _ _ _ obj _ _ Hf Hb) as (c & n' & E & K1 & K2 & _).
  exists c, n'. split; [|done]. unfold register_factory, factory_this, onNames, zoom, mbind, M_bind.
  by rewrite Hobj, Hname, Hns; cbn [fmap option_fmap option_map]; rewrite E.
Qed.

(** A process that serves the channels [srt] of the factory [f], and logs to the active file of
    [l], on a disk that is still [d]. *)
Record serving (p : process) (f : EventChannelFactory_i) (srt : list channel_spec) (l : omniEventsLog) (d : disk)
    : Prop := {
  sg_factory : ∃ f', p_factory p = Some f' ∧ f_port f' = f_port f ∧
    f_endPointNoListen f' = f_endPointNoListen f ∧ Forall2 (object_serves f' (p_world p)) (s_envs S) srt;
  sg_stream : ∃ i, p_log p = Some (l_set_stream (Some i) l) ∧ names d !! _activeFilename l = Some i;
  sg_disk : fs (p_storage p) = d;
  sg_handlers : p_handlers p = signals }.

(** A name can be given to the factory, below the context [nc]. *)
Definition free_name (n : ns_state) (nc : context) (front : list Naming.component) (last : Naming.component) : Prop :=
  ∃ r, follow n nc front (Some r) ∧ (r ≫= λ c, binding n c last) ≫= as_context = None.
Definition leads_to (n : ns_state) (nc : context) (front : list Naming.component) (last : Naming.component)
    (obj : Object) : Prop :=
  ∃ c, follow n nc front (Some (Some c)) ∧ binding n c last = Some obj.

Lemma bring_up_starts o args eps refs f node srt root l d pd t p st ns front last obj :
  accepts args eps refs → p_log p = Some l → p_storage p = mkStorage d pd [] →
  text d (_activeFilename l) = Some t → child "ecf" root = Some node →
  0 ≤ f_port f < 4294967296 → _attr node = _attr (set_attrs (factory_attrs f) empty_node) →
  Forall2 (λ c s, c.1 = cs_name s ∧ channel_node c.2 s) (_child node) srt → Forall spec_ok srt →
  Forall2 (λ ae s, env_ok ae.2 s) (s_envs S) srt → NoDup (s_envs S).*1 →
  run_cmds (factory_cmds (s_factory S) (s_envs S) node ++ [Create "Iterators"]) (poas (p_world p)) = Some st →
  id_to_reference INSPOA "omniEvents" st = inr obj → _NameService refs = Some ns →
  str2name (o_factoryName o) = Some (front ++ [last]) → free_name (p_names p) (s_context S ns) front last →
  ∃ p', bring_up S o args root eps p = Ret tt p' ∧ serving p' f srt l d ∧
    leads_to (p_names p') (s_context S ns) front last obj.
Proof.
  intros Ha Hl Hs Ht Hc Hport Hattr Hkids Hok He Hn Hst Hobj Hns Hname (r & Hf & Hb).
  apply run_cmds_split in Hst as (st1 & Hst & (st2 & Hcr & [= <-])%run_cmds_cons).
  destruct (incarnate_ret f node srt root l d pd t (p_world p) st1) as (i & f' & w' & Ei & Hi & Hw & P1 & P2 & P3);
    try done.
  unfold bring_up, call_out. rewrite bind_cases, (ac_init _ _ _ Ha).
  rewrite (bind_Ret _ _ _ _ _ (resolve_ret p _ _ _ Ha)).
  rewrite bind_cases, (ac_activate _ _ _ Ha), bind_cases, (ac_activate_ins _ _ _ Ha).
  set (p0 := set_world w' (set_storage (mkStorage d pd []) (set_log (Some (l_set_stream (Some i) l)) p))).
  assert (E0 : onLogWorld (incarnateFactory (s_factory S) (s_envs S) root) p = Ret f' p0).
  { unfold onLogWorld. by rewrite Hl, Hs, Ei. }
  set (p1 := set_factory (Some f') p0). rewrite (bind_Ret _ _ _ _ _ E0), (bind_Ret _ _ p0 tt p1 eq_refl).
  set (p2 := set_gc (new_locator (s_locator S) (p_gc p1).1 (p_gc p1).2) (set_world (set_poas st2 w') p1)).
  assert (E2 : createGCPOA S "Iterators" p1 = Ret tt p2).
  { unfold createGCPOA, onWorld, zoom, poa_op, mbind, M_bind.
    change (poas (p_world p1)) with (poas w'). by rewrite Hw, (run_create _ _ _ Hcr). }
  rewrite (bind_Ret _ _ _ _ _ E2).
  destruct (register_ret refs (o_factoryName o) ns front last r obj p2) as (c & n' & E3 & K1 & K2); try done.
  rewrite (bind_Ret _ _ _ _ _ E3). eexists. split; [reflexivity|]. split; [|by exists c].
  split; [|by exists i|done|done]. exists f'. split_and!; try done.
  eapply Forall2_impl; [exact P3|]. intros ae s (ch & Hch & Hs'). exists ch. split; [done|].
  eapply channel_serves_le; [|exact Hs']. cbn. rewrite Hw. by eapply run_cmd_le.
Qed.

(** C5: a server starts.  Let the active file be the snapshot of a factory with clients of all
    kinds, and let the options not contradict it.  If nothing fails (no pidfile of another server,
    an ORB that comes up and accepts the calls, a name that is free or another factory's), then
    from the options to [runningOk] everything returns: the end points of the ORB are those of the
    factory, the new factory has the same channels with the same clients, the stream writes to the
    active file and the disk is untouched, the name leads to the factory, the signals are handled,
    and in the background the parent is told 0. *)
Theorem server_starts o args f w specs l d pd t :
  0 < f_port f < 2147483648 → no_space (f_endPointNoListen f) = true →
  channels_hold f w specs → Forall spec_ok specs → NoDup (map cs_name specs) → snapshot f w = Some t →
  new_omniEventsLog (o_logDir o) (s_logdir S) (s_hostname S) = Some l → text d (_activeFilename l) = Some t →
  o_port o = 0 ∨ o_port o = f_port f →
  (∀ e, o_endPointNoListen o = Some e → e = f_endPointNoListen f) →
  ∃ node srt, child "ecf" (default empty_node (parse t)) = Some node ∧ srt ≡ₚ specs ∧
  ∀ p refs st ns front last obj,
    let eps := ("endPoint", "giop:::" +:+ show_Z (f_port f)) ::
      (if str_empty (f_endPointNoListen f) then [] else [("endPointNoListen", f_endPointNoListen f)]) in
    accepts args eps refs → healthy (p_daemon p) → told [] false false (p_daemon p) →
    p_storage p = mkStorage d pd [] →
    Forall2 (λ ae s, env_ok ae.2 s) (s_envs S) srt → NoDup (s_envs S).*1 →
    run_cmds (factory_cmds (s_factory S) (s_envs S) node ++ [Create "Iterators"]) (poas (p_world p)) = Some st →
    id_to_reference INSPOA "omniEvents" st = inr obj → _NameService refs = Some ns →
    str2name (o_factoryName o) = Some (front ++ [last]) → free_name (p_names p) (s_context S ns) front last →
    ∃ p', start S o args p = Ret tt p' ∧ serving p' f srt l d ∧
      leads_to (p_names p') (s_context S ns) front last obj ∧
      o_pipe (p_daemon p').2 = if _foreground (p_daemon p).1 then [] else [0].
Proof.
  intros Hport Hend Hh Hok Hn Hsnap Hl Ht Hop Hoe. pose proof (spec_ok_wf specs Hok Hn) as Hw.
  destruct (factory_writes f w specs Hend Hh (proj1 Hw) "" [] is_log_nil) as (t1 & E & Hlog). cbn [app] in Hlog.
  assert (Hp : parse t = Some (replay empty_node (factory_items f specs))).
  { unfold snapshot, log_output in Hsnap. rewrite (bind_Ret _ _ _ _ _ E) in Hsnap. injection Hsnap as <-.
    apply is_log_parse. rewrite <- (app_nil_r (factory_items f specs)). apply is_log_app; [done|apply is_log_nl]. }
  destruct (factory_database f specs Hw) as (node & srt & Hnode & Hattr & Hperm & Hkids).
  exists node, srt. rewrite Hp. split; [done|]. split; [done|].
  intros p refs st ns front last obj eps Ha Hhl Htold Hs He Hna Hst Hobj Hns Hname Hfree.
  destruct (load_ret o l d pd t _ node p Hl Hs Ht Hp Hnode) as (eps' & Heps & Eload).
  { rewrite (factory_port f) by (done || lia). lia. }
  { unfold port_conflict. rewrite (factory_port f) by (done || lia). destruct Hop as [-> | ->]; lia. }
  { unfold endpoint_conflict. destruct (o_endPointNoListen o) as [e|]; [|done].
    rewrite (factory_endPoint f node Hattr), (Hoe e eq_refl), String.eqb_refl. done. }
  assert (eps' = eps) as ->.
  { unfold orb_end_points in Heps. rewrite Hnode, (factory_port f), (factory_endPoint f) in Heps by (done || lia).
    rewrite i32_id in Heps by lia. injection Heps as <-. unfold eps. by destruct (str_empty _). }
  destruct (daemonize_runs (p_daemon p) Hhl) as (s1 & E1 & Hf1).
  pose proof (daemonize_spec (s_kill S) (p_daemon p).1 (p_daemon p) (conj Htold eq_refl)) as T1. rewrite E1 in T1.
  set (p2 := set_daemon s1 (set_log (Some l) p)).
  destruct (bring_up_starts o args eps refs f node srt
      (replay empty_node (factory_items f specs)) l d pd t p2 st ns front last obj Ha) as (p3 & E3 & G & N);
    try done; [lia|by rewrite Hperm|].
  pose proof (apart_bring_up S o args (replay empty_node (factory_items f specs)) eps p2) as Hd. rewrite E3 in Hd.
  cbn [final] in Hd. change (p_daemon p2) with s1 in Hd.
  destruct (running_runs s1 Hf1) as (s4 & E4). pose proof (running_spec _ s1 T1) as T4. rewrite E4 in T4.
  exists (set_daemon s4 p3). split; [|split; [by destruct G as [G1 G2 G3 G4]; split|split; [done|]]].
  - unfold start. rewrite (bind_Ret _ _ _ _ _ Eload). cbn [fst snd].
    rewrite bind_cases, onDaemon_cases. change (p_daemon (set_log (Some l) p)) with (p_daemon p). rewrite E1.
    fold p2. rewrite (bind_Ret _ _ _ _ _ E3), onDaemon_cases, Hd, E4. done.
  - cbn [p_daemon set_daemon]. rewrite (proj1 T4). by destruct (_foreground (p_daemon p).1).
Qed.
End starts.

(** ** Witnesses *)

(** A host with an ORB that is well, the naming service at reference 3, and a server that left a
    file. *)
Definition m_system : system := {|
  s_logdir := None; s_hostname := Some "h";
  s_extractInitOptions := Some;
  s_ORB_init := λ _ _, inr tt;
  s_resolve := λ n, inr (Some (obj (if String.eqb n "NameService" then 3 else 5)));
  s_context := λ o, (0%N : context (NamingOps := model_NamingOps));
  s_activate := λ _, inr tt;
  s_kill := λ _, NoProcess;
  s_factory := 8; s_locator := 9; s_envs := [(16, r_env)];
  s_shutdown := inr tt |}.

Definition m_text : string := default "" (snapshot r_factory r_world).
Definition m_disk : disk := mkDisk {[ _activeFilename w_log := 1%N ]} {[ 1%N := m_text ]}.
Definition m_argv : list string := ["omniEvents"; "-P"; "omniEvents.pid"].
Definition m_options : options := mkOptions None 0 None "EventChannelFactory" false (Some "omniEvents.pid") false None.
Definition m_process (d : DaemonImpl) : process :=
  mkProcess (d, sample_os) None (mkStorage m_disk [] []) model_world None ([] : ns_state (NamingOps := model_NamingOps))
    ([], ∅) [] 1 false.

(** A first start on a host where the ORB does not come up: 1 is returned, and the parent hears 0. *)
Definition m_broken : system := {|
  s_logdir := None; s_hostname := Some "h"; s_extractInitOptions := Some;
  s_ORB_init := λ _ _, inl (SystemException "INITIALIZE"); s_resolve := λ _, inr None;
  s_context := λ o, (0%N : context (NamingOps := model_NamingOps));
  s_activate := λ _, inr tt; s_kill := λ _, NoProcess; s_factory := 8; s_locator := 9; s_envs := [];
  s_shutdown := inr tt |}.
Definition m_first : process :=
  mkProcess (new_Daemon, sample_os) None (mkStorage (mkDisk ∅ ∅) [] []) model_world None
    ([] : ns_state (NamingOps := model_NamingOps)) ([], ∅) [] 1 false.

Lemma m_first_read : read_options (default m_argv (s_extractInitOptions m_broken m_argv)) = Some (inr m_options).
Proof. vm_compute. reflexivity. Qed.

Lemma program_told_witness :
  p_daemon m_first = (new_Daemon, sample_os) ∧
  let r := program m_broken [] (λ _ _ _, mret tt) m_argv m_first in
  r.1 = Some 1 ∧ (o_pipe (p_daemon r.2).2 = [0] ∨ o_pipe (p_daemon r.2).2 = [-1]).
Proof.
  split; [reflexivity|].
  exact (program_told m_broken [] (λ _ _ _, mret tt) m_argv m_options sample_os m_first
    m_first_read eq_refl eq_refl eq_refl).
Defined.

Lemma server_starts_witness :
  channels_hold r_factory r_world [r_spec] ∧
  ∃ p', start m_system m_options m_argv (m_process (apply_options m_options new_Daemon)) = Ret tt p' ∧
    serving m_system p' r_factory [r_spec] (l_set_stream None w_log) m_disk ∧
    leads_to (p_names p') (0%N : context (NamingOps := model_NamingOps)) [] (mkComponent "EventChannelFactory" "") (obj 8) ∧
    o_pipe (p_daemon p').2 = [0].
Proof.
  split; [exact r_holds|].
  destruct (server_starts m_system m_options m_argv r_factory r_world [r_spec] (l_set_stream None w_log) m_disk [] m_text)
    as (node & srt & Hnode & Hperm & K).
  - cbn. lia.
  - reflexivity.
  - exact r_holds.
  - constructor; [exact r_spec_ok|constructor].
  - apply NoDup_singleton.
  - vm_compute. reflexivity.
  - vm_compute. reflexivity.
  - vm_compute. reflexivity.
  - by left.
  - done.
  - apply Permutation_singleton_r in Hperm as ->.
    assert (Hst : ∃ st, run_cmds (factory_cmds 8 [(16, r_env)] node ++ [Create "Iterators"]) (poas model_world) = Some st ∧
      id_to_reference INSPOA "omniEvents" st = inr (obj 8)).
    { vm_compute in Hnode. injection Hnode as <-. eexists. split; [vm_compute; reflexivity|]. reflexivity. }
    destruct Hst as (st & Hst & Hobj).
    destruct (K (m_process (apply_options m_options new_Daemon)) (mkInitialRefs (obj 5) (obj 5) (Some (obj 3)) (obj 5)) st
      (obj 3) [] (mkComponent "EventChannelFactory" "") (obj 8)) as (p' & E & G & N & P).
    + by split.
    + split; [done|]. intros name [= <-]. reflexivity.
    + by split_and!.
    + done.
    + constructor; [exact r_env_ok|constructor].
    + apply NoDup_singleton.
    + exact Hst.
    + exact Hobj.
    + done.
    + reflexivity.
    + exists (Some (0%N : context (NamingOps := model_NamingOps))). split; [constructor|done].
    + exists p'. exact (conj E (conj G (conj N P))).
Defined.
