(* ===== verification/Shutdown.v ===== *)
(** * Shutdown: the end of the server (src/main.cc, src/Orb.h, src/Orb.cc, src/daemon_unix.cc)

    [Main] takes for granted that the loop of [Orb::run] ends after the turns it is given.  Here
    the loop is endless, as it is written, and it is a signal that ends it: the handler only sets
    [_shutdownRequested], the loop tests it at its next turn, and [main] goes on to its end; unless
    the wait for the outstanding requests, after the loop, never ends. *)

From S2P Require Import Prelude Monad CxxMap Stream PersistNode PersistLog.
From S2P Require Import Corba ModelOrb Orb OrbLock Disk EventChannel EventChannelFactory ChannelRecord ServerRestart.
From S2P Require Import OmniEventsLog Startup Naming Daemon Main.

Local Open Scope string_scope.
Local Open Scope Z_scope.
Local Open Scope list_scope.

Section life.
Context `{NO : NamingOps} `{PM : !PoaManagerOps}.
Abbreviation Proc := (M exn process).

Variable Sys : system.
Variable callback : Z → request → reply → M exn world unit.
(** What the loop finds in its turns: the requests that were deferred, and the responses. *)
Variable turns : nat → list (request * option Z) * (request → option reply).
(** The signals that come before the test of a turn. *)
Variable signals_at : nat → list string.

(** After the loop: whether the response to a request comes in the end, and the request ([_req]) that
    a callback object has outstanding itself, when the loop was left at a turn. *)
Variable responds : nat → request → bool.
Variable own : nat → Z → option request.

(** The callback objects of the outstanding requests, with their references, and the lock. *)
Definition callback_objects (i : nat) (w : world) : gmap Z callback_object :=
  list_to_map ((λ a, (a, mkCallback (Z.to_nat (ref_count a w)) (own i a))) <$> callbacks (deferredRequests w)).
Definition at_cleanup (i : nat) (w : world) : locked :=
  mkLocked false (deferredRequests w) (callback_objects i w).

(** Where [Orb::run()] is: in its loop, waiting for ever after it, or it has returned, with the
    requests it released and the callbacks it called. *)
Inductive run_end := Looping | Hanging | Left (rel : list request) (inv : list (Z * request)).

Definition add_pass (p : pass) (r : run_end) : run_end :=
  match r with Left rel inv => Left (released p ++ rel) (invoked p ++ inv) | r => r end.

(** [Orb::run()] after at most [fuel] turns, from turn [i].  What is deferred between the test of
    the flag and the lock that is taken after the loop is collected, too, without its callbacks. *)
Fixpoint run_turns (fuel i : nat) : Proc run_end :=
  match fuel with
  | O => mret Looping
  | S f =>
      _ ← for_each (signals_at i) deliver;
      w ← gets p_world;
      if orbShutdownRequested w then
        _ ← onWorld (add_requests (turns i).1);
        w ← gets p_world;
        match lk_collect (responds i) (at_cleanup i w) with
        | None => mret Hanging
        | Some _ => rel ← onWorld run_cleanup; mret (Left rel [])
        end
      else
        _ ← onWorld (add_requests (turns i).1);
        p ← onWorld (run_pass (turns i).2 callback);
        r ← run_turns f (S i);
        mret (add_pass p r)
  end.

(** The server after [runningOk()]: it serves, or waits for ever at its end, or its process has
    ended. *)
Inductive lifetime := Serves | Hangs | Ends (status : option Z) (p : process).

Definition ends (r : outcome exn process Z) : lifetime := let e := ended (wrap Sys r) in Ends e.1 e.2.

Definition life (fuel : nat) (p : process) : lifetime :=
  match (_ ← runWorker; run_turns fuel 0) p with
  | Ret Looping _ => Serves
  | Ret Hanging _ => Hangs
  | Ret (Left _ _) p' => ends ((_ ← call_out (s_shutdown Sys); mret 0) p')
  | Throw e p' => ends (Throw e p')
  | Exited n p' => ends (Exited n p')
  | Aborted p' => ends (Aborted p')
  end.

(** ** The wait after the loop *)

Definition refs_held (w : world) : Prop := ∀ a, 0 ≤ foreign_refs a w.

(** Of the outstanding requests [l] one is never answered; or an object that only they refer to has a
    request of its own. *)
Definition stuck (i : nat) (l : list (request * option Z)) (w : world) : Prop :=
  (∃ p, p ∈ l ∧ responds i p.1 = false) ∨
  ∃ a q, a ∈ callbacks l ∧ foreign_refs a w = 0 ∧ own i a = Some q.

Lemma callback_objects_lookup i w a :
  callback_objects i w !! a =
    if decide (a ∈ callbacks (deferredRequests w)) then Some (mkCallback (Z.to_nat (ref_count a w)) (own i a)) else None.
Proof.
  unfold callback_objects. induction (callbacks (deferredRequests w)) as [|b l IH].
  - by rewrite decide_False by apply not_elem_of_nil.
  - cbn [fmap list_fmap list_to_map foldr]. destruct (decide (b = a)) as [->|Hne].
    + rewrite lookup_insert_eq, decide_True by (by left). done.
    + rewrite lookup_insert_ne by done. rewrite IH.
      apply decide_ext. rewrite elem_of_cons. split; [by right|intros [?|?]; [by destruct Hne|done]].
Qed.

Lemma cnt_pos a l : a ∈ l ↔ (0 < cnt a l)%nat.
Proof.
  induction l as [|b l IH]; [split; [by intros ?%elem_of_nil|cbn; lia]|]. rewrite elem_of_cons, IH, cnt_cons.
  case_decide as Hd; split; [lia|by left|intros [->|?]; [done|lia]|right; lia].
Qed.

Lemma holds_cnt a w : holds a (deferredRequests w) = Z.of_nat (cnt a (callbacks (deferredRequests w))).
Proof. symmetry. apply omap_snd_count. Qed.

Lemma collect_stuck i w : refs_held w → lk_collect (responds i) (at_cleanup i w) = None ↔ stuck i (deferredRequests w) w.
Proof.
  intros Hw. unfold lk_collect, lk_lock, at_cleanup. cbn [lk_held mbind option_bind lk_requests].
  set (s := mkLocked true _ _).
  assert (Hc : ∀ a, Z.of_nat (cnt a (callbacks (deferredRequests w))) ≤ ref_count a w).
  { intros a. specialize (Hw a). unfold foreign_refs in Hw. rewrite holds_cnt in Hw. lia. }
  assert (Hb : backed (callbacks (deferredRequests w)) s).
  { split; cbn [s lk_objects].
    - intros a o. rewrite callback_objects_lookup. case_decide as Ha; [|done]. intros [= <-]. cbn.
      apply cnt_pos in Ha. specialize (Hc a). lia.
    - intros a Ha. rewrite callback_objects_lookup, decide_True by (by apply cnt_pos). eexists. split; [done|]. cbn.
      specialize (Hc a). lia. }
  pose proof (drain_held (responds i) (deferredRequests w) s Hb eq_refl) as K.
  assert (Hs : (∃ q, dying (callbacks (deferredRequests w)) s q) ↔
    ∃ a q, a ∈ callbacks (deferredRequests w) ∧ foreign_refs a w = 0 ∧ own i a = Some q).
  { unfold dying, dies. cbn [s lk_objects]. setoid_rewrite callback_objects_lookup. split.
    - intros (q & a & o & [Ho Hr] & Hq). case_decide as Ha; [|done]. injection Ho as <-. cbn in Hr, Hq.
      exists a, q. split_and!; [done| |done]. unfold foreign_refs. rewrite holds_cnt. specialize (Hc a). lia.
    - intros (a & q & Ha & Hf & Hq). exists q, a, (mkCallback (Z.to_nat (ref_count a w)) (own i a)).
      rewrite decide_True by done. split_and!; [done| |done]. cbn. unfold foreign_refs in Hf. rewrite holds_cnt in Hf. lia. }
  unfold stuck. rewrite <- Hs. etrans; [|exact K]. by destruct (lk_drain _ _ s).
Qed.

(** ** Signals *)

Definition stops (l : list string) : bool := existsb (λ s, String.eqb s "SIGINT" || String.eqb s "SIGTERM") l.
Definition handled (s : string) : Prop := s ∈ signals.*1.

Definition set_shutdown (b : bool) (w : world) : world :=
  mkWorld (logstream w) (checkpointNeeded w) (sent w) (deferredRequests w) b (refs w) (poas w) (clock w) (uid_count w).

(** What signals change. *)
Definition signalled (t : Z) (b : bool) (p : process) : process :=
  set_traceLevel t (set_world (set_shutdown b (p_world p)) p).

Lemma signalled_id p : signalled (p_traceLevel p) (orbShutdownRequested (p_world p)) p = p.
Proof. by destruct p as [? ? ? [] ? ? ? ? ? ?]. Qed.

Lemma onWorld_ret {A} (m : M exn world A) p a w : m (p_world p) = Ret a w → onWorld m p = Ret a (set_world w p).
Proof. unfold onWorld, zoom. by intros ->. Qed.

Lemma deliver_one s p : handled s → p_handlers p = signals →
  ∃ t, deliver s p = Ret tt (signalled t (orbShutdownRequested (p_world p) || stops [s]) p).
Proof.
  intros Hs Hp. unfold deliver, handled in *. rewrite Hp. cbn in Hs.
  repeat (apply elem_of_cons in Hs as [-> | Hs]); [..|by apply elem_of_nil in Hs]; cbn [stops existsb orb].
  1,2: exists (p_traceLevel p); rewrite orb_true_r; unfold OmniEvents_Orb_shutdown; cbn; by destruct p.
  - eexists. rewrite orb_false_r. unfold OmniEvents_Orb_bumpTraceLevel, modify. cbn.
    by destruct p as [? ? ? [] ? ? ? ? ? ?].
  - exists (p_traceLevel p). rewrite orb_false_r, signalled_id. done.
Qed.

Lemma stops_cons s l : stops (s :: l) = stops [s] || stops l.
Proof. unfold stops. cbn [existsb]. by rewrite orb_false_r. Qed.

Lemma deliver_all l p : Forall handled l → p_handlers p = signals →
  ∃ t, for_each l deliver p = Ret tt (signalled t (orbShutdownRequested (p_world p) || stops l) p).
Proof.
  revert p. induction l as [|s l IH]; intros p Hl Hp; cbn [for_each].
  - exists (p_traceLevel p). cbn. by rewrite orb_false_r, signalled_id.
  - apply Forall_cons in Hl as [Hs Hl]. destruct (deliver_one s p Hs Hp) as (t1 & E1).
    rewrite (bind_Ret _ _ _ _ _ E1). destruct (IH (signalled t1 (orbShutdownRequested (p_world p) || stops [s]) p) Hl Hp) as (t & ->). exists t.
    by rewrite (stops_cons s l), orb_assoc.
Qed.

(** ** The loop *)

Hypothesis Hquiet : quiet callback.
Hypothesis Hhandled : ∀ i, Forall handled (signals_at i).

(** The requests of the turns from [i], [n] of them. *)
Definition deferred_in (i n : nat) : list (request * option Z) := concat ((λ j, (turns j).1) <$> seq i n).

Lemma deferred_in_S i n : deferred_in i (S n) = (turns i).1 ++ deferred_in (S i) n.
Proof. done. Qed.

(** What the loop does to the rest of the process. *)
Definition world_only (p p' : process) : Prop :=
  ∃ t, p' = set_traceLevel t (set_world (p_world p') p).

Lemma world_only_refl p : world_only p p.
Proof. exists (p_traceLevel p). by destruct p. Qed.
Lemma world_only_trans p1 p2 p3 : world_only p1 p2 → world_only p2 p3 → world_only p1 p3.
Proof. intros [t1 ->] [t2 E]. exists t2. rewrite E. done. Qed.
Lemma world_only_set w p : world_only p (set_world w p).
Proof. exists (p_traceLevel p). by destruct p. Qed.
Lemma world_only_signalled t b p : world_only p (signalled t b p).
Proof. by exists t. Qed.
Lemma world_only_handlers p p' : world_only p p' → p_handlers p' = p_handlers p.
Proof. by intros [t ->]. Qed.

(** A turn without a request to stop. *)
Lemma turn_goes_on f i p :
  p_handlers p = signals → orbShutdownRequested (p_world p) = false → stops (signals_at i) = false →
  ∃ p1 w2, let ps := pass_spec (turns i).2 (deferredRequests (p_world p) ++ (turns i).1) in
    let p2 := set_world w2 p1 in
    run_turns (S f) i p = (r ← run_turns f (S i); mret (add_pass ps r)) p2 ∧
    world_only p p2 ∧ orbShutdownRequested w2 = false ∧ deferredRequests w2 = remaining ps ∧
    ∀ a, foreign_refs a w2 = foreign_refs a (p_world p).
Proof.
  intros Hp Hs Hi. cbn [run_turns]. destruct (deliver_all (signals_at i) p (Hhandled i) Hp) as (t & E).
  rewrite Hs, Hi in E. cbn [orb] in E. rewrite (bind_Ret _ _ _ _ _ E). set (p0 := signalled t false p).
  rewrite (bind_Ret (gets p_world) _ p0 (p_world p0) p0) by done. change (orbShutdownRequested (p_world p0)) with false. cbv iota.
  destruct (add_requests_ret (turns i).1 (p_world p0)) as (w1 & E1 & Hd1 & Hs1 & Hf1); [done|].
  rewrite (bind_Ret _ _ _ _ _ (onWorld_ret _ p0 _ _ E1)).
  destruct (run_pass_spec (turns i).2 callback w1 Hquiet) as (w2 & E2 & Hd2 & Hs2 & Hr2).
  rewrite (bind_Ret _ _ _ _ _ (onWorld_ret _ (set_world w1 p0) _ _ E2)). exists (set_world w1 p0), w2.
  cbn. change (deferredRequests (p_world p0)) with (deferredRequests (p_world p)) in Hd1. rewrite <- Hd1.
  split_and!; [done| |by rewrite Hs2|done|].
  - exists t. by destruct p.
  - intros a. specialize (Hf1 a). destruct (pass_partition (turns i).2 (deferredRequests w1)) as (_ & P & _).
    specialize (P a). specialize (Hr2 a). unfold foreign_refs in *. rewrite Hd2.
    change (ref_count a (p_world p0)) with (ref_count a (p_world p)) in Hf1.
    change (deferredRequests (p_world p0)) with (deferredRequests (p_world p)) in Hf1. lia.
Qed.

Lemma run_goes_on fuel i p :
  p_handlers p = signals → orbShutdownRequested (p_world p) = false →
  (∀ j, (i ≤ j < i + fuel)%nat → stops (signals_at j) = false) →
  ∃ p', run_turns fuel i p = Ret Looping p' ∧ world_only p p'.
Proof.
  revert i p. induction fuel as [|f IH]; intros i p Hp Hs Hi; [by exists p; split; [|apply world_only_refl]|].
  destruct (turn_goes_on f i p Hp Hs) as (p1 & w2 & E & W & Hs2 & _ & _); [apply Hi; lia|]. cbv zeta in *.
  destruct (IH (S i) (set_world w2 p1)) as (p' & E' & W'); [|done|intros j Hj; apply Hi; lia|].
  { by rewrite (world_only_handlers _ _ W). }
  exists p'. rewrite E, (bind_Ret _ _ _ _ _ E'). split; [done|]. by eapply world_only_trans.
Qed.

(** The response to [r] that comes at one of the turns from [i], [n] of them. *)
Definition returns_in (i n : nat) (r : request) : Prop :=
  ∃ j v o, (i ≤ j < i + n)%nat ∧ (turns j).2 r = Some (Returned v o).

Lemma invoked_returned poll l c r : (c, r) ∈ invoked (pass_spec poll l) → ∃ v o, poll r = Some (Returned v o).
Proof.
  unfold pass_spec. cbn [invoked]. intros ([req cb] & _ & E)%list_elem_of_omap. cbn in E.
  destruct (poll req) as [[v o|e]|] eqn:Ep; [|done..]; destruct cb; simplify_eq; by exists v, o.
Qed.

(** What is outstanding after [n] turns from turn [i], and at the end of the loop. *)
Fixpoint outstanding (l : list (request * option Z)) (i n : nat) : list (request * option Z) :=
  match n with
  | O => l
  | S n' => outstanding (remaining (pass_spec (turns i).2 (l ++ (turns i).1))) (S i) n'
  end.
Definition left_over (l : list (request * option Z)) (i n : nat) : list (request * option Z) :=
  outstanding l i n ++ ((λ p, (p.1, None)) <$> (turns (i + n)).1).

(** Requests that are deferred after the signal lose their callbacks. *)
Lemma add_requests_stopping l w : orbShutdownRequested w = true →
  ∃ w', add_requests l w = Ret tt w' ∧ deferredRequests w' = deferredRequests w ++ ((λ p, (p.1, None)) <$> l) ∧
    ∀ a, foreign_refs a w' = foreign_refs a w.
Proof.
  revert w. induction l as [|[r cb] l IH]; intros w Hs; unfold add_requests in *; cbn [for_each fst snd].
  - exists w. split_and!; [done|by rewrite app_nil_r|done].
  - set (w1 := set_deferredRequests (deferredRequests w ++ [(r, None)]) w).
    assert (E1 : deferredRequest r cb w = Ret tt w1).
    { unfold deferredRequest, get, modify, mbind, M_bind. by rewrite Hs. }
    rewrite (bind_Ret _ _ _ _ _ E1). destruct (IH w1) as (w' & E & Hd & Hf); [done|]. exists w'. rewrite E. split; [done|]. split.
    + rewrite Hd. subst w1. cbn. by rewrite <- app_assoc.
    + intros a. rewrite Hf. unfold foreign_refs, w1. cbn [deferredRequests set_deferredRequests].
      rewrite holds_app, holds_cons, decide_False by done. change (holds a []) with 0.
      change (ref_count a (set_deferredRequests _ w)) with (ref_count a w). lia.
Qed.

(** How the loop ends, at the turn [i+k] that finds the request to stop. *)
Record left_at (i k : nat) (p : process) (rel : list request) (inv : list (Z * request)) (p' : process) : Prop := {
  la_requests : deferredRequests (p_world p') = [];
  la_released : rel ≡ₚ (deferredRequests (p_world p) ++ deferred_in i (S k)).*1;
  la_invoked : inv ⊆+ registered (deferredRequests (p_world p) ++ deferred_in i k);
  la_returned c r : (c, r) ∈ inv → returns_in i k r;
  la_refs a : ref_count a (p_world p') = foreign_refs a (p_world p) }.

Lemma run_signalled f i p :
  p_handlers p = signals → refs_held (p_world p) → stops (signals_at i) = true →
  let l := left_over (deferredRequests (p_world p)) i 0 in
  ∃ r p', run_turns (S f) i p = Ret r p' ∧ world_only p p' ∧
    (r = Hanging ∧ stuck i l (p_world p) ∨
     ∃ rel, r = Left rel [] ∧ ¬ stuck i l (p_world p) ∧ left_at i 0 p rel [] p').
Proof.
  intros Hp Hw Hk l. cbn [run_turns]. destruct (deliver_all (signals_at i) p (Hhandled i) Hp) as (t & E).
  rewrite Hk, orb_true_r in E. rewrite (bind_Ret _ _ _ _ _ E). set (p0 := signalled t true p).
  rewrite (bind_Ret (gets p_world) _ p0 (p_world p0) p0) by done. change (orbShutdownRequested (p_world p0)) with true. cbv iota.
  destruct (add_requests_stopping (turns i).1 (p_world p0)) as (w1 & E1 & Hd1 & Hf1); [done|].
  rewrite (bind_Ret _ _ _ _ _ (onWorld_ret _ p0 _ _ E1)). set (p1 := set_world w1 p0).
  rewrite (bind_Ret (gets p_world) _ p1 w1 p1) by done.
  assert (Hf : ∀ a, foreign_refs a w1 = foreign_refs a (p_world p)) by (intros a; by rewrite Hf1).
  assert (Hl : deferredRequests w1 = l) by (unfold l, left_over; rewrite Hd1, Nat.add_0_r; done).
  assert (Hw1 : refs_held w1) by (intros a; rewrite Hf; apply Hw).
  assert (Hst : lk_collect (responds i) (at_cleanup i w1) = None ↔ stuck i l (p_world p)).
  { rewrite (collect_stuck i w1 Hw1), Hl. unfold stuck. by setoid_rewrite Hf. }
  assert (W1 : world_only p p1) by (exists t; by destruct p).
  destruct (lk_collect _ _) as [s|].
  - destruct (run_cleanup_ret w1) as (w' & E' & Hd & _ & Hr).
    rewrite (bind_Ret _ _ _ _ _ (onWorld_ret _ p1 _ _ E')). eexists _, _. split; [reflexivity|]. split.
    + eapply world_only_trans; [exact W1|apply world_only_set].
    + right. eexists. split; [reflexivity|]. split; [by intros ?%Hst|]. split; cbn [p_world set_world].
      * done.
      * rewrite Hd1, !fmap_app. unfold deferred_in. cbn. rewrite app_nil_r. by rewrite <- list_fmap_compose.
      * apply submseteq_nil_l.
      * by intros ? ? ?%elem_of_nil.
      * intros a. by rewrite Hr, Hf.
  - eexists _, p1. split; [reflexivity|]. split; [done|]. left. split; [done|]. by apply Hst.
Qed.

Lemma run_stops k fuel i p :
  p_handlers p = signals → orbShutdownRequested (p_world p) = false → refs_held (p_world p) →
  (∀ j, (i ≤ j < i + k)%nat → stops (signals_at j) = false) → stops (signals_at (i + k)) = true → (k < fuel)%nat →
  let l := left_over (deferredRequests (p_world p)) i k in
  ∃ r p', run_turns fuel i p = Ret r p' ∧ world_only p p' ∧
    (r = Hanging ∧ stuck (i + k) l (p_world p) ∨
     ∃ rel inv, r = Left rel inv ∧ ¬ stuck (i + k) l (p_world p) ∧ left_at i k p rel inv p').
Proof.
  revert fuel i p. induction k as [|k IH]; intros [|f] i p Hp Hs Hw Hi Hk Hf l; try lia.
  - rewrite Nat.add_0_r in *. destruct (run_signalled f i p Hp Hw Hk) as (r & p' & E & W & K).
    exists r, p'. split; [done|]. split; [done|]. destruct K as [K|(rel & K)]; [by left|right]. by exists rel, [].
  - destruct (turn_goes_on f i p Hp Hs) as (p1 & w2 & E & W & Hs2 & Hd2 & Hf2); [apply Hi; lia|]. cbv zeta in *.
    set (ps := pass_spec (turns i).2 (deferredRequests (p_world p) ++ (turns i).1)) in *.
    destruct (IH f (S i) (set_world w2 p1)) as (r & p' & E' & W' & K); try done.
    { by rewrite (world_only_handlers _ _ W). }
    { intros a. cbn. rewrite Hf2. apply Hw. }
    { intros j Hj. apply Hi. lia. }
    { by rewrite Nat.add_succ_comm. }
    { lia. }
    rewrite E, (bind_Ret _ _ _ _ _ E'). exists (add_pass ps r), p'. split; [done|].
    split; [by eapply world_only_trans|].
    change (p_world (set_world w2 p1)) with w2 in *. rewrite Nat.add_succ_comm in K.
    assert (Hl : left_over (deferredRequests w2) (S i) k = l).
    { unfold l, left_over. cbn [outstanding]. by rewrite Hd2, Nat.add_succ_comm. }
    assert (Hst : stuck (i + S k) (left_over (deferredRequests w2) (S i) k) w2 ↔ stuck (i + S k) l (p_world p)).
    { rewrite Hl. unfold stuck. by setoid_rewrite Hf2. }
    setoid_rewrite Hst in K. destruct K as [[-> K]|(rel & inv & -> & K & [L1 L2 L3 L4 L5])]; [by left|right].
    exists (released ps ++ rel), (invoked ps ++ inv). split; [done|]. split; [done|].
    change (p_world (set_world w2 p1)) with w2 in *.
    destruct (pass_partition (turns i).2 (deferredRequests (p_world p) ++ (turns i).1)) as (P1 & _ & P3). fold ps in P1, P3.
    split; [done|..]; rewrite ?(deferred_in_S i), ?app_assoc.
    + rewrite L2, Hd2, (fmap_app fst (remaining _)), (fmap_app fst (_ ++ _) (deferred_in _ _)), P1, <- app_assoc. done.
    + unfold registered in *. rewrite omap_app. etrans; [|by apply submseteq_app; [exact P3|]].
      rewrite <- app_assoc. apply submseteq_app; [done|]. etrans; [exact L3|]. by rewrite omap_app, Hd2.
    + intros c r [(v & o & Er)%invoked_returned | (j & v & o & Hj & Er)%L4]%elem_of_app.
      * exists i, v, o. split; [lia|done].
      * exists j, v, o. split; [lia|done].
    + intros a. by rewrite L5, Hf2.
Qed.
End life.

(** ** The end of the process *)

(** The files, without the pidfile. *)
Definition pidfile_removed (s : DaemonImpl * os) : gmap string entry :=
  match _havePidfile s.1, _pidfile s.1 with
  | true, Some name => delete name (o_files s.2)
  | _, _ => o_files s.2
  end.

(** Nothing is left that the exit handler would have to do. *)
Definition tidy (s : DaemonImpl * os) : Prop := o_faults s.2 = [] ∧ _haveParent s.1 = false.

Lemma shutdown_tidy n s : tidy s →
  ∃ s', Daemon.shutdown n s = Ret tt s' ∧ tidy s' ∧ _havePidfile s'.1 = false ∧
    o_pipe s'.2 = o_pipe s.2 ∧ o_files s'.2 = pidfile_removed s.
Proof.
  destruct s as [[tr fg pf hp hpar hs] [flt files pid pipe hd]]. intros [Hf Hp]. cbn in Hf, Hp. subst flt hpar.
  unfold Daemon.shutdown, pidfile_removed, call, updD, set_files, modify, gets, mbind, M_bind, mret, M_ret. cbn.
  destruct hp, pf as [name|]; cbn; [|by eexists..].
  destruct (files !! name) eqn:E; cbn; eexists; split_and!; try done. cbn. by rewrite delete_id.
Qed.

Lemma at_exit_tidy n s : tidy s → _havePidfile s.1 = false →
  o_pipe (final (at_exit true n s)).2 = o_pipe s.2 ∧ o_files (final (at_exit true n s)).2 = o_files s.2.
Proof.
  intros Ht Hp. unfold at_exit, gets, mbind, M_bind. destruct (o_handler s.2); [|done].
  destruct (shutdown_tidy n s Ht) as (s' & -> & _ & _ & K1 & K2). split; [exact K1|].
  cbn [final]. rewrite K2. unfold pidfile_removed. by rewrite Hp.
Qed.

Section ends.
Context `{NO : NamingOps} `{PM : !PoaManagerOps}.
Variable Sys : system.
Variable callback : Z → request → reply → M exn world unit.
Variable turns : nat → list (request * option Z) * (request → option reply).
Variable signals_at : nat → list string.
Variable responds : nat → request → bool.
Variable own : nat → Z → option request.

(** A server after [runningOk()]. *)
Record working (p : process) : Prop := {
  wk_handlers : p_handlers p = signals;
  wk_factory : is_Some (p_factory p);
  wk_log : is_Some (p_log p);
  wk_running : orbShutdownRequested (p_world p) = false;
  wk_refs : refs_held (p_world p);
  wk_daemon : tidy (p_daemon p) }.

(** How a server that worked as [p] leaves things. *)
Record stopped (p p' : process) : Prop := {
  st_log : p_log p' = None;
  st_stream : logstream (p_world p') = None;
  st_factory : p_factory p' = None;
  st_requests : deferredRequests (p_world p') = [];
  st_refs a : ref_count a (p_world p') = foreign_refs a (p_world p) - if decide (s_factory Sys = a) then 1 else 0;
  st_storage : p_storage p' = p_storage p;
  st_pipe : o_pipe (p_daemon p').2 = o_pipe (p_daemon p).2;
  st_files : o_files (p_daemon p').2 = pidfile_removed (p_daemon p) }.

Lemma destroy_stops p : is_Some (p_log p) → is_Some (p_factory p) →
  ∃ w, destroy_log Sys p = Ret tt (set_world w (set_log None (set_factory None p))) ∧ logstream w = None ∧
    deferredRequests w = deferredRequests (p_world p) ∧
    ∀ a, ref_count a w = ref_count a (p_world p) - if decide (s_factory Sys = a) then 1 else 0.
Proof.
  intros [l Hl] [f Hf]. unfold destroy_log, gets, modify, onWorld, zoom, remove_ref, mbind, M_bind.
  rewrite Hl, Hf. cbn. eexists. split; [reflexivity|]. split_and!; [done..|]. intros a.
  change (ref_count a (set_refs (map_put (s_factory Sys) (ref_count (s_factory Sys) (p_world p) - 1) (refs (p_world p))) (p_world p))
    = ref_count a (p_world p) - if decide (s_factory Sys = a) then 1 else 0).
  rewrite ref_count_put. case_decide; subst; lia.
Qed.

(** After the loop. *)
Lemma ended_stopped p p1 : tidy (p_daemon p) → is_Some (p_log p) → is_Some (p_factory p) → world_only p p1 →
  deferredRequests (p_world p1) = [] → (∀ a, ref_count a (p_world p1) = foreign_refs a (p_world p)) →
  ∃ p', ended (wrap Sys (Ret 0 p1)) = (Some 0, p') ∧ stopped p p'.
Proof.
  intros Ht Hl Hf [t Ep] Hd Hr. cbn [wrap]. unfold closing.
  destruct (destroy_stops p1) as (w & -> & H1 & H2 & H3); [by rewrite Ep..|]. cbn [final].
  set (p2 := set_world w _). assert (Hpd : p_daemon p2 = p_daemon p) by (unfold p2; by rewrite Ep).
  unfold onDaemon, mbind, M_bind. rewrite Hpd.
  destruct (shutdown_tidy 0 (p_daemon p) Ht) as (s' & -> & Ht' & Hp' & K1 & K2).
  destruct (at_exit_tidy 0 s' Ht' Hp') as [K3 K4]. unfold mret, M_ret. cbn [ended p_daemon set_daemon].
  eexists. split; [reflexivity|]. split; try done.
  - cbn. by rewrite H2.
  - intros a. cbn. by rewrite H3, Hr.
  - cbn. by rewrite Ep.
  - cbn [p_daemon set_daemon]. by rewrite K3.
  - cbn [p_daemon set_daemon]. by rewrite K4.
Qed.

Lemma runWorker_works p : working p → ∃ p1, runWorker p = Ret tt p1 ∧ working p1 ∧ p_world p1 = p_world p ∧
  p_daemon p1 = p_daemon p ∧ p_storage p1 = p_storage p.
Proof.
  intros [H1 [f Hf] H3 H4 H5 H6]. unfold runWorker, gets, assert, modify, mbind, M_bind. rewrite Hf. cbn.
  eexists. split; [reflexivity|]. split_and!; done.
Qed.

(** C16: the server stops when it is told to, and only then; and when it does not.  Let a server run
    whose callbacks return, with the signals it handles coming at any turns of the loop of
    [Orb::run].  As long as neither SIGINT nor SIGTERM has come it goes on serving, however many
    turns there are (SIGUSR1 and SIGPIPE do not end it).  At the first turn that finds one of the
    two it leaves the loop, and collects what is outstanding: it waits for ever exactly if one of
    these requests is never answered, or if one of them has the last reference to a proxy with a
    request of its own.  Otherwise every request that was deferred is released exactly once, a
    callback is called at most once for each that was deferred before the signal and only if a
    response came at one of the turns before, the references to the callback objects and that to the
    factory are dropped, the stream of the log is closed, the disk is as it was, the pidfile is
    removed, nobody is told anything more, and the process ends with status 0.  The shutdown of the
    ORB itself is supposed to return. *)
Theorem server_stops p :
  working p → quiet callback → (∀ i, Forall handled (signals_at i)) → s_shutdown Sys = inr tt →
  let lives fuel := life Sys callback turns signals_at responds own fuel p in
  (∀ fuel, (∀ i, (i < fuel)%nat → stops (signals_at i) = false) → lives fuel = Serves) ∧
  ∀ k, (∀ i, (i < k)%nat → stops (signals_at i) = false) → stops (signals_at k) = true →
  ∀ fuel, (k < fuel)%nat →
    let waits := stuck responds own k (left_over turns (deferredRequests (p_world p)) 0 k) (p_world p) in
    (lives fuel = Hangs ↔ waits) ∧
    (¬ waits → ∃ rel inv p1 p',
       run_turns callback turns signals_at responds own fuel 0 (set_worker true p) = Ret (Left rel inv) p1 ∧
       left_at turns 0 k p rel inv p1 ∧
       lives fuel = Ends (Some 0) p' ∧ stopped p p').
Proof.
  intros Hw Hq Hh Hsd lives. destruct (runWorker_works p Hw) as (p0 & E0 & [H1 H2 H3 H4 H5 H6] & Ew & Ed & Es).
  assert (Ep : p0 = set_worker true p).
  { destruct Hw as [_ [f Hf] _ _ _ _]. unfold runWorker, gets, assert, modify, mbind, M_bind in E0. rewrite Hf in E0.
    by injection E0 as <-. }
  rewrite <- Ep. unfold lives, life. split.
  - intros fuel Hn. destruct (run_goes_on callback turns signals_at responds own Hq Hh fuel 0 p0) as (p1 & E & _); try done.
    { intros j [_ Hj]. by apply Hn. }
    by rewrite (bind_Ret _ _ _ _ _ E0), E.
  - intros k Hn Hk fuel Hf. set (waits := stuck _ _ _ _ _).
    destruct (run_stops callback turns signals_at responds own Hq Hh k fuel 0 p0) as (r & p1 & E & W & K);
      try done. { intros j [_ Hj]. by apply Hn. }
    rewrite Ew in K. fold waits in K. rewrite (bind_Ret _ _ _ _ _ E0), E.
    destruct K as [[-> K]|(rel & inv & -> & K & L)]; [by split|].
    assert (Eo : (_ ← call_out (s_shutdown Sys); mret 0) p1 = Ret 0 p1).
    { unfold call_out. by rewrite Hsd. }
    rewrite Eo. pose proof L as [L1 _ _ _ L5].
    destruct (ended_stopped p0 p1) as (p' & E' & [G1 G2 G3 G4 G5 G6 G7 G8]); try done.
    unfold ends. rewrite E'. cbn [fst snd]. split; [done|]. intros _. exists rel, inv, p1, p'.
    split; [done|]. split; [|split; [done|]].
    + destruct L as [M1 M2 M3 M4 M5]. rewrite Ew in *. by split.
    + split; try done; try (intros a; by rewrite G5, Ew); congruence.
Qed.
End ends.

(** ** Witness *)

(** The server that [Main] starts in the background, after [runningOk]; [d] is its [Daemon]. *)
Definition working_daemon : DaemonImpl * os :=
  (mkDaemon None false (Some "/var/run/omniEvents.pid") true false true,
   mkOs [] {[ "/var/run/omniEvents.pid" := Regular ("4711" +:+ nl) ]} 4711 [0] true).
Definition working_process : process :=
  mkProcess working_daemon (Some w_log) (mkStorage m_disk [] []) model_world (Some r_factory)
    ([] : ns_state (NamingOps := model_NamingOps)) ([], ∅) signals 1 false.

(** The requests of [Orb]'s example; SIGUSR1 comes at the first turn, SIGTERM at the third. *)
Definition sample_turns (i : nat) : list (request * option Z) * (request → option reply) :=
  nth i sample_rounds ([], λ _, None).
Definition sample_signals (i : nat) : list string :=
  match i with 0%nat => ["SIGUSR1"] | 2%nat => ["SIGPIPE"; "SIGTERM"] | _ => [] end.

(** At the third turn a push is outstanding, which has no callback: the server ends if it is
    answered, and hangs otherwise. *)
Lemma server_stops_witness :
  let lives := life m_system (λ _ _ _, mret tt) sample_turns sample_signals in
  lives (λ _ _, true) (λ _ _, None) 2%nat working_process = Serves ∧
  (∃ p', lives (λ _ _, true) (λ _ _, None) 9%nat working_process = Ends (Some 0) p' ∧
     o_files (p_daemon p').2 = ∅ ∧ o_pipe (p_daemon p').2 = [0] ∧ deferredRequests (p_world p') = []) ∧
  lives (λ _ r, negb (String.eqb (req_op r) "push")) (λ _ _, None) 9%nat working_process = Hangs.
Proof.
  assert (Hw : working working_process) by (split; try done; by eexists).
  assert (Hq : quiet (λ (_ : Z) (_ : request) (_ : reply), mret tt)).
  { intros c r p w. eexists. split; [reflexivity|]. split_and!; [intros; discriminate..| | |]; reflexivity. }
  assert (Hh : ∀ i, Forall handled (sample_signals i)).
  { intros [|[|[|i]]]; cbn; repeat constructor; vm_compute; set_solver. }
  assert (Hn : ∀ i, (i < 2)%nat → stops (sample_signals i) = false) by (intros [|[|i]] Hi; [reflexivity..|lia]).
  destruct (server_stops m_system (λ _ _ _, mret tt) sample_turns sample_signals (λ _ _, true) (λ _ _, None)
    working_process Hw Hq Hh eq_refl) as [K1 K2].
  split; [exact (K1 2%nat Hn)|]. split.
  - destruct (K2 2%nat Hn eq_refl 9%nat ltac:(lia)) as [_ K].
    destruct K as (rel & inv & p1 & p' & _ & _ & E & G); [by intros [(r & _ & [=])|(a & q & _ & _ & [=])]|].
    exists p'. split; [exact E|]. split_and!; [rewrite (st_files _ _ _ G)|rewrite (st_pipe _ _ _ G)|apply (st_requests _ _ _ G)];
      vm_compute; reflexivity.
  - destruct (server_stops m_system (λ _ _ _, mret tt) sample_turns sample_signals
      (λ _ r, negb (String.eqb (req_op r) "push")) (λ _ _, None) working_process Hw Hq Hh eq_refl) as [_ K3].
    apply (K3 2%nat Hn eq_refl 9%nat ltac:(lia)). left. exists (sample_request "push", None).
    split; [|reflexivity]. change (left_over _ _ _ _) with [(sample_request "push", @None Z)]. apply list_elem_of_singleton. reflexivity.
Defined.

(** A push is outstanding for a proxy, at 7, whose only reference is that of the request [_is_a]: all
    requests are answered, and yet the server hangs. *)
Definition hangs (l : lifetime) : bool := match l with Hangs => true | _ => false end.

Example server_hangs :
  let turns i := match i with 0%nat => ([(sample_request "_is_a", Some 7)], λ _, None) | _ => ([], λ _, None) end in
  hangs (life m_system (λ _ _ _, mret tt) turns (λ i, if Nat.eqb i 1 then ["SIGTERM"] else []) (λ _ _, true)
    (λ _ _, Some (sample_request "push")) 9 working_process) = true.
Proof. vm_compute. reflexivity. Qed.

(** A whole life: the server of [Main]'s example starts in the background, with the pidfile, serves
    until SIGTERM, and leaves neither the pidfile nor an open log. *)
Definition is_nil {A} (l : list A) : bool := match l with [] => true | _ => false end.
Definition lived : option (bool * list Z * bool) :=
  match start m_system m_options m_argv (m_process (apply_options m_options new_Daemon)) with
  | Ret _ p =>
      match life m_system (λ _ _ _, mret tt) sample_turns sample_signals (λ _ _, true) (λ _ _, None) 9 p with
      | Ends (Some n) p' =>
          Some ((n =? 0) && is_nil (map_to_list (o_files (p_daemon p').2)) &&
                is_nil (deferredRequests (p_world p')) &&
                match p_log p', p_factory p', logstream (p_world p') with None, None, None => true | _, _, _ => false end,
                o_pipe (p_daemon p').2,
                negb (is_nil (map_to_list (o_files (p_daemon p).2))))
      | _ => None
      end
  | _ => None
  end.

Example server_lives : lived = Some (true, [0], true).
Proof. vm_compute. reflexivity. Qed.
