(* ===== verification/ChannelSample.v ===== *)
(** * ChannelSample: a channel without the server (src/examples/channel.cc)

    The channel is also a library: a program makes one of its own, without a factory and without a
    log, prints its reference, and lets [Orb::run] collect the responses until a signal. *)

From S2P Require Import Prelude Monad CxxMap Stream PersistNode PersistLog ChannelProps.
From S2P Require Import Corba ModelOrb Orb EventChannel ServerRestart Main Shutdown.

Local Open Scope string_scope.
Local Open Scope Z_scope.
Local Open Scope list_scope.

Section sample.
Context `{OO : OrbOps} `{PM : !PoaManagerOps}.

(** The program: the channel, the signals that are handled by [myShutdown], and standard output. *)
Record host := mkHost {
  h_channel : option EventChannel_i;
  h_world : world;
  h_signals : list string;
  h_out : string }.
Abbreviation Host := (M exn host).

Definition h_set_world (w : world) (h : host) : host := mkHost (h_channel h) w (h_signals h) (h_out h).
Definition h_set_channel (r : EventChannel_i * world) (h : host) : host :=
  mkHost (Some r.1) r.2 (h_signals h) (h_out h).
Definition on_host_world {A} (m : M exn world A) : Host A := zoom h_world h_set_world m.

(** What the program asks of the system. *)
Record host_system := mkHostSystem {
  hs_ORB_init : exn + unit;
  hs_resolve : string → exn + option Object;
  hs_activate : Object → exn + unit;
  hs_channel : Z;                      (* the address of the servant *)
  hs_env : env;
  hs_destroy : exn + unit }.
Variable Sys : host_system.

Definition outside (r : exn + unit) : Host unit := λ h, match r with inl e => Throw e h | inr _ => Ret tt h end.

(** [new EventChannel_i()], and [activate("MyChannel")]. *)
Definition make_channel : Host unit := λ h,
  let back r := h_set_channel r h in
  match ec_activate (hs_env Sys) (hs_channel Sys) "MyChannel" None (new_EventChannel, h_world h) with
  | Ret x r => Ret x (back r)
  | Throw e r => Throw e (back r)
  | Exited c r => Exited c (back r)
  | Aborted r => Aborted (back r)
  end.

(** [channelSrv->_this()] *)
Definition channel_this : Host Object := λ h,
  match id_to_reference "MyChannel" "EventChannel" (poas (h_world h)) with
  | inl e => Throw e h
  | inr o => Ret o h
  end.

(** [main(argc,argv)].  The ORB starts before the [try]: its exception ends the program; every
    other one ends it with status 1. *)
Definition channel_main (rounds : list (list (request * option Z) * (request → option reply)))
    (callback : Z → request → reply → M exn world unit) : Host Z :=
  match hs_ORB_init Sys with
  | inl _ => abort
  | inr _ =>
      _ ← try_catch
        (refs ← resolveInitialReferences (hs_resolve Sys);
         _ ← outside (hs_activate Sys (_RootPOA refs));
         _ ← make_channel;
         channelRef ← channel_this;
         _ ← modify (λ h, mkHost (h_channel h) (h_world h) (h_signals h)
                            (h_out h +:+ object_to_string channelRef +:+ nl));
         _ ← modify (λ h, mkHost (h_channel h) (h_world h) ["SIGINT"; "SIGTERM"] (h_out h));
         _ ← on_host_world (Orb.run rounds callback);
         outside (hs_destroy Sys))
        (λ _, Some (exit 1));
      mret 0
  end.

(** [myShutdown(signum)] *)
Definition myShutdown : Host unit := on_host_world Orb.shutdown.

(** Whatever happens in the [try], nothing is thrown by [main]. *)
Lemma channel_main_catches rounds callback h e h' : channel_main rounds callback h ≠ Throw e h'.
Proof.
  unfold channel_main. destruct (hs_ORB_init Sys); [done|]. unfold try_catch at 1, mbind at 1, M_bind at 1.
  match goal with |- context [match ?m with Ret _ _ => Ret _ _ | _ => _ end] => by destruct m end.
Qed.
End sample.

(** The channel prints its reference, is there while the program runs, and is not destroyed at its
    end; the pending request is released. *)
Definition c_system : host_system := {|
  hs_ORB_init := inr tt; hs_resolve := λ _, inr (Some (obj 5)); hs_activate := λ _, inr tt;
  hs_channel := 16; hs_env := r_env; hs_destroy := inr tt |}.
Definition c_host : host := mkHost None (set_deferredRequests [(sample_request "push", None)] (set_logstream None model_world)) [] "".

Example channel_runs :
  match channel_main c_system sample_rounds (λ _ _ _, mret tt) c_host with
  | Ret n h => (n =? 0) && String.eqb (h_out h) ("IOR:10" +:+ nl) && Nat.eqb (length (deferredRequests (h_world h))) 0 &&
      match h_channel h with Some c => String.eqb (default "" (ec_poa c)) "MyChannel" | None => false end
  | _ => false
  end = true.
Proof. vm_compute. reflexivity. Qed.

(** Without a root POA the program ends with 1. *)
Example channel_no_poa :
  match channel_main (mkHostSystem (inr tt) (λ _, inl TRANSIENT) (λ _, inr tt) 16 r_env (inr tt)) [] (λ _ _ _, mret tt) c_host with
  | Exited n _ => n =? 1
  | _ => false
  end = true.
Proof. vm_compute. reflexivity. Qed.
