(* ===== verification/ObjectFailure.v ===== *)
(** * ObjectFailure: reporting a failed client (reportObjectFailure of src/Orb.h, src/Orb.cc)

    A failure is reported in two messages, which reach syslog through [Daemon.log]. *)

From S2P Require Import Prelude Stream Daemon.

Local Open Scope string_scope.
Local Open Scope list_scope.

(** A profile of an object reference: [None] if it is not of IIOP. *)
Record iiop := mkIiop { object_key : list char; host : string; port : Z }.
Record omniIOR := mkIOR { repositoryID : string; iopProfiles : list (option iiop) }.

(** An exception: its name, and its minor code if it is a system exception. *)
Record exception := mkException { _name : string; minor : option string }.

(** A character that is not printable is shown as a dot. *)
Definition shown (c : char) : char :=
  if ((32 <=? char_code c) && (char_code c <=? 126))%N then c else "."%char.

Fixpoint string_of (l : list char) : string :=
  match l with [] => "" | c :: l' => String c (string_of l') end.

Definition quote : string := String "034"%char "".

(** The first profile of IIOP only. *)
Fixpoint profile_text (l : list (option iiop)) : string :=
  match l with
  | [] => ""
  | None :: l' => profile_text l'
  | Some p :: _ =>
      " " +:+ quote +:+ string_of (map shown (object_key p)) +:+ quote +:+ " at " +:+ host p +:+ ":" +:+ show_Z (port p)
  end.

Definition exception_text (ex : option exception) : string :=
  match ex with
  | None => " threw unknown exception" +:+ nl
  | Some e =>
      " threw " +:+ _name e +:+
      (match minor e with Some m => " (" +:+ m +:+ ")" | None => "" end) +:+ nl
  end.

(** [reportObjectFailure(here,sior,ior,ex)]: the messages. *)
Definition reportObjectFailure (here sior : string) (ior : option omniIOR) (ex : option exception) : list string :=
  (match ior with
   | Some r =>
       ["omniEvents! Object failure: " +:+ repositoryID r +:+ profile_text (iopProfiles r) +:+ exception_text ex]
   | None => []
   end) ++
  ["omniEvents! Object failure detail: " +:+ sior +:+ " at " +:+ here +:+ nl].

(** [reportObjectFailure(here,obj,ex)], for an object: its reference is there always, and the
    second message has what [object_to_string] makes of it.  [None]: the assertion that the object
    is not nil fails. *)
Definition reportObjectFailure_object (here : string) (obj : option (omniIOR * string)) (ex : option exception)
    : option (list string) :=
  match obj with
  | None => None
  | Some (ior, sior) =>
      Some ["omniEvents! Object failure: " +:+ repositoryID ior +:+ profile_text (iopProfiles ior) +:+ exception_text ex;
            "omniEvents! Object failure detail: " +:+ sior +:+ " at " +:+ here +:+ nl]
  end.

Lemma reportObjectFailure_agree here ior sior ex :
  reportObjectFailure_object here (Some (ior, sior)) ex = Some (reportObjectFailure here sior (Some ior) ex).
Proof. done. Qed.

(** Every message is an error, and loses the name of the program. *)
Theorem failures_are_errors here sior ior ex m :
  m ∈ reportObjectFailure here sior ior ex →
  ∃ text, m = "omniEvents! " +:+ text ∧ log m = (LOG_ERR, text).
Proof.
  assert (Hlog : ∀ t, ∃ text, "omniEvents! " +:+ t = "omniEvents! " +:+ text ∧ log ("omniEvents! " +:+ t) = (LOG_ERR, text)).
  { intros t. exists t. split; [done|]. apply log_error. }
  unfold reportObjectFailure. destruct ior as [r|]; cbn [app].
  - intros [->|[->|K]%elem_of_cons]%elem_of_cons; [apply (Hlog ("Object failure: " +:+ _))| |by apply elem_of_nil in K].
    apply (Hlog ("Object failure detail: " +:+ _)).
  - intros [->|K]%elem_of_cons; [|by apply elem_of_nil in K]. apply (Hlog ("Object failure detail: " +:+ _)).
Qed.
