(* ===== verification/Tools.v ===== *)
(** * Tools: the command line clients (src/tools/eventc.cc, eventl.cc, eventf.cc, rmeventc.cc and
      rmeventall.cc)

    [eventc] creates a channel with criteria from its options, [eventl] lists the channels,
    [eventf] connects two channels, [rmeventc] and [rmeventall] destroy them.  They read their
    options with [Getopt] and talk to the server and to the naming service through the ORB, which
    is a parameter ([ClientOps]): every call may throw.

    The second part follows a command line to the server: through [getopt], the options of
    [eventc], and [parseCriteria] to the properties of the channel; and a list of channels from the
    server's [Iterator] to the output of [eventl]. *)

From S2P Require Import Prelude Monad CxxMap Stream PersistNode PersistReplay ChannelProps.
From S2P Require Import Corba ModelOrb Filter ConsumerAdmin EventChannel EventChannelFactory Getopt Naming IteratorSupport Iterator.

Local Open Scope string_scope.
Local Open Scope Z_scope.
Local Open Scope list_scope.

(** ** What the clients call

    [Srv] is everything outside the client.  A nil reference is [None]. *)
Class ClientOps `{AO : AnyOps} := {
  Srv : Type;
  Ref : Type;
  object_uri : Ref → string;                            (* orb->object_to_string *)
  uri_object : string → M exn Srv (option Ref);         (* orb->string_to_object *)
  name_service : M exn Srv (option Ref);                (* resolve_initial_references, _narrow *)
  ns_resolve : Ref → Name → M exn Srv (option Ref);
  ns_bind : Ref → Name → Ref → M exn Srv unit;
  ns_rebind : Ref → Name → Ref → M exn Srv unit;
  ns_unbind : Ref → Name → M exn Srv unit;
  narrow_factory : option Ref → M exn Srv (option Ref);
  narrow_channel : option Ref → M exn Srv (option Ref);
  call_supports : Ref → Key → M exn Srv bool;
  call_create_object : Ref → Key → Criteria → M exn Srv (option Ref);
  call_list_channels : Ref → Z → M exn Srv (list EventChannelInfo * option Ref);
  call_next_one : Ref → M exn Srv (bool * EventChannelInfo);
  call_delete_all : Ref → M exn Srv unit;
  call_destroy : Ref → M exn Srv unit;
  call_for_consumers : Ref → M exn Srv Ref;
  call_for_suppliers : Ref → M exn Srv Ref;
  call_obtain_push_supplier : Ref → M exn Srv Ref;
  call_obtain_push_consumer : Ref → M exn Srv Ref;
  call_connect_push_supplier : Ref → Ref → M exn Srv unit;
  call_connect_push_consumer : Ref → Ref → M exn Srv unit;
  orb_destroy : M exn Srv unit }.

(** ** Options of eventc *)

Section options.
Context `{AO : AnyOps} (any_of_ulong : Z → Any).

Record eventc_options := mkEventc {
  c_channelName : string;
  c_needNameService : bool;
  c_factoryName : string;
  c_criteria : Criteria;
  c_verbose : bool }.

Definition eventc_defaults : eventc_options := mkEventc "EventChannel" false "EventChannelFactory" [] false.

(** [appendCriterion(criteria,name,value)] and [appendCriterionStr(criteria,name,value)] *)
Definition appendCriterion (criteria : Criteria) (name value : string) : Criteria :=
  criteria ++ [(name, any_of_ulong (u32 (atol value)))].
Definition appendCriterionStr (criteria : Criteria) (name value : string) : Criteria :=
  criteria ++ [(name, any_of_string value)].

(** One turn of the [switch]; [inl] is the status of [exit]. *)
Definition eventc_option (o : eventc_options) (c : char) (optarg : option string) : Z + eventc_options :=
  let arg := default "" optarg in
  match o with
  | mkEventc n need f cr v =>
      let number name := inr (mkEventc n need f (appendCriterion cr name arg) v) in
      let text name := inr (mkEventc n need f (appendCriterionStr cr name arg) v) in
      if ceqb c "n" then inr (mkEventc arg true f cr v)
      else if ceqb c "N" then inr (mkEventc n need arg cr v)
      else if ceqb c "m" then number "MaxEventsPerConsumer"
      else if ceqb c "c" then number "CyclePeriod_ns"
      else if ceqb c "i" then text "InsName"
      else if ceqb c "p" then number "MaxNumProxies"
      else if ceqb c "q" then number "MaxQueueLength"
      else if ceqb c "R" then number "PullRetryPeriod_ms"
      else if ceqb c "r" then number "PullRetryPeriod"
      else if ceqb c "t" then text "FilterId"
      else if ceqb c "v" then inr (mkEventc n need f cr true)
      else if ceqb c "h" then inl 0
      else inl (-1)
  end.

Definition eventc_letters : string := "n:N:m:c:i:p:q:R:r:t:vh".

(** The loop over [getopt] that the clients share, with the [switch] of each: the options, and the
    operands that are left.  An error is an option ['?'], which is not known. *)
Fixpoint tool_switch {O} (turn : O → char → option string → Z + O) (o : O) (l : list (char * option string)) : Z + O :=
  match l with
  | [] => inr o
  | (c, arg) :: l' => match turn o c arg with inl s => inl s | inr o' => tool_switch turn o' l' end
  end.

Definition tool_read {O} (letters : string) (turn : O → char → option string → Z + O) (o : O) (argv : list string)
    : option (Z + O * list string) :=
  match getopt_loop (S (total (tail argv))) argv letters getopt_init with
  | None => None
  | Some (l, e, st) =>
      match tool_switch turn o l with
      | inl s => Some (inl s)
      | inr o' => Some (match e with GError => inl (-1) | _ => inr (o', drop (optind st) argv) end)
      end
  end.

(** [main] of eventc.cc, to the end of the options. *)
Definition eventc_read (argv : list string) : option (Z + eventc_options * list string) :=
  match tool_read eventc_letters eventc_option eventc_defaults argv with
  | Some (inr (o, operands)) =>
      Some (inr (mkEventc (c_channelName o) (c_needNameService o || bool_decide (operands = []))
                   (c_factoryName o) (c_criteria o) (c_verbose o), operands))
  | r => r
  end.

(** The [switch] of the other clients. *)
Definition eventl_option (details : bool) (c : char) (optarg : option string) : Z + bool :=
  if ceqb c "d" then inr true else if ceqb c "h" then inl 0 else inl (-1).
Definition rmeventall_option (cleanns : bool) (c : char) (optarg : option string) : Z + bool :=
  if ceqb c "n" then inr true else if ceqb c "h" then inl 0 else inl (-1).
Definition rmeventc_option (channelName : string) (c : char) (optarg : option string) : Z + string :=
  if ceqb c "n" then inr (default "" optarg) else if ceqb c "h" then inl 0 else inl (-1).
Definition eventf_option (o : unit) (c : char) (optarg : option string) : Z + unit :=
  if ceqb c "h" then inl 0 else inl (-1).

End options.

(** ** The clients *)

Section clients.
Context `{CO : ClientOps} (any_of_ulong : Z → Any).

(** The state: the servers, and what was written to standard output. *)
Definition Client (A : Type) : Type := M exn (Srv * string) A.
Definition remote {A} (m : M exn Srv A) : Client A := zoom fst (λ v s, (v, s.2)) m.
Definition out (t : string) : Client unit := modify (λ s, (s.1, s.2 +:+ t)).

(** A text that is not a name, which [str2name_total] excludes. *)
Definition to_name (s : string) : Client Name :=
  match str2name s with Some n => mret n | None => abort end.

(** The root context.  A failure is fatal only if the naming service is needed. *)
Definition root_context (need : bool) : Client (option Ref) :=
  try_catch (obj ← remote name_service;
             match obj with None => throw OBJECT_NOT_EXIST | Some ctx => mret (Some ctx) end)
    (λ _, if need then None else Some (mret None)).

(** The object of the operand, or of the name. *)
Definition find_object (operands : list string) (rootContext : option Ref) (name : string) : Client (option Ref) :=
  match operands, rootContext with
  | uri :: _, _ => remote (uri_object uri)
  | [], Some ctx => n ← to_name name; remote (ns_resolve ctx n)
  | [], None => abort
  end.

Definition find_factory (operands : list string) (rootContext : option Ref) : Client (option Ref) :=
  obj ← find_object operands rootContext "EventChannelFactory";
  match operands, obj with
  | [], None => _ ← out ("NamingService failed to find EventChannelFactory...." +:+ nl); exit 1
  | _, _ => remote (narrow_factory obj)
  end.

Definition key : Key := [("EventChannel", "object interface")].

(** Binding, over what is bound already. *)
Definition register_channel (ctx : Ref) (name : Name) (channel : Ref) : Client unit :=
  try_catch (remote (ns_bind ctx name channel))
    (λ e, if is_already_bound e then Some (remote (ns_rebind ctx name channel)) else None).

(** [main] of eventc.cc, after the options.  Every exception ends in the result 1. *)
Definition eventc_main (o : eventc_options) (operands : list string) : Client Z :=
  try_catch
    (rootContext ← root_context (c_needNameService o);
     obj ← find_object operands rootContext (c_factoryName o);
     factory ← remote (narrow_factory obj);
     match factory with
     | None => exit 1
     | Some factory =>
         ok ← remote (call_supports factory key);
         if negb ok then exit 1
         else
           channelObj ← remote (call_create_object factory key (c_criteria o));
           match channelObj with
           | None => exit 1
           | Some channelObj =>
               channel ← remote (narrow_channel (Some channelObj));
               match channel with
               | None => exit 1
               | Some channel =>
                   _ ← (if c_verbose o then out (object_uri channel +:+ nl) else mret tt);
                   _ ← match rootContext with
                       | Some ctx => name ← to_name (c_channelName o); register_channel ctx name channel
                       | None => mret tt
                       end;
                   _ ← remote orb_destroy;
                   mret 0
               end
           end
     end)
    (λ _, Some (mret 1)).

(** A client: its options, and what it does. *)
Definition client {O A} (r : option (Z + O * list string)) (run : O → list string → Client A) : option (Client A) :=
  match r with
  | None => None
  | Some (inl status) => Some (exit status)
  | Some (inr (o, operands)) => Some (run o operands)
  end.

Definition eventc (argv : list string) : option (Client Z) := client (eventc_read any_of_ulong argv) eventc_main.

(** *** eventl *)

Definition bool_text (b : bool) : string := if b then "1" else "0".

(** What is printed of one channel. *)
Definition channel_text (details : bool) (e : EventChannelInfo) : string :=
  "CHANNEL : " +:+ channel_name e +:+ (if has_mapper e then "" else " (unmapped) ") +:+ nl +:+
  (if details then
     "  has mapper: " +:+ bool_text (has_mapper e) +:+ nl +:+
     "  pull_retry_period_ms: " +:+ show_Z (pull_retry_period e) +:+ nl +:+
     "  max_queue_length: " +:+ show_Z (max_queue_length e) +:+ nl +:+
     "  max_num_proxies: " +:+ show_Z (max_num_proxies e) +:+ nl +:+
     "  cycle_period_ns: " +:+ show_Z (cycle_period e) +:+ nl +:+
     "  filter id = " +:+ filter_id e +:+ nl
   else "").

(** [while(eiter->next_one(einfo)==true) ...]: [None] if [fuel] is exhausted. *)
Fixpoint next_loop (fuel : nat) (eiter : Ref) (body : EventChannelInfo → Client unit) : Client (option unit) :=
  match fuel with
  | O => mret None
  | S f =>
      r ← remote (call_next_one eiter);
      if (r.1 : bool) then _ ← body r.2; next_loop f eiter body else mret (Some tt)
  end.

(** The list of the channels: all of them through the iterator.  Its failure only gives a message. *)
Definition each_channel (fuel : nat) (factory : Ref) (body : EventChannelInfo → Client unit) : Client (option unit) :=
  try_catch
    (r ← remote (call_list_channels factory 0);
     match r.2 with None => mret (Some tt) | Some eiter => next_loop fuel eiter body end)
    (λ _, Some (mret (Some tt))).

(** The result of a client whose loop ended. *)
Definition eventl_main (fuel : nat) (details : bool) (operands : list string) : Client (option Z) :=
  try_catch
    (rootContext ← root_context (bool_decide (operands = []));
     factory ← find_factory operands rootContext;
     match factory with
     | None => exit 1
     | Some factory =>
         r ← each_channel fuel factory (λ e, out (channel_text details e));
         match r with
         | None => mret None
         | Some _ => _ ← remote orb_destroy; mret (Some 0)
         end
     end)
    (λ _, Some (mret (Some 1))).

Definition eventl (fuel : nat) (argv : list string) : option (Client (option Z)) :=
  client (tool_read "dh" eventl_option false argv) (eventl_main fuel).

(** *** rmeventall *)

(** An entry that cannot be removed is passed over. *)
Definition unbind_channel (ctx : Ref) (e : EventChannelInfo) : Client unit :=
  try_catch (n ← to_name (channel_name e); remote (ns_unbind ctx n)) (λ _, Some (mret tt)).

Definition rmeventall_main (fuel : nat) (cleanns : bool) (operands : list string) : Client (option Z) :=
  try_catch
    (rootContext ← root_context (cleanns || bool_decide (operands = []));
     factory ← find_factory operands rootContext;
     match factory with
     | None => exit 1
     | Some factory =>
         r ← (if cleanns then
                each_channel fuel factory
                  (λ e, match rootContext with Some ctx => unbind_channel ctx e | None => abort end)
              else mret (Some tt));
         match r with
         | None => mret None
         | Some _ => _ ← remote (call_delete_all factory); _ ← remote orb_destroy; mret (Some 0)
         end
     end)
    (λ _, Some (mret (Some 1))).

Definition rmeventall (fuel : nat) (argv : list string) : option (Client (option Z)) :=
  client (tool_read "nh" rmeventall_option false argv) (rmeventall_main fuel).

(** *** rmeventc *)

Definition rmeventc_main (channelName : string) (operands : list string) : Client Z :=
  ecName ← to_name channelName;
  try_catch
    (obj ← match operands with
           | uri :: _ => _ ← out (" URI : " +:+ uri +:+ nl); remote (uri_object uri)
           | [] =>
               ctx ← remote name_service;
               match ctx with
               | None => throw OBJECT_NOT_EXIST
               | Some ctx =>
                   obj ← remote (ns_resolve ctx ecName);
                   _ ← remote (ns_unbind ctx ecName);
                   mret obj
               end
           end;
     channel ← remote (narrow_channel obj);
     match channel with
     | None => throw OBJECT_NOT_EXIST
     | Some channel => _ ← remote (call_destroy channel); _ ← remote orb_destroy; mret 0
     end)
    (λ _, Some (mret 1)).

Definition rmeventc (argv : list string) : option (Client Z) :=
  client (tool_read "n:h" rmeventc_option "EventChannel" argv) rmeventc_main.

(** *** eventf *)

Definition getChannel (sior : string) : Client Ref :=
  obj ← remote (uri_object sior);
  channel ← remote (narrow_channel obj);
  match channel with None => throw OBJECT_NOT_EXIST | Some channel => mret channel end.

Definition eventf_main (operands : list string) : Client Z :=
  match operands with
  | [from; to] =>
      try_catch
        (from_channel ← getChannel from;
         to_channel ← getChannel to;
         cadmin ← remote (call_for_consumers from_channel);
         supplier ← remote (call_obtain_push_supplier cadmin);
         sadmin ← remote (call_for_suppliers to_channel);
         consumer ← remote (call_obtain_push_consumer sadmin);
         _ ← remote (call_connect_push_supplier consumer supplier);
         _ ← remote (call_connect_push_consumer supplier consumer);
         _ ← remote orb_destroy;
         mret 0)
        (λ _, Some (mret 1))
  | _ => exit (-1)
  end.

Definition eventf (argv : list string) : option (Client Z) :=
  client (tool_read "h" eventf_option tt argv) (λ _, eventf_main).
End clients.

(** ** From the command line to the channel *)

(** Reading options is the reference of [Getopt], followed by the [switch]. *)
Lemma tool_read_args {O} letters (turn : O → char → option string → Z + O) o command l :
  tool_read letters turn o (command :: l) =
    Some (match tool_switch turn o (args letters l).1 with
          | inl s => inl s
          | inr o' => match (args letters l).2 with Operands rest => inr (o', rest) | Bad => inl (-1) end
          end).
Proof.
  unfold tool_read, getopt_init. cbn [tail].
  destruct (loop_agrees (S (total l)) (command :: l) letters) as [K _].
  destruct (K 1%nat None l eq_refl ltac:(lia)) as (e & st & E & Hr). rewrite E.
  destruct (tool_switch turn o (args letters l).1) as [n|o']; [done|].
  destruct (args letters l).2 as [rest|]; [destruct Hr as [-> <-]; done|by subst].
Qed.

Section criteria_of_eventc.
Context `{AO : AnyOps} (any_of_ulong : Z → Any).

(** Values that are put into an [Any] come out again. *)
Class AnyLaws : Prop := {
  ulong_of_ulong v : 0 ≤ v < 4294967296 → any_ulong (any_of_ulong v) = Some v;
  string_of_string s : any_string (any_of_string s) = Some s;
  ulong_of_string s : any_ulong (any_of_string s) = None }.
Context `{AL : AnyLaws}.

(** The number, the text and the period of the options of a command line.  The last option counts,
    and a number that is zero (or is not one) does not; [-r] is in seconds, and only counts
    before there is a period. *)
Definition argument (o : char * option string) : string := default "" o.2.
Definition number (o : char * option string) : Z := u32 (atol (argument o)).

Definition number_step (c : char) (acc : option Z) (o : char * option string) : option Z :=
  if ceqb o.1 c && (0 <? number o) then Some (number o) else acc.
Definition text_step (c : char) (acc : option string) (o : char * option string) : option string :=
  if ceqb o.1 c && negb (str_empty (argument o)) then Some (argument o) else acc.
Definition period_step (acc : option Z) (o : char * option string) : option Z :=
  if ceqb o.1 "R" then Some (number o)
  else if ceqb o.1 "r" then match acc with None => Some (u32 (number o * 1000)) | Some _ => acc end
  else acc.

Definition number_given (c : char) (l : list (char * option string)) : option Z := foldl (number_step c) None l.
Definition text_given (c : char) (l : list (char * option string)) : option string := foldl (text_step c) None l.
Definition period_given (l : list (char * option string)) : option Z := foldl period_step None l.

Definition given (l : list (char * option string)) : EventChannelFactory.asked :=
  mkAsked (period_given l) (number_given "q" l) (number_given "p" l) (number_given "c" l)
    (text_given "i" l) (text_given "t" l).

(** The criteria of an option. *)
Definition criterion_of (o : char * option string) : Criteria :=
  let num name := [(name, any_of_ulong (number o))] in
  let text name := [(name, any_of_string (argument o))] in
  if ceqb o.1 "m" then num "MaxEventsPerConsumer"
  else if ceqb o.1 "c" then num "CyclePeriod_ns"
  else if ceqb o.1 "i" then text "InsName"
  else if ceqb o.1 "p" then num "MaxNumProxies"
  else if ceqb o.1 "q" then num "MaxQueueLength"
  else if ceqb o.1 "R" then num "PullRetryPeriod_ms"
  else if ceqb o.1 "r" then num "PullRetryPeriod"
  else if ceqb o.1 "t" then text "FilterId"
  else [].

Lemma eventc_turn o c arg o' :
  eventc_option any_of_ulong o c arg = inr o' → c_criteria o' = c_criteria o ++ criterion_of (c, arg).
Proof.
  destruct o as [n need f cr v]. unfold eventc_option, criterion_of, appendCriterion, appendCriterionStr, number, argument.
  cbn [fst snd].
  destruct (ceqb c "n") eqn:E1; [apply ceqb_eq in E1 as ->; intros [= <-]; by rewrite app_nil_r|].
  destruct (ceqb c "N") eqn:E2; [apply ceqb_eq in E2 as ->; intros [= <-]; by rewrite app_nil_r|].
  repeat match goal with
  | |- (if ceqb c ?k then _ else _) = _ → _ => destruct (ceqb c k); [by intros [= <-]|]
  end.
  repeat match goal with
  | |- context [if ceqb c ?k then _ else _] => destruct (ceqb c k); [try done; intros [= <-]; by rewrite ?app_nil_r|]
  end. done.
Qed.

Lemma switch_criteria l : ∀ o o',
  tool_switch (eventc_option any_of_ulong) o l = inr o' →
  c_criteria o' = c_criteria o ++ concat (map criterion_of l).
Proof.
  induction l as [|[c arg] l IH]; intros o o' E; cbn [tool_switch] in E.
  - injection E as ->. by rewrite app_nil_r.
  - destruct (eventc_option _ o c arg) as [n|o1] eqn:E1; [done|].
    rewrite (IH o1 o' E), (eventc_turn _ _ _ _ E1). by rewrite <- app_assoc.
Qed.

(** What one option adds to what was asked for. *)
Definition given_step (a : EventChannelFactory.asked) (o : char * option string) : EventChannelFactory.asked :=
  mkAsked (period_step (a_retry a) o) (number_step "q" (a_queue a) o) (number_step "p" (a_proxies a) o)
    (number_step "c" (a_cycle a) o) (text_step "i" (a_ins a) o) (text_step "t" (a_filter a) o).

Lemma given_fold l : ∀ r q p c i f,
  foldl given_step (mkAsked r q p c i f) l =
    mkAsked (foldl period_step r l) (foldl (number_step "q") q l) (foldl (number_step "p") p l)
      (foldl (number_step "c") c l) (foldl (text_step "i") i l) (foldl (text_step "t") f l).
Proof. induction l as [|o l IH]; intros; [done|]. apply IH. Qed.

Lemma number_range o : 0 ≤ number o < 4294967296.
Proof. apply u32_range. Qed.

Lemma given_criterion a o : foldl step_asked a (criterion_of o) = given_step a o.
Proof.
  destruct a as [r q p c i f], o as [ch arg].
  unfold criterion_of, given_step, period_step, number_step, text_step. cbn [fst].
  pose proof (number_range (ch, arg)) as Hn. set (v := number (ch, arg)) in *. set (t := argument (ch, arg)).
  assert (Hv : any_ulong (any_of_ulong v) = Some v) by (by apply ulong_of_ulong).
  assert (Ht : any_string (any_of_string t) = Some t) by apply string_of_string.
  clearbody v t. cbn [a_retry a_queue a_proxies a_cycle a_ins a_filter].
  repeat match goal with
  | |- context [if ceqb ch ?k then [_] else _] =>
      destruct (ceqb ch k) eqn:?;
      [match goal with H : ceqb ch k = true |- _ => apply ceqb_eq in H; subst ch end;
       cbn -[Z.ltb u32]; unfold step_asked, step_retry, step_num, step_str; cbn -[Z.ltb u32]; rewrite ?Hv, ?Ht;
       try (destruct (str_empty t); done); try (destruct (0 <? v); done); by destruct r|]
  end.
  cbn [foldl].
  repeat match goal with H : ceqb ch ?k = false |- _ => rewrite ?H; clear H end. done.
Qed.

Lemma asked_given l : asked_for (concat (map criterion_of l)) = given l.
Proof.
  assert (H : ∀ a, foldl step_asked a (concat (map criterion_of l)) = foldl given_step a l).
  { induction l as [|o l IH]; intros a; [done|]. cbn [map concat foldl]. by rewrite foldl_app, given_criterion, IH. }
  unfold asked_for. rewrite H. apply given_fold.
Qed.

(** Every criterion is a number or a text; a retry period comes from [-R] or [-r]. *)
Lemma criterion_value opt name value :
  (name, value) ∈ criterion_of opt →
  (string_criterion name = false ∧ value = any_of_ulong (number opt) ∧
     (retry_criterion name = true → opt.1 = "R"%char ∨ opt.1 = "r"%char)) ∨
  (retry_criterion name = false ∧ string_criterion name = true ∧ value = any_of_string (argument opt)).
Proof.
  unfold criterion_of.
  repeat match goal with
  | |- _ ∈ (if ceqb opt.1 ?k then _ else _) → _ => destruct (ceqb opt.1 k) eqn:?
  end; try (by intros ?%elem_of_nil);
    intros [= -> ->]%list_elem_of_singleton;
    first [right; done | left; split_and!; try done; intros _;
      match goal with H : ceqb opt.1 _ = true |- _ => apply ceqb_eq in H; rewrite H; by auto end].
Qed.

Lemma criterion_in opts name value :
  (name, value) ∈ concat (map criterion_of opts) → ∃ opt, opt ∈ opts ∧ (name, value) ∈ criterion_of opt.
Proof.
  intros (l & Hl & Hin)%list_elem_of_In%in_concat. apply list_elem_of_In in Hl, Hin.
  apply list_elem_of_fmap in Hl as (opt & -> & Ho). by exists opt.
Qed.

Lemma criteria_range opts : ulong_range (concat (map criterion_of opts)).
Proof.
  apply Forall_forall. intros [name value] Hin v Hv. cbn [snd] in Hv.
  destruct (criterion_in _ _ _ Hin) as (opt & _ & Ho).
  destruct (criterion_value _ _ _ Ho) as [(_ & -> & _)|(_ & _ & ->)].
  - rewrite ulong_of_ulong in Hv by apply number_range. injection Hv as <-. apply number_range.
  - by rewrite ulong_of_string in Hv.
Qed.

(** C24: from the command line to the channel.  What a command line of [eventc] asks for is what
    the server gives the channel: the last [-q], [-p], [-c] with a number other than zero, the
    last [-i] and [-t] with a text, the last [-R], or the first [-r] (in seconds) if there was no
    period before it; and the defaults where there is none.  The server refuses the criteria only
    if an [-R] or [-r] is zero or not a number, and then with [CannotMeetCriteria]. *)
Theorem eventc_channel command l o operands :
  eventc_read any_of_ulong (command :: l) = Some (inr (o, operands)) →
  let opts := (args eventc_letters l).1 in
  (args eventc_letters l).2 = Operands operands ∧
  match parseCriteria (c_criteria o) with
  | inr node =>
      pullRetryPeriod_ms node = default 1000 (period_given opts) ∧
      maxQueueLength node = default 1023 (number_given "q" opts) ∧
      maxNumProxies node = default 1024 (number_given "p" opts) ∧
      cyclePeriod_ns node = match number_given "c" opts with Some v => u64 (i32 v) | None => 100000000 end ∧
      map_find "InsName" (_attr node) = text_given "i" opts ∧
      channel_filter node = FilterByRepositoryId <$> text_given "t" opts
  | inl e =>
      (∃ c, e = CannotMeetCriteria c) ∧
      ∃ opt, opt ∈ opts ∧ (opt.1 = "R"%char ∨ opt.1 = "r"%char) ∧ number opt = 0
  end.
Proof.
  intros E opts. unfold eventc_read in E. rewrite tool_read_args in E. fold opts in E.
  destruct (tool_switch _ _ opts) as [n|o1] eqn:Es; [done|].
  destruct (args eventc_letters l).2 as [rest|]; [|done]. injection E as <- <-. split; [done|].
  cbn [c_criteria]. rewrite (switch_criteria _ _ _ Es). cbn [c_criteria eventc_defaults app].
  pose proof (criteria_range opts) as Hr.
  destruct (parseCriteria _) as [e|node] eqn:Ep.
  - destruct (parse_loop_refused _ e _ empty_node Hr Ep) as ([name value] & b & k & Hin & Hf & ->).
    destruct (criterion_in _ _ _ Hin) as (opt & Ho & Hv).
    apply criterion_fault_inv in Hf as [[-> Hw]|(-> & Hn & H0)]; cbn [fst snd] in *.
    + exfalso. unfold wrong_type in Hw.
      destruct (criterion_value _ _ _ Hv) as [(Hs & -> & _)|(_ & Hs & ->)]; rewrite Hs in Hw;
        apply bool_decide_eq_true_1 in Hw;
        [by rewrite ulong_of_ulong in Hw by apply number_range|by rewrite string_of_string in Hw].
    + split; [by eexists|]. exists opt.
      destruct (criterion_value _ _ _ Hv) as [(_ & -> & Hretry)|(Hre & _ & _)]; [|congruence].
      rewrite ulong_of_ulong in H0 by apply number_range. injection H0 as H0. auto.
  - pose proof (parsed_properties _ _ Hr Ep) as K. rewrite asked_given in K. exact K.
Qed.
End criteria_of_eventc.

#[export] Instance model_AnyLaws : AnyLaws (AO := model_AnyOps) AULong.
Proof. by constructor. Qed.

Definition eventc_sample : list string :=
  ["-q20"; "-p"; "0"; "-t"; "IDL:E:1.0"; "-r3"; "-r"; "5"; "-v"; "corbaloc::host/omniEvents"].

Lemma eventc_channel_witness :
  ∃ o node,
    eventc_read (AO := model_AnyOps) AULong ("eventc" :: eventc_sample) = Some (inr (o, ["corbaloc::host/omniEvents"])) ∧
    parseCriteria (c_criteria o) = inr node ∧
    maxQueueLength node = 20 ∧ maxNumProxies node = 1024 ∧ pullRetryPeriod_ms node = 3000.
Proof.
  eexists _, _. split; [vm_compute; reflexivity|]. split; [vm_compute; reflexivity|].
  destruct (eventc_channel (AO := model_AnyOps) AULong "eventc" eventc_sample _ ["corbaloc::host/omniEvents"]
              ltac:(vm_compute; reflexivity)) as [_ K].
  match type of K with match ?p with _ => _ end => let v := eval vm_compute in p in change p with v in K end.
  destruct K as (R1 & R2 & R3 & _). rewrite R1, R2, R3. split; [reflexivity|]. split; reflexivity.
Defined.

(** ** From the server's list to the output *)

Section listing.
Context `{CO : ClientOps} (dummy : EventChannelInfo).
Variables (get_it : Srv → Iterator EventChannelInfo) (set_it : Iterator EventChannelInfo → Srv → Srv).
Variables (factory eiter : Ref) (items : list EventChannelInfo).

(** The server's answers are those of [list_channels], when it has the channels [items], and of
    the iterator that it made; the iterator is a part of its state. *)
Class ServesList : Prop := {
  get_set_it it s : get_it (set_it it s) = it;
  served_list s : call_list_channels factory 0 s =
    match iterator_list 0 items with
    | (first, None) => Ret (first, None) s
    | (first, Some it) => Ret (first, Some eiter) (set_it it s)
    end;
  served_next s : call_next_one eiter s =
    let (r, it) := next_one dummy (get_it s) in Ret r (set_it it s) }.
Context `{SL : ServesList}.

Definition texts (details : bool) (l : list EventChannelInfo) : string :=
  foldr (λ e acc, channel_text details e +:+ acc) "" l.

Lemma next_loop_prints details n : ∀ fuel i s t,
  len items < 4294967296 → (i + n = length items)%nat → (n < fuel)%nat →
  get_it s = mkIterator items (Z.of_nat i) →
  ∃ s', next_loop fuel eiter (λ e, out (channel_text details e)) (s, t) =
    Ret (Some tt) (s', t +:+ texts details (drop i items)).
Proof.
  unfold len. induction n as [|n IH]; intros fuel i s t Hlen Hi Hf Hs; (destruct fuel as [|fuel]; [lia|]);
    cbn [next_loop].
  - assert (E : remote (call_next_one eiter) (s, t) = Ret (false, dummy) (set_it (mkIterator items (Z.of_nat i)) s, t)).
    { unfold remote, zoom. cbn [fst snd]. rewrite served_next, Hs. unfold next_one, len. cbn [list_ offset_].
      by rewrite (proj2 (Z.leb_le _ _)) by lia. }
    rewrite (bind_Ret _ _ _ _ _ E). cbn [fst snd]. rewrite drop_ge by lia. eexists.
    unfold texts. cbn [foldr]. by rewrite str_app_nil_r.
  - destruct (lookup_lt_is_Some_2 items i ltac:(lia)) as [e He].
    assert (E : remote (call_next_one eiter) (s, t) = Ret (true, e) (set_it (mkIterator items (Z.of_nat (S i))) s, t)).
    { unfold remote, zoom. cbn [fst snd]. rewrite served_next, Hs. unfold next_one, len. cbn [list_ offset_].
      rewrite (proj2 (Z.leb_gt _ _)) by lia. rewrite Nat2Z.id, He, u32_id by lia. do 4 f_equal. lia. }
    rewrite (bind_Ret _ _ _ _ _ E). cbn [fst snd].
    rewrite (bind_Ret (out (channel_text details e)) _ _ tt
               (set_it (mkIterator items (Z.of_nat (S i))) s, t +:+ channel_text details e)) by done.
    destruct (IH fuel (S i) (set_it (mkIterator items (Z.of_nat (S i))) s) (t +:+ channel_text details e))
      as (s' & K); [lia..|by rewrite get_set_it|].
    exists s'. rewrite K, (drop_S _ _ _ He). unfold texts. cbn [foldr]. by rewrite str_app_assoc.
Qed.

(** [eventl] lists every channel.  With a server that has the channels [items], the loop over
    the iterator ends, and its output is the text of each channel, once and in the order of the
    server's list; there is no output if there are no channels. *)
Theorem eventl_lists details s t :
  len items < 4294967296 →
  ∃ s', each_channel (S (length items)) factory (λ e, out (channel_text details e)) (s, t) =
    Ret (Some tt) (s', t +:+ texts details items).
Proof.
  intros Hlen. unfold each_channel, try_catch.
  assert (E : remote (call_list_channels factory 0) (s, t) =
    match iterator_list 0 items with
    | (first, None) => Ret (first, None) (s, t)
    | (first, Some it) => Ret (first, Some eiter) (set_it it s, t)
    end).
  { unfold remote, zoom. cbn [fst snd]. rewrite served_list. by destruct (iterator_list 0 items) as [first [it|]]. }
  unfold iterator_list in E. destruct (Z.leb_spec (len items) 0) as [Hz|Hz].
  - rewrite (bind_Ret _ _ _ _ _ E). cbn [snd].
    assert (items = []) as -> by (destruct items; [done|unfold len in Hz; simpl in Hz; lia]).
    exists s. unfold texts. cbn [foldr]. by rewrite str_app_nil_r.
  - assert (Hn : (next_n 0 (mkIterator items 0)).2 = mkIterator items 0).
    { unfold next_n. cbn [list_ offset_]. rewrite (proj2 (Z.leb_gt _ _)) by lia. cbn [snd].
      rewrite Z.sub_0_r, (u32_id (len items)) by lia. rewrite Z.min_l by lia. by rewrite u32_id. }
    destruct (next_n 0 (mkIterator items 0)) as [r it]. cbn [snd] in Hn. subst it.
    rewrite (bind_Ret _ _ _ _ _ E). cbn [snd].
    destruct (next_loop_prints details (length items) (S (length items)) 0 (set_it (mkIterator items 0) s) t)
      as (s' & K); [done|lia|lia|by rewrite get_set_it|]. rewrite K. by exists s'.
Qed.
End listing.

(** A server that only has channels to list. *)
Definition dummy_info : EventChannelInfo := mkInfo "" 0 0 0 0 false "".

Definition list_server (items : list EventChannelInfo) : ClientOps := {|
  Srv := Iterator EventChannelInfo;
  Ref := N;
  object_uri _ := "IOR:";
  uri_object _ := mret (Some 1%N);
  name_service := throw TRANSIENT;
  ns_resolve _ _ := throw TRANSIENT;
  ns_bind _ _ _ := throw TRANSIENT;
  ns_rebind _ _ _ := throw TRANSIENT;
  ns_unbind _ _ := throw TRANSIENT;
  narrow_factory o := mret o;
  narrow_channel o := mret o;
  call_supports _ _ := mret true;
  call_create_object _ _ _ := throw TRANSIENT;
  call_list_channels _ how_many := λ s,
    match iterator_list how_many items with
    | (first, None) => Ret (first, None) s
    | (first, Some it) => Ret (first, Some 2%N) it
    end;
  call_next_one _ := λ s, let (r, it) := next_one dummy_info s in Ret r it;
  call_delete_all _ := mret tt;
  call_destroy _ := mret tt;
  call_for_consumers r := mret r;
  call_for_suppliers r := mret r;
  call_obtain_push_supplier r := mret r;
  call_obtain_push_consumer r := mret r;
  call_connect_push_supplier _ _ := mret tt;
  call_connect_push_consumer _ _ := mret tt;
  orb_destroy := mret tt |}.

Definition sample_infos : list EventChannelInfo :=
  [mkInfo "a" 1000 1023 1024 100000000 true ""; mkInfo "b" 1000 20 1024 100000000 false "IDL:E:1.0"].

Lemma eventl_lists_witness :
  len sample_infos < 4294967296 ∧
  ∃ s', each_channel (CO := list_server sample_infos) 3 1%N (λ e, out (CO := list_server sample_infos) (channel_text false e))
          (mkIterator [] 0, "") =
    Ret (Some tt) (s', "CHANNEL : a" +:+ nl +:+ "CHANNEL : b (unmapped) " +:+ nl).
Proof.
  assert (H : len sample_infos < 4294967296) by (unfold len; simpl; lia).
  split; [exact H|].
  assert (SL : @ServesList model_AnyOps (list_server sample_infos) dummy_info (λ s, s) (λ it _, it) 1%N 2%N sample_infos)
    by (constructor; done).
  exact (@eventl_lists model_AnyOps (list_server sample_infos) dummy_info (λ s, s) (λ it _, it) 1%N 2%N
           sample_infos SL false (mkIterator [] 0) "" H).
Defined.
