(* ===== verification/EventsTool.v ===== *)
(** * EventsTool: recording and replaying events (src/tools/events.cc)

    The tool [events] writes the events of a channel to its standard output, each with the time
    it came; with [-s] it reads such a recording and pushes the events with the same delays.
    Marshalling is that of the ORB: a parameter. *)

From S2P Require Import Prelude Monad Stream Corba ModelOrb ChannelProps Getopt Naming EventChannelFactory Tools.

Local Open Scope string_scope.
Local Open Scope Z_scope.
Local Open Scope list_scope.

(** ** Class [Time] *)

(** Both members are [CORBA::ULong]. *)
Record Time := mkTime { _sec : Z; _nano : Z }.

#[export] Instance Time_eq_dec : EqDecision Time.
Proof. solve_decision. Defined.

(** [Time()] and [is_nil()] *)
Definition nil_time : Time := mkTime 0 0.
Definition is_nil (t : Time) : bool := (_sec t =? 0) && (_nano t =? 0).

(** [current()] *)
Definition current (clock : Z * Z) : Time := mkTime (u32 clock.1) (u32 clock.2).

(** [operator<] *)
Definition time_lt (a b : Time) : bool :=
  if _sec a =? _sec b then _nano a <? _nano b else _sec a <? _sec b.

(** [operator+=] and [operator+] *)
Definition time_add (a b : Time) : Time :=
  let sec := u32 (_sec a + _sec b) in
  let nano := u32 (_nano a + _nano b) in
  if BILLION <? nano then mkTime (u32 (sec + 1)) (nano mod BILLION) else mkTime sec nano.

(** [operator-=] and [operator-]; a negative time is [BAD_PARAM]. *)
Definition time_sub `{AnyOps} (a b : Time) : exn + Time :=
  if time_lt a b then inl BAD_PARAM
  else
    let sec := u32 (_sec a - _sec b) in
    if _nano a <? _nano b
    then inr (mkTime (u32 (sec - 1)) (u32 (u32 (_nano a + BILLION) - _nano b)))
    else inr (mkTime sec (u32 (_nano a - _nano b))).

(** [sleepUntil(futureTime)] at [now]: how long it sleeps. *)
Definition sleepUntil `{AnyOps} (now futureTime : Time) : exn + option Time :=
  if time_lt now futureTime
  then match time_sub futureTime now with inl e => inl e | inr t => inr (Some t) end
  else inr None.

Definition wf_time (t : Time) : Prop := 0 ≤ _sec t < 4294967296 ∧ 0 ≤ _nano t < BILLION.
Definition ns (t : Time) : Z := _sec t * BILLION + _nano t.

Lemma time_lt_ns a b : wf_time a → wf_time b → (time_lt a b = true ↔ ns a < ns b).
Proof.
  unfold wf_time, ns, time_lt, BILLION. intros [? ?] [? ?]. destruct (Z.eqb_spec (_sec a) (_sec b)); [|]; rewrite Z.ltb_lt; lia.
Qed.

(** ** What the tool calls *)

(** Besides what the other clients call: the clock, the standard input ([None] is a failure), and
    marshalling, which is the ORB's.  [unmarshal] reads at a position of a buffer and gives the
    position after the event.  [is_connected] is [_connected], which a callback clears. *)
Class EventsOps `{CO : ClientOps} := {
  root_poa : M exn Srv (option Ref);
  activate_manager : Ref → M exn Srv unit;
  this_object : Ref;
  call_push : Ref → Any → M exn Srv unit;
  get_time : M exn Srv (Z * Z);
  sleep : Time → M exn Srv unit;
  read_stdin : M exn Srv (option (list N));
  is_connected : M exn Srv bool;
  marshal : Time → Any → list N;
  unmarshal : list N → nat → exn + (Time * Any * nat) }.

Section events.
Context `{EO : EventsOps}.

(** The state: the servers, and the octets written to standard output. *)
Abbreviation Ev := (M exn (Srv * list N)).
Definition ev_remote {A} (m : M exn Srv A) : Ev A := zoom fst (λ v s, (v, s.2)) m.
Definition write_stdout (l : list N) : Ev unit := modify (λ s, (s.1, s.2 ++ l)).
Fixpoint octets (t : string) : list N :=
  match t with "" => [] | String c t' => Ascii.N_of_ascii c :: octets t' end.
Definition print (t : string) : Ev unit := write_stdout (octets (t +:+ nl)).
Definition of_sum {A} (r : exn + A) : Ev A := match r with inl e => throw e | inr a => mret a end.

Definition current_time : Ev Time := c ← ev_remote get_time; mret (current c).

(** [Time::sleepUntil(futureTime)] *)
Definition sleep_until (futureTime : Time) : Ev unit :=
  now ← current_time;
  r ← of_sum (sleepUntil now futureTime);
  match r with Some offset => ev_remote (sleep offset) | None => mret tt end.

(** ** Class [Consumer_i] *)

Definition push (data : Any) : Ev unit :=
  now ← current_time; write_stdout (marshal now data).

(** What the server calls, and the ORB running until it is shut down. *)
Inductive call := CPush (data : Any) | CDisconnect.

Fixpoint run_consumer (calls : list call) : Ev unit :=
  match calls with
  | [] => mret tt
  | CPush data :: calls' => _ ← push data; run_consumer calls'
  | CDisconnect :: _ => print "disconnected"
  end.

Definition consume (channel : Ref) : Ev unit :=
  consumer_admin ← ev_remote (call_for_consumers channel);
  proxy_supplier ← ev_remote (call_obtain_push_supplier consumer_admin);
  ev_remote (call_connect_push_consumer proxy_supplier this_object).

(** ** Class [Supplier_i] *)

(** The loop over the events of one buffer; the result is the offset, or [None] if the fuel does
    not suffice, which it does when every event takes octets. *)
Fixpoint supply_block (fuel : nat) (proxy : Ref) (buf : list N) (pos : nat) (offsetTime : Time)
    : Ev (option Time) :=
  match fuel with
  | O => mret None
  | S f =>
      connected ← ev_remote is_connected;
      if connected && (pos <? length buf)%nat then
        e ← of_sum (unmarshal buf pos);
        let '(eventTime, any, pos') := e in
        off ← (if is_nil offsetTime then now ← current_time; of_sum (time_sub now eventTime) else mret offsetTime);
        _ ← sleep_until (time_add eventTime off);
        _ ← ev_remote (call_push proxy any);
        supply_block f proxy buf pos' off
      else mret (Some offsetTime)
  end.

(** The loop over the buffers; [fuel] bounds the number of reads.  A failing read is used as a
    length. *)
Fixpoint supply_reads (fuel : nat) (proxy : Ref) (offsetTime : Time) : Ev (option unit) :=
  match fuel with
  | O => mret None
  | S f =>
      connected ← ev_remote is_connected;
      if negb connected then mret (Some tt) else
      b ← ev_remote read_stdin;
      match b with
      | None => abort
      | Some [] => mret (Some tt)
      | Some buf =>
          r ← supply_block (S (length buf)) proxy buf 0 offsetTime;
          match r with None => mret None | Some off => supply_reads f proxy off end
      end
  end.

Definition supply (fuel : nat) (channel : Ref) : Ev (option unit) :=
  supplier_admin ← ev_remote (call_for_suppliers channel);
  proxy_consumer ← ev_remote (call_obtain_push_consumer supplier_admin);
  _ ← ev_remote (call_connect_push_supplier proxy_consumer this_object);
  supply_reads fuel proxy_consumer nil_time.

(** ** [main] *)

Definition events_option (o : bool * string) (c : char) (optarg : option string) : Z + (bool * string) :=
  if ceqb c "s" then inr (true, o.2)
  else if ceqb c "n" then inr (o.1, default "" optarg)
  else if ceqb c "h" then inl 0
  else inl (-1).

(** The channel of the operand, or of the name; the message goes to standard output. *)
Definition find_channel (operands : list string) (channelName : string) : Ev (option Ref) :=
  match operands with
  | uri :: _ => ev_remote (uri_object uri)
  | [] =>
      ctx ← ev_remote name_service;
      match ctx with
      | None => throw OBJECT_NOT_EXIST
      | Some ctx =>
          _ ← print "find EventChannel in NameService";
          match str2name channelName with
          | None => abort
          | Some n => ev_remote (ns_resolve ctx n)
          end
      end
  end.

(** After the options; the result is [None] if the fuel does not suffice.  [calls] is what the
    server calls while the ORB runs. *)
Definition events_main (fuel : nat) (calls : list call) (o : bool * string) (operands : list string) : Ev (option Z) :=
  try_catch
    (rootPoa ← ev_remote root_poa;
     match rootPoa with
     | None => throw OBJECT_NOT_EXIST
     | Some rootPoa =>
         _ ← ev_remote (activate_manager rootPoa);
         obj ← find_channel operands o.2;
         channel ← ev_remote (narrow_channel obj);
         match channel with
         | None => exit 1
         | Some channel =>
             if o.1 then
               r ← supply fuel channel; mret (match r with None => None | Some _ => Some 0 end)
             else
               _ ← consume channel; _ ← run_consumer calls; mret (Some 0)
         end
     end)
    (λ _, Some (mret (Some 1))).

Definition events (fuel : nat) (calls : list call) (argv : list string) : option (Ev (option Z)) :=
  match tool_read "shn:" events_option (false, "EventChannel") argv with
  | None => None
  | Some (inl status) => Some (exit status)
  | Some (inr (o, operands)) => Some (events_main fuel calls o operands)
  end.
End events.

(** ** Times *)

Lemma time_sub_spec `{AnyOps} x y : wf_time x → wf_time y →
  match time_sub x y with
  | inr d => ns y ≤ ns x ∧ ns d = ns x - ns y ∧ wf_time d
  | inl e => e = BAD_PARAM ∧ ns x < ns y
  end.
Proof.
  intros Hx Hy. pose proof (time_lt_ns x y Hx Hy) as Hl. unfold time_sub.
  destruct (time_lt x y); [split; [done|by apply Hl]|].
  assert (Hle : ns y ≤ ns x) by (destruct (Z.lt_ge_cases (ns x) (ns y)) as [K|K]; [by apply Hl in K|done]).
  unfold wf_time, ns, BILLION in *. destruct Hx as [? ?], Hy as [? ?].
  destruct (Z.ltb_spec (_nano x) (_nano y)) as [Hc|Hc]; cbn [_sec _nano].
  - assert (_sec y < _sec x) by lia.
    rewrite (u32_id (_sec x - _sec y)), (u32_id (_nano x + 1000000000)) by lia.
    rewrite !u32_id by lia. lia.
  - assert (_sec y <= _sec x) by lia. rewrite !u32_id by lia. lia.
Qed.

Lemma time_add_spec a b : wf_time a → wf_time b → _sec a + _sec b + 1 < 4294967296 →
  ns (time_add a b) = ns a + ns b ∧ 0 ≤ _sec (time_add a b) < 4294967296 ∧ 0 ≤ _nano (time_add a b) ≤ BILLION ∧
  (wf_time (time_add a b) ↔ _nano a + _nano b ≠ BILLION).
Proof.
  intros Ha Hb Hs. unfold time_add, wf_time, ns, BILLION in *. destruct Ha as [? ?], Hb as [? ?].
  rewrite (u32_id (_nano a + _nano b)) by lia. destruct (Z.ltb_spec 1000000000 (_nano a + _nano b)) as [Hc|Hc]; cbn [_sec _nano].
  - rewrite (u32_id (_sec a + _sec b)), (u32_id (_sec a + _sec b + 1)) by lia.
    assert ((_nano a + _nano b) mod 1000000000 = _nano a + _nano b - 1000000000) as ->; [|lia].
    symmetry. apply (Z.mod_unique _ _ 1); lia.
  - rewrite u32_id by lia. lia.
Qed.

(** A sleep ends at the time it is until, even if that time is not normalised. *)
Lemma sleepUntil_spec `{AnyOps} now target :
  wf_time now → 0 ≤ _sec target < 4294967296 → 0 ≤ _nano target ≤ BILLION →
  match sleepUntil now target with
  | inr (Some d) => ns now < ns target ∧ ns now + ns d = ns target
  | inr None => ns target ≤ ns now
  | inl _ => False
  end.
Proof.
  intros Hn Hs Ht. unfold sleepUntil, time_sub, time_lt, wf_time, ns, BILLION in *. destruct Hn as [? ?].
  rewrite (Z.eqb_sym (_sec target)). destruct (Z.eqb_spec (_sec now) (_sec target)) as [E|E].
  - destruct (Z.ltb_spec (_nano now) (_nano target)); [|lia].
    destruct (Z.ltb_spec (_nano target) (_nano now)); [lia|]. cbn [_sec _nano]. rewrite !u32_id by lia. lia.
  - destruct (Z.ltb_spec (_sec now) (_sec target)); [|lia].
    destruct (Z.ltb_spec (_sec target) (_sec now)); [lia|].
    destruct (Z.ltb_spec (_nano target) (_nano now)); cbn [_sec _nano].
    + rewrite (u32_id (_sec target - _sec now)), (u32_id (_nano target + 1000000000)) by lia. rewrite !u32_id by lia. lia.
    + rewrite !u32_id by lia. lia.
Qed.

(** The arithmetic of times.  On normalised times below 2^32 seconds, comparison is that of
    nanoseconds; a difference is exact and normalised, or [BAD_PARAM] if it would be negative; a
    sum that does not overflow is exact, and normalised except when the nanoseconds add up to
    exactly one second, which is not carried.  A sleep ends at the time it is until. *)
Theorem time_arithmetic `{AnyOps} a b :
  wf_time a → wf_time b →
  (time_lt a b = true ↔ ns a < ns b) ∧
  match time_sub a b with
  | inr d => ns b ≤ ns a ∧ ns d = ns a - ns b ∧ wf_time d
  | inl e => e = BAD_PARAM ∧ ns a < ns b
  end ∧
  (_sec a + _sec b + 1 < 4294967296 →
     ns (time_add a b) = ns a + ns b ∧ (wf_time (time_add a b) ↔ _nano a + _nano b ≠ BILLION)) ∧
  match sleepUntil a b with
  | inr (Some d) => ns a + ns d = ns b
  | inr None => ns b ≤ ns a
  | inl _ => False
  end.
Proof.
  intros Ha Hb. split; [by apply time_lt_ns|]. split; [by apply time_sub_spec|]. split.
  - intros Hs. by destruct (time_add_spec a b Ha Hb Hs) as (K1 & _ & _ & K2).
  - pose proof (sleepUntil_spec a b Ha) as K. destruct Hb as [? ?]. specialize (K ltac:(done) ltac:(lia)).
    destruct (sleepUntil a b) as [|[d|]]; [done| |done]. by destruct K.
Qed.

Lemma time_arithmetic_witness :
  wf_time (mkTime 5 0) ∧ wf_time (mkTime 3 1) ∧
  time_sub (mkTime 5 0) (mkTime 3 1) = inr (mkTime 1 999999999) ∧
  (wf_time (time_add (mkTime 1 999999999) (mkTime 3 1)) → False).
Proof.
  assert (H1 : wf_time (mkTime 5 0)) by (unfold wf_time, BILLION; simpl; lia).
  assert (H2 : wf_time (mkTime 3 1)) by (unfold wf_time, BILLION; simpl; lia).
  assert (H3 : wf_time (mkTime 1 999999999)) by (unfold wf_time, BILLION; simpl; lia).
  split; [exact H1|]. split; [exact H2|]. split; [reflexivity|].
  destruct (time_arithmetic (mkTime 1 999999999) (mkTime 3 1) H3 H2) as (_ & _ & K & _).
  intros Hw. apply K in Hw; [by apply Hw|simpl; lia].
Defined.

(** ** A recording that is replayed *)

Section tape.
Context `{AO : AnyOps}.
Variable marshal_ : Time → Any → list N.
Variable unmarshal_ : list N → nat → exn + (Time * Any * nat).

(** A clock in nanoseconds, which advances by [tp_ticks] before it is read, while the tool
    sleeps, and by [tp_delays] while an event is pushed; what the reads give; and the events
    pushed, with their times. *)
Record tape := mkTape {
  tp_now : Z; tp_ticks : list Z; tp_in : list (list N); tp_delays : list Z; tp_pushed : list (Any * Z) }.

#[local] Instance tape_clients : ClientOps := {|
  Srv := tape; Ref := N;
  object_uri _ := "IOR:";
  uri_object _ := mret (Some 1%N);
  name_service := throw TRANSIENT;
  ns_resolve _ _ := throw TRANSIENT;
  ns_bind _ _ _ := throw TRANSIENT;
  ns_rebind _ _ _ := throw TRANSIENT;
  ns_unbind _ _ := throw TRANSIENT;
  narrow_factory o := mret o;
  narrow_channel o := mret o;
  call_supports _ _ := mret true;
  call_create_object _ _ _ := throw TRANSIENT;
  call_list_channels _ _ := throw TRANSIENT;
  call_next_one _ := throw TRANSIENT;
  call_delete_all _ := mret tt;
  call_destroy _ := mret tt;
  call_for_consumers r := mret r;
  call_for_suppliers r := mret r;
  call_obtain_push_supplier r := mret r;
  call_obtain_push_consumer r := mret r;
  call_connect_push_supplier _ _ := mret tt;
  call_connect_push_consumer _ _ := mret tt;
  orb_destroy := mret tt |}.

#[local] Instance tape_ops : EventsOps (CO := tape_clients) := {|
  root_poa := mret (Some (2%N : Ref));
  activate_manager _ := mret tt;
  this_object := (3%N : Ref);
  call_push _ a := λ s, Ret tt
    (mkTape (tp_now s + hd 0 (tp_delays s)) (tp_ticks s) (tp_in s) (tail (tp_delays s)) (tp_pushed s ++ [(a, tp_now s)]));
  get_time := λ s, let now := tp_now s + hd 0 (tp_ticks s) in
    Ret (now / BILLION, now mod BILLION) (mkTape now (tail (tp_ticks s)) (tp_in s) (tp_delays s) (tp_pushed s));
  sleep t := λ s, Ret tt (mkTape (tp_now s + ns t) (tp_ticks s) (tp_in s) (tp_delays s) (tp_pushed s));
  read_stdin := λ s,
    match tp_in s with
    | [] => Ret (Some []) s
    | b :: l => Ret (Some b) (mkTape (tp_now s) (tp_ticks s) l (tp_delays s) (tp_pushed s))
    end;
  is_connected := mret true;
  marshal := marshal_;
  unmarshal := unmarshal_ |}.

Definition time_of (z : Z) : Time := mkTime (z / BILLION) (z mod BILLION).
Definition LIMIT : Z := 4294967295 * BILLION.

Lemma time_of_spec z : 0 ≤ z < LIMIT → wf_time (time_of z) ∧ ns (time_of z) = z ∧ current (z / BILLION, z mod BILLION) = time_of z.
Proof.
  unfold LIMIT, wf_time, ns, time_of, current, BILLION. cbn [_sec _nano fst snd]. intros Hz.
  pose proof (Z.mod_pos_bound z 1000000000 ltac:(lia)). pose proof (Z.div_mod z 1000000000 ltac:(lia)).
  assert (0 ≤ z / 1000000000 < 4294967295) by (split; [apply Z.div_pos; lia|apply Z.div_lt_upper_bound; lia]).
  rewrite !u32_id by lia. split_and!; lia || done.
Qed.

(** What the clock says, each time it is read. *)
Fixpoint readings (now : Z) (ticks : list Z) (n : nat) : list Z :=
  match n with O => [] | S n' => (now + hd 0 ticks) :: readings (now + hd 0 ticks) (tail ticks) n' end.

Definition stamp (z : Z) (a : Any) : Time * Any := (time_of z, a).
Definition octets_of (e : Time * Any) : list N := marshal_ e.1 e.2.
Definition recording (l : list (Time * Any)) : list N := concat (map octets_of l).

(** The events are recorded with the times they come. *)
Lemma consumer_records evs : ∀ (s : tape) out,
  Forall (λ z, 0 ≤ z < LIMIT) (readings (tp_now s) (tp_ticks s) (length evs)) →
  ∃ s', run_consumer (map CPush evs) (s, out) =
    Ret tt (s', out ++ recording (zip_with stamp (readings (tp_now s) (tp_ticks s) (length evs)) evs)).
Proof.
  induction evs as [|a evs IH]; intros s out Hl; [exists s; cbn; by rewrite app_nil_r|].
  cbn [length readings] in Hl |- *. inversion Hl as [|? ? Hz Hl']; subst.
  set (z := tp_now s + hd 0 (tp_ticks s)) in *. set (s1 := mkTape z (tail (tp_ticks s)) (tp_in s) (tp_delays s) (tp_pushed s)).
  destruct (IH s1 (out ++ octets_of (stamp z a)) Hl') as (s' & E). exists s'.
  assert (Ep : push a (s, out) = Ret tt (s1, out ++ octets_of (stamp z a))).
  { unfold push, current_time, ev_remote, write_stdout, zoom, modify, mbind, M_bind, mret, M_ret. cbn [fst snd get_time tape_ops].
    fold z. unfold octets_of, stamp. cbn [fst snd]. by rewrite (proj2 (proj2 (time_of_spec z Hz))). }
  cbn [map run_consumer]. rewrite (bind_Ret _ _ _ _ _ Ep), E. cbn [zip_with]. unfold recording. cbn [map concat].
  by rewrite app_assoc.
Qed.

(** ** What a replay does *)

(** Each event is pushed at its time plus [base], or as soon as the one before it is done. *)
Fixpoint replayed (base now : Z) (delays : list Z) (l : list (Time * Any)) : list (Any * Z) :=
  match l with
  | [] => []
  | (t, a) :: l' =>
      let at_ := Z.max now (ns t + base) in (a, at_) :: replayed base (at_ + hd 0 delays) (tail delays) l'
  end.

Lemma sleep_until_tape target (s : tape) out :
  0 ≤ tp_now s < LIMIT → tp_ticks s = [] → 0 ≤ _sec target < 4294967296 → 0 ≤ _nano target ≤ BILLION →
  sleep_until target (s, out) =
    Ret tt (mkTape (Z.max (tp_now s) (ns target)) [] (tp_in s) (tp_delays s) (tp_pushed s), out).
Proof.
  intros Hn Ht Hs Hr. destruct (time_of_spec (tp_now s) Hn) as (W & N & C).
  pose proof (sleepUntil_spec (time_of (tp_now s)) target W Hs Hr) as K.
  unfold sleep_until, current_time, ev_remote, of_sum, zoom, mbind, M_bind, mret, M_ret.
  cbn [fst snd get_time tape_ops sleep]. rewrite Ht. cbn [hd tail]. rewrite Z.add_0_r, C, N in *.
  destruct (sleepUntil (time_of (tp_now s)) target) as [|[d|]]; [done| |]; cbn.
  - do 3 f_equal. lia.
  - do 3 f_equal. lia.
Qed.

Fixpoint play (base : Z) (l : list (Time * Any)) (s : tape) : tape :=
  match l with
  | [] => s
  | (t, a) :: l' =>
      let at_ := Z.max (tp_now s) (ns t + base) in
      play base l' (mkTape (at_ + hd 0 (tp_delays s)) [] (tp_in s) (tail (tp_delays s)) (tp_pushed s ++ [(a, at_)]))
  end.

Lemma play_pushed base l : ∀ s, tp_pushed (play base l s) = tp_pushed s ++ replayed base (tp_now s) (tp_delays s) l.
Proof.
  induction l as [|[t a] l IH]; intros s; cbn [play replayed]; [by rewrite app_nil_r|].
  rewrite IH. cbn [tp_pushed tp_now tp_delays]. by rewrite <- app_assoc.
Qed.
Lemma play_app base l1 l2 : ∀ s, play base (l1 ++ l2) s = play base l2 (play base l1 s).
Proof. induction l1 as [|[t a] l1 IH]; intros s; [done|]. apply IH. Qed.
Lemma play_in base l : ∀ s, tp_in (play base l s) = tp_in s.
Proof. induction l as [|[t a] l IH]; intros s; [done|]. cbn [play]. by rewrite IH. Qed.

(** A clock that the tool can read, and delays that are not negative. *)
Definition sound (s : tape) : Prop := tp_ticks s = [] ∧ 0 ≤ tp_now s ∧ Forall (λ z, 0 ≤ z) (tp_delays s).
Definition in_range (base : Z) (s : tape) (l : list (Time * Any)) : Prop :=
  Forall (λ e, e.2 < LIMIT) (replayed base (tp_now s) (tp_delays s) l).

Lemma play_sound base l : ∀ s, sound s → sound (play base l s).
Proof.
  induction l as [|[t a] l IH]; intros s Hs; [done|]. apply IH. destruct Hs as (K1 & K2 & K3).
  split_and!; [done| |].
  - cbn. destruct K3 as [|z l' Hz _]; cbn [hd]; lia.
  - cbn. by destruct K3.
Qed.

Lemma in_range_app base l1 l2 : ∀ s, in_range base s (l1 ++ l2) → in_range base s l1 ∧ in_range base (play base l1 s) l2.
Proof.
  induction l1 as [|[t a] l1 IH]; intros s; [by split; [constructor|]|]. unfold in_range. cbn [app replayed play].
  intros [K1 K2]%Forall_cons.
  destruct (IH (mkTape (Z.max (tp_now s) (ns t + base) + hd 0 (tp_delays s)) [] (tp_in s) (tail (tp_delays s))
    (tp_pushed s ++ [(a, Z.max (tp_now s) (ns t + base))])) K2) as [K3 K4].
  split; [by constructor|exact K4].
Qed.

(** The stream of octets: an event is read from a position that is aligned. *)
Definition aligned {A} (l : list A) : Prop := (length l mod 8 = 0)%nat.
Definition recorded (e : Time * Any) : Prop := wf_time e.1 ∧ aligned (octets_of e) ∧ octets_of e ≠ [].
Hypothesis unmarshal_marshal : ∀ pre t a rest, wf_time t → aligned pre →
  unmarshal_ (pre ++ marshal_ t a ++ rest) (length pre) = inr (t, a, (length pre + length (marshal_ t a))%nat).

Lemma aligned_app {A} (l1 l2 : list A) : aligned l1 → aligned l2 → aligned (l1 ++ l2).
Proof.
  unfold aligned. rewrite length_app. intros H1 H2. rewrite Nat.Div0.add_mod, H1, H2. done.
Qed.

(** One event, once the offset is known. *)
Lemma supply_event proxy t a base off s out :
  sound s → wf_time t → wf_time off → ns off = base → in_range base s [(t, a)] →
  (_ ← sleep_until (time_add t off); ev_remote (call_push proxy a)) (s, out) = Ret tt (play base [(t, a)] s, out).
Proof.
  intros (K1 & K2 & K3) Wt Wo Hb Hr. apply Forall_inv in Hr. cbn [snd] in Hr.
  assert (Hs : _sec t + _sec off + 1 < 4294967296).
  { unfold LIMIT, wf_time, ns, BILLION in *. lia. }
  destruct (time_add_spec t off Wt Wo Hs) as (N & S1 & S2 & _).
  rewrite (bind_Ret _ _ _ _ _ (sleep_until_tape (time_add t off) s out ltac:(lia) K1 S1 S2)).
  unfold ev_remote, zoom. cbn. by rewrite N, Hb.
Qed.

Lemma connected_bind {A} (k : bool → M exn (Srv * list N) A) s :
  (c ← ev_remote is_connected; k c) s = k true s.
Proof. by destruct s. Qed.

Lemma of_sum_bind {A B} (a : A) (k : A → M exn (Srv * list N) B) s : (x ← of_sum (inr a); k x) s = k a s.
Proof. done. Qed.

Lemma supply_block_plays proxy base off l : ∀ pre s out fuel,
  aligned pre → Forall recorded l → wf_time off → is_nil off = false → ns off = base → sound s → in_range base s l →
  (length l < fuel)%nat →
  supply_block fuel proxy (pre ++ recording l) (length pre) off (s, out) = Ret (Some off) (play base l s, out).
Proof.
  induction l as [|[t a] l IH]; intros pre s out fuel Hp Hl Wo Hn Hb Hs Hr Hf; (destruct fuel as [|f]; [cbn in Hf; lia|]).
  - unfold recording. cbn [map concat]. rewrite app_nil_r. cbn [supply_block].
    by rewrite connected_bind, Nat.ltb_irrefl.
  - inversion Hl as [|? ? (Wt & Ha & Hne) Hl']; subst. cbn [fst] in Wt.
    destruct (in_range_app _ [(t, a)] l s Hr) as [Hr1 Hr2].
    cbn [supply_block]. unfold recording. cbn [map concat]. fold (recording l).
    assert (Hlt : (length pre <? length (pre ++ octets_of (t, a) ++ recording l))%nat = true).
    { apply Nat.ltb_lt. rewrite !length_app. destruct (octets_of (t, a)); [done|cbn; lia]. }
    rewrite connected_bind, Hlt. cbn [andb].
    change (octets_of (t, a)) with (marshal_ t a). cbn [unmarshal tape_ops].
    rewrite unmarshal_marshal, of_sum_bind, Hn, bind_ret by done.
    rewrite <- bind_assoc, (bind_Ret _ _ _ _ _ (supply_event proxy t a _ off s out Hs Wt Wo eq_refl Hr1)).
    rewrite app_assoc, <- length_app.
    rewrite (IH (pre ++ marshal_ t a)); try done; [by apply aligned_app|by apply (play_sound _ [(t, a)])|cbn in Hf; lia].
Qed.

Lemma current_time_tape (s : tape) out : sound s → tp_now s < LIMIT →
  current_time (s, out) = Ret (time_of (tp_now s)) (s, out).
Proof.
  intros (K1 & K2 & _) Hn. destruct (time_of_spec (tp_now s)) as (_ & _ & C); [lia|].
  unfold current_time, ev_remote, zoom, mbind, M_bind, mret, M_ret. cbn [fst snd get_time tape_ops]. rewrite K1.
  cbn [hd tail]. rewrite Z.add_0_r, C. destruct s; cbn in *; by subst.
Qed.

(** The first event sets the offset. *)
Lemma supply_block_first proxy t a l s out fuel :
  Forall recorded ((t, a) :: l) → sound s → ns t < tp_now s < LIMIT → in_range (tp_now s - ns t) s ((t, a) :: l) →
  (length ((t, a) :: l) < fuel)%nat →
  ∃ off, wf_time off ∧ is_nil off = false ∧ ns off = tp_now s - ns t ∧
    supply_block fuel proxy (recording ((t, a) :: l)) 0 nil_time (s, out) =
      Ret (Some off) (play (tp_now s - ns t) ((t, a) :: l) s, out).
Proof.
  intros Hl Hs Hn Hr Hf. inversion Hl as [|? ? (Wt & Ha & Hne) Hl']; subst. cbn [fst] in Wt.
  destruct (time_of_spec (tp_now s)) as (W & Nn & _); [destruct Hs as (_ & ? & _); lia|].
  pose proof (time_sub_spec (time_of (tp_now s)) t W Wt) as K.
  destruct (time_sub (time_of (tp_now s)) t) as [|off] eqn:Eo; [lia|]. destruct K as (_ & Kn & Kw). rewrite Nn in Kn.
  assert (Hnil : is_nil off = false).
  { unfold is_nil. apply not_true_iff_false. intros [K1 K2]%andb_true_iff. boolify. unfold ns in *. lia. }
  exists off. split_and!; try done.
  rewrite <- (supply_block_plays proxy (tp_now s - ns t) off ((t, a) :: l) [] s out fuel) by done.
  cbn [app length]. destruct fuel as [|f]; [cbn in Hf; lia|]. cbn [supply_block]. rewrite !connected_bind.
  assert ((0 <? length (recording ((t, a) :: l)))%nat = true) as ->.
  { apply Nat.ltb_lt. unfold recording. cbn [map concat]. rewrite length_app. destruct (octets_of (t, a)); [done|cbn; lia]. }
  cbn [andb].
  change (recording ((t, a) :: l)) with ([] ++ marshal_ t a ++ recording l). cbn [unmarshal tape_ops].
  change 0%nat with (length ([] : list N)). rewrite unmarshal_marshal, !of_sum_bind, Hnil, bind_ret by done.
  change (is_nil nil_time) with true. cbv iota.
  rewrite bind_assoc, (bind_Ret _ _ _ _ _ (current_time_tape s out Hs (proj2 Hn))), Eo, of_sum_bind. done.
Qed.

Definition set_in (l : list (list N)) (s : tape) : tape :=
  mkTape (tp_now s) (tp_ticks s) l (tp_delays s) (tp_pushed s).

Lemma play_set_in base l i : ∀ s, sound s → play base l (set_in i s) = set_in i (play base l s).
Proof.
  induction l as [|[t a] l IH]; intros s Hs; [done|]. cbn [play].
  rewrite <- IH by (apply (play_sound base [(t, a)]); done). done.
Qed.

Lemma set_in_sound l s : sound s → sound (set_in l s).
Proof. done. Qed.

(** One read, of whole events. *)
Lemma read_bind {A} (k : option (list N) → M exn (Srv * list N) A) b rest (s : tape) out :
  tp_in s = b :: rest → (x ← ev_remote read_stdin; k x) (s, out) = k (Some b) (set_in rest s, out).
Proof. intros Hi. unfold ev_remote, zoom, mbind, M_bind. cbn [fst snd read_stdin tape_ops]. by rewrite Hi. Qed.

Lemma recording_cons g : g ≠ [] → Forall recorded g → ∃ x l, recording g = x :: l.
Proof.
  intros Hne Hg. destruct Hg as [|e g (_ & _ & He) _]; [done|]. unfold recording. cbn [map concat].
  destruct (octets_of e) as [|x l]; [done|]. by exists x, (l ++ concat (map octets_of g)).
Qed.
Lemma recording_length g : Forall recorded g → (length g ≤ length (recording g))%nat.
Proof.
  induction 1 as [|e g (_ & _ & He) _ IHg]; [done|]. unfold recording in *. cbn [map concat length].
  rewrite length_app. destruct (octets_of e); [done|cbn; lia].
Qed.

Lemma supply_reads_step proxy off g rest s out f r :
  tp_in s = recording g :: rest → g ≠ [] → Forall recorded g →
  supply_block (S (length (recording g))) proxy (recording g) 0 off (set_in rest s, out) = Ret (Some r.1) (r.2, out) →
  supply_reads (S f) proxy off (s, out) = supply_reads f proxy r.1 (r.2, out).
Proof.
  intros Hi Hne Hg E. cbn [supply_reads]. rewrite connected_bind. cbn [negb]. rewrite (read_bind _ _ _ _ _ Hi).
  destruct (recording_cons g Hne Hg) as (x & l & Ex). rewrite Ex, <- Ex. by rewrite (bind_Ret _ _ _ _ _ E).
Qed.

(** The reads give whole events; how many at a time does not matter. *)
Lemma supply_reads_plays proxy base off groups : ∀ s out fuel,
  tp_in s = map recording groups → Forall (λ g, g ≠ []) groups → Forall recorded (concat groups) →
  wf_time off → is_nil off = false → ns off = base → sound s → in_range base s (concat groups) →
  (length groups < fuel)%nat →
  supply_reads fuel proxy off (s, out) = Ret (Some tt) (set_in [] (play base (concat groups) s), out).
Proof.
  induction groups as [|g groups IH]; intros s out fuel Hi Hg Hl Wo Hn Hb Hs Hr Hf; (destruct fuel as [|f]; [cbn in Hf; lia|]).
  - cbn [supply_reads]. rewrite connected_bind. unfold ev_remote, zoom, mbind, M_bind. cbn [negb fst snd read_stdin tape_ops].
    rewrite Hi. destruct s; cbn in *; by subst.
  - inversion Hg as [|? ? Hg1 Hg2]; subst. cbn [concat] in Hl, Hr. apply Forall_app in Hl as [Hl1 Hl2].
    destruct (in_range_app _ _ _ _ Hr) as [Hr1 Hr2]. pose proof (recording_length g Hl1) as Hlen.
    set (s0 := set_in (map recording groups) s).
    rewrite (supply_reads_step proxy off g (map recording groups) s out f (off, play (ns off) g s0)); [|done..|].
    2:{ by apply (supply_block_plays proxy _ off g []); try lia. }
    cbn [fst snd]. unfold s0. rewrite play_set_in by done. rewrite IH; try done.
    + cbn [concat]. rewrite play_app, play_set_in by by apply play_sound. done.
    + by apply play_sound.
    + cbn in Hf. lia.
Qed.

(** A recording without delays keeps the intervals. *)
Lemma replayed_intervals base evs : ∀ now n ticks,
  Forall (λ z, 0 ≤ z) ticks → Forall (λ z, 0 ≤ z < LIMIT) (readings n ticks (length evs)) → now ≤ n + hd 0 ticks + base →
  replayed base now [] (zip_with stamp (readings n ticks (length evs)) evs) =
    zip_with (λ z a, (a, z + base)) (readings n ticks (length evs)) evs.
Proof.
  induction evs as [|a evs IH]; intros now n ticks Ht Hz Hn; [done|].
  cbn [length readings zip_with stamp replayed hd tail] in *. inversion Hz as [|? ? Hz1 Hz2]; subst.
  rewrite (proj1 (proj2 (time_of_spec _ Hz1))), Z.max_r, Z.add_0_r by lia. f_equal. apply IH; [by destruct Ht|done|].
  destruct Ht as [|z0 ticks Hz0 [|z1 l Hz1' _]]; cbn [hd tail] in *; lia.
Qed.

Lemma set_in_same l s : tp_in s = l → set_in l s = s.
Proof. destruct s. cbn. by intros ->. Qed.

(** A replay: the first event sets the offset, if it is not of this very moment. *)
Lemma supply_plays proxy t a l groups s out fuel :
  concat groups = (t, a) :: l → tp_in s = map recording groups → Forall (λ g, g ≠ []) groups →
  Forall recorded (concat groups) → sound s → ns t < tp_now s < LIMIT →
  in_range (tp_now s - ns t) s (concat groups) → (length groups < fuel)%nat →
  supply_reads fuel proxy nil_time (s, out) =
    Ret (Some tt) (set_in [] (play (tp_now s - ns t) (concat groups) s), out).
Proof.
  intros Hc Hi Hg Hl Hs Hn Hr Hf. destruct groups as [|g groups]; [done|].
  inversion Hg as [|? ? Hg1 Hg2]; subst. destruct g as [|e g]; [done|]. cbn [concat app] in Hc. injection Hc as -> <-.
  change (concat (((t, a) :: g) :: groups)) with (((t, a) :: g) ++ concat groups) in *. pose proof Hl as [Hl1 Hl2]%Forall_app.
  destruct (in_range_app _ _ _ _ Hr) as [Hr1 Hr2].
  pose proof (recording_length _ Hl1) as Hlen. set (s0 := set_in (map recording groups) s).
  destruct (supply_block_first proxy t a g s0 out (S (length (recording ((t, a) :: g)))) Hl1 Hs Hn Hr1)
    as (off & Wo & Hnil & Hoff & E); [lia|].
  destruct fuel as [|f]; [cbn in Hf; lia|].
  rewrite (supply_reads_step _ _ _ _ _ _ _ (off, _) Hi Hg1 Hl1 E). etransitivity.
  - symmetry. apply (supply_reads_step proxy off _ _ s out f (off, play (tp_now s - ns t) ((t, a) :: g) s0) Hi Hg1 Hl1).
    by apply (supply_block_plays proxy _ off ((t, a) :: g) []); try lia.
  - by apply (supply_reads_plays proxy _ off (((t, a) :: g) :: groups)).
Qed.

Lemma stamped_recorded evs : ∀ times, Forall (λ z, 0 ≤ z < LIMIT) times →
  Forall (λ e, aligned (octets_of e) ∧ octets_of e ≠ []) (zip_with stamp times evs) →
  Forall recorded (zip_with stamp times evs).
Proof.
  induction evs as [|a evs IH]; intros [|z times] Hz Hal; try constructor;
    inversion Hz; inversion Hal; subst; [split; [by apply time_of_spec|done]|by apply IH].
Qed.

Lemma recording_concat groups : concat (map recording groups) = recording (concat groups).
Proof.
  induction groups as [|g groups IH]; [done|]. cbn [map concat]. rewrite IH. unfold recording.
  by rewrite map_app, concat_app.
Qed.

(** [main] on the tape, with the channel given by its reference. *)
Lemma events_main_record fuel calls name uri s s' :
  run_consumer calls s = Ret tt s' → events_main fuel calls (false, name) [uri] s = Ret (Some 0) s'.
Proof.
  intros E. destruct s as [s out]. unfold events_main, consume, try_catch, mbind, M_bind.
  cbn -[run_consumer] in *. by rewrite E.
Qed.
Lemma events_main_replay fuel calls name uri s s' :
  supply_reads fuel (1%N : Ref) nil_time s = Ret (Some tt) s' → events_main fuel calls (true, name) [uri] s = Ret (Some 0) s'.
Proof.
  intros E. destruct s as [s out]. unfold events_main, supply, try_catch, mbind, M_bind.
  cbn -[supply_reads] in *. by rewrite E.
Qed.

(** C26: a recording is replayed with the intervals it was made with.  Let [events] record events
    for as long as its clock fits, and let every record have a length that keeps the next one
    aligned.  What is written is the sequence of records.  If those octets are read again, in any
    number of reads that do not split a record, by [events -s] at a later time, then the same
    events are pushed in the same order, none before its time, that is, its recorded time moved by
    the difference of the two starts; and exactly then, if pushing takes no time. *)
Theorem recording_replayed uri name evs s1 s2 groups fuel :
  let times := readings (tp_now s1) (tp_ticks s1) (length evs) in
  let recs := zip_with stamp times evs in
  let base := tp_now s2 - hd 0 times in
  Forall (λ z, 0 ≤ z) (tp_ticks s1) → Forall (λ z, 0 ≤ z < LIMIT) times → evs ≠ [] →
  Forall (λ e, aligned (octets_of e) ∧ octets_of e ≠ []) recs →
  concat groups = recs → Forall (λ g, g ≠ []) groups → tp_in s2 = map recording groups →
  sound s2 → hd 0 times < tp_now s2 < LIMIT → in_range base s2 recs → (length groups < fuel)%nat →
  (∃ s1', events_main fuel (map CPush evs) (false, name) [uri] (s1, []) = Ret (Some 0) (s1', concat (tp_in s2))) ∧
  ∃ s2', events_main fuel [] (true, name) [uri] (s2, []) = Ret (Some 0) (s2', []) ∧
    tp_pushed s2' = tp_pushed s2 ++ replayed base (tp_now s2) (tp_delays s2) recs ∧
    (tp_delays s2 = [] → replayed base (tp_now s2) (tp_delays s2) recs = zip_with (λ z a, (a, z + base)) times evs).
Proof.
  intros times recs base Ht Hz Hne Hal Hc Hg Hi Hs Hn Hr Hf.
  assert (Hrec : Forall recorded recs) by exact (stamped_recorded evs times Hz Hal). split.
  - destruct (consumer_records evs s1 [] Hz) as (s' & E). exists s'. rewrite Hi, recording_concat, Hc.
    by apply events_main_record.
  - destruct evs as [|a evs]; [done|]. rewrite <- Hc in Hrec, Hr.
    assert (Hz0 : 0 ≤ hd 0 times < LIMIT) by (unfold times in *; cbn in *; by inversion Hz).
    destruct (time_of_spec _ Hz0) as (_ & Nn & _).
    assert (Hb : tp_now s2 - ns (time_of (hd 0 times)) = base) by (by rewrite Nn).
    assert (Hcons : ∃ l, recs = (time_of (hd 0 times), a) :: l) by (eexists; reflexivity).
    destruct Hcons as (l & Hcons). rewrite Hcons in Hc.
    pose proof (supply_plays 1%N (time_of (hd 0 times)) a l groups s2 [] fuel Hc Hi Hg Hrec Hs) as E.
    rewrite Hb, Nn in E. specialize (E Hn Hr Hf).
    eexists. split; [by apply events_main_replay|]. split.
    { cbn [set_in tp_pushed]. by rewrite play_pushed, Hc, <- Hcons. }
    intros ->. apply replayed_intervals; [done|exact Hz|]. unfold base, times. cbn. lia.
Qed.
End tape.

(** ** Witness: booleans, marshalled in sixteen octets *)

#[local] Instance flag_AnyOps : AnyOps := {
  Any := bool; any_kind _ := tk_boolean; any_id _ := ""; any_ulong _ := None; any_string _ := None;
  any_boolean a := Some a; any_of_string _ := false; any_empty := false }.

Definition octets4 (z : Z) : list N :=
  [Z.to_N (z mod 256); Z.to_N (z / 256 mod 256); Z.to_N (z / 65536 mod 256); Z.to_N (z / 16777216 mod 256)].
Definition of_octets4 (a b c d : N) : Z := Z.of_N a + 256 * Z.of_N b + 65536 * Z.of_N c + 16777216 * Z.of_N d.

Definition flag_marshal (t : Time) (a : Any) : list N :=
  octets4 (_sec t) ++ octets4 (_nano t) ++ [if a then 1%N else 0%N; 0; 0; 0; 0; 0; 0; 0]%N.
Definition flag_unmarshal (buf : list N) (pos : nat) : exn + (Time * Any * nat) :=
  match drop pos buf with
  | s0 :: s1 :: s2 :: s3 :: n0 :: n1 :: n2 :: n3 :: a :: _ =>
      inr (mkTime (of_octets4 s0 s1 s2 s3) (of_octets4 n0 n1 n2 n3), N.eqb a 1, (pos + 16)%nat)
  | _ => inl (SystemException "MARSHAL")
  end.

Lemma of_octets4_octets4 z : 0 ≤ z < 4294967296 →
  of_octets4 (Z.to_N (z mod 256)) (Z.to_N (z / 256 mod 256)) (Z.to_N (z / 65536 mod 256)) (Z.to_N (z / 16777216 mod 256)) = z.
Proof.
  intros Hz. unfold of_octets4. rewrite !Z2N.id by (apply Z.mod_pos_bound; lia).
  rewrite (Z.mod_small (z / 16777216)) by (split; [apply Z.div_pos; lia|apply Z.div_lt_upper_bound; lia]).
  Z.to_euclidean_division_equations. lia.
Qed.

Lemma flag_unmarshal_marshal pre t a rest : wf_time t → aligned pre →
  flag_unmarshal (pre ++ flag_marshal t a ++ rest) (length pre) = inr (t, a, (length pre + length (flag_marshal t a))%nat).
Proof.
  intros [? ?] _. unfold flag_unmarshal. rewrite drop_app_length. cbn [flag_marshal octets4 app].
  rewrite !of_octets4_octets4 by (unfold BILLION in *; lia). destruct t, a; done.
Qed.

(** Two events half a second apart, replayed a minute later in two reads. *)
Definition tape1 : tape := mkTape (5 * BILLION) [0; 500000000] [] [] [].
Definition sample_groups : list (list (Time * Any)) := [[(mkTime 5 0, true)]; [(mkTime 5 500000000, false)]].
Definition tape2 : tape :=
  mkTape (65 * BILLION) [] (map (recording flag_marshal) sample_groups) [] [].

Lemma recording_replayed_witness :
  sound tape2 ∧ ∃ s2', events_main (CO := tape_clients) (EO := tape_ops flag_marshal flag_unmarshal) 5 [] (true, "EventChannel") ["IOR:1"]
      (tape2, []) = Ret (Some 0) (s2', []) ∧
    tp_pushed s2' = [(true, 65 * BILLION); (false, 65 * BILLION + 500000000)].
Proof.
  assert (Hs : sound tape2) by (split_and!; [done|unfold tape2, BILLION; cbn; lia|constructor]).
  split; [exact Hs|].
  destruct (recording_replayed flag_marshal flag_unmarshal flag_unmarshal_marshal "IOR:1" "EventChannel" [true; false]
    tape1 tape2 sample_groups 5) as (_ & s2' & E & P & Q).
  - change (Forall (λ z, 0 ≤ z) [0; 500000000]). repeat constructor; lia.
  - change (Forall (λ z, 0 ≤ z < LIMIT) [5 * BILLION + 0; 5 * BILLION + 0 + 500000000]).
    unfold LIMIT, BILLION. repeat constructor; lia.
  - done.
  - repeat constructor; done.
  - vm_compute. reflexivity.
  - repeat constructor; done.
  - reflexivity.
  - exact Hs.
  - change (5 * BILLION + 0 < 65 * BILLION < LIMIT). unfold LIMIT, BILLION. lia.
  - change (Forall (λ e : Any * Z, e.2 < LIMIT) [(true, 65 * BILLION); (false, 65 * BILLION + 500000000)]).
    unfold LIMIT, BILLION. repeat constructor; cbn; lia.
  - cbn. lia.
  - exists s2'. split; [exact E|]. rewrite P, (Q eq_refl). vm_compute. reflexivity.
Defined.
