(* ===== verification/Samples.v ===== *)
(** * Samples: the sample clients (src/examples/pushsupp.cc, pushcons.cc, pullsupp.cc, pullcons.cc)

    The four programs connect to a channel, supply or consume events, disconnect after a number of
    them, and begin again.  They differ in the calls they make ([sample]) and in what they do while
    connected; calls that end in COMM_FAILURE are repeated.  Two of them are called by the channel:
    their servants count the events and tell [main] when to disconnect. *)

From S2P Require Import Prelude Monad Stream Corba ModelOrb ChannelProps Getopt Naming EventChannelFactory Tools EventsTool.

Local Open Scope string_scope.
Local Open Scope Z_scope.
Local Open Scope list_scope.

(** The calls of the samples, besides those of the tools.  A nil reference is [None].
    [wait_signal] is [connect_cond.wait()]. *)
Class SampleOps `{EO : EventsOps} := {
  sm_for_consumers : Ref → M exn Srv (option Ref);
  sm_for_suppliers : Ref → M exn Srv (option Ref);
  sm_obtain_push_supplier : Ref → M exn Srv (option Ref);
  sm_obtain_pull_supplier : Ref → M exn Srv (option Ref);
  sm_obtain_push_consumer : Ref → M exn Srv (option Ref);
  sm_obtain_pull_consumer : Ref → M exn Srv (option Ref);
  sm_connect_push_consumer : Ref → option Ref → M exn Srv unit;
  sm_connect_pull_consumer : Ref → option Ref → M exn Srv unit;
  sm_connect_push_supplier : Ref → option Ref → M exn Srv unit;
  sm_connect_pull_supplier : Ref → option Ref → M exn Srv unit;
  sm_disconnect_push_supplier : Ref → M exn Srv unit;
  sm_disconnect_pull_supplier : Ref → M exn Srv unit;
  sm_disconnect_push_consumer : Ref → M exn Srv unit;
  sm_disconnect_pull_consumer : Ref → M exn Srv unit;
  sm_pull : Ref → M exn Srv Any;
  sm_try_pull : Ref → M exn Srv (Any * bool);
  wait_signal : M exn Srv unit;
  sm_sleep : Z → M exn Srv unit;
  any_of_ulong : Z → Any }.

Section samples.
Context `{SO : SampleOps}.

Abbreviation Cl := (M exn (Srv * string)).
Definition ask {A} (m : M exn Srv A) : Cl A := zoom fst (λ v s, (v, s.2)) m.
Definition say (t : string) : Cl unit := modify (λ s, (s.1, s.2 +:+ t +:+ nl)).
Definition say_part (t : string) : Cl unit := modify (λ s, (s.1, s.2 +:+ t)).

(** ** What the samples have in common *)

(** [while(1) { try { m; break; } catch(CORBA::COMM_FAILURE&) { continue; } }]: [None] if [fuel]
    attempts were not enough. *)
Fixpoint retry {A} (fuel : nat) (m : Cl A) : Cl (option A) :=
  match fuel with
  | O => mret None
  | S f =>
      r ← try_catch (a ← m; mret (Some a)) (λ e, match e with COMM_FAILURE => Some (mret None) | _ => None end);
      match r with Some a => mret (Some a) | None => retry f m end
  end.

(** A result that is nil ends the program. *)
Definition not_nil {A} (m : M exn Srv (option A)) : Cl A :=
  r ← ask m; match r with None => exit 1 | Some a => mret a end.

(** The first part of [main]: the channel of the operand, or of the name.  A client that connects
    with a nil reference needs no POA.  Every exception ends the program. *)
Definition sample_channel (refnil : bool) (operands : list string) (channelName : string) : Cl Ref :=
  try_catch
    (_ ← (if refnil then mret tt else
            rootPoa ← ask root_poa;
            match rootPoa with None => throw OBJECT_NOT_EXIST | Some p => ask (activate_manager p) end);
     obj ← match operands with
           | uri :: _ => ask (uri_object uri)
           | [] =>
               ctx ← ask name_service;
               match ctx with
               | None => throw OBJECT_NOT_EXIST
               | Some ctx =>
                   _ ← say "find EventChannel in NameService";
                   match str2name channelName with None => abort | Some n => ask (ns_resolve ctx n) end
               end
           end;
     channel ← ask (narrow_channel obj);
     match channel with None => exit 1 | Some c => mret c end)
    (λ _, Some (exit 1)).

(** What distinguishes the connections: the calls, and the messages. *)
Record sample := mkSample {
  x_admin : Ref → M exn Srv (option Ref); x_adminText : string;
  x_obtain : Ref → M exn Srv (option Ref); x_obtainText : string;
  x_connect : Ref → option Ref → M exn Srv unit; x_connectText : string;
  x_disconnect : Ref → M exn Srv unit; x_disconnectText : string }.

Definition sample_admin (fuel : nat) (x : sample) (channel : Ref) : Cl (option Ref) :=
  r ← retry fuel (not_nil (x_admin x channel));
  match r with None => mret None | Some a => _ ← say (x_adminText x); mret (Some a) end.

(** One attempt to connect: a proxy that is connected already is taken for connected. *)
Definition try_connect (x : sample) (proxy : Ref) (cptr : option Ref) : Cl unit :=
  try_catch (ask (x_connect x proxy cptr))
    (λ e, match e with BAD_PARAM => Some (exit 1) | AlreadyConnected => Some (mret tt) | _ => None end).

(** One turn of the outer loop; [l] is what the program keeps from turn to turn. *)
Definition session (fuel : nat) (x : sample) (refnil : bool) (sleepInterval : Z)
    (body : Ref → Z → Cl (option Z)) (admin : Ref) (l : Z) : Cl (option Z) :=
  r ← retry fuel (not_nil (x_obtain x admin));
  match r with
  | None => mret None
  | Some proxy =>
      _ ← say (x_obtainText x);
      r ← retry fuel (try_connect x proxy (if refnil then None else Some this_object));
      match r with
      | None => mret None
      | Some _ =>
          _ ← say (x_connectText x);
          r ← body proxy l;
          match r with
          | None => mret None
          | Some l' =>
              r ← retry fuel (ask (x_disconnect x proxy));
              match r with
              | None => mret None
              | Some _ =>
                  _ ← say (x_disconnectText x);
                  _ ← say ("Sleeping " +:+ show_Z sleepInterval +:+ " seconds.");
                  _ ← ask (sm_sleep sleepInterval);
                  mret (Some l')
              end
          end
      end
  end.

(** [turns] turns of the outer loop, which never ends by itself. *)
Fixpoint sessions (turns : nat) (turn : Ref → Z → Cl (option Z)) (admin : Ref) (l : Z) : Cl (option Z) :=
  match turns with
  | O => mret (Some l)
  | S t =>
      r ← turn admin l;
      match r with None => mret None | Some l' => sessions t turn admin l' end
  end.

(** The options. *)
Record sample_options := mkSampleOptions {
  x_trymode : bool; x_discnum : Z; x_refnil : bool; x_sleepInterval : Z; x_channelName : string }.
Definition sample_defaults : sample_options := mkSampleOptions false 0 false 0 "EventChannel".

Definition set_trymode (o : sample_options) : sample_options :=
  mkSampleOptions true (x_discnum o) (x_refnil o) (x_sleepInterval o) (x_channelName o).
Definition set_refnil (o : sample_options) : sample_options :=
  mkSampleOptions (x_trymode o) (x_discnum o) true (x_sleepInterval o) (x_channelName o).

(** [-d], [-s] and [-n], which all of them have. *)
Definition common_option (o : sample_options) (c : char) (optarg : option string) : option sample_options :=
  let arg := default "" optarg in
  match o with
  | mkSampleOptions t d r s n =>
      if ceqb c "d" then Some (mkSampleOptions t (i32 (atol arg)) r s n)
      else if ceqb c "s" then Some (mkSampleOptions t d r (i32 (atol arg)) n)
      else if ceqb c "n" then Some (mkSampleOptions t d r s arg)
      else None
  end.

(** [main] after the options, with the turn of the program's loop. *)
Definition sample_main (turns fuel : nat) (x : sample) (turn : sample_options → Ref → Z → Cl (option Z))
    (o : sample_options) (operands : list string) : Cl (option Z) :=
  channel ← sample_channel (x_refnil o) operands (x_channelName o);
  admin ← sample_admin fuel x channel;
  match admin with
  | None => mret None
  | Some admin => sessions turns (turn o) admin 0
  end.

(** [main]: the options, and what follows them. *)
Definition sample_program (letters : string) (turn : sample_options → char → option string → Z + sample_options)
    (run : sample_options → list string → Cl (option Z)) (argv : list string) : option (Cl (option Z)) :=
  match tool_read letters turn sample_defaults argv with
  | None => None
  | Some (inl status) => Some (exit status)
  | Some (inr (o, operands)) => Some (run o operands)
  end.

(** ** pushsupp.cc *)

Definition pushsupp_calls : sample :=
  mkSample sm_for_suppliers "Obtained SupplierAdmin." sm_obtain_push_consumer "Obtained ProxyPushConsumer."
    sm_connect_push_supplier "Connected Push Supplier." sm_disconnect_push_consumer "ProxyPushConsumer disconnected.".

Definition pushsupp_option (o : sample_options) (c : char) (optarg : option string) : Z + sample_options :=
  if ceqb c "r" then inr (set_refnil o)
  else match common_option o c optarg with Some o' => inr o' | None => inl (-1) end.

(** One turn of the loop [for(i=0; ...; i++)]. *)
Definition push_one (proxy : Ref) (l : Z) : Cl unit :=
  try_catch
    (_ ← say_part "Push Supplier: push() called. ";
     _ ← ask (call_push proxy (any_of_ulong (u32 l)));
     say ("Data : " +:+ show_Z l))
    (λ e, match e with
          | Disconnected => Some (say "Failed. Caught Disconnected Exception!")
          | COMM_FAILURE => Some (say "Failed. Caught COMM_FAILURE Exception!")
          | _ => None
          end).

Fixpoint push_events (n : nat) (proxy : Ref) (l : Z) : Cl Z :=
  match n with O => mret l | S n' => _ ← push_one proxy l; push_events n' proxy (l + 1) end.

(** Without a limit the loop goes on for ever: [fuel] turns of it. *)
Definition pushsupp_body (fuel : nat) (o : sample_options) (proxy : Ref) (l : Z) : Cl (option Z) :=
  if x_discnum o =? 0 then _ ← push_events fuel proxy l; mret None
  else l' ← push_events (Z.to_nat (x_discnum o)) proxy l; mret (Some l').

Definition pushsupp_turn (fuel : nat) (o : sample_options) : Ref → Z → Cl (option Z) :=
  session fuel pushsupp_calls (x_refnil o) (x_sleepInterval o) (pushsupp_body fuel o).
Definition pushsupp_main (turns fuel : nat) : sample_options → list string → Cl (option Z) :=
  sample_main turns fuel pushsupp_calls (pushsupp_turn fuel).
Definition pushsupp (turns fuel : nat) (argv : list string) : option (Cl (option Z)) :=
  sample_program "d:rs:n:h" pushsupp_option (pushsupp_main turns fuel) argv.

(** ** pullcons.cc *)

Definition pullcons_calls : sample :=
  mkSample sm_for_consumers "Obtained Consumer Admin." sm_obtain_pull_supplier "Obtained ProxyPullSupplier."
    sm_connect_pull_consumer "Connected Pull Consumer." sm_disconnect_pull_supplier "Disconnected Pull Consumer.".

Definition pullcons_option (o : sample_options) (c : char) (optarg : option string) : Z + sample_options :=
  if ceqb c "t" then inr (set_trymode o)
  else if ceqb c "r" then inr (set_refnil o)
  else match common_option o c optarg with Some o' => inr o' | None => inl (-1) end.

(** The number in an event; [l] is 0 before. *)
Definition number_text (data : Any) : string := show_Z (default 0 (any_ulong data)).

Definition try_pull_one (proxy : Ref) : Cl unit :=
  try_catch
    (r ← ask (sm_try_pull proxy);
     _ ← say_part "Consumer: try_pull() called. Data : ";
     if (r.2 : bool) then say (number_text r.1) else say "None")
    (λ _, Some (say "")).

Definition pull_one (proxy : Ref) : Cl unit :=
  try_catch
    (_ ← say_part "Pull Consumer: pull() called. ";
     data ← ask (sm_pull proxy);
     say ("Data : " +:+ number_text data))
    (λ e, match e with
          | TRANSIENT => Some (_ ← say "caught TRANSIENT."; ask (sm_sleep 1))
          | _ => Some (_ ← say ""; exit 1)
          end).

Fixpoint pull_events (n : nat) (trymode : bool) (proxy : Ref) : Cl unit :=
  match n with
  | O => mret tt
  | S n' => _ ← (if trymode then try_pull_one proxy else pull_one proxy); pull_events n' trymode proxy
  end.

Definition pullcons_body (fuel : nat) (o : sample_options) (proxy : Ref) (l : Z) : Cl (option Z) :=
  if x_discnum o =? 0 then _ ← pull_events fuel (x_trymode o) proxy; mret None
  else _ ← pull_events (Z.to_nat (x_discnum o)) (x_trymode o) proxy; mret (Some l).

Definition pullcons_turn (fuel : nat) (o : sample_options) : Ref → Z → Cl (option Z) :=
  session fuel pullcons_calls (x_refnil o) (x_sleepInterval o) (pullcons_body fuel o).
Definition pullcons_main (turns fuel : nat) : sample_options → list string → Cl (option Z) :=
  sample_main turns fuel pullcons_calls (pullcons_turn fuel).
Definition pullcons (turns fuel : nat) (argv : list string) : option (Cl (option Z)) :=
  sample_program "td:rs:n:h" pullcons_option (pullcons_main turns fuel) argv.

(** ** pushcons.cc and pullsupp.cc: [main] *)

Definition pushcons_calls : sample :=
  mkSample sm_for_consumers "Obtained ConsumerAdmin." sm_obtain_push_supplier "Obtained ProxyPushSupplier."
    sm_connect_push_consumer "Connected Push Consumer." sm_disconnect_push_supplier "Disconnected Push Consumer.".

Definition pushcons_option (o : sample_options) (c : char) (optarg : option string) : Z + sample_options :=
  match common_option o c optarg with
  | Some o' => inr o'
  | None => if ceqb c "h" then inl 0 else inl (-1)
  end.

Definition pullsupp_calls : sample :=
  mkSample sm_for_suppliers "Obtained SupplierAdmin." sm_obtain_pull_consumer "Obtained ProxyPullConsumer."
    sm_connect_pull_supplier "Connected Pull Supplier." sm_disconnect_pull_consumer "Disconnected Pull Supplier.".

Definition pullsupp_option (o : sample_options) (c : char) (optarg : option string) : Z + sample_options :=
  match common_option o c optarg with Some o' => inr o' | None => inl (-1) end.

(** While it is connected, [main] waits for its servant. *)
Definition waiting_body (o : sample_options) (proxy : Ref) (l : Z) : Cl (option Z) :=
  _ ← ask wait_signal; mret (Some l).

Definition pushcons_turn (fuel : nat) (o : sample_options) : Ref → Z → Cl (option Z) :=
  session fuel pushcons_calls (x_refnil o) (x_sleepInterval o) (waiting_body o).
Definition pushcons_main (turns fuel : nat) : sample_options → list string → Cl (option Z) :=
  sample_main turns fuel pushcons_calls (pushcons_turn fuel).
Definition pushcons (turns fuel : nat) (argv : list string) : option (Cl (option Z)) :=
  sample_program "hd:s:n:" pushcons_option (pushcons_main turns fuel) argv.

Definition pullsupp_turn (fuel : nat) (o : sample_options) : Ref → Z → Cl (option Z) :=
  session fuel pullsupp_calls (x_refnil o) (x_sleepInterval o) (waiting_body o).
Definition pullsupp_main (turns fuel : nat) : sample_options → list string → Cl (option Z) :=
  sample_main turns fuel pullsupp_calls (pullsupp_turn fuel).
Definition pullsupp (turns fuel : nat) (argv : list string) : option (Cl (option Z)) :=
  sample_program "d:s:n:h" pullsupp_option (pullsupp_main turns fuel) argv.

(** ** The servants *)

(** [Consumer_i] of pushcons.cc: the static variable [i], how often [connect_cond] was signalled,
    and the numbers printed. *)
Record consumer_servant := mkConsumer { cs_i : Z; cs_signals : nat; cs_printed : list Z }.

Definition consumer_push (disconnect : Z) (data : Any) (s : consumer_servant) : consumer_servant :=
  let i := i32 (cs_i s + 1) in
  match any_ulong data with
  | Some l =>
      if i =? disconnect then mkConsumer 0 (S (cs_signals s)) (cs_printed s ++ [l])
      else mkConsumer i (cs_signals s) (cs_printed s ++ [l])
  | None => mkConsumer i (cs_signals s) (cs_printed s)
  end.

(** [Supplier_i] of pullsupp.cc: [i], [l], and how often [connect_cond] was posted.  [try_pull]
    does what [pull] does, and always has an event. *)
Record supplier_servant := mkSupplier { ss_i : Z; ss_l : Z; ss_posts : nat }.

Definition supplier_pull (disconnect : Z) (s : supplier_servant) : Any * supplier_servant :=
  (any_of_ulong (ss_l s),
   let l := u32 (ss_l s + 1) in
   if (0 <? disconnect) && (ss_i s =? disconnect) then mkSupplier (0 + 1) l (S (ss_posts s))
   else mkSupplier (i64 (ss_i s + 1)) l (ss_posts s)).
Definition supplier_try_pull (disconnect : Z) (s : supplier_servant) : Any * bool * supplier_servant :=
  let r := supplier_pull disconnect s in (r.1, true, r.2).

Fixpoint pulls (n : nat) (disconnect : Z) (s : supplier_servant) : list Any * supplier_servant :=
  match n with
  | O => ([], s)
  | S n' => let r := supplier_pull disconnect s in let q := pulls n' disconnect r.2 in (r.1 :: q.1, q.2)
  end.
End samples.

(** ** The protocol

    A history lists what took effect at the server, and [failures] bounds how many calls will still
    fail.  The laws are those of a channel on a network that loses requests and replies: a call that
    ends in COMM_FAILURE may have taken effect.  Connecting and disconnecting are as
    ProxyPushConsumer_i does them (ProxyPushConsumer.cc:34-43 and 78; lemma
    [ProxyPushConsumer.silent_calls]): a client without a reference is not recorded, a proxy that is
    connected refuses a second client, and to disconnect a proxy that is not connected does nothing. *)

Section protocol.
Context `{SO : SampleOps}.

Inductive happened :=
| HObtained (p : Ref)
| HConnected (p : Ref) (c : Ref)
| HPushed (p : Ref) (a : Any)
| HDisconnected (p : Ref).

Class Server := {
  history : Srv → list happened;
  failures : Srv → nat }.
Context `{SV : Server}.

(** A connection of [p] that was not closed. *)
Definition connected (p : Ref) (l : list happened) : Prop :=
  ∃ l1 c l2, l = l1 ++ HConnected p c :: l2 ∧ HDisconnected p ∉ l2.
Definition connection (p : Ref) (c : option Ref) : list happened :=
  match c with Some r => [HConnected p r] | None => [] end.
Definition disconnection (p : Ref) (c : option Ref) : list happened :=
  match c with Some _ => [HDisconnected p] | None => [] end.

(** [s'] follows [s], after the events [l]. *)
Definition after (s : Srv) (l : list happened) (s' : Srv) : Prop :=
  history s' = history s ++ l ∧ (failures s' ≤ failures s)%nat.
Definition failed (s : Srv) (l : list happened) (s' : Srv) : Prop :=
  history s' = history s ++ l ∧ (failures s' < failures s)%nat.

Class ServerLaws (x : sample) : Prop := {
  admin_law c s :
    match x_admin x c s with
    | Ret (Some _) s' => after s [] s'
    | Throw COMM_FAILURE s' => failed s [] s'
    | _ => False
    end;
  obtain_law a s :
    match x_obtain x a s with
    | Ret (Some p) s' => after s [HObtained p] s' ∧ ¬ connected p (history s)
    | Throw COMM_FAILURE s' => ∃ l, failed s (map HObtained l) s'
    | _ => False
    end;
  connect_law p c s :
    match x_connect x p c s with
    | Ret _ s' => after s (connection p c) s' ∧ (c = None ∨ ¬ connected p (history s))
    | Throw COMM_FAILURE s' => failed s [] s' ∨
        failed s (connection p c) s' ∧ (c = None ∨ ¬ connected p (history s))
    | Throw AlreadyConnected s' => after s [] s' ∧ c ≠ None ∧ connected p (history s)
    | _ => False
    end;
  disconnect_law p s :
    match x_disconnect x p s with
    | Ret _ s' => after s [HDisconnected p] s' ∧ connected p (history s) ∨
        after s [] s' ∧ ¬ connected p (history s)
    | Throw COMM_FAILURE s' => failed s [] s' ∨ failed s [HDisconnected p] s' ∧ connected p (history s)
    | _ => False
    end;
  push_law p a s :
    match call_push p a s with
    | Ret _ s' => after s [HPushed p a] s'
    | Throw (COMM_FAILURE | Disconnected) s' => failed s [] s' ∨ failed s [HPushed p a] s'
    | _ => False
    end;
  sleep_law z s : match sm_sleep z s with Ret _ s' => after s [] s' | _ => False end }.

Lemma connected_snoc p l h :
  connected p (l ++ [h]) ↔ (∃ c, h = HConnected p c) ∨ h ≠ HDisconnected p ∧ connected p l.
Proof.
  split.
  - intros (l1 & c & l2 & E & H2). destruct l2 as [|h2 l2 _] using rev_ind.
    + apply app_inj_tail in E as [_ ->]. eauto.
    + rewrite app_comm_cons, app_assoc in E. apply app_inj_tail in E as [-> ->]. right.
      split; [intros ->; set_solver|]. exists l1, c, l2. split; [done|set_solver].
  - intros [(c & ->)|(Hh & l1 & c & l2 & -> & H2)].
    + exists l, c, []. split; [done|apply not_elem_of_nil].
    + exists l1, c, (l2 ++ [h]). split; [by rewrite <- app_assoc|].
      intros [K|K]%elem_of_app; [done|]. by apply list_elem_of_singleton in K as <-.
Qed.

Lemma connected_last p c l : connected p (l ++ [HConnected p c]).
Proof. apply connected_snoc. eauto. Qed.

Lemma disconnected_last p l : ¬ connected p (l ++ [HDisconnected p]).
Proof. rewrite connected_snoc. by intros [(c & [=])|[? _]]. Qed.

Lemma connected_app p l l' : (∀ h, h ∈ l' → h ≠ HDisconnected p) → connected p l → connected p (l ++ l').
Proof.
  intros Hl Hc. induction l' as [|h l' IH] using rev_ind; [by rewrite app_nil_r|].
  rewrite app_assoc, connected_snoc. right. split; [apply Hl; set_solver|]. apply IH. set_solver.
Qed.

Lemma unconnected_app p l l' : (∀ h c, h ∈ l' → h ≠ HConnected p c) → ¬ connected p l → ¬ connected p (l ++ l').
Proof.
  intros Hl Hu. induction l' as [|h l' IH] using rev_ind; [by rewrite app_nil_r|].
  rewrite app_assoc, connected_snoc. intros [(c & ->)|[_ K]].
  - apply (Hl (HConnected p c) c); [set_solver|done].
  - revert K. apply IH. intros h' c' ?. apply Hl. set_solver.
Qed.

Lemma after_trans s1 l1 s2 l2 s3 : after s1 l1 s2 → after s2 l2 s3 → after s1 (l1 ++ l2) s3.
Proof. intros [E1 F1] [E2 F2]. split; [|lia]. by rewrite E2, E1, app_assoc. Qed.

Lemma yields_ask {A} (m : M exn Srv A) (s : Srv * string) (Q : A → Srv * string → Prop) :
  yields m s.1 (λ a v, Q a (v, s.2)) → yields (ask m) s Q.
Proof. unfold yields, ask, zoom. by destruct (m s.1). Qed.
Lemma yields_say t (s : Srv * string) (Q : unit → Srv * string → Prop) :
  (∀ o, Q tt (s.1, o)) → yields (say t) s Q.
Proof. intros HQ. apply HQ. Qed.
Lemma yields_say_part t (s : Srv * string) (Q : unit → Srv * string → Prop) :
  (∀ o, Q tt (s.1, o)) → yields (say_part t) s Q.
Proof. intros HQ. apply HQ. Qed.

(** A call is repeated until it returns; what a failure leaves behind has to allow the next. *)
Lemma retry_yields {A} (m : M exn (Srv * string) A) (I : Srv → Prop) (Q : A → Srv → Prop) :
  (∀ s, I s.1 →
    match m s with
    | Ret a s' => Q a s'.1 ∧ (failures s'.1 ≤ failures s.1)%nat
    | Throw COMM_FAILURE s' => I s'.1 ∧ (failures s'.1 < failures s.1)%nat
    | _ => False
    end) →
  ∀ fuel s, I s.1 → (failures s.1 < fuel)%nat →
  yields (retry fuel m) s (λ r s', ∃ a, r = Some a ∧ Q a s'.1 ∧ (failures s'.1 ≤ failures s.1)%nat).
Proof.
  intros Hm fuel. induction fuel as [|f IH]; intros s HI Hf; [lia|]. cbn [retry].
  specialize (Hm s HI). apply yields_bind. unfold yields at 1, try_catch. rewrite bind_cases.
  destruct (m s) as [a s'|e s'| |]; cbn; [|destruct e; try done|done..].
  - by exists a.
  - destruct Hm as [HI' Hlt]. eapply yields_mono; [apply IH; [done|lia]|].
    intros r s2 (b & -> & HQ & Hle). exists b. split_and!; [done..|lia].
Qed.

Section sessions.
Context (x : sample) `{SL : !ServerLaws x}.

(** The phases of a session. *)
Lemma sample_admin_yields fuel channel s :
  (failures s.1 < fuel)%nat →
  yields (sample_admin fuel x channel) s (λ r s', ∃ a, r = Some a ∧ after s.1 [] s'.1).
Proof.
  intros Hf. unfold sample_admin. apply yields_bind.
  eapply yields_mono; [apply (retry_yields _ (λ v, history v = history s.1) (λ _ v, history v = history s.1)); [|done..]|].
  - intros [v o] Hv. unfold not_nil, ask, zoom. cbn [fst]. rewrite bind_cases. cbn [fst].
    pose proof (admin_law channel v) as K. destruct (x_admin x channel v) as [[a|] v'|[]| |]; try done; cbn;
      destruct K as [E F]; rewrite app_nil_r in E; by rewrite E.
  - intros r s1 (a & -> & E & F). apply yields_bind, yields_say. intros o. apply yields_ret. exists a. split; [done|].
    split; [by rewrite app_nil_r|done].
Qed.

Lemma obtain_yields fuel admin s :
  (failures s.1 < fuel)%nat →
  yields (retry fuel (not_nil (x_obtain x admin))) s
    (λ r s', ∃ p l, r = Some p ∧ after s.1 (map HObtained (l ++ [p])) s'.1 ∧ ¬ connected p (history s'.1)).
Proof.
  intros Hf. eapply yields_mono.
  - apply (retry_yields _ (λ v, ∃ l, history v = history s.1 ++ map HObtained l)
      (λ p v, ∃ l, history v = history s.1 ++ map HObtained (l ++ [p]) ∧ ¬ connected p (history v))); [|exists []; by rewrite app_nil_r|done].
    intros [v o] (l & Hv). unfold not_nil, ask, zoom. cbn [fst] in *. rewrite bind_cases. cbn [fst].
    pose proof (obtain_law admin v) as K. destruct (x_obtain x admin v) as [[a|] v'|[]| |]; try done; cbn.
    + destruct K as [[E F] U]. split; [|done]. exists l. split; [by rewrite E, Hv, map_app, app_assoc|].
      rewrite E. apply unconnected_app; [|done]. by intros h c ->%list_elem_of_singleton.
    + destruct K as (l' & E & F). split; [|done]. exists (l ++ l'). by rewrite E, Hv, map_app, app_assoc.
  - intros r s1 (p & -> & (l & E & U) & F). by exists p, l.
Qed.

(** The proxy is connected once, if the reply to a connection is lost, too. *)
Lemma connect_yields fuel p c s :
  ¬ connected p (history s.1) → (failures s.1 < fuel)%nat →
  yields (retry fuel (try_connect x p c)) s (λ r s', r = Some tt ∧ after s.1 (connection p c) s'.1).
Proof.
  intros U Hf. eapply yields_mono.
  - apply (retry_yields _ (λ v, history v = history s.1 ∨ history v = history s.1 ++ connection p c)
      (λ _ v, history v = history s.1 ++ connection p c)); [|by left|done].
    intros [v o] Hv. unfold try_connect, try_catch, ask, zoom. cbn [fst] in *.
    assert (Hu : c = None ∨ ¬ connected p (history v) → history v = history s.1).
    { destruct c as [r|]; [|destruct Hv as [->|Hv]; [done|by rewrite app_nil_r in Hv]].
      intros [[=]|Hu]. destruct Hv as [|Hv]; [done|]. destruct Hu. rewrite Hv. apply connected_last. }
    pose proof (connect_law p c v) as K. destruct (x_connect x p c v) as [[] v'|[] v'| |]; try done; cbn.
    + destruct K as [[E F] Kn]. by rewrite E, Hu.
    + destruct K as [[E F]|[[E F] Kn]]; (split; [|done]).
      * rewrite app_nil_r in E. by rewrite E.
      * right. by rewrite E, Hu.
    + destruct K as ([E F] & Hc & Kn). split; [|done]. rewrite app_nil_r in E. rewrite E.
      destruct Hv as [Hv|]; [|done]. by rewrite Hv in Kn.
  - intros r s1 ([] & -> & E & F). by split.
Qed.

(** Likewise for a connection that is closed, and one that was never recorded. *)
Lemma disconnect_yields fuel p c s :
  match c with Some _ => connected p (history s.1) | None => ¬ connected p (history s.1) end →
  (failures s.1 < fuel)%nat →
  yields (retry fuel (ask (x_disconnect x p))) s (λ r s', r = Some tt ∧ after s.1 (disconnection p c) s'.1).
Proof.
  intros Hc Hf. eapply yields_mono.
  - apply (retry_yields _ (λ v, history v = history s.1 ∨ history v = history s.1 ++ disconnection p c)
      (λ _ v, history v = history s.1 ++ disconnection p c)); [|by left|done].
    intros [v o] Hv. unfold ask, zoom. cbn [fst] in *.
    assert (Hk : connected p (history v) → history v = history s.1 ∧ disconnection p c = [HDisconnected p]).
    { intros Kc. destruct c as [r|]; cbn [disconnection] in *.
      - destruct Hv as [Hv|Hv]; [by split|]. rewrite Hv in Kc. by apply disconnected_last in Kc.
      - rewrite app_nil_r in Hv. by destruct Hv as [Hv|Hv]; rewrite Hv in Kc. }
    assert (Hu : ¬ connected p (history v) → history v = history s.1 ++ disconnection p c).
    { intros Kn. destruct Hv as [Hv|]; [|done]. destruct c as [r|]; [by rewrite Hv in Kn|]. by rewrite app_nil_r. }
    pose proof (disconnect_law p v) as K.
    destruct (x_disconnect x p v) as [[] v'|[] v'| |]; try done; cbn.
    + destruct K as [[[E F] Kc]|[[E F] Kn]]; (split; [|done]); rewrite E.
      * destruct (Hk Kc) as [-> ->]. done.
      * rewrite app_nil_r. by apply Hu.
    + destruct K as [[E F]|[[E F] Kc]]; (split; [|done]); rewrite E.
      * by rewrite app_nil_r.
      * right. by destruct (Hk Kc) as [-> ->].
  - intros r s1 ([] & -> & E & F). by split.
Qed.

(** What the program does while it is connected, from the value [l] of what it keeps: the events
    [evs], which neither connect nor disconnect, with [lost] failures that it does not mend. *)
Context (fuel : nat) (step : Z → Z) (P : Ref → Z → list happened → nat → Prop).

Definition body_does (body : Ref → Z → M exn (Srv * string) (option Z)) : Prop := ∀ p l s,
  (failures s.1 < fuel)%nat →
  yields (body p l) s (λ r s', ∃ evs lost, r = Some (step l) ∧ P p l evs lost ∧
    Forall (λ h, match h with HPushed _ _ => True | _ => False end) evs ∧
    history s'.1 = history s.1 ++ evs ∧ (lost + failures s'.1 ≤ failures s.1)%nat).

(** One session: the proxies whose references were lost, the proxy, what happened while it was
    connected, and what failed. *)
Record turn := mkTurn { t_lost : list Ref; t_proxy : Ref; t_events : list happened; t_failed : nat }.
Definition turn_history (c : option Ref) (t : turn) : list happened :=
  map HObtained (t_lost t ++ [t_proxy t]) ++ connection (t_proxy t) c ++ t_events t ++ disconnection (t_proxy t) c.

Definition client (refnil : bool) : option Ref := if refnil then None else Some this_object.

Lemma session_yields refnil sleepInterval body admin l s :
  body_does body → (failures s.1 < fuel)%nat →
  yields (session fuel x refnil sleepInterval body admin l) s
    (λ r s', ∃ t, r = Some (step l) ∧ P (t_proxy t) l (t_events t) (t_failed t) ∧
       history s'.1 = history s.1 ++ turn_history (client refnil) t ∧ (t_failed t + failures s'.1 ≤ failures s.1)%nat).
Proof.
  intros Hb Hf. unfold session. apply yields_bind. eapply yields_mono; [by apply obtain_yields|].
  intros r s1 (p & lost & -> & [E1 F1] & U). apply yields_bind, yields_say. intros o1. apply yields_bind.
  eapply yields_mono; [apply connect_yields; cbn; [done|lia]|].
  intros r s2 (-> & E2 & F2). apply yields_bind, yields_say. intros o2. apply yields_bind. cbn [fst] in *.
  eapply yields_mono; [apply Hb; cbn; lia|].
  intros r s3 (evs & n & -> & HP & Hevs & E3 & F3). apply yields_bind. cbn [fst] in *.
  eapply yields_mono; [apply (disconnect_yields _ _ (client refnil)); [|lia]|].
  { rewrite E3, E2. rewrite Forall_forall in Hevs. destruct refnil; cbn [client connection].
    - rewrite app_nil_r. apply unconnected_app; [|done]. by intros h c Hh%Hevs ->.
    - apply connected_app; [by intros h Hh%Hevs ->|apply connected_last]. }
  intros r s4 (-> & E4 & F4). apply yields_bind, yields_say. intros o4.
  apply yields_bind, yields_say. intros o5. apply yields_bind, yields_ask. cbn [fst snd].
  pose proof (sleep_law sleepInterval s4.1) as K. unfold yields at 1.
  destruct (sm_sleep sleepInterval s4.1) as [[] s5| | |]; [|done..]. destruct K as [E5 F5].
  apply yields_ret. exists (mkTurn lost p evs n). split_and!; [done..| |cbn in *; lia].
  cbn [fst turn_history t_lost t_proxy t_events]. rewrite E5, E4, E3, E2, E1, app_nil_r. by rewrite <- !app_assoc.
Qed.

Lemma sessions_yields refnil sleepInterval body admin turns : ∀ l s,
  body_does body → (failures s.1 < fuel)%nat →
  yields (sessions turns (session fuel x refnil sleepInterval body) admin l) s
    (λ r s', ∃ ts, r = Some (Nat.iter turns step l) ∧ length ts = turns ∧
       (∀ i t, ts !! i = Some t → P (t_proxy t) (Nat.iter i step l) (t_events t) (t_failed t)) ∧
       history s'.1 = history s.1 ++ concat (map (turn_history (client refnil)) ts) ∧
       (sum_list (map t_failed ts) + failures s'.1 ≤ failures s.1)%nat).
Proof.
  induction turns as [|n IH]; intros l s Hb Hf.
  - exists []. split_and!; [done..|by rewrite app_nil_r|done].
  - cbn [sessions]. apply yields_bind. eapply yields_mono; [by apply session_yields|].
    intros r s1 (t & -> & HP & E & F). eapply yields_mono; [apply IH; [done|lia]|].
    intros r s2 (ts & -> & Hn & Ht & E2 & F2). exists (t :: ts). split_and!.
    + by rewrite Nat.iter_succ_r.
    + cbn. by rewrite Hn.
    + intros [|i] t' Hi; [by injection Hi as <-|]. rewrite Nat.iter_succ_r. by apply Ht.
    + cbn [map concat]. by rewrite E2, E, app_assoc.
    + cbn. lia.
Qed.

(** The programs, once they have found the channel. *)
Lemma sample_main_yields turn body o operands turns s s1 channel :
  turn o = session fuel x (x_refnil o) (x_sleepInterval o) body →
  sample_channel (x_refnil o) operands (x_channelName o) s = Ret channel s1 →
  body_does body → (failures s1.1 < fuel)%nat →
  yields (sample_main turns fuel x turn o operands) s
    (λ r s', ∃ ts, r = Some (Nat.iter turns step 0) ∧ length ts = turns ∧
       (∀ i t, ts !! i = Some t → P (t_proxy t) (Nat.iter i step 0) (t_events t) (t_failed t)) ∧
       history s'.1 = history s1.1 ++ concat (map (turn_history (client (x_refnil o))) ts) ∧
       (sum_list (map t_failed ts) ≤ failures s1.1)%nat).
Proof.
  intros Et Ec Hb Hf. unfold sample_main. rewrite Et. apply yields_bind. unfold yields at 1. rewrite Ec.
  apply yields_bind. eapply yields_mono; [by apply sample_admin_yields|].
  intros r s2 (a & -> & E2 & F2). eapply yields_mono; [apply sessions_yields; [done|lia]|].
  intros r s3 (ts & -> & Hn & Ht & E3 & F3). exists ts. split_and!; [done..| |lia].
  by rewrite E3, E2, app_nil_r.
Qed.
End sessions.

(** ** pushsupp *)

Definition event_of (p : Ref) (z : Z) : happened := HPushed p (any_of_ulong (u32 z)).

Section pushsupp.
Context `{SL : !ServerLaws pushsupp_calls}.

(** The call takes effect or not; a failure is not mended. *)
Lemma push_one_yields p l s :
  yields (push_one p l) s (λ _ s', ∃ sent lost, sublist sent [l] ∧ (1 ≤ length sent + lost)%nat ∧
    history s'.1 = history s.1 ++ map (event_of p) sent ∧ (lost + failures s'.1 ≤ failures s.1)%nat).
Proof.
  destruct s as [v o]. unfold push_one, yields, try_catch. rewrite bind_cases. cbn [say_part modify fst snd].
  unfold ask, zoom. rewrite bind_cases. cbn [fst snd]. pose proof (push_law p (any_of_ulong (u32 l)) v) as K.
  destruct (call_push p (any_of_ulong (u32 l)) v) as [[] v'|[] v'| |]; try done; cbn [fst snd say modify].
  - destruct K as [E F]. exists [l], O. split_and!; [done|cbn; lia|done|done].
  - destruct K as [[E F]|[E F]]; [exists [], 1%nat|exists [l], 1%nat]; (split_and!; [|cbn; lia|done|lia]);
      [apply sublist_nil_l|done].
  - destruct K as [[E F]|[E F]]; [exists [], 1%nat|exists [l], 1%nat]; (split_and!; [|cbn; lia|done|lia]);
      [apply sublist_nil_l|done].
Qed.

Lemma push_events_yields n p : ∀ l s,
  yields (push_events n p l) s (λ r s', ∃ sent lost, r = l + Z.of_nat n ∧ sublist sent (seqZ l (Z.of_nat n)) ∧
    (n ≤ length sent + lost)%nat ∧
    history s'.1 = history s.1 ++ map (event_of p) sent ∧ (lost + failures s'.1 ≤ failures s.1)%nat).
Proof.
  induction n as [|n IH]; intros l s.
  - exists [], O. split_and!; [lia|apply sublist_nil_l|done|by rewrite app_nil_r|done].
  - cbn [push_events]. apply yields_bind. eapply yields_mono; [apply push_one_yields|].
    intros _ s1 (a1 & n1 & S1 & L1 & E1 & F1). eapply yields_mono; [apply IH|].
    intros r s2 (a2 & n2 & -> & S2 & L2 & E2 & F2). exists (a1 ++ a2), (n1 + n2)%nat. split_and!.
    + lia.
    + rewrite seqZ_cons by lia. apply (sublist_app _ [l]); [done|]. by replace (Z.pred (Z.of_nat (S n))) with (Z.of_nat n) by lia.
    + rewrite length_app. lia.
    + by rewrite E2, E1, map_app, app_assoc.
    + lia.
Qed.

Lemma iter_add d n : Nat.iter n (λ l, l + d) 0 = Z.of_nat n * d.
Proof. induction n as [|n IH]; [done|]. rewrite Nat.iter_succ, IH. lia. Qed.

(** C27: [pushsupp -d NUM] keeps to the protocol of a proxy and to the order of its numbers.  Let the
    channel be one that follows the laws above, with a bounded number of calls that end in
    COMM_FAILURE, with or without having done what was asked.  Every turn of [main] then obtains a
    proxy, connects to it exactly once and disconnects it exactly once, whatever requests and
    replies were lost (with [-r] the channel records no client, so that nothing is connected), and
    pushes in between; what it pushes in turn [i] is a part of [i*NUM .. i*NUM+NUM-1] in this order,
    and the numbers left out are at most the pushes that failed. *)
Theorem pushsupp_sends o operands turns fuel s s1 channel :
  sample_channel (x_refnil o) operands (x_channelName o) s = Ret channel s1 →
  0 < x_discnum o → (failures s1.1 < fuel)%nat →
  ∃ ts s', pushsupp_main turns fuel o operands s =
      Ret (Some (Z.of_nat turns * x_discnum o)) s' ∧
    length ts = turns ∧
    history s'.1 = history s1.1 ++ concat (map (turn_history (client (x_refnil o))) ts) ∧
    (∀ i t, ts !! i = Some t → ∃ sent, t_events t = map (event_of (t_proxy t)) sent ∧
       sublist sent (seqZ (Z.of_nat i * x_discnum o) (x_discnum o)) ∧
       x_discnum o ≤ Z.of_nat (length sent + t_failed t)) ∧
    (sum_list (map t_failed ts) ≤ failures s1.1)%nat.
Proof.
  intros Ec Hd Hf.
  assert (Hb : body_does fuel (λ l, l + x_discnum o) (λ p l evs lost, ∃ sent, evs = map (event_of p) sent ∧
      sublist sent (seqZ l (x_discnum o)) ∧ x_discnum o ≤ Z.of_nat (length sent + lost)) (pushsupp_body fuel o)).
  { intros p l s2 _. unfold pushsupp_body. rewrite (proj2 (Z.eqb_neq _ _)) by lia. apply yields_bind.
    eapply yields_mono; [apply push_events_yields|]. rewrite Z2Nat.id by lia.
    intros r s3 (sent & lost & -> & S & L & E & F). apply yields_ret. eexists _, lost. split_and!; [done| | |done|done].
    - exists sent. split_and!; [done..|lia].
    - apply Forall_fmap, Forall_true. done. }
  pose proof (sample_main_yields _ _ _ _ (pushsupp_turn fuel) _ o operands turns s s1 channel eq_refl Ec Hb Hf) as K.
  apply yields_Ret in K as (r & s' & E & ts & -> & Hn & Ht & Hh & Hs). rewrite iter_add in E.
  exists ts, s'. split_and!; [done..| |done]. intros i t Hi. specialize (Ht i t Hi). by rewrite iter_add in Ht.
Qed.
End pushsupp.
End protocol.

(** ** The servants *)

Section servants.
Context `{SO : SampleOps}.

Definition pushes (disconnect : Z) (l : list Any) (s : consumer_servant) : consumer_servant :=
  fold_left (λ s a, consumer_push disconnect a s) l s.

Lemma pushes_count d l : ∀ zs i n out, 0 ≤ i < d → d < 2147483648 → map any_ulong l = map Some zs →
  pushes d l (mkConsumer i n out) =
    mkConsumer ((i + Z.of_nat (length l)) mod d) (n + Z.to_nat ((i + Z.of_nat (length l)) / d)) (out ++ zs).
Proof.
  unfold pushes. induction l as [|a l IH]; intros [|z zs] i n out Hi Hd Hl; try done.
  - cbn. rewrite Z.add_0_r, Z.mod_small, Z.div_small, app_nil_r by lia. f_equal. lia.
  - injection Hl as Ha Hl. cbn [fold_left length]. unfold consumer_push at 2. cbn [cs_i cs_signals cs_printed].
    rewrite Ha, i32_id by lia. destruct (Z.eqb_spec (i + 1) d) as [Hid|Hid]; rewrite (IH zs) by (lia || done).
    + replace (i + Z.of_nat (S (length l))) with (0 + Z.of_nat (length l) + 1 * d) by lia.
      rewrite Z.mod_add, Z.div_add by lia. pose proof (Z.div_pos (0 + Z.of_nat (length l)) d).
      f_equal; [lia|by rewrite <- app_assoc].
    + replace (i + Z.of_nat (S (length l))) with (i + 1 + Z.of_nat (length l)) by lia. by rewrite <- app_assoc.
Qed.

(** The count has passed [disconnect], and does not meet it again before it overflows. *)
Lemma pushes_passed d l : ∀ i n out, 0 < d ≤ i → i + Z.of_nat (length l) < 2147483648 →
  cs_signals (pushes d l (mkConsumer i n out)) = n.
Proof.
  unfold pushes. induction l as [|a l IH]; intros i n out Hi Hl; [done|]. cbn [fold_left length] in *.
  unfold consumer_push at 2. cbn [cs_i cs_signals cs_printed]. rewrite i32_id by lia.
  rewrite (proj2 (Z.eqb_neq _ _)) by lia. destruct (any_ulong a); apply IH; lia.
Qed.

Lemma u32_succ z : u32 (u32 z + 1) = u32 (z + 1).
Proof. unfold u32, wrapU. by rewrite Zplus_mod_idemp_l. Qed.

Lemma pulls_count d n : ∀ i l k, 0 ≤ i ≤ d → 0 < d < 2147483648 →
  ∃ i', pulls n d (mkSupplier i (u32 l) k) =
    (map (λ z, any_of_ulong (u32 z)) (seqZ l (Z.of_nat n)),
     mkSupplier i' (u32 (l + Z.of_nat n)) (k + Z.to_nat ((i + Z.of_nat n - 1) / d))).
Proof.
  induction n as [|n IH]; intros i l k Hi Hd.
  - exists i. cbn [pulls seqZ]. rewrite Z.add_0_r. do 2 f_equal. 
    assert ((i + Z.of_nat 0 - 1) / d < 1) by (apply Z.div_lt_upper_bound; lia). lia.
  - cbn [pulls]. unfold supplier_pull. cbn [fst snd ss_l ss_i ss_posts]. rewrite (proj2 (Z.ltb_lt _ _)), u32_succ by lia.
    rewrite seqZ_cons by lia. replace (Z.pred (Z.of_nat (S n))) with (Z.of_nat n) by lia. cbn [andb].
    destruct (Z.eqb_spec i d) as [->|Hne].
    + destruct (IH (0 + 1) (l + 1) (S k)) as (i' & E); [lia..|]. exists i'. rewrite E. cbn [fst snd map].
      replace (d + Z.of_nat (S n) - 1) with (0 + 1 + Z.of_nat n - 1 + 1 * d) by lia. rewrite Z.div_add by lia.
      pose proof (Z.div_pos (0 + 1 + Z.of_nat n - 1) d ltac:(lia) ltac:(lia)). do 2 f_equal; [f_equal; lia|lia].
    + destruct (IH (i + 1) (l + 1) k) as (i' & E); [lia..|]. exists i'. rewrite i64_id by lia. rewrite E. cbn [fst snd map].
      do 2 f_equal; [f_equal; lia|do 3 f_equal; lia].
Qed.

(** C31: When the samples that are called tell [main] to disconnect.  With [-d NUM], pushcons signals
    after every NUM events, if all are numbers, and prints all of them; if the NUM-th is not a
    number it never signals again (before its counter overflows).  pullsupp supplies 0, 1, 2, ...
    and posts when it is asked for the event after every NUM: it disconnects after NUM+1 events. *)
Theorem samples_disconnect d :
  0 < d < 2147483648 →
  (∀ l zs, map any_ulong l = map Some zs →
     cs_signals (pushes d l (mkConsumer 0 0 [])) = Z.to_nat (Z.of_nat (length l) / d) ∧
     cs_printed (pushes d l (mkConsumer 0 0 [])) = zs) ∧
  (∀ l1 a l2 zs, map any_ulong l1 = map Some zs → Z.of_nat (length l1) = d - 1 → any_ulong a = None →
     d + Z.of_nat (length l2) < 2147483648 →
     cs_signals (pushes d (l1 ++ a :: l2) (mkConsumer 0 0 [])) = 0%nat) ∧
  (∀ n, (pulls n d (mkSupplier 0 0 0)).1 = map (λ z, any_of_ulong (u32 z)) (seqZ 0 (Z.of_nat n)) ∧
        ss_posts (pulls n d (mkSupplier 0 0 0)).2 = Z.to_nat ((Z.of_nat n - 1) / d)).
Proof.
  intros Hd. split_and!.
  - intros l zs Hl. rewrite (pushes_count d l zs) by (lia || done). done.
  - intros l1 a l2 zs H1 Hn Ha H2. unfold pushes. rewrite fold_left_app. fold (pushes d l1).
    change (fold_left _ l1 ?s) with (pushes d l1 s). rewrite (pushes_count d l1 zs) by (lia || done).
    rewrite Hn, Z.mod_small, Z.div_small by lia. cbn [fold_left]. unfold consumer_push at 2. rewrite Ha. cbn [cs_i cs_signals cs_printed].
    rewrite i32_id by lia. apply (pushes_passed d l2); lia.
  - intros n. destruct (pulls_count d n 0 0 0) as (i' & E); [lia..|]. change (u32 0) with 0 in E. rewrite E. done.
Qed.
End servants.

(** ** Witness: a server of one channel on a network that fails when told to

    Events are numbers.  A request is done, or lost, or done and its reply is lost. *)

#[local] Instance number_AnyOps : AnyOps := {
  Any := option Z; any_kind a := match a with Some _ => tk_ulong | None => tk_null end; any_id _ := "";
  any_ulong a := a; any_string _ := None; any_boolean _ := None; any_of_string _ := None; any_empty := None }.

Inductive fate := Done | RequestLost | ReplyLost.
Inductive record := RObtained (p : N) | RConnected (p : N) (c : N) | RPushed (p : N) (a : Any) | RDisconnected (p : N).
Record net := mkNet { n_fates : list fate; n_log : list record }.

Definition record_proxy (r : record) : N :=
  match r with RObtained p | RConnected p _ | RPushed p _ | RDisconnected p => p end.
Definition connected_step (p : N) (b : bool) (r : record) : bool :=
  match r with
  | RConnected p' _ => (p =? p')%N || b
  | RDisconnected p' => negb (p =? p')%N && b
  | _ => b
  end.
Definition connected_in (p : N) (s : net) : bool := foldl (connected_step p) false (n_log s).
Definition new_proxy (s : net) : N := foldr (λ r n, N.max (record_proxy r + 1) n) 0%N (n_log s).

(** A call with its result, and what is written to the log if it takes effect. *)
Definition net_reply {A} (r : exn + A) (l : list record) : M exn net A := λ s,
  let rest := tail (n_fates s) in
  match hd Done (n_fates s) with
  | Done => match r with
            | inr a => Ret a (mkNet rest (n_log s ++ l))
            | inl e => Throw e (mkNet rest (n_log s ++ l))
            end
  | RequestLost => Throw COMM_FAILURE (mkNet rest (n_log s))
  | ReplyLost => Throw COMM_FAILURE (mkNet rest (n_log s ++ l))
  end.
Definition net_call {A} (a : A) (l : list record) : M exn net A := net_reply (inr a) l.

Definition net_obtain : M exn net (option N) := λ s, net_call (Some (new_proxy s)) [RObtained (new_proxy s)] s.
Definition net_connect (p : N) (c : option N) : M exn net unit := λ s,
  match c with
  | None => net_call tt [] s
  | Some c => if connected_in p s then net_reply (inl AlreadyConnected) [] s else net_call tt [RConnected p c] s
  end.
Definition net_push (p : N) (a : Any) : M exn net unit := net_call tt [RPushed p a].
Definition net_disconnect (p : N) : M exn net unit := λ s,
  net_call tt (if connected_in p s then [RDisconnected p] else []) s.

#[local] Instance net_clients : ClientOps := {|
  Srv := net; Ref := N;
  object_uri _ := "IOR:";
  uri_object _ := mret (Some 1%N);
  name_service := throw TRANSIENT;
  ns_resolve _ _ := throw TRANSIENT;
  ns_bind _ _ _ := throw TRANSIENT;
  ns_rebind _ _ _ := throw TRANSIENT;
  ns_unbind _ _ := throw TRANSIENT;
  narrow_factory o := mret o;
  narrow_channel o := mret o;
  call_supports _ _ := mret true;
  call_create_object _ _ _ := throw TRANSIENT;
  call_list_channels _ _ := throw TRANSIENT;
  call_next_one _ := throw TRANSIENT;
  call_delete_all _ := mret tt;
  call_destroy _ := mret tt;
  call_for_consumers r := mret r;
  call_for_suppliers r := mret r;
  call_obtain_push_supplier r := mret r;
  call_obtain_push_consumer r := mret r;
  call_connect_push_supplier _ _ := mret tt;
  call_connect_push_consumer _ _ := mret tt;
  orb_destroy := mret tt |}.

#[local] Instance net_events : EventsOps := {|
  root_poa := mret (Some (2%N : Ref));
  activate_manager _ := mret tt;
  this_object := (3%N : Ref);
  call_push := net_push;
  get_time := mret (0, 0);
  sleep _ := mret tt;
  read_stdin := mret (Some []);
  is_connected := mret true;
  marshal _ _ := [];
  unmarshal _ _ := inl UNKNOWN |}.

#[local] Instance net_samples : SampleOps (EO := net_events) := {|
  sm_for_consumers r := mret (Some r);
  sm_for_suppliers r := net_call (Some (r : N)) [];
  sm_obtain_push_supplier _ := net_obtain;
  sm_obtain_pull_supplier _ := net_obtain;
  sm_obtain_push_consumer _ := net_obtain;
  sm_obtain_pull_consumer _ := net_obtain;
  sm_connect_push_consumer := net_connect;
  sm_connect_pull_consumer := net_connect;
  sm_connect_push_supplier := net_connect;
  sm_connect_pull_supplier := net_connect;
  sm_disconnect_push_supplier := net_disconnect;
  sm_disconnect_pull_supplier := net_disconnect;
  sm_disconnect_push_consumer := net_disconnect;
  sm_disconnect_pull_consumer := net_disconnect;
  sm_pull _ := throw TRANSIENT;
  sm_try_pull _ := throw TRANSIENT;
  wait_signal := mret tt;
  sm_sleep _ := mret tt;
  any_of_ulong z := Some z |}.

Definition net_happened (r : record) : happened :=
  match r with
  | RObtained p => HObtained (p : Ref)
  | RConnected p c => HConnected (p : Ref) (c : Ref)
  | RPushed p a => HPushed (p : Ref) a
  | RDisconnected p => HDisconnected (p : Ref)
  end.
Definition is_done (f : fate) : bool := match f with Done => true | _ => false end.
Definition fates_left (l : list fate) : nat := length (List.filter (λ f, negb (is_done f)) l).

#[local] Instance net_server : Server := {
  history s := map net_happened (n_log s); failures s := fates_left (n_fates s) }.

Lemma net_reply_law {A} (r : exn + A) l s :
  match net_reply r l s with
  | Ret a s' => r = inr a ∧ after s (map net_happened l) s'
  | Throw e s' => r = inl e ∧ after s (map net_happened l) s' ∨
      e = COMM_FAILURE ∧ (failed s [] s' ∨ failed s (map net_happened l) s')
  | _ => False
  end.
Proof.
  destruct s as [[|[] fs] log]; unfold net_reply, after, failed; destruct r; cbn; rewrite ?map_app, ?app_nil_r;
    auto 6 with lia.
Qed.

Lemma net_call_law {A} (a : A) l s :
  match net_call a l s with
  | Ret a' s' => a' = a ∧ after s (map net_happened l) s'
  | Throw COMM_FAILURE s' => failed s [] s' ∨ failed s (map net_happened l) s'
  | _ => False
  end.
Proof.
  pose proof (net_reply_law (inr a) l s) as K. unfold net_call. destruct (net_reply _ l s) as [a' s'|e s'| |]; try done.
  - destruct K as [[= ->] K]. by split.
  - destruct K as [[[=] _]|[-> K]]. done.
Qed.

Lemma connected_log p (log : list record) :
  foldl (connected_step p) false log = true ↔ connected (p : Ref) (map net_happened log).
Proof.
  induction log as [|r log IH] using rev_ind.
  - cbn. split; [done|]. intros (l1 & c & l2 & E & _). by destruct l1.
  - rewrite foldl_app, map_app. cbn [foldl map]. rewrite connected_snoc, <- IH.
    destruct r as [q|q c|q a|q]; cbn [connected_step net_happened].
    + split; [intros K; by right|by intros [(c & [=])|[_ K]]].
    + destruct (N.eqb_spec p q) as [<-|Hne]; cbn; [split; eauto|].
      split; [intros K; by right|intros [(d & K)|[_ K]]; [|done]]. injection K as K _. by destruct Hne.
    + split; [intros K; by right|by intros [(c & [=])|[_ K]]].
    + destruct (N.eqb_spec p q) as [<-|Hne]; cbn; (split; [intros K|intros [(d & [=])|[K1 K2]]]); try done.
      right. split; [by intros [= ->]|done].
Qed.

Lemma connected_here p s : connected_in p s = true ↔ connected (p : Ref) (history s).
Proof. apply connected_log. Qed.
Lemma unconnected_here p s : connected_in p s = false ↔ ¬ connected (p : Ref) (history s).
Proof. rewrite <- connected_here. by destruct (connected_in p s). Qed.

Lemma new_proxy_bound r log : r ∈ log → (record_proxy r < foldr (λ r n, N.max (record_proxy r + 1) n) 0 log)%N.
Proof.
  induction log as [|r' log IH]; intros K; [by apply elem_of_nil in K|]. cbn.
  apply elem_of_cons in K as [->|K]; [lia|]. specialize (IH K). lia.
Qed.

Lemma new_proxy_unconnected s : ¬ connected (new_proxy s : Ref) (history s).
Proof.
  intros (l1 & c & l2 & E & _). cbn [history net_server] in E.
  assert (HConnected (new_proxy s : Ref) c ∈ map net_happened (n_log s)) as K by (rewrite E; set_solver).
  apply list_elem_of_In, in_map_iff in K as (r & Er & K). apply list_elem_of_In in K.
  pose proof (new_proxy_bound r _ K) as Hb. destruct r; try done. injection Er as -> _. cbn in Hb. unfold new_proxy in Hb. lia.
Qed.

#[local] Instance net_laws : ServerLaws pushsupp_calls.
Proof.
  split.
  - intros c s. cbn. pose proof (net_call_law (Some (c : N)) [] s) as K.
    destruct (net_call _ _ s) as [? ?|[]| |]; try done; [by destruct K as [-> ?]|by destruct K].
  - intros a s. cbn. unfold net_obtain. pose proof (net_call_law (Some (new_proxy s)) [RObtained (new_proxy s)] s) as K.
    destruct (net_call _ _ s) as [? ?|[]| |]; try done.
    + destruct K as [-> ?]. split; [done|apply new_proxy_unconnected].
    + destruct K; [by exists []|by exists [new_proxy s]].
  - intros p [c|] s; cbn [x_connect pushsupp_calls sm_connect_push_supplier net_samples net_connect].
    + destruct (connected_in p s) eqn:Ec.
      * apply connected_here in Ec. pose proof (net_reply_law (A := unit) (inl AlreadyConnected) [] s) as K.
        destruct (net_reply _ _ s) as [? ?|e ?| |]; try done; [by destruct K|].
        destruct K as [[[= <-] K]|[-> [K|K]]]; [split_and!; done|by left..].
      * apply unconnected_here in Ec. pose proof (net_call_law tt [RConnected p c] s) as K.
        destruct (net_call _ _ s) as [? ?|[]| |]; try done; [destruct K; auto|destruct K; auto].
    + pose proof (net_call_law tt [] s) as K.
      destruct (net_call _ _ s) as [? ?|[]| |]; try done; [destruct K; auto|destruct K; auto].
  - intros p s. cbn. unfold net_disconnect. destruct (connected_in p s) eqn:Ec.
    + apply connected_here in Ec. pose proof (net_call_law tt [RDisconnected p] s) as K.
      destruct (net_call _ _ s) as [? ?|[]| |]; try done; [destruct K; auto|destruct K; auto].
    + apply unconnected_here in Ec. pose proof (net_call_law tt [] s) as K.
      destruct (net_call _ _ s) as [? ?|[]| |]; try done; [destruct K; auto|destruct K; auto].
  - intros p a s. cbn. unfold net_push. pose proof (net_call_law tt [RPushed p a] s) as K.
    destruct (net_call _ _ s) as [? ?|[]| |]; try done; by destruct K.
  - intros z s. cbn. split; [by rewrite app_nil_r|done].
Qed.

(** Two turns of two events, while the network loses replies to a connection and to a disconnection,
    and a push; and the same with [-r]. *)
Definition net1 : net := mkNet [Done; RequestLost; Done; ReplyLost; Done; Done; RequestLost; ReplyLost; Done] [].
Definition options1 (refnil : bool) : sample_options := mkSampleOptions false 2 refnil 1 "EventChannel".

Lemma pushsupp_sends_witness :
  (∃ ts s', pushsupp_main (CO := net_clients) (EO := net_events) (SO := net_samples) 2 10 (options1 false) ["IOR:1"] (net1, "") = Ret (Some 4) s' ∧
     length ts = 2%nat ∧
     n_log s'.1 = [RObtained 0; RConnected 0 3; RPushed 0 (Some 0%Z); RDisconnected 0;
                   RObtained 1; RConnected 1 3; RPushed 1 (Some 2%Z); RPushed 1 (Some 3%Z); RDisconnected 1]%N ∧
     (sum_list (map t_failed ts) ≤ 4)%nat) ∧
  (∃ ts s', pushsupp_main (CO := net_clients) (EO := net_events) (SO := net_samples) 2 10 (options1 true) ["IOR:1"] (net1, "") = Ret (Some 4) s' ∧
     length ts = 2%nat ∧
     n_log s'.1 = [RObtained 0; RPushed 0 (Some 0%Z); RObtained 1; RPushed 1 (Some 2%Z); RPushed 1 (Some 3%Z)]%N ∧
     (sum_list (map t_failed ts) ≤ 4)%nat).
Proof.
  split.
  - destruct (pushsupp_sends (CO := net_clients) (EO := net_events) (SO := net_samples) (SV := net_server) (SL := net_laws) (options1 false) ["IOR:1"] 2 10 (net1, "") (net1, "") 1%N) as (ts & s' & E & L & _ & _ & F).
    + reflexivity.
    + reflexivity.
    + cbn. lia.
    + exists ts, s'. split_and!; [exact E|exact L| |exact F].
      vm_compute in E. injection E as <-. reflexivity.
  - destruct (pushsupp_sends (CO := net_clients) (EO := net_events) (SO := net_samples) (SV := net_server) (SL := net_laws) (options1 true) ["IOR:1"] 2 10 (net1, "") (net1, "") 1%N) as (ts & s' & E & L & _ & _ & F).
    + reflexivity.
    + reflexivity.
    + cbn. lia.
    + exists ts, s'. split_and!; [exact E|exact L| |exact F].
      vm_compute in E. injection E as <-. reflexivity.
Defined.

Lemma samples_disconnect_witness :
  ss_posts (pulls 7 3 (mkSupplier 0 0 0)).2 = 2%nat ∧
  cs_signals (pushes 3 (map Some [5; 6; 7; 8; 9; 10; 11]) (mkConsumer 0 0 [])) = 2%nat.
Proof.
  destruct (samples_disconnect 3 ltac:(lia)) as (H1 & _ & H3). split.
  - rewrite (proj2 (H3 7%nat)). reflexivity.
  - rewrite (proj1 (H1 (map Some [5; 6; 7; 8; 9; 10; 11]) [5; 6; 7; 8; 9; 10; 11] eq_refl)). reflexivity.
Defined.
