(* ===== verification/SampleThreads.v ===== *)
(** * SampleThreads: the threads of the samples that are called (src/examples/pushcons.cc,
      pullsupp.cc)

    The servant runs in threads of the ORB; [main] connects, waits until the servant tells it to,
    disconnects, and begins again.  pushcons.cc tells it through a condition variable, whose mutex
    [main] keeps from its first connection on, except in [wait()]; pullsupp.cc through a counting
    semaphore.  A state machine each: a step for what the servant does in a call, one for each time
    [main] or a thread of the servant gets through the lock, the condition or the semaphore. *)

From S2P Require Import Prelude Monad Stream Corba ModelOrb ChannelProps Tools EventsTool Samples.

Local Open Scope Z_scope.
Local Open Scope list_scope.

Section threads.
Context `{SO : SampleOps}.
Variable d : Z.    (* _disconnect *)

(** ** pushcons.cc *)

(** Where [main] is: before it takes the lock, obtaining a proxy and connecting, in [wait()], woken
    but without the lock, disconnecting and sleeping. *)
Inductive main_at := Begins | Connects | Waits | Woken | Disconnects.

(** [pc_blocked] threads of the servant are at [omni_mutex_lock condition_lock(mutex)]; [pc_signals]
    counts the calls of [signal()], [pc_lost] those that woke nobody, [pc_spurious] the returns of
    [wait()] without a signal, and [pc_turns] the disconnections. *)
Record pushcons_state := mkPushcons {
  pc_main : main_at;
  pc_servant : consumer_servant;
  pc_blocked : nat;
  pc_signals : nat;
  pc_lost : nat;
  pc_spurious : nat;
  pc_turns : nat }.

Definition pc_init : pushcons_state := mkPushcons Begins (mkConsumer 0 0 []) 0 0 0 0 0.

Inductive pushcons_event :=
| Push (data : Any)     (* push() up to the lock, in one step: a proxy pushes one event at a time *)
| Signal                (* a blocked thread takes the lock, signals, and returns *)
| Lock                  (* omni_mutex_lock condition_lock(mutex) in main *)
| Wait                  (* connected: wait() releases the mutex *)
| Spurious              (* wait() wakes up by itself *)
| Reacquire             (* wait() takes the mutex and returns *)
| Disconnect.           (* the end of the turn *)

(** [main] has the mutex. *)
Definition main_holds (m : main_at) : bool := match m with Connects | Disconnects => true | _ => false end.

Definition pc_step (e : pushcons_event) (s : pushcons_state) : option pushcons_state :=
  let '(mkPushcons m v b n lost sp t) := s in
  match e, m with
  | Push _, Begins => None
  | Push data, _ =>
      let v' := consumer_push d data v in
      Some (mkPushcons m v' (b + (cs_signals v' - cs_signals v)) n lost sp t)
  | Signal, _ =>
      match b with
      | S b' => if main_holds m then None
                else match m with
                     | Waits => Some (mkPushcons Woken v b' (S n) lost sp t)
                     | _ => Some (mkPushcons m v b' (S n) (S lost) sp t)
                     end
      | O => None
      end
  | Lock, Begins => Some (mkPushcons Connects v b n lost sp t)
  | Wait, Connects => Some (mkPushcons Waits v b n lost sp t)
  | Spurious, Waits => Some (mkPushcons Woken v b n lost (S sp) t)
  | Reacquire, Woken => Some (mkPushcons Disconnects v b n lost sp t)
  | Disconnect, Disconnects => Some (mkPushcons Connects v b n lost sp (S t))
  | _, _ => None
  end.

Fixpoint pc_run (l : list pushcons_event) (s : pushcons_state) : option pushcons_state :=
  match l with [] => Some s | e :: l' => pc_step e s ≫= pc_run l' end.

(** The events of the channel among the steps. *)
Definition pushed (l : list pushcons_event) : list Any :=
  omap (λ e, match e with Push data => Some data | _ => None end) l.

Definition waits (m : main_at) : bool := match m with Waits => true | _ => false end.

(** [main] is about to disconnect. *)
Definition awake (m : main_at) : nat := match m with Woken | Disconnects => 1 | _ => 0 end.

(** ** pullsupp.cc *)

Inductive supplier_main := SConnects | SWaits | SDisconnects.

(** [pp_value] is the value of the semaphore. *)
Record pullsupp_state := mkPullsupp {
  pp_main : supplier_main;
  pp_servant : supplier_servant;
  pp_value : nat;
  pp_turns : nat }.

Definition pp_init : pullsupp_state := mkPullsupp SConnects (mkSupplier 0 0 0) 0 0.

Inductive pullsupp_event :=
| Pull (try : bool)     (* pull() or try_pull() *)
| Connected
| Take                  (* connect_cond.wait() returns *)
| SDisconnect.

Definition pp_step (e : pullsupp_event) (s : pullsupp_state) : option pullsupp_state :=
  let '(mkPullsupp m v k t) := s in
  match e, m with
  | Pull try, _ =>
      let v' := if try then (supplier_try_pull d v).2 else (supplier_pull d v).2 in
      Some (mkPullsupp m v' (k + (ss_posts v' - ss_posts v)) t)
  | Connected, SConnects => Some (mkPullsupp SWaits v k t)
  | Take, SWaits => match k with S k' => Some (mkPullsupp SDisconnects v k' t) | O => None end
  | SDisconnect, SDisconnects => Some (mkPullsupp SConnects v k (S t))
  | _, _ => None
  end.

Fixpoint pp_run (l : list pullsupp_event) (s : pullsupp_state) : option pullsupp_state :=
  match l with [] => Some s | e :: l' => pp_step e s ≫= pp_run l' end.

Definition is_pull (e : pullsupp_event) : bool := match e with Pull _ => true | _ => false end.
Definition pulled (l : list pullsupp_event) : nat := length (List.filter is_pull l).
Definition parting (m : supplier_main) : nat := match m with SDisconnects => 1 | _ => 0 end.

(** ** Counting *)

Record pc_inv (l : list Any) (s : pushcons_state) : Prop := {
  pv_servant : pc_servant s = pushes d l (mkConsumer 0 0 []);
  pv_signals : (pc_signals s + pc_blocked s = cs_signals (pc_servant s))%nat;
  pv_turns : (pc_turns s + awake (pc_main s) + pc_lost s = pc_signals s + pc_spurious s)%nat }.

Lemma signals_mono data v : (cs_signals v ≤ cs_signals (consumer_push d data v))%nat.
Proof. unfold consumer_push. destruct (any_ulong data); [case_match|]; cbn; lia. Qed.

Lemma pc_step_inv e s s' l : pc_step e s = Some s' → pc_inv l s → pc_inv (l ++ pushed [e]) s'.
Proof.
  destruct s as [m v b n lost sp t]. intros E [H1 H2 H3]. cbn in H1, H2, H3.
  destruct e as [data| | | | | |]; [|rewrite app_nil_r; destruct m, b; cbn in E; simplify_eq; split; cbn in *; auto; lia..].
  assert (s' = mkPushcons m (consumer_push d data v) (b + (cs_signals (consumer_push d data v) - cs_signals v)) n lost sp t) as ->.
  { by destruct m; cbn in E; simplify_eq. }
  pose proof (signals_mono data v). split; cbn; [|lia|done]. unfold pushes in *. by rewrite fold_left_app, <- H1.
Qed.

Lemma pc_run_inv l : ∀ l0 s s', pc_run l s = Some s' → pc_inv l0 s → pc_inv (l0 ++ pushed l) s'.
Proof.
  induction l as [|e l IH]; intros l0 s s' E H; cbn [pc_run] in E.
  - injection E as <-. by rewrite app_nil_r.
  - destruct (pc_step e s) as [s1|] eqn:E1; [|done]. cbn in E.
    replace (l0 ++ pushed (e :: l)) with ((l0 ++ pushed [e]) ++ pushed l); [by eapply IH; [|eapply pc_step_inv]|].
    rewrite <- app_assoc. by destruct e.
Qed.

Record pp_inv (k : nat) (s : pullsupp_state) : Prop := {
  qv_servant : pp_servant s = (pulls k d (mkSupplier 0 0 0)).2;
  qv_turns : (pp_turns s + parting (pp_main s) + pp_value s = ss_posts (pp_servant s))%nat }.

Lemma pulls_snoc k : ∀ s, (pulls (S k) d s).2 = (supplier_pull d (pulls k d s).2).2.
Proof. induction k as [|k IH]; intros s; [done|]. cbn [pulls snd] in *. by rewrite IH. Qed.

Lemma posts_mono v : (ss_posts v ≤ ss_posts (supplier_pull d v).2)%nat.
Proof. unfold supplier_pull. cbn [snd]. case_match; cbn; lia. Qed.

Lemma pp_step_inv e s s' k : pp_step e s = Some s' → pp_inv k s → pp_inv (k + pulled [e]) s'.
Proof.
  destruct s as [m v x t]. intros E [H1 H2]. cbn in H1, H2. unfold pulled.
  destruct e as [try| | |]; [|rewrite Nat.add_0_r; destruct m, x; cbn in E; simplify_eq; split; cbn in *; auto; lia..].
  assert (s' = mkPullsupp m (supplier_pull d v).2 (x + (ss_posts (supplier_pull d v).2 - ss_posts v)) t) as ->.
  { by destruct try; cbn in E; simplify_eq. }
  pose proof (posts_mono v). split; cbn [pp_servant pp_turns pp_value pp_main]; [|lia].
  cbn [is_pull List.filter length]. by rewrite Nat.add_1_r, pulls_snoc, <- H1.
Qed.

Lemma pp_run_inv l : ∀ k s s', pp_run l s = Some s' → pp_inv k s → pp_inv (k + pulled l) s'.
Proof.
  induction l as [|e l IH]; intros k s s' E H; cbn [pp_run] in E.
  - injection E as <-. by rewrite Nat.add_0_r.
  - destruct (pp_step e s) as [s1|] eqn:E1; [|done]. cbn in E.
    replace (k + pulled (e :: l))%nat with ((k + pulled [e]) + pulled l)%nat; [by eapply IH; [|eapply pp_step_inv]|].
    unfold pulled. destruct e; cbn; lia.
Qed.

(** Whether something goes on without another call of the channel. *)
Definition pc_moves (s : pushcons_state) : Prop :=
  ∃ e, e ≠ Spurious ∧ pushed [e] = [] ∧ is_Some (pc_step e s).
Definition pp_moves (s : pullsupp_state) : Prop := ∃ e, is_pull e = false ∧ is_Some (pp_step e s).

Lemma pc_progress s : pc_moves s ∨ pc_main s = Waits ∧ pc_blocked s = 0%nat.
Proof.
  destruct s as [[] v [|b] n lost sp t]; try (by right); left.
  1,2: by exists Lock. 1,2: by exists Wait. 1: by exists Signal. 1,2: by exists Reacquire. all: by exists Disconnect.
Qed.

Lemma pp_progress s : pp_moves s ∨ pp_main s = SWaits ∧ pp_value s = 0%nat.
Proof.
  destruct s as [[] v [|k] t]; try (by right); left.
  1,2: by exists Connected. 1: by exists Take. all: by exists SDisconnect.
Qed.

(** C32: how often the samples disconnect, in any interleaving of their threads.  While events come
    (numbers, for pushcons) something can always go on until [main] waits again and no thread of
    the servant is blocked.  In pushcons every NUM events make one signal; it is not sent while
    [main] has the lock, and one sent before [main] takes the lock again, after another woke it,
    is lost: so [main] disconnects once for every NUM events, but for the lost signals, and once
    more for every spurious return of [wait()], which is not in a loop.  In pullsupp no post is
    lost: [main] disconnects once for each. *)
Theorem samples_reconnect :
  0 < d < 2147483648 →
  (∀ l s zs, pc_run l pc_init = Some s → map any_ulong (pushed l) = map Some zs →
     (pc_turns s + awake (pc_main s) + pc_lost s + pc_blocked s =
        Z.to_nat (Z.of_nat (length zs) / d) + pc_spurious s)%nat ∧
     (pc_moves s ∨ pc_main s = Waits ∧ pc_blocked s = 0%nat)) ∧
  (∀ s s', pc_step Signal s = Some s' → main_holds (pc_main s) = false ∧
     if waits (pc_main s) then pc_main s' = Woken ∧ pc_lost s' = pc_lost s else pc_lost s' = S (pc_lost s)) ∧
  (∀ l s, pp_run l pp_init = Some s →
     (pp_turns s + parting (pp_main s) + pp_value s = Z.to_nat ((Z.of_nat (pulled l) - 1) / d))%nat ∧
     (pp_moves s ∨ pp_main s = SWaits ∧ pp_value s = 0%nat)).
Proof.
  intros Hd. split_and!.
  - intros l s zs E Hl. destruct (pc_run_inv l [] pc_init s E) as [H1 H2 H3]; [by split|]. cbn [app] in H1.
    rewrite (pushes_count d (pushed l) zs) in H1 by (lia || done).
    assert (length zs = length (pushed l)) as -> by (rewrite <- (length_map Some zs), <- Hl; apply length_map).
    rewrite H1 in H2. cbn [cs_signals] in H2. rewrite Z.add_0_l in H2. split; [lia|apply pc_progress].
  - intros [m v [|b] n lost sp t] s' E; [by destruct m|]. by destruct m; cbn in E; simplify_eq.
  - intros l s E. destruct (pp_run_inv l 0 pp_init s E) as [H1 H2]; [by split|]. cbn [Nat.add] in H1.
    destruct (pulls_count d (pulled l) 0 0 0) as (i & Ep); [lia..|]. change (u32 0) with 0 in Ep.
    rewrite Ep in H1. rewrite H1 in H2. cbn [snd ss_posts] in H2. rewrite Z.add_0_l in H2.
    split; [lia|apply pp_progress].
Qed.
End threads.

(** A signal that is lost: with [-d 1] the second event comes before [main] has the lock again, so
    that two events make one disconnection.  And [wait()] returns although nothing was signalled. *)
Example lost_signal `{SO : SampleOps} a z : any_ulong a = Some z →
  pc_turns <$> pc_run 1 [Lock; Wait; Push a; Signal; Push a; Signal; Reacquire; Disconnect; Wait] pc_init = Some 1%nat ∧
  pc_turns <$> pc_run 1 [Lock; Wait; Spurious; Reacquire; Disconnect; Wait] pc_init = Some 1%nat.
Proof. 
  intros Ha. split; [|done].
  assert (E : ∀ n out, consumer_push 1 a (mkConsumer 0 n out) = mkConsumer 0 (S n) (out ++ [z])).
  { intros n out. unfold consumer_push. by rewrite Ha. }
  cbn [pc_run pc_step pc_init mbind option_bind]. rewrite E. cbn -[consumer_push]. by rewrite E.
Qed.

Lemma samples_reconnect_witness :
  (∃ s, pc_run (AO := number_AnyOps) 2 [Lock; Wait; Push (AO := number_AnyOps) (Some 5); Push (AO := number_AnyOps) (Some 6); Signal; Push (AO := number_AnyOps) (Some 7); Reacquire] pc_init = Some s ∧
     (pc_turns s + awake (pc_main s) + pc_lost s + pc_blocked s = 1)%nat) ∧
  ∃ s, pp_run (SO := net_samples) 2 [Connected; Pull true; Pull false; Pull true; Take; Pull true; SDisconnect] pp_init = Some s ∧
     (pp_turns s + parting (pp_main s) + pp_value s = 1)%nat.
Proof.
  destruct (samples_reconnect (SO := net_samples) 2 ltac:(lia)) as (K1 & _ & K3). split.
  - eexists. split; [vm_compute; reflexivity|].
    destruct (K1 [Lock; Wait; Push (AO := number_AnyOps) (Some 5); Push (AO := number_AnyOps) (Some 6); Signal; Push (AO := number_AnyOps) (Some 7); Reacquire] _ [5; 6; 7]
      ltac:(vm_compute; reflexivity) eq_refl) as [K _]. exact K.
  - eexists. split; [vm_compute; reflexivity|].
    destruct (K3 [Connected; Pull true; Pull false; Pull true; Take; Pull true; SDisconnect] _
      ltac:(vm_compute; reflexivity)) as [K _]. exact K.
Defined.
